(** * A shallow embedding of the Stream Deck protocol layer

    The development follows the Go sources of the [streamdeck] package:
    - [models.go]   the model registry ([models], [modelAliases], [getModel]);
    - [image.go]    the image codec ([genImage]) and the protocol framer
                    ([imageSend]);
    - [input.go]    the per-control input slots ([press], [release], ...);
    - the device file: lifecycle, validation, handler registration and the
      polling loop ([Listen]).

    Conventions.  A Go [byte] or [uint16] is a [Z] and every arithmetic
    operation on it writes its wrap-around out ([u8], [u16]).  Go [int]
    (coordinates, lengths) is an unbounded [Z]: image coordinates never get
    near 2^63.  A slice is a list whose capacity equals its length.  A run
    time panic is the explicit outcome [Panic].  The HID transport
    ([usbhid.Device]), which is not part of the package, is a record holding
    the static data, a log of the reports written so far and the answers the
    environment gives to each request. *)

From Stdlib Require Import ZArith Lia List Bool String SpecFloat.
From stdpp Require Import base numbers option list gmap strings.

Local Open Scope Z_scope.

(** ** Go primitives *)

Definition u8 (x : Z) : Z := x mod 256.
Definition u16 (x : Z) : Z := x mod 65536.
Definition i8 (x : Z) : Z := let b := x mod 256 in if b <? 128 then b else b - 256.

Definition len {A} (l : list A) : Z := Z.of_nat (length l).

(** [s[lo:hi]]: [None] stands for the slice-bounds panic. *)
Definition slice {A} (l : list A) (lo hi : Z) : option (list A) :=
  if (0 <=? lo) && (lo <=? hi) && (hi <=? len l)
  then Some (take (Z.to_nat (hi - lo)) (drop (Z.to_nat lo) l))
  else None.

(** [s[i]]: [None] stands for the index-out-of-range panic. *)
Definition index {A} (l : list A) (i : Z) : option A :=
  if 0 <=? i then l !! Z.to_nat i else None.

(** [make([]byte, n)] *)
Definition make_bytes (n : Z) : list Z := replicate (Z.to_nat n) 0.

(** Outcome of a call that may panic. *)
Inductive result (A : Type) : Type :=
| Ok (a : A)
| Panic.
Arguments Ok {A} a.
Arguments Panic {A}.

(** ** Geometry ([image.Point], [image.Rectangle]) *)

Record Point : Set := mkPoint { X : Z; Y : Z }.
Record Rectangle : Set := mkRectangle { Min : Point; Max : Point }.

Definition Dx (r : Rectangle) : Z := X (Max r) - X (Min r).
Definition Dy (r : Rectangle) : Z := Y (Max r) - Y (Min r).

(** [image.Rect]: the corners are put in order. *)
Definition Rect (x0 y0 x1 y1 : Z) : Rectangle :=
  let '(x0, x1) := if x1 <? x0 then (x1, x0) else (x0, x1) in
  let '(y0, y1) := if y1 <? y0 then (y1, y0) else (y0, y1) in
  mkRectangle (mkPoint x0 y0) (mkPoint x1 y1).

Definition Rectangle_Empty (r : Rectangle) : bool :=
  (X (Max r) <=? X (Min r)) || (Y (Max r) <=? Y (Min r)).

Definition Point_In (p : Point) (r : Rectangle) : bool :=
  (X (Min r) <=? X p) && (X p <? X (Max r)) &&
  (Y (Min r) <=? Y p) && (Y p <? Y (Max r)).

Definition Rectangle_In (r s : Rectangle) : bool :=
  if Rectangle_Empty r then true
  else (X (Min s) <=? X (Min r)) && (X (Max r) <=? X (Max s)) &&
       (Y (Min s) <=? Y (Min r)) && (Y (Max r) <=? Y (Max s)).

#[global] Instance Point_eq_dec : EqDecision Point.
Proof. solve_decision. Defined.
#[global] Instance Rectangle_eq_dec : EqDecision Rectangle.
Proof. solve_decision. Defined.

(** ** Errors *)

Inductive sentinel : Set :=
| ErrDeviceEnumerationFailed
| ErrDeviceFailedToClose
| ErrDeviceFailedToOpen
| ErrDeviceInfoBarNotSupported
| ErrDeviceIsClosed
| ErrDeviceIsOpen
| ErrDeviceLocked
| ErrDeviceTouchPointNotSupported
| ErrDeviceTouchStripNotSupported
| ErrDialHandlerInvalid
| ErrDialInvalid
| ErrGetFeatureReportFailed
| ErrGetInputReportFailed
| ErrImageInvalid
| ErrKeyHandlerInvalid
| ErrKeyInvalid
| ErrMoreThanOneDeviceFound
| ErrNoDeviceFound
| ErrReportBufferOverflow
| ErrSetFeatureReportFailed
| ErrSetOutputReportFailed
| ErrTouchPointHandlerInvalid
| ErrTouchPointInvalid
| ErrTouchStripHandlerInvalid.

#[global] Instance sentinel_eq_dec : EqDecision sentinel.
Proof. solve_decision. Defined.

(** An error value: one of the package sentinels, a fresh [errors.New], a
    [fmt.Errorf] whose [%w] operand is [wrapped] and whose other operands are
    [args], or the touch strip rectangle error. *)
Inductive error : Type :=
| Sentinel (s : sentinel)
| New (msg : string)
| Wrapf (fmt : string) (wrapped : error) (args : list Z)
| Plainf (fmt : string) (args : list Z)
| TouchStripImageRectangleError (r : Rectangle).

(** [errors.Is(e, target)] for a sentinel target. *)
Fixpoint errors_Is (e : error) (target : sentinel) : bool :=
  match e with
  | Sentinel s => bool_decide (s = target)
  | Wrapf _ w _ => errors_Is w target
  | New _ | Plainf _ _ | TouchStripImageRectangleError _ => false
  end.

Definition wrap (e : error) : error := Wrapf "streamdeck: %w" e [].

Definition wrapErr (err : option error) : option error :=
  match err with
  | Some e => Some (wrap e)
  | None => None
  end.

(** ** The HID transport

    [usbhid.Device] is an external collaborator.  The record keeps what the
    package reads from it, the reports it has accepted, and the environment's
    answers: [hid_writeFault n] is the error (if any) returned by the
    [n]-th write, counted over output and feature reports together. *)

Record usbhid : Type := mkUsbhid {
  hid_vendorId : Z;
  hid_productId : Z;
  hid_serialNumber : string;
  hid_product : string;
  hid_isOpen : bool;
  hid_outputReportLength : Z;
  hid_featureReportLength : Z;
  hid_outputLog : list (Z * list Z);
  hid_featureLog : list (Z * list Z);
  hid_writeFault : nat -> option error;
  hid_getFeature : Z -> list Z + error;
  hid_openFault : option error;
  hid_closeFault : option error
}.

Definition hid_writes (dev : usbhid) : nat :=
  (length (hid_outputLog dev) + length (hid_featureLog dev))%nat.

Definition SetOutputReport (dev : usbhid) (id : Z) (payload : list Z)
  : usbhid * option error :=
  match hid_writeFault dev (hid_writes dev) with
  | Some e => (dev, Some e)
  | None =>
      (mkUsbhid (hid_vendorId dev) (hid_productId dev) (hid_serialNumber dev)
         (hid_product dev) (hid_isOpen dev) (hid_outputReportLength dev)
         (hid_featureReportLength dev) (hid_outputLog dev ++ [(id, payload)])
         (hid_featureLog dev) (hid_writeFault dev) (hid_getFeature dev)
         (hid_openFault dev) (hid_closeFault dev), None)
  end.

Definition SetFeatureReport (dev : usbhid) (id : Z) (payload : list Z)
  : usbhid * option error :=
  match hid_writeFault dev (hid_writes dev) with
  | Some e => (dev, Some e)
  | None =>
      (mkUsbhid (hid_vendorId dev) (hid_productId dev) (hid_serialNumber dev)
         (hid_product dev) (hid_isOpen dev) (hid_outputReportLength dev)
         (hid_featureReportLength dev) (hid_outputLog dev)
         (hid_featureLog dev ++ [(id, payload)]) (hid_writeFault dev)
         (hid_getFeature dev) (hid_openFault dev) (hid_closeFault dev), None)
  end.

Definition hid_setOpen (dev : usbhid) (b : bool) : usbhid :=
  mkUsbhid (hid_vendorId dev) (hid_productId dev) (hid_serialNumber dev)
    (hid_product dev) b (hid_outputReportLength dev)
    (hid_featureReportLength dev) (hid_outputLog dev) (hid_featureLog dev)
    (hid_writeFault dev) (hid_getFeature dev) (hid_openFault dev)
    (hid_closeFault dev).

(** [dev.Open(true)] and [dev.Close()]. *)
Definition hid_Open (dev : usbhid) : usbhid * option error :=
  match hid_openFault dev with
  | Some e => (dev, Some e)
  | None => (hid_setOpen dev true, None)
  end.

Definition hid_Close (dev : usbhid) : usbhid * option error :=
  match hid_closeFault dev with
  | Some e => (dev, Some e)
  | None => (hid_setOpen dev false, None)
  end.

(** ** Protocol framer ([imageSend], image.go) *)

(** One call of the header-update callback together with the report that was
    built from it: [pg_hdr] is the header after the callback ran. *)
Record page : Type := mkPage {
  pg_page : Z;
  pg_last : Z;
  pg_size : Z;
  pg_chunk : list Z;
  pg_hdr : list Z;
  pg_report : list Z
}.

(** How a call ended: it returned (with or without an error), it panicked, or
    its loop was still running when the fuel ran out. *)
Inductive outcome : Type :=
| Returned (err : option error)
| Panicked
| Diverged.

(** The callback writes into the caller's header in place; it is a function
    from the old header contents to the new ones. *)
Definition updateCb : Type := list Z -> Z -> Z -> Z -> list Z.

Fixpoint imageSend_loop (fuel : nat) (dev : usbhid) (id : Z) (hdr imgData : list Z)
    (cb : updateCb) (start page_ : Z) (pages : list page)
  : usbhid * list page * outcome :=
  match fuel with
  | O => (dev, pages, Diverged)
  | S fuel' =>
      let end0 := u16 (start + hid_outputReportLength dev - u16 (len hdr)) in
      let l := u16 (len imgData) in
      let '(end_, last) := if l <=? end0 then (l, 1) else (end0, 0) in
      match slice imgData start end_ with
      | None => (dev, pages, Panicked)
      | Some to_send =>
          let size := u16 (len to_send) in
          let hdr' := cb hdr page_ last size in
          let payload := hdr' ++ to_send in
          let payload :=
            payload ++ make_bytes (u16 (hid_outputReportLength dev - u16 (len payload))) in
          let pages' := pages ++ [mkPage page_ last size to_send hdr' payload] in
          match SetOutputReport dev id payload with
          | (dev', Some err) => (dev', pages', Returned (Some err))
          | (dev', None) =>
              if last =? 0
              then imageSend_loop fuel' dev' id hdr' imgData cb
                     (u16 (start + hid_outputReportLength dev - u16 (len hdr')))
                     (u8 (page_ + 1)) pages'
              else (dev', pages', Returned None)
          end
      end
  end.

(** Every iteration that neither finishes nor panics moves [start] forward by
    at least one byte of a payload that [start] never leaves, so one more
    iteration than the payload has bytes is all a terminating run can use. *)
Definition imageSend (dev : usbhid) (id : Z) (hdr imgData : list Z)
    (cb : option updateCb) : usbhid * list page * outcome :=
  match cb with
  | None => (dev, [], Returned (Some (New "image update callback not set")))
  | Some cb => imageSend_loop (S (length imgData)) dev id hdr imgData cb 0 0 []
  end.

(** ** Model registry (models.go) *)

Definition imageFormat : Set := Z.
Definition imageFormatBMP : imageFormat := 0.
Definition imageFormatJPEG : imageFormat := 1.

Definition imageTransform : Set := Z.
Definition imageTransformFlipVertical : imageTransform := 1.
Definition imageTransformFlipHorizontal : imageTransform := 2.
Definition imageTransformRotate90 : imageTransform := 4.

Definition KeyID : Set := Z.
Definition TouchPointID : Set := Z.
Definition DialID : Set := Z.
Definition KEY_1 : KeyID := 1.
Definition TOUCH_POINT_1 : TouchPointID := 1.
Definition DIAL_1 : DialID := 1.

(** A [color.Color], seen through its [RGBA()] method. *)
Record Color : Set := mkColor { c_r : Z; c_g : Z; c_b : Z; c_a : Z }.
Definition Black : Color := mkColor 0 0 0 65535.

Definition elgatoVendorID : Z := 0x0fd9.

Record model : Type := mkModel {
  model_id : string;
  keyStart : Z;
  keyCount : Z;
  keyImageRect : Rectangle;
  keyImageFormat : imageFormat;
  keyImageTransform : imageTransform;
  keyImageSend : usbhid -> KeyID -> list Z -> usbhid * list page * outcome;
  infoBarImageRect : Rectangle;
  infoBarImageFormat : imageFormat;
  infoBarImageTransform : imageTransform;
  infoBarImageSend : option (usbhid -> list Z -> usbhid * list page * outcome);
  touchPointStart : Z;
  touchPointCount : Z;
  touchPointColorSend : option (usbhid -> TouchPointID -> Color -> usbhid * option error);
  dialStart : Z;
  dialCount : Z;
  touchStripImageRect : Rectangle;
  touchStripImageFormat : imageFormat;
  touchStripImageTransform : imageTransform;
  touchStripImageSend :
    option (usbhid -> list Z -> Rectangle -> usbhid * list page * outcome);
  reset : usbhid -> usbhid * option error;
  brightness : usbhid -> Z -> usbhid * option error;
  firmwareVersion : usbhid -> result (list Z + error)
}.

(** The three header layouts of the registry.  Every store below hits a
    byte that exists: the headers are 7 or 15 bytes long and the feature
    reports of the supported devices are longer than the five bytes written.
    (A store past the end, a panic in Go, would leave the list as it is.) *)
Definition hdrUpdate_mini : updateCb :=
  fun hdr page_ last size => <[3%nat := last]> (<[1%nat := page_]> hdr).

Definition hdrUpdate_v2 : updateCb :=
  fun hdr page_ last size =>
    <[5%nat := u8 page_]>
      (<[4%nat := u8 (Z.shiftr size 8)]>
         (<[3%nat := u8 size]> (<[2%nat := last]> hdr))).

Definition hdrUpdate_touchStrip : updateCb :=
  fun hdr page_ last size =>
    <[13%nat := u8 (Z.shiftr size 8)]>
      (<[12%nat := u8 size]>
         (<[11%nat := 0]> (<[10%nat := page_]> (<[9%nat := last]> hdr)))).

Definition keyImageSend_mini (dev : usbhid) (key : KeyID) (imgData : list Z) :=
  let hdr := make_bytes 15 in
  let hdr := <[0%nat := 1]> hdr in
  let hdr := <[4%nat := u8 (1 + u8 (key - KEY_1))]> hdr in
  imageSend dev 2 hdr imgData (Some hdrUpdate_mini).

Definition keyImageSend_v2 (dev : usbhid) (key : KeyID) (imgData : list Z) :=
  let hdr := make_bytes 7 in
  let hdr := <[0%nat := 7]> hdr in
  let hdr := <[1%nat := u8 (key - KEY_1)]> hdr in
  imageSend dev 2 hdr imgData (Some hdrUpdate_v2).

Definition infoBarImageSend_neo (dev : usbhid) (imgData : list Z) :=
  let hdr := make_bytes 7 in
  let hdr := <[0%nat := 11]> hdr in
  imageSend dev 2 hdr imgData (Some hdrUpdate_v2).

Definition touchStripImageSend_plus (dev : usbhid) (imgData : list Z) (rect : Rectangle) :=
  let hdr := make_bytes 15 in
  let hdr := <[0%nat := 12]> hdr in
  let hdr := <[1%nat := u8 (X (Min rect))]> hdr in
  let hdr := <[2%nat := u8 (Z.shiftr (X (Min rect)) 8)]> hdr in
  let hdr := <[3%nat := u8 (Y (Min rect))]> hdr in
  let hdr := <[4%nat := u8 (Z.shiftr (Y (Min rect)) 8)]> hdr in
  let hdr := <[5%nat := u8 (Dx rect)]> hdr in
  let hdr := <[6%nat := u8 (Z.shiftr (Dx rect) 8)]> hdr in
  let hdr := <[7%nat := u8 (Dy rect)]> hdr in
  let hdr := <[8%nat := u8 (Z.shiftr (Dy rect) 8)]> hdr in
  imageSend dev 2 hdr imgData (Some hdrUpdate_touchStrip).

Definition touchPointColorSend_neo (dev : usbhid) (tp : TouchPointID) (c : Color) :=
  let pl := make_bytes (hid_featureReportLength dev) in
  let pl := <[0%nat := 0x06]> pl in
  let pl := <[1%nat := u8 (u8 (tp - TOUCH_POINT_1) + 8)]> pl in
  let pl := <[2%nat := u8 (c_r c)]> pl in
  let pl := <[3%nat := u8 (c_g c)]> pl in
  let pl := <[4%nat := u8 (c_b c)]> pl in
  SetFeatureReport dev 3 pl.

Definition reset_mini (dev : usbhid) :=
  let pl := make_bytes (hid_featureReportLength dev) in
  SetFeatureReport dev 11 (<[0%nat := 0x63]> pl).

Definition reset_v2 (dev : usbhid) :=
  let pl := make_bytes (hid_featureReportLength dev) in
  SetFeatureReport dev 3 (<[0%nat := 0x02]> pl).

Definition brightness_mini (dev : usbhid) (perc : Z) :=
  let pl := make_bytes (hid_featureReportLength dev) in
  let pl := <[0%nat := 0x55]> pl in
  let pl := <[1%nat := 0xaa]> pl in
  let pl := <[2%nat := 0xd1]> pl in
  let pl := <[3%nat := 0x01]> pl in
  let pl := <[4%nat := perc]> pl in
  SetFeatureReport dev 5 pl.

Definition brightness_v2 (dev : usbhid) (perc : Z) :=
  let pl := make_bytes (hid_featureReportLength dev) in
  let pl := <[0%nat := 0x08]> pl in
  let pl := <[1%nat := perc]> pl in
  SetFeatureReport dev 3 pl.

(** [bytes.Cut(b, []byte{0})]: the bytes before the first NUL. *)
Fixpoint cutNul (b : list Z) : list Z :=
  match b with
  | [] => []
  | x :: b' => if x =? 0 then [] else x :: cutNul b'
  end.

Definition firmwareVersion_at (report off : Z) (dev : usbhid) : result (list Z + error) :=
  match hid_getFeature dev report with
  | inr err => Ok (inr err)
  | inl buf =>
      match slice buf off (len buf) with
      | None => Panic
      | Some b => Ok (inl (cutNul b))
      end
  end.

Definition noRect : Rectangle := mkRectangle (mkPoint 0 0) (mkPoint 0 0).

Definition model_mini : model :=
  mkModel "mini" 0 6 (Rect 0 0 80 80) imageFormatBMP
    (Z.lor imageTransformRotate90 imageTransformFlipHorizontal) keyImageSend_mini
    noRect 0 0 None
    0 0 None
    0 0
    noRect 0 0 None
    reset_mini brightness_mini (firmwareVersion_at 4 4).

Definition model_mk2 : model :=
  mkModel "mk2" 3 15 (Rect 0 0 72 72) imageFormatJPEG
    (Z.lor imageTransformFlipHorizontal imageTransformFlipVertical) keyImageSend_v2
    noRect 0 0 None
    0 0 None
    0 0
    noRect 0 0 None
    reset_v2 brightness_v2 (firmwareVersion_at 5 5).

Definition model_plus : model :=
  mkModel "plus" 3 8 (Rect 0 0 120 120) imageFormatJPEG 0 keyImageSend_v2
    noRect 0 0 None
    0 0 None
    4 4
    (Rect 0 0 800 100) imageFormatJPEG 0 (Some touchStripImageSend_plus)
    reset_v2 brightness_v2 (firmwareVersion_at 5 5).

Definition model_neo : model :=
  mkModel "neo" 3 8 (Rect 0 0 96 96) imageFormatJPEG
    (Z.lor imageTransformFlipHorizontal imageTransformFlipVertical) keyImageSend_v2
    (Rect 0 0 248 58) imageFormatJPEG
    (Z.lor imageTransformFlipHorizontal imageTransformFlipVertical)
    (Some infoBarImageSend_neo)
    11 2 (Some touchPointColorSend_neo)
    0 0
    noRect 0 0 None
    reset_v2 brightness_v2 (firmwareVersion_at 5 5).

Definition models : gmap Z model :=
  <[0x0063 := model_mini]>
    (<[0x0080 := model_mk2]>
       (<[0x0084 := model_plus]>
          (<[0x009a := model_neo]> ∅))).

Definition modelAliases : gmap Z Z := {[ 0x006d := 0x0080 ]}.

Definition getModel (dev : usbhid) : model + error :=
  if negb (hid_vendorId dev =? elgatoVendorID)
  then inr (Wrapf "%w: not an Elgato device: %04x"
              (Sentinel ErrDeviceEnumerationFailed) [hid_vendorId dev])
  else
    let id := hid_productId dev in
    let id := match modelAliases !! id with
              | Some ma => ma
              | None => id
              end in
    match models !! id with
    | None => inr (Wrapf "%w: device not supported: %04x:%04x"
                     (Sentinel ErrDeviceEnumerationFailed)
                     [hid_vendorId dev; hid_productId dev])
    | Some md => inl md
    end.

Definition enumerateFunc (dev : usbhid) : bool :=
  if negb (hid_vendorId dev =? elgatoVendorID) then false
  else
    let id := hid_productId dev in
    let id := match modelAliases !! id with
              | Some ma => ma
              | None => id
              end in
    bool_decide (is_Some (models !! id)).

(** ** Image codec (image.go) *)

(** A pixel of an [image.RGBA]: a [color.RGBA] with 8-bit channels. *)
Record RGBA8 : Set := mkRGBA8 { R : Z; G : Z; B : Z; A : Z }.

#[global] Instance RGBA8_eq_dec : EqDecision RGBA8.
Proof. solve_decision. Defined.

(** [*image.RGBA]: a pixel store over a rectangle. *)
Record RGBA : Type := mkRGBA { Pix : Z -> Z -> RGBA8; RGBA_Rect : Rectangle }.

(** An [image.Image]: [Bounds] and [At]. *)
Record Image : Type := mkImage { Bounds : Rectangle; At : Z -> Z -> Color }.

(** [imageColor]: every pixel has the one colour. *)
Definition imageColor (c : Color) (b : Rectangle) : Image := mkImage b (fun _ _ => c).

Definition maxInt : Z := 2 ^ 63 - 1.
Definition minInt : Z := - 2 ^ 63.

(** [image.NewRGBA]: panics when the pixel buffer length is negative or
    overflows [int]. *)
Definition NewRGBA (r : Rectangle) : result RGBA :=
  if (Dx r <? 0) || (Dy r <? 0) || (maxInt <? 4 * Dx r * Dy r)
  then Panic
  else Ok (mkRGBA (fun _ _ => mkRGBA8 0 0 0 0) r).

Definition RGBA_At (p : RGBA) (x y : Z) : RGBA8 :=
  if Point_In (mkPoint x y) (RGBA_Rect p) then Pix p x y else mkRGBA8 0 0 0 0.

Definition RGBA_Set (p : RGBA) (x y : Z) (c : RGBA8) : RGBA :=
  if Point_In (mkPoint x y) (RGBA_Rect p)
  then mkRGBA (fun x' y' => if (x' =? x) && (y' =? y) then c else Pix p x' y')
         (RGBA_Rect p)
  else p.

(** [color.RGBA.RGBA()], one channel: [r |= r << 8]. *)
Definition channel16 (v : Z) : Z := Z.lor v (Z.shiftl v 8).

(** The pixel written for the uncompressed format: colour channels through
    [RGBA()] and [byte()], alpha forced to [0xff]. *)
Definition opaque (c : RGBA8) : RGBA8 :=
  mkRGBA8 (u8 (channel16 (R c))) (u8 (channel16 (G c))) (u8 (channel16 (B c))) 0xff.

(** *** float64, as the IEEE 754 binary64 specification of the library *)

Definition float64 : Set := spec_float.
Definition f64_prec : Z := 53.
Definition f64_emax : Z := 1024.

Definition f64_of_int (n : Z) : float64 := binary_normalize f64_prec f64_emax n 0 false.
Definition f64_div : float64 -> float64 -> float64 := SFdiv f64_prec f64_emax.
Definition f64_mul : float64 -> float64 -> float64 := SFmul f64_prec f64_emax.
Definition f64_gt (a b : float64) : bool := SFltb b a.

(** [int(f)]: truncation toward zero.  Outside the range of [int] Go leaves
    the result to the implementation; the value taken here is the one of
    amd64. *)
Definition f64_to_int (f : float64) : Z :=
  match f with
  | S754_zero _ => 0
  | S754_finite s m e =>
      let a := if 0 <=? e then Z.pos m * 2 ^ e else Z.pos m / 2 ^ (- e) in
      let v := if s then - a else a in
      if (minInt <=? v) && (v <=? maxInt) then v else minInt
  | S754_infinity _ | S754_nan => minInt
  end.

(** Go's integer division truncates toward zero. *)
Definition getScaledRect (src dst : Rectangle) : Rectangle :=
  let srcRatio := f64_div (f64_of_int (Dx src)) (f64_of_int (Dy src)) in
  let dstRatio := f64_div (f64_of_int (Dx dst)) (f64_of_int (Dy dst)) in
  if f64_gt srcRatio dstRatio then
    let newHeight := f64_to_int (f64_div (f64_of_int (Dx dst)) srcRatio) in
    let y0 := Y (Min dst) + Z.quot (Dy dst - newHeight) 2 in
    Rect (X (Min dst)) y0 (X (Max dst)) (y0 + newHeight)
  else
    let newWidth := f64_to_int (f64_mul (f64_of_int (Dy dst)) srcRatio) in
    let x0 := X (Min dst) + Z.quot (Dx dst - newWidth) 2 in
    Rect x0 (Y (Min dst)) (x0 + newWidth) (Y (Max dst)).

(** *** The drawing and encoding packages

    [draw.Copy], [draw.BiLinear.Scale], [bmp.Encode] and [jpeg.Encode] belong
    to other packages.  The two drawing operations write pixels of the
    destination and leave its rectangle alone, so they are given by the pixel
    store they produce. *)
Class ImageLib : Type := {
  draw_Copy : RGBA -> Point -> Image -> Rectangle -> Z -> Z -> RGBA8;
  draw_BiLinear_Scale : RGBA -> Rectangle -> Image -> Rectangle -> Z -> Z -> RGBA8;
  bmp_Encode : RGBA -> list Z + error;
  jpeg_Encode : RGBA -> list Z + error
}.

Definition flagSet (transform flag : imageTransform) : bool :=
  Z.land transform flag =? flag.

(** The body of the pixel loop up to the destination coordinates. *)
Definition transformPixel (rect : Rectangle) (transform : imageTransform) (x y : Z)
  : Point + error :=
  let xd := x in
  let yd := y in
  let xd := if flagSet transform imageTransformFlipHorizontal
            then Dx rect - 1 - xd else xd in
  let yd := if flagSet transform imageTransformFlipVertical
            then Dy rect - 1 - yd else yd in
  if flagSet transform imageTransformRotate90 then
    if negb (Dx rect =? Dy rect)
    then inr (Wrapf "%w: cannot rotate non-square canvas" (Sentinel ErrImageInvalid) [])
    else
      let xxd := xd in
      let xd := yd in
      let yd := Dx rect - 1 - xxd in
      inl (mkPoint xd yd)
  else inl (mkPoint xd yd).

Definition pixelColor (ifmt : imageFormat) (c : RGBA8) : RGBA8 :=
  if ifmt =? imageFormatBMP then opaque c else c.

Fixpoint genImage_loopY (scaled : RGBA) (rect : Rectangle) (ifmt : imageFormat)
    (transform : imageTransform) (x : Z) (ys : list Z) (final : RGBA) : RGBA + error :=
  match ys with
  | [] => inl final
  | y :: ys' =>
      match transformPixel rect transform x y with
      | inr err => inr err
      | inl p =>
          let c := pixelColor ifmt (RGBA_At scaled x y) in
          genImage_loopY scaled rect ifmt transform x ys' (RGBA_Set final (X p) (Y p) c)
      end
  end.

Fixpoint genImage_loopX (scaled : RGBA) (rect : Rectangle) (ifmt : imageFormat)
    (transform : imageTransform) (xs ys : list Z) (final : RGBA) : RGBA + error :=
  match xs with
  | [] => inl final
  | x :: xs' =>
      match genImage_loopY scaled rect ifmt transform x ys final with
      | inr err => inr err
      | inl final' => genImage_loopX scaled rect ifmt transform xs' ys final'
      end
  end.

(** The transformed canvas: [final] after the two nested loops. *)
Definition genImage_final (scaled : RGBA) (rect : Rectangle) (ifmt : imageFormat)
    (transform : imageTransform) : RGBA + error :=
  genImage_loopX scaled rect ifmt transform
    (seqZ (X (Min rect)) (Dx rect)) (seqZ (Y (Min rect)) (Dy rect))
    (mkRGBA (fun _ _ => mkRGBA8 0 0 0 0) rect).

Section Codec.
Context `{ImageLib}.

(** [scaled] after the copy or the letterboxed scale. *)
Definition genImage_scaled (img : Image) (rect : Rectangle) (blank : RGBA) : RGBA :=
  let imgBounds := Bounds img in
  if (Dx imgBounds =? Dx rect) && (Dy imgBounds =? Dy rect)
  then mkRGBA (draw_Copy blank (mkPoint 0 0) img imgBounds) rect
  else mkRGBA (draw_BiLinear_Scale blank (getScaledRect imgBounds rect) img imgBounds) rect.

Definition genImage (img : option Image) (rect : Rectangle) (ifmt : imageFormat)
    (transform : imageTransform) : result (list Z + error) :=
  match img with
  | None => Ok (inr (wrap (Sentinel ErrImageInvalid)))
  | Some img =>
      match NewRGBA rect with
      | Panic => Panic
      | Ok blank =>
          let scaled := genImage_scaled img rect blank in
          match genImage_final scaled rect ifmt transform with
          | inr err => Ok (inr err)
          | inl final =>
              if ifmt =? imageFormatBMP then Ok (bmp_Encode final)
              else if ifmt =? imageFormatJPEG then Ok (jpeg_Encode final)
              else Ok (inr (New "invalid key image format"))
          end
      end
  end.
End Codec.

(** ** Input engine (input.go) *)

(** An instant, in nanoseconds; [0] is the zero [time.Time]. *)
Definition Time : Set := Z.
Definition Time_IsZero (t : Time) : bool := t =? 0.

(** [t.Sub(u)]: the difference, kept within the range of a [time.Duration]. *)
Definition Time_Sub (t u : Time) : Z :=
  let d := t - u in
  if d <? minInt then minInt else if maxInt <? d then maxInt else d.

(** A registered callback.  Callbacks are opaque function values; a number
    tells them apart. *)
Definition handler : Set := nat.

Record Key : Set := mkKey { key_id : KeyID; key_handlers : list handler }.
Record TouchPoint : Set := mkTouchPoint { tp_id : TouchPointID; tp_handlers : list handler }.
Record Dial : Set := mkDial {
  dial_id : DialID;
  switchHandlers : list handler;
  rotateHandlers : list handler
}.
Record touchStrip : Set := mkTouchStrip {
  touchHandlers : list handler;
  swipeHandlers : list handler
}.

(** A channel that is only ever closed; a [nil] channel is [None]. *)
Inductive chan : Set := ChanOpen | ChanClosed.

Record input : Set := mkInput {
  channel : option chan;
  pressed : Time;
  released : Time;
  duration : Z;
  in_key : option Key;
  in_tp : option TouchPoint;
  in_dial : option Dial;
  in_touchStrip : option touchStrip
}.

#[global] Instance chan_eq_dec : EqDecision chan.
Proof. solve_decision. Defined.

Definition TouchStripTouchType : Set := Z.
Definition TOUCH_STRIP_TOUCH_TYPE_SHORT : TouchStripTouchType := 1.
Definition TOUCH_STRIP_TOUCH_TYPE_LONG : TouchStripTouchType := 2.

(** A callback started on a task of its own ([go func ...]). *)
Inductive goroutine : Set :=
| GoKeyHandler (h : handler) (k : KeyID)
| GoTouchPointHandler (h : handler) (tp : TouchPointID)
| GoDialSwitchHandler (h : handler) (di : DialID)
| GoDialRotateHandler (h : handler) (di : DialID) (delta : Z)
| GoTouchHandler (h : handler) (t : TouchStripTouchType) (p : Point)
| GoSwipeHandler (h : handler) (origin destination : Point).

Definition newKeyInput (i : KeyID) : input :=
  mkInput None 0 0 0 (Some (mkKey i [])) None None None.
Definition newTouchPointInput (i : TouchPointID) : input :=
  mkInput None 0 0 0 None (Some (mkTouchPoint i [])) None None.
Definition newDialInput (i : DialID) : input :=
  mkInput None 0 0 0 None None (Some (mkDial i [] [])) None.

(** [for i := first; i < bound; i++] over bytes. *)
Definition byteRange (first bound : Z) : list Z := seqZ first (bound - first).

Definition newInputs (numKeys numTouchPoints : Z) : list input :=
  (newKeyInput <$> byteRange KEY_1 (u8 (numKeys + 1))) ++
  (newTouchPointInput <$> byteRange TOUCH_POINT_1 (u8 (TOUCH_POINT_1 + numTouchPoints))).

Definition newDialInputs (numDials : Z) : list input :=
  newDialInput <$> byteRange DIAL_1 (u8 (numDials + 1)).

Definition newTouchStripInput : input :=
  mkInput None 0 0 0 None None None (Some (mkTouchStrip [] [])).

Definition keyGoroutines (k : option Key) : list goroutine :=
  match k with
  | Some k => (fun h => GoKeyHandler h (key_id k)) <$> key_handlers k
  | None => []
  end.
Definition tpGoroutines (tp : option TouchPoint) : list goroutine :=
  match tp with
  | Some tp => (fun h => GoTouchPointHandler h (tp_id tp)) <$> tp_handlers tp
  | None => []
  end.
Definition dialGoroutines (d : option Dial) : list goroutine :=
  match d with
  | Some d => (fun h => GoDialSwitchHandler h (dial_id d)) <$> switchHandlers d
  | None => []
  end.

(** [press]: a fresh channel, the press instant, the release data cleared,
    and one task per registered callback. *)
Definition press (inp : input) (t : Time) : input * list goroutine :=
  (mkInput (Some ChanOpen) t 0 0 (in_key inp) (in_tp inp) (in_dial inp) (in_touchStrip inp),
   keyGoroutines (in_key inp) ++ tpGoroutines (in_tp inp) ++ dialGoroutines (in_dial inp)).

(** [release]: the second component tells whether this call closed the
    channel.  Closing a [nil] or a closed channel panics. *)
Definition release (inp : input) (t : Time) : result (input * bool) :=
  if negb (Time_IsZero (released inp)) then Ok (inp, false)
  else
    match channel inp with
    | Some ChanOpen =>
        Ok (mkInput (Some ChanClosed) 0 t (Time_Sub t (pressed inp))
              (in_key inp) (in_tp inp) (in_dial inp) (in_touchStrip inp), true)
    | Some ChanClosed | None => Panic
    end.

Definition rotate (inp : input) (delta : Z) : list goroutine :=
  match in_dial inp with
  | None => []
  | Some d => (fun h => GoDialRotateHandler h (dial_id d) delta) <$> rotateHandlers d
  end.

Definition touch (inp : input) (t : TouchStripTouchType) (p : Point) : list goroutine :=
  match in_touchStrip inp with
  | None => []
  | Some ts => (fun h => GoTouchHandler h t p) <$> touchHandlers ts
  end.

Definition swipe (inp : input) (origin destination : Point) : list goroutine :=
  match in_touchStrip inp with
  | None => []
  | Some ts => (fun h => GoSwipeHandler h origin destination) <$> swipeHandlers ts
  end.

(** [addHandler] and its siblings: append to the callback list. *)
Definition Key_addHandler (k : Key) (h : handler) : Key :=
  mkKey (key_id k) (key_handlers k ++ [h]).
Definition TouchPoint_addHandler (tp : TouchPoint) (h : handler) : TouchPoint :=
  mkTouchPoint (tp_id tp) (tp_handlers tp ++ [h]).
Definition Dial_addSwitchHandler (d : Dial) (h : handler) : Dial :=
  mkDial (dial_id d) (switchHandlers d ++ [h]) (rotateHandlers d).
Definition Dial_addRotateHandler (d : Dial) (h : handler) : Dial :=
  mkDial (dial_id d) (switchHandlers d) (rotateHandlers d ++ [h]).
Definition touchStrip_addTouchHandler (ts : touchStrip) (h : handler) : touchStrip :=
  mkTouchStrip (touchHandlers ts ++ [h]) (swipeHandlers ts).
Definition touchStrip_addSwipeHandler (ts : touchStrip) (h : handler) : touchStrip :=
  mkTouchStrip (touchHandlers ts) (swipeHandlers ts ++ [h]).

(** ** Device: lifecycle, validation and registration *)

Record Device : Type := mkDevice {
  dev : usbhid;
  model_ : model;
  inputs : option (list input);
  dialInputs : option (list input);
  touchStripInput : option input;
  keyStates : list Z;
  dialStates : list Z;
  listen : option chan;
  open : bool
}.

(** A device as [Enumerate] and [GetDevice] build it. *)
Definition newDevice (dev : usbhid) (m : model) : Device :=
  mkDevice dev m None None None [] [] None false.

Definition set_dev (d : Device) (x : usbhid) : Device :=
  mkDevice x (model_ d) (inputs d) (dialInputs d) (touchStripInput d)
    (keyStates d) (dialStates d) (listen d) (open d).
Definition set_inputs (d : Device) (x : option (list input)) : Device :=
  mkDevice (dev d) (model_ d) x (dialInputs d) (touchStripInput d)
    (keyStates d) (dialStates d) (listen d) (open d).
Definition set_dialInputs (d : Device) (x : option (list input)) : Device :=
  mkDevice (dev d) (model_ d) (inputs d) x (touchStripInput d)
    (keyStates d) (dialStates d) (listen d) (open d).
Definition set_touchStripInput (d : Device) (x : option input) : Device :=
  mkDevice (dev d) (model_ d) (inputs d) (dialInputs d) x
    (keyStates d) (dialStates d) (listen d) (open d).
Definition set_keyStates (d : Device) (x : list Z) : Device :=
  mkDevice (dev d) (model_ d) (inputs d) (dialInputs d) (touchStripInput d)
    x (dialStates d) (listen d) (open d).
Definition set_dialStates (d : Device) (x : list Z) : Device :=
  mkDevice (dev d) (model_ d) (inputs d) (dialInputs d) (touchStripInput d)
    (keyStates d) x (listen d) (open d).
Definition set_listen (d : Device) (x : option chan) : Device :=
  mkDevice (dev d) (model_ d) (inputs d) (dialInputs d) (touchStripInput d)
    (keyStates d) (dialStates d) x (open d).
Definition set_open (d : Device) (x : bool) : Device :=
  mkDevice (dev d) (model_ d) (inputs d) (dialInputs d) (touchStripInput d)
    (keyStates d) (dialStates d) (listen d) x.

Definition IsOpen (d : Device) : bool := open d && hid_isOpen (dev d).

Definition Open (d : Device) : Device * option error :=
  if IsOpen d then (d, Some (wrap (Sentinel ErrDeviceIsOpen)))
  else
    match hid_Open (dev d) with
    | (dev', Some err) => (set_dev d dev', Some (wrap err))
    | (dev', None) => (set_listen (set_open (set_dev d dev') true) (Some ChanOpen), None)
    end.

Definition validateOpen (d : Device) : option error :=
  if negb (IsOpen d) then Some (wrap (Sentinel ErrDeviceIsClosed)) else None.

Definition validateKey (d : Device) (key : KeyID) : option error :=
  if (key <? KEY_1) || (u8 (KEY_1 + keyCount (model_ d)) <=? key)
  then Some (Wrapf "%w: %s" (Sentinel ErrKeyInvalid) [key])
  else None.

Definition validateTouchPoint (d : Device) (tp : TouchPointID) : option error :=
  if negb (bool_decide (is_Some (touchPointColorSend (model_ d))))
     || (touchPointCount (model_ d) =? 0)
  then Some (wrap (Sentinel ErrDeviceTouchPointNotSupported))
  else if (tp <? TOUCH_POINT_1) || (u8 (TOUCH_POINT_1 + touchPointCount (model_ d)) <=? tp)
  then Some (Wrapf "%w: %s" (Sentinel ErrTouchPointInvalid) [tp])
  else None.

Definition validateInfoBar (d : Device) : option error :=
  match infoBarImageSend (model_ d) with
  | None => Some (wrap (Sentinel ErrDeviceInfoBarNotSupported))
  | Some _ => None
  end.

Definition validateDial (d : Device) (di : DialID) : option error :=
  if (di <? DIAL_1) || (u8 (DIAL_1 + dialCount (model_ d)) <=? di)
  then Some (Wrapf "%w: %s" (Sentinel ErrDialInvalid) [di])
  else None.

Definition validateTouchStrip (d : Device) : option error :=
  match touchStripImageSend (model_ d) with
  | None => Some (wrap (Sentinel ErrDeviceTouchStripNotSupported))
  | Some _ => None
  end.

(** [for _, in := range ins]: the first slot that [upd] accepts is replaced
    and the search stops; [None] when the loop runs to its end. *)
Fixpoint updateFirst (upd : input -> option input) (ins : list input) : option (list input) :=
  match ins with
  | [] => None
  | i :: rest =>
      match upd i with
      | Some i' => Some (i' :: rest)
      | None => cons i <$> updateFirst upd rest
      end
  end.

Definition withKey (inp : input) (k : Key) : input :=
  mkInput (channel inp) (pressed inp) (released inp) (duration inp)
    (Some k) (in_tp inp) (in_dial inp) (in_touchStrip inp).
Definition withTouchPoint (inp : input) (tp : TouchPoint) : input :=
  mkInput (channel inp) (pressed inp) (released inp) (duration inp)
    (in_key inp) (Some tp) (in_dial inp) (in_touchStrip inp).
Definition withDial (inp : input) (di : Dial) : input :=
  mkInput (channel inp) (pressed inp) (released inp) (duration inp)
    (in_key inp) (in_tp inp) (Some di) (in_touchStrip inp).
Definition withTouchStrip (inp : input) (ts : touchStrip) : input :=
  mkInput (channel inp) (pressed inp) (released inp) (duration inp)
    (in_key inp) (in_tp inp) (in_dial inp) (Some ts).

Definition inputsOrNew (d : Device) : list input :=
  match inputs d with
  | None => newInputs (keyCount (model_ d)) (touchPointCount (model_ d))
  | Some ins => ins
  end.

Definition dialInputsOrNew (d : Device) : list input :=
  match dialInputs d with
  | None => newDialInputs (dialCount (model_ d))
  | Some ins => ins
  end.

(** A handler argument is a function value and may be [nil]: [None]. *)
Definition AddKeyHandler (d : Device) (key : KeyID) (fn : option handler)
  : Device * option error :=
  match validateKey d key with
  | Some err => (d, Some err)
  | None =>
      match fn with
      | None => (d, Some (wrap (Sentinel ErrKeyHandlerInvalid)))
      | Some h =>
          let ins := inputsOrNew d in
          let upd inp := match in_key inp with
                         | Some k => if key_id k =? key
                                     then Some (withKey inp (Key_addHandler k h))
                                     else None
                         | None => None
                         end in
          match updateFirst upd ins with
          | Some ins' => (set_inputs d (Some ins'), None)
          | None => (set_inputs d (Some ins),
                     Some (Wrapf "%w: %s" (Sentinel ErrKeyInvalid) [key]))
          end
      end
  end.

Definition AddTouchPointHandler (d : Device) (tp : TouchPointID) (fn : option handler)
  : Device * option error :=
  match validateTouchPoint d tp with
  | Some err => (d, Some err)
  | None =>
      match fn with
      | None => (d, Some (wrap (Sentinel ErrTouchPointHandlerInvalid)))
      | Some h =>
          let ins := inputsOrNew d in
          let upd inp := match in_tp inp with
                         | Some p => if tp_id p =? tp
                                     then Some (withTouchPoint inp (TouchPoint_addHandler p h))
                                     else None
                         | None => None
                         end in
          match updateFirst upd ins with
          | Some ins' => (set_inputs d (Some ins'), None)
          | None => (set_inputs d (Some ins),
                     Some (Wrapf "%w: %s" (Sentinel ErrTouchPointInvalid) [tp]))
          end
      end
  end.

Definition AddDialSwitchHandler (d : Device) (di : DialID) (fn : option handler)
  : Device * option error :=
  match validateDial d di with
  | Some err => (d, Some err)
  | None =>
      match fn with
      | None => (d, Some (wrap (Sentinel ErrDialHandlerInvalid)))
      | Some h =>
          let ins := dialInputsOrNew d in
          let upd inp := match in_dial inp with
                         | Some x => if dial_id x =? di
                                     then Some (withDial inp (Dial_addSwitchHandler x h))
                                     else None
                         | None => None
                         end in
          match updateFirst upd ins with
          | Some ins' => (set_dialInputs d (Some ins'), None)
          | None => (set_dialInputs d (Some ins),
                     Some (Wrapf "%w: %s" (Sentinel ErrDialInvalid) [di]))
          end
      end
  end.

Definition AddDialRotateHandler (d : Device) (di : DialID) (fn : option handler)
  : Device * option error :=
  match validateDial d di with
  | Some err => (d, Some err)
  | None =>
      match fn with
      | None => (d, Some (wrap (Sentinel ErrDialHandlerInvalid)))
      | Some h =>
          let ins := dialInputsOrNew d in
          let upd inp := match in_dial inp with
                         | Some x => if dial_id x =? di
                                     then Some (withDial inp (Dial_addRotateHandler x h))
                                     else None
                         | None => None
                         end in
          match updateFirst upd ins with
          | Some ins' => (set_dialInputs d (Some ins'), None)
          | None => (set_dialInputs d (Some ins),
                     Some (Wrapf "%w: %s" (Sentinel ErrDialInvalid) [di]))
          end
      end
  end.

Definition touchStripInputOrNew (d : Device) : input :=
  match touchStripInput d with
  | None => newTouchStripInput
  | Some inp => inp
  end.

Definition AddTouchStripTouchHandler (d : Device) (fn : option handler)
  : Device * option error :=
  match validateTouchStrip d with
  | Some err => (d, Some err)
  | None =>
      match fn with
      | None => (d, Some (wrap (Sentinel ErrTouchStripHandlerInvalid)))
      | Some h =>
          let inp := touchStripInputOrNew d in
          let inp' := match in_touchStrip inp with
                      | Some ts => withTouchStrip inp (touchStrip_addTouchHandler ts h)
                      | None => inp
                      end in
          (set_touchStripInput d (Some inp'), None)
      end
  end.

Definition AddTouchStripSwipeHandler (d : Device) (fn : option handler)
  : Device * option error :=
  match validateTouchStrip d with
  | Some err => (d, Some err)
  | None =>
      match fn with
      | None => (d, Some (wrap (Sentinel ErrTouchStripHandlerInvalid)))
      | Some h =>
          let inp := touchStripInputOrNew d in
          let inp' := match in_touchStrip inp with
                      | Some ts => withTouchStrip inp (touchStrip_addSwipeHandler ts h)
                      | None => inp
                      end in
          (set_touchStripInput d (Some inp'), None)
      end
  end.

(** Getters. *)
Definition GetModelName (d : Device) : string := hid_product (dev d).
Definition GetModelID (d : Device) : string := model_id (model_ d).
Definition GetSerialNumber (d : Device) : string := hid_serialNumber (dev d).
Definition GetKeyCount (d : Device) : Z := keyCount (model_ d).
Definition GetTouchPointCount (d : Device) : Z := touchPointCount (model_ d).
Definition GetDialCount (d : Device) : Z := dialCount (model_ d).
Definition GetInfoBarSupported (d : Device) : bool :=
  bool_decide (is_Some (infoBarImageSend (model_ d))).
Definition GetTouchStripSupported (d : Device) : bool :=
  bool_decide (is_Some (touchStripImageSend (model_ d))).

Definition GetFirmwareVersion (d : Device) : result (list Z + error) :=
  match validateOpen d with
  | Some err => Ok (inr err)
  | None =>
      match firmwareVersion (model_ d) (dev d) with
      | Panic => Panic
      | Ok (inr err) => Ok (inr (wrap err))
      | Ok (inl rv) => Ok (inl rv)
      end
  end.

Definition Reset (d : Device) : Device * option error :=
  match validateOpen d with
  | Some err => (d, Some err)
  | None =>
      match reset (model_ d) (dev d) with
      | (dev', Some err) => (set_dev d dev', Some (wrap err))
      | (dev', None) =>
          let '(dev'', err) := hid_Close dev' in
          (set_dev d dev'', err)
      end
  end.

Definition SetBrightness (d : Device) (perc : Z) : Device * option error :=
  match validateOpen d with
  | Some err => (d, Some err)
  | None =>
      let perc := if 100 <? perc then 100 else perc in
      let '(dev', err) := brightness (model_ d) (dev d) perc in
      (set_dev d dev', wrapErr err)
  end.

(** ** Iteration helpers

    The callback runs against the device and may change it (it writes to the
    transport); [None] is a [nil] callback. *)

Fixpoint forEachId (cb : Device -> Z -> Device * outcome) (ids : list Z) (d : Device)
  : Device * outcome :=
  match ids with
  | [] => (d, Returned None)
  | k :: rest =>
      match cb d k with
      | (d', Returned None) => forEachId cb rest d'
      | r => r
      end
  end.

Definition ForEachKey (d : Device) (cb : option (Device -> KeyID -> Device * outcome))
  : Device * outcome :=
  match cb with
  | None => (d, Returned (Some (New "streamdeck: ForEachKey callback is nil")))
  | Some cb => forEachId cb (byteRange KEY_1 (u8 (KEY_1 + keyCount (model_ d)))) d
  end.

Definition ForEachTouchPoint (d : Device)
    (cb : option (Device -> TouchPointID -> Device * outcome)) : Device * outcome :=
  match cb with
  | None => (d, Returned (Some (New "streamdeck: ForEachTouchPoint callback is nil")))
  | Some cb =>
      forEachId cb
        (byteRange TOUCH_POINT_1 (u8 (TOUCH_POINT_1 + touchPointCount (model_ d)))) d
  end.

Definition ForEachDial (d : Device) (cb : option (Device -> DialID -> Device * outcome))
  : Device * outcome :=
  match cb with
  | None => (d, Returned (Some (New "streamdeck: ForEachDial callback is nil")))
  | Some cb => forEachId cb (byteRange DIAL_1 (u8 (DIAL_1 + dialCount (model_ d)))) d
  end.

(** ** Device: displays (image.go) *)

(** The result of a model's send function, seen from the device: the
    transport is stored back and the error goes through [wrapErr]. *)
Definition sent (d : Device) (r : usbhid * list page * outcome) : Device * outcome :=
  let '(dev', _, o) := r in
  (set_dev d dev',
   match o with
   | Returned err => Returned (wrapErr err)
   | Panicked => Panicked
   | Diverged => Diverged
   end).

Definition returned (r : Device * option error) : Device * outcome :=
  (fst r, Returned (snd r)).

Section Displays.
Context `{ImageLib}.

Definition setKeyImage (d : Device) (key : KeyID) (img : option Image) : Device * outcome :=
  let m := model_ d in
  match genImage img (keyImageRect m) (keyImageFormat m) (keyImageTransform m) with
  | Panic => (d, Panicked)
  | Ok (inr err) => (d, Returned (Some (wrap err)))
  | Ok (inl data) => sent d (keyImageSend m (dev d) key data)
  end.

Definition SetKeyImage (d : Device) (key : KeyID) (img : option Image) : Device * outcome :=
  match validateOpen d with
  | Some err => (d, Returned (Some err))
  | None =>
      match validateKey d key with
      | Some err => (d, Returned (Some err))
      | None => setKeyImage d key img
      end
  end.

Definition SetKeyColor (d : Device) (key : KeyID) (c : Color) : Device * outcome :=
  SetKeyImage d key (Some (imageColor c (keyImageRect (model_ d)))).

Definition ClearKey (d : Device) (key : KeyID) : Device * outcome :=
  SetKeyColor d key Black.

Definition GetKeyImageRectangle (d : Device) : Rectangle * option error :=
  (keyImageRect (model_ d), None).

Definition setInfoBarImage (d : Device) (img : option Image) : Device * outcome :=
  let m := model_ d in
  match genImage img (infoBarImageRect m) (infoBarImageFormat m) (infoBarImageTransform m) with
  | Panic => (d, Panicked)
  | Ok (inr err) => (d, Returned (Some (wrap err)))
  | Ok (inl data) =>
      match infoBarImageSend m with
      | Some send => sent d (send (dev d) data)
      | None => (d, Panicked)
      end
  end.

Definition SetInfoBarImage (d : Device) (img : option Image) : Device * outcome :=
  match validateOpen d with
  | Some err => (d, Returned (Some err))
  | None =>
      match infoBarImageSend (model_ d) with
      | None => (d, Returned (Some (wrap (Sentinel ErrDeviceInfoBarNotSupported))))
      | Some _ => setInfoBarImage d img
      end
  end.

Definition SetInfoBarColor (d : Device) (c : Color) : Device * outcome :=
  SetInfoBarImage d (Some (imageColor c (infoBarImageRect (model_ d)))).

Definition ClearInfoBar (d : Device) : Device * outcome := SetInfoBarColor d Black.

Definition GetInfoBarImageRectangle (d : Device) : Rectangle * option error :=
  match infoBarImageSend (model_ d) with
  | None => (noRect, Some (wrap (Sentinel ErrDeviceInfoBarNotSupported)))
  | Some _ => (infoBarImageRect (model_ d), None)
  end.

Definition SetTouchPointColor (d : Device) (tp : TouchPointID) (c : Color)
  : Device * outcome :=
  match validateOpen d with
  | Some err => (d, Returned (Some err))
  | None =>
      match validateTouchPoint d tp with
      | Some err => (d, Returned (Some err))
      | None =>
          match touchPointColorSend (model_ d) with
          | Some send => let '(dev', err) := send (dev d) tp c in
                         (set_dev d dev', Returned err)
          | None => (d, Panicked)
          end
      end
  end.

Definition ClearTouchPoint (d : Device) (tp : TouchPointID) : Device * outcome :=
  SetTouchPointColor d tp Black.

Definition setTouchStripImage (d : Device) (img : option Image) (rect : option Rectangle)
  : Device * outcome :=
  let m := model_ d in
  let '(r, v) := match rect with
                 | Some r => (r, Rect 0 0 (Dx r) (Dy r))
                 | None => (touchStripImageRect m, touchStripImageRect m)
                 end in
  match genImage img v (touchStripImageFormat m) (touchStripImageTransform m) with
  | Panic => (d, Panicked)
  | Ok (inr err) => (d, Returned (Some (wrap err)))
  | Ok (inl data) =>
      match touchStripImageSend m with
      | Some send => sent d (send (dev d) data r)
      | None => (d, Panicked)
      end
  end.

Definition validateTouchStripRectangle (d : Device) (rect : Rectangle) : option error :=
  if negb (Rectangle_In rect (touchStripImageRect (model_ d)))
  then Some (wrap (TouchStripImageRectangleError rect))
  else None.

Definition SetTouchStripImageWithRectangle (d : Device) (img : option Image)
    (rect : Rectangle) : Device * outcome :=
  match validateOpen d with
  | Some err => (d, Returned (Some err))
  | None =>
      match validateTouchStripRectangle d rect with
      | Some err => (d, Returned (Some err))
      | None =>
          match validateTouchStrip d with
          | Some err => (d, Returned (Some err))
          | None => setTouchStripImage d img (Some rect)
          end
      end
  end.

Definition SetTouchStripImage (d : Device) (img : option Image) : Device * outcome :=
  match validateOpen d with
  | Some err => (d, Returned (Some err))
  | None =>
      match validateTouchStrip d with
      | Some err => (d, Returned (Some err))
      | None => setTouchStripImage d img None
      end
  end.

Definition SetTouchStripColorWithRectangle (d : Device) (c : Color) (rect : Rectangle)
  : Device * outcome :=
  SetTouchStripImageWithRectangle d
    (Some (imageColor c (Rect 0 0 (Dx rect) (Dy rect)))) rect.

Definition SetTouchStripColor (d : Device) (c : Color) : Device * outcome :=
  SetTouchStripImage d (Some (imageColor c (touchStripImageRect (model_ d)))).

Definition ClearTouchStripWithRectangle (d : Device) (rect : Rectangle) : Device * outcome :=
  SetTouchStripColorWithRectangle d Black rect.

Definition ClearTouchStrip (d : Device) : Device * outcome := SetTouchStripColor d Black.

Definition GetTouchStripImageRectangle (d : Device) : Rectangle * option error :=
  match touchStripImageSend (model_ d) with
  | None => (noRect, Some (wrap (Sentinel ErrDeviceTouchStripNotSupported)))
  | Some _ => (touchStripImageRect (model_ d), None)
  end.

Definition closeDisplays (d : Device) : Device * outcome :=
  match ForEachKey d (Some ClearKey) with
  | (d1, Returned None) =>
      match ForEachTouchPoint d1 (Some ClearTouchPoint) with
      | (d2, Returned None) =>
          match (if GetInfoBarSupported d2 then ClearInfoBar d2 else (d2, Returned None)) with
          | (d3, Returned None) =>
              if GetTouchStripSupported d3 then ClearTouchStrip d3 else (d3, Returned None)
          | r => r
          end
      | r => r
      end
  | r => r
  end.

Definition Close (d : Device) : Device * outcome :=
  match validateOpen d with
  | Some err => (d, Returned (Some err))
  | None =>
      match closeDisplays d with
      | (d1, Returned (Some err)) => (d1, Returned (Some (wrap err)))
      | (d1, Returned None) =>
          match listen d1 with
          | Some ChanClosed => (d1, Panicked)
          | _ =>
              let d2 := set_listen d1 None in
              match hid_Close (dev d2) with
              | (dev', Some err) => (set_dev d2 dev', Returned (Some err))
              | (dev', None) => (set_open (set_dev d2 dev') false, Returned None)
              end
          end
      | r => r
      end
  end.
End Displays.

(** ** Device: displays fed from readers and files (image.go)

    An [io.Reader] or [io.ReadCloser] is given by what [image.Decode] makes
    of it, a picture or an error; [None] is a nil reader.  Closing a reader
    or a file does not touch the device.  [os.Open] and the [Open] of an
    [fs.FS] map a name to an opened file, which is a reader, or to an error;
    a nil [fs.FS] is [None], and calling its [Open] panics. *)
Definition Reader : Type := Image + error.
Definition FS : Type := string -> Reader + error.

Section Readers.
Context `{ImageLib}.
Variable os_Open : FS.

Definition setKeyImageFromReader (d : Device) (key : KeyID) (r : Reader) : Device * outcome :=
  match r with
  | inr err => (d, Returned (Some (wrap err)))
  | inl img => setKeyImage d key (Some img)
  end.

Definition SetKeyImageFromReader (d : Device) (key : KeyID) (r : option Reader)
  : Device * outcome :=
  match validateOpen d with
  | Some err => (d, Returned (Some err))
  | None =>
      match validateKey d key with
      | Some err => (d, Returned (Some err))
      | None =>
          match r with
          | None => (d, Returned (Some (wrap (Sentinel ErrImageInvalid))))
          | Some r => setKeyImageFromReader d key r
          end
      end
  end.

Definition SetKeyImageFromReadCloser (d : Device) (key : KeyID) (r : option Reader)
  : Device * outcome :=
  match validateOpen d with
  | Some err => (d, Returned (Some err))
  | None =>
      match validateKey d key with
      | Some err => (d, Returned (Some err))
      | None =>
          match r with
          | None => (d, Returned (Some (wrap (Sentinel ErrImageInvalid))))
          | Some r => setKeyImageFromReader d key r
          end
      end
  end.

Definition SetKeyImageFromFile (d : Device) (key : KeyID) (name : string)
  : Device * outcome :=
  match validateOpen d with
  | Some err => (d, Returned (Some err))
  | None =>
      match validateKey d key with
      | Some err => (d, Returned (Some err))
      | None =>
          match os_Open name with
          | inr err => (d, Returned (Some (wrap err)))
          | inl fp => setKeyImageFromReader d key fp
          end
      end
  end.

Definition SetKeyImageFromFS (d : Device) (key : KeyID) (ffs : option FS) (name : string)
  : Device * outcome :=
  match validateOpen d with
  | Some err => (d, Returned (Some err))
  | None =>
      match validateKey d key with
      | Some err => (d, Returned (Some err))
      | None =>
          match ffs with
          | None => (d, Panicked)
          | Some ffs =>
              match ffs name with
              | inr err => (d, Returned (Some (wrap err)))
              | inl fp => setKeyImageFromReader d key fp
              end
          end
      end
  end.

Definition setInfoBarImageFromReader (d : Device) (r : Reader) : Device * outcome :=
  match r with
  | inr err => (d, Returned (Some (wrap err)))
  | inl img => setInfoBarImage d (Some img)
  end.

Definition SetInfoBarImageFromReader (d : Device) (r : option Reader) : Device * outcome :=
  match validateOpen d with
  | Some err => (d, Returned (Some err))
  | None =>
      match validateInfoBar d with
      | Some err => (d, Returned (Some err))
      | None =>
          match r with
          | None => (d, Returned (Some (wrap (Sentinel ErrImageInvalid))))
          | Some r => setInfoBarImageFromReader d r
          end
      end
  end.

Definition SetInfoBarImageFromReadCloser (d : Device) (r : option Reader)
  : Device * outcome :=
  match validateOpen d with
  | Some err => (d, Returned (Some err))
  | None =>
      match validateInfoBar d with
      | Some err => (d, Returned (Some err))
      | None =>
          match r with
          | None => (d, Returned (Some (wrap (Sentinel ErrImageInvalid))))
          | Some r => setInfoBarImageFromReader d r
          end
      end
  end.

Definition SetInfoBarImageFromFile (d : Device) (name : string) : Device * outcome :=
  match validateOpen d with
  | Some err => (d, Returned (Some err))
  | None =>
      match validateInfoBar d with
      | Some err => (d, Returned (Some err))
      | None =>
          match os_Open name with
          | inr err => (d, Returned (Some (wrap err)))
          | inl fp => setInfoBarImageFromReader d fp
          end
      end
  end.

Definition SetInfoBarImageFromFS (d : Device) (ffs : option FS) (name : string)
  : Device * outcome :=
  match validateOpen d with
  | Some err => (d, Returned (Some err))
  | None =>
      match validateInfoBar d with
      | Some err => (d, Returned (Some err))
      | None =>
          match ffs with
          | None => (d, Panicked)
          | Some ffs =>
              match ffs name with
              | inr err => (d, Returned (Some (wrap err)))
              | inl fp => setInfoBarImageFromReader d fp
              end
          end
      end
  end.

Definition setTouchStripImageFromReader (d : Device) (r : Reader) (rect : option Rectangle)
  : Device * outcome :=
  match r with
  | inr err => (d, Returned (Some (wrap err)))
  | inl img => setTouchStripImage d (Some img) rect
  end.

Definition setTouchStripImageFromFile (d : Device) (name : string) (rect : option Rectangle)
  : Device * outcome :=
  match os_Open name with
  | inr err => (d, Returned (Some (wrap err)))
  | inl fp => setTouchStripImageFromReader d fp rect
  end.

Definition setTouchStripImageFromFS (d : Device) (ffs : option FS) (name : string)
    (rect : option Rectangle) : Device * outcome :=
  match ffs with
  | None => (d, Panicked)
  | Some ffs =>
      match ffs name with
      | inr err => (d, Returned (Some (wrap err)))
      | inl fp => setTouchStripImageFromReader d fp rect
      end
  end.

Definition SetTouchStripImageFromReaderWithRectangle (d : Device) (r : option Reader)
    (rect : Rectangle) : Device * outcome :=
  match validateOpen d with
  | Some err => (d, Returned (Some err))
  | None =>
      match validateTouchStrip d with
      | Some err => (d, Returned (Some err))
      | None =>
          match validateTouchStripRectangle d rect with
          | Some err => (d, Returned (Some err))
          | None =>
              match r with
              | None => (d, Returned (Some (wrap (Sentinel ErrImageInvalid))))
              | Some r => setTouchStripImageFromReader d r (Some rect)
              end
          end
      end
  end.

Definition SetTouchStripImageFromReader (d : Device) (r : option Reader) : Device * outcome :=
  match validateOpen d with
  | Some err => (d, Returned (Some err))
  | None =>
      match validateTouchStrip d with
      | Some err => (d, Returned (Some err))
      | None =>
          match r with
          | None => (d, Returned (Some (wrap (Sentinel ErrImageInvalid))))
          | Some r => setTouchStripImageFromReader d r None
          end
      end
  end.

Definition SetTouchStripImageFromReadCloserWithRectangle (d : Device) (r : option Reader)
    (rect : Rectangle) : Device * outcome :=
  match validateOpen d with
  | Some err => (d, Returned (Some err))
  | None =>
      match validateTouchStrip d with
      | Some err => (d, Returned (Some err))
      | None =>
          match validateTouchStripRectangle d rect with
          | Some err => (d, Returned (Some err))
          | None =>
              match r with
              | None => (d, Returned (Some (wrap (Sentinel ErrImageInvalid))))
              | Some r => setTouchStripImageFromReader d r (Some rect)
              end
          end
      end
  end.

Definition SetTouchStripImageFromReadCloser (d : Device) (r : option Reader)
  : Device * outcome :=
  match validateOpen d with
  | Some err => (d, Returned (Some err))
  | None =>
      match validateTouchStrip d with
      | Some err => (d, Returned (Some err))
      | None =>
          match r with
          | None => (d, Returned (Some (wrap (Sentinel ErrImageInvalid))))
          | Some r => setTouchStripImageFromReader d r None
          end
      end
  end.

Definition SetTouchStripImageFromFileWithRectangle (d : Device) (name : string)
    (rect : Rectangle) : Device * outcome :=
  match validateOpen d with
  | Some err => (d, Returned (Some err))
  | None =>
      match validateTouchStrip d with
      | Some err => (d, Returned (Some err))
      | None =>
          match validateTouchStripRectangle d rect with
          | Some err => (d, Returned (Some err))
          | None => setTouchStripImageFromFile d name (Some rect)
          end
      end
  end.

Definition SetTouchStripImageFromFile (d : Device) (name : string) : Device * outcome :=
  match validateOpen d with
  | Some err => (d, Returned (Some err))
  | None =>
      match validateTouchStrip d with
      | Some err => (d, Returned (Some err))
      | None => setTouchStripImageFromFile d name None
      end
  end.

Definition SetTouchStripImageFromFSWithRectangle (d : Device) (ffs : option FS)
    (name : string) (rect : Rectangle) : Device * outcome :=
  match validateOpen d with
  | Some err => (d, Returned (Some err))
  | None =>
      match validateTouchStrip d with
      | Some err => (d, Returned (Some err))
      | None =>
          match validateTouchStripRectangle d rect with
          | Some err => (d, Returned (Some err))
          | None => setTouchStripImageFromFS d ffs name (Some rect)
          end
      end
  end.

Definition SetTouchStripImageFromFS (d : Device) (ffs : option FS) (name : string)
  : Device * outcome :=
  match validateOpen d with
  | Some err => (d, Returned (Some err))
  | None =>
      match validateTouchStrip d with
      | Some err => (d, Returned (Some err))
      | None => setTouchStripImageFromFS d ffs name None
      end
  end.
End Readers.

(** ** Device: the polling loop ([Listen]) *)

(** The two slot tables: [d.inputs] (keys, then touch points) and
    [d.dialInputs]. *)
Inductive table : Set := KeyTable | DialTable.

(** One call from the loop into the input engine, with what the call did:
    the tasks it started, or whether it closed the notification channel. *)
Inductive event : Set :=
| EvPress (tbl : table) (i : nat) (t : Time) (spawned : list goroutine)
| EvRelease (tbl : table) (i : nat) (t : Time) (closed : bool)
| EvRotate (i : nat) (delta : Z) (spawned : list goroutine)
| EvTouch (ty : TouchStripTouchType) (p : Point) (spawned : list goroutine)
| EvSwipe (origin destination : Point) (spawned : list goroutine).

(** [for i, st := range states]: edge detection against [snapshot], from
    index [i] on. *)
Fixpoint diffStates (tbl : table) (t : Time) (snapshot : list Z) (states : list Z)
    (i : nat) (ins : list input) (evs : list event) : result (list input * list event) :=
  match states with
  | [] => Ok (ins, evs)
  | st :: rest =>
      match snapshot !! i with
      | None => Panic
      | Some old =>
          if st =? old then diffStates tbl t snapshot rest (S i) ins evs
          else
            match ins !! i with
            | None => diffStates tbl t snapshot rest (S i) ins evs
            | Some inp =>
                if 0 <? st then
                  let '(inp', gs) := press inp t in
                  diffStates tbl t snapshot rest (S i) (<[i := inp']> ins)
                    (evs ++ [EvPress tbl i t gs])
                else
                  match release inp t with
                  | Panic => Panic
                  | Ok (inp', closed) =>
                      diffStates tbl t snapshot rest (S i) (<[i := inp']> ins)
                        (evs ++ [EvRelease tbl i t closed])
                  end
            end
      end
  end.

(** The rotation loop of the dial report. *)
Fixpoint rotateStates (ins : list input) (states : list Z) (i : nat) : list event :=
  match states with
  | [] => []
  | st :: rest =>
      match ins !! i with
      | None => rotateStates ins rest (S i)
      | Some inp =>
          if negb (st =? 0)
          then EvRotate i (i8 st) (rotate inp (i8 st)) :: rotateStates ins rest (S i)
          else rotateStates ins rest (S i)
      end
  end.

(** How one iteration of the loop ends: [continue], [return], or a panic. *)
Inductive stepOutcome : Type :=
| Continue (d : Device) (evs : list event)
| Return (err : option error)
| StepPanic.

(** [int(buf[hi])<<8 | int(buf[lo])] *)
Definition coord (buf : list Z) (lo hi : Z) : option Z :=
  match index buf hi, index buf lo with
  | Some h, Some l => Some (Z.lor (Z.shiftl h 8) l)
  | _, _ => None
  end.

Definition point (buf : list Z) (off : Z) : option Point :=
  match coord buf off (off + 1), coord buf (off + 2) (off + 3) with
  | Some x, Some y => Some (mkPoint x y)
  | _, _ => None
  end.

Definition stepTouchStrip (d : Device) (buf : list Z) : stepOutcome :=
  match touchStripInput d with
  | None => Continue d []
  | Some inp =>
      match index buf 3 with
      | None => StepPanic
      | Some b3 =>
          if (b3 =? 1) || (b3 =? 2) then
            let t := if b3 =? 1 then TOUCH_STRIP_TOUCH_TYPE_SHORT
                     else TOUCH_STRIP_TOUCH_TYPE_LONG in
            if len buf <? 9 then Continue d []
            else
              match point buf 5 with
              | None => StepPanic
              | Some p => Continue d [EvTouch t p (touch inp t p)]
              end
          else if b3 =? 3 then
            if len buf <? 13 then Continue d []
            else
              match point buf 5, point buf 9 with
              | Some o, Some e => Continue d [EvSwipe o e (swipe inp o e)]
              | _, _ => StepPanic
              end
          else Continue d []
      end
  end.

Definition lenInputs (ins : option (list input)) : list input := default [] ins.

Definition stepDial (d : Device) (buf : list Z) (t : Time) : stepOutcome :=
  let m := model_ d in
  match slice buf (dialStart m) (u8 (dialStart m + dialCount m)) with
  | None => StepPanic
  | Some states =>
      match index buf 3 with
      | None => StepPanic
      | Some b3 =>
          if b3 =? 0 then
            match diffStates DialTable t (dialStates d) states 0
                    (lenInputs (dialInputs d)) [] with
            | Panic => StepPanic
            | Ok (ins', evs) =>
                Continue
                  (set_dialStates (set_dialInputs d ((fun _ => ins') <$> dialInputs d)) states)
                  evs
            end
          else if b3 =? 1 then
            Continue d (rotateStates (lenInputs (dialInputs d)) states 0)
          else Continue d []
      end
  end.

Definition stepKeys (d : Device) (buf : list Z) (t : Time) : stepOutcome :=
  let m := model_ d in
  match slice buf (keyStart m) (u8 (keyStart m + keyCount m)) with
  | None => StepPanic
  | Some states =>
      let appended :=
        if 0 <? touchPointCount m then
          match slice buf (touchPointStart m) (u8 (touchPointStart m + touchPointCount m)) with
          | None => None
          | Some tps => Some (states ++ tps)
          end
        else Some states in
      match appended with
      | None => StepPanic
      | Some states =>
          match diffStates KeyTable t (keyStates d) states 0 (lenInputs (inputs d)) [] with
          | Panic => StepPanic
          | Ok (ins', evs) =>
              Continue
                (set_keyStates (set_inputs d ((fun _ => ins') <$> inputs d)) states)
                evs
          end
      end
  end.

(** What [GetInputReport] hands back: a report id with its buffer, or an
    error. *)
Definition inputReport : Type := (Z * list Z) + error.

(** The body of the [for] loop after the stop-signal check: one read, taken
    at clock reading [t]. *)
Definition listenStep (d : Device) (rd : inputReport) (t : Time) : stepOutcome :=
  match rd with
  | inr err => Return (Some (wrap err))
  | inl (id, buf) =>
      if negb (id =? 1)
      then Return (Some (Plainf "streamdeck: got unexpected report id: %d" [id]))
      else
        match index buf 0 with
        | None => StepPanic
        | Some b0 =>
            if (b0 =? 2) && bool_decide (is_Some (touchStripImageSend (model_ d)))
            then stepTouchStrip d buf
            else if (b0 =? 3) && (0 <? dialCount (model_ d))
            then stepDial d buf t
            else stepKeys d buf t
        end
  end.

(** The state snapshots are (re)allocated when their length does not fit. *)
Definition listenInit (d : Device) : Device :=
  let m := model_ d in
  let i := u8 (keyCount m + touchPointCount m) in
  let d := if negb (len (keyStates d) =? i) then set_keyStates d (make_bytes i) else d in
  if negb (len (dialStates d) =? dialCount m)
  then set_dialStates d (make_bytes (dialCount m)) else d.

(** How a run of [Listen] over a finite script of reads ends. *)
Inductive listenOutcome : Type :=
| Polling (d : Device) (evs : list event)
| Stopped (err : option error) (d : Device) (evs : list event)
| Crashed (evs : list event).

Fixpoint listenLoop (d : Device) (script : list (inputReport * Time)) (evs : list event)
  : listenOutcome :=
  match listen d with
  | Some ChanOpen =>
      match script with
      | [] => Polling d evs
      | (rd, t) :: script' =>
          match listenStep d rd t with
          | Continue d' evs' => listenLoop d' script' (evs ++ evs')
          | Return err => Stopped err d evs
          | StepPanic => Crashed evs
          end
      end
  | Some ChanClosed | None => Stopped None d evs
  end.

(** [Listen]: the reads the transport will deliver, each with the clock
    reading of its iteration, are the script. *)
Definition Listen (d : Device) (script : list (inputReport * Time)) : listenOutcome :=
  match validateOpen d with
  | Some err => Stopped (Some err) d []
  | None => listenLoop (listenInit d) script []
  end.

(** ** Derived notions used by the statements *)

Definition hid_setProductId (dev : usbhid) (pid : Z) : usbhid :=
  mkUsbhid (hid_vendorId dev) pid (hid_serialNumber dev)
    (hid_product dev) (hid_isOpen dev) (hid_outputReportLength dev)
    (hid_featureReportLength dev) (hid_outputLog dev) (hid_featureLog dev)
    (hid_writeFault dev) (hid_getFeature dev) (hid_openFault dev)
    (hid_closeFault dev).

(** A run of [release] calls on one slot, counting the channel closes. *)
Fixpoint releaseAll (inp : input) (ts : list Time) : result (input * nat) :=
  match ts with
  | [] => Ok (inp, 0%nat)
  | t :: ts' =>
      match release inp t with
      | Panic => Panic
      | Ok (inp', closed) =>
          match releaseAll inp' ts' with
          | Panic => Panic
          | Ok (inp'', n) => Ok (inp'', ((if closed then 1 else 0) + n)%nat)
          end
      end
  end.

(** A transport for the examples: [outLen]-byte output reports, 32-byte
    feature reports, every request accepted. *)
Definition testTransport (pid outLen : Z) (isOpen : bool) : usbhid :=
  mkUsbhid elgatoVendorID pid "SN0001" "Stream Deck" isOpen outLen 32 [] []
    (fun _ => None) (fun _ => inl (make_bytes 32)) None None.

(** The key identity of a slot. *)
Definition slotKey (inp : input) : option KeyID := key_id <$> in_key inp.

(** The slot table of a device, when it exists, holds the keys [newInputs]
    made: registration only ever appends callbacks. *)
Definition keySlots_ok (d : Device) : Prop :=
  forall ins, inputs d = Some ins ->
    slotKey <$> ins =
    slotKey <$> newInputs (keyCount (model_ d)) (touchPointCount (model_ d)).

(** The per-slot step of the search in [AddKeyHandler]. *)
Definition keyUpd (key : KeyID) (h : handler) (inp : input) : option input :=
  match in_key inp with
  | Some k => if key_id k =? key then Some (withKey inp (Key_addHandler k h)) else None
  | None => None
  end.

(** Stand-ins for the drawing and encoding packages, for the examples: a
    pixel-for-pixel copy, a nearest-neighbour scale, and an encoder that
    lists the channels of the pixels row by row. *)
Definition toRGBA8 (c : Color) : RGBA8 :=
  mkRGBA8 (u8 (Z.shiftr (c_r c) 8)) (u8 (Z.shiftr (c_g c) 8))
    (u8 (Z.shiftr (c_b c) 8)) (u8 (Z.shiftr (c_a c) 8)).

Definition refCopy (dst : RGBA) (dp : Point) (src : Image) (sr : Rectangle) (x y : Z) : RGBA8 :=
  let i := x - X dp in
  let j := y - Y dp in
  if (0 <=? i) && (i <? Dx sr) && (0 <=? j) && (j <? Dy sr)
  then toRGBA8 (At src (X (Min sr) + i) (Y (Min sr) + j))
  else Pix dst x y.

Definition refScale (dst : RGBA) (dr : Rectangle) (src : Image) (sr : Rectangle) (x y : Z)
  : RGBA8 :=
  if Point_In (mkPoint x y) dr
  then toRGBA8 (At src (X (Min sr) + (x - X (Min dr)) * Dx sr / Dx dr)
                       (Y (Min sr) + (y - Y (Min dr)) * Dy sr / Dy dr))
  else Pix dst x y.

Definition rawEncode (img : RGBA) : list Z + error :=
  let r := RGBA_Rect img in
  inl (concat ((fun y => concat ((fun x => let c := RGBA_At img x y in [R c; G c; B c; A c])
                                   <$> seqZ (X (Min r)) (Dx r)))
                 <$> seqZ (Y (Min r)) (Dy r))).

Definition refImageLib : ImageLib :=
  {| draw_Copy := refCopy; draw_BiLinear_Scale := refScale;
     bmp_Encode := rawEncode; jpeg_Encode := rawEncode |}.

(** Devices for the examples. *)
Definition miniDevice (isOpen : bool) : Device :=
  mkDevice (testTransport 0x0063 1024 isOpen) model_mini None None None [] []
    (if isOpen then Some ChanOpen else None) isOpen.

Definition plusDevice (isOpen : bool) : Device :=
  mkDevice (testTransport 0x0084 1024 isOpen) model_plus None None None [] []
    (if isOpen then Some ChanOpen else None) isOpen.

(** The bytes of a report that the key path watches: the key range followed,
    when the model has touch points, by the touch-point range. *)
Definition monitored (m : model) (buf : list Z) : option (list Z) :=
  match slice buf (keyStart m) (u8 (keyStart m + keyCount m)) with
  | None => None
  | Some states =>
      if 0 <? touchPointCount m then
        match slice buf (touchPointStart m) (u8 (touchPointStart m + touchPointCount m)) with
        | None => None
        | Some tps => Some (states ++ tps)
        end
      else Some states
  end.

(** The first byte of the buffer selects neither the touch-strip nor the dial
    interpretation on this model. *)
Definition keyRoute (m : model) (buf : list Z) : bool :=
  match index buf 0 with
  | None => false
  | Some b0 =>
      negb ((b0 =? 2) && bool_decide (is_Some (touchStripImageSend m))) &&
      negb ((b0 =? 3) && (0 <? dialCount m))
  end.

(** The first byte selects the touch-strip interpretation. *)
Definition touchStripRoute (m : model) (buf : list Z) : bool :=
  match index buf 0 with
  | None => false
  | Some b0 => (b0 =? 2) && bool_decide (is_Some (touchStripImageSend m))
  end.

(** A 16-bit value read with the low byte first, and with the high byte
    first. *)
Definition le16 (buf : list Z) (off : nat) : Z :=
  default 0 (buf !! off) + 256 * default 0 (buf !! S off).
Definition be16 (buf : list Z) (off : nat) : Z :=
  256 * default 0 (buf !! off) + default 0 (buf !! S off).

Definition isByte (b : Z) : Prop := 0 <= b < 256.

Definition mk2Device (isOpen : bool) : Device :=
  mkDevice (testTransport 0x0080 1024 isOpen) model_mk2 None None None [] []
    (if isOpen then Some ChanOpen else None) isOpen.

(** A report buffer of [n] zero bytes with the listed bytes stored. *)
Definition reportWith (n : nat) (stores : list (nat * Z)) : list Z :=
  foldr (fun s buf => <[fst s := snd s]> buf) (replicate n 0) stores.

(** An open mk2 with callback 7 on [KEY_2], as [Listen] sees it after its
    set-up, and two of its reports: [KEY_2] down, and all keys up. *)
Definition mk2Listening : Device :=
  listenInit (fst (AddKeyHandler (mk2Device true) 2 (Some 7%nat))).
Definition mk2Key2Down : list Z := reportWith 32 [(4%nat, 1)].
Definition mk2AllUp : list Z := reportWith 32 [].

(** An open Plus with touch callback 4 and swipe callback 5. *)
Definition plusListening : Device :=
  listenInit
    (fst (AddTouchStripTouchHandler
            (fst (AddTouchStripSwipeHandler (plusDevice true) (Some 5%nat)))
            (Some 4%nat))).

(** A touch-strip report of the Plus: a short touch at X = 0x1234, Y = 0x56. *)
Definition plusTouchReport : list Z :=
  reportWith 16 [(0%nat, 2); (3%nat, 1); (5%nat, 0x34); (6%nat, 0x12); (7%nat, 0x56)].

(** A 2x2 picture with four different colours, and its copy onto a 2x2
    canvas by the stand-in library. *)
Definition fourPixels : Image :=
  mkImage (Rect 0 0 2 2)
    (fun x y => mkColor (257 * (10 + x)) (257 * (20 + y)) (257 * (30 + x + 2 * y)) 65535).

Definition fourPixelsScaled : RGBA :=
  genImage_scaled (H := refImageLib) fourPixels (Rect 0 0 2 2)
    (mkRGBA (fun _ _ => mkRGBA8 0 0 0 0) (Rect 0 0 2 2)).

(** The pixel at [(x, y)] of the canvas a codec run produced, if it produced
    one. *)
Definition finalAt (r : RGBA + error) (x y : Z) : option RGBA8 :=
  match r with
  | inl final => Some (RGBA_At final x y)
  | inr _ => None
  end.

(** A positive float64 with a full 53-bit mantissa and exponent in a range. *)
Definition f64_normal (f : float64) (lo hi : Z) : Prop :=
  exists (m : positive) (e : Z),
    f = S754_finite false m e /\ 2 ^ 52 <= Z.pos m < 2 ^ 53 /\ lo <= e <= hi.









(** The slot an edge event is about, and whether the event is a press. *)
Definition eventSlot (ev : event) : option (table * nat * bool) :=
  match ev with
  | EvPress tbl i _ _ => Some (tbl, i, true)
  | EvRelease tbl i _ _ => Some (tbl, i, false)
  | EvRotate _ _ _ | EvTouch _ _ _ | EvSwipe _ _ _ => None
  end.

(** The touch-point and the dial identity of a slot, and the tables that
    hold the slots [newInputs] and [newDialInputs] made. *)
Definition slotTouchPoint (inp : input) : option TouchPointID := tp_id <$> in_tp inp.
Definition slotDial (inp : input) : option DialID := dial_id <$> in_dial inp.

Definition touchPointSlots_ok (d : Device) : Prop :=
  forall ins, inputs d = Some ins ->
    slotTouchPoint <$> ins =
    slotTouchPoint <$> newInputs (keyCount (model_ d)) (touchPointCount (model_ d)).

Definition dialSlots_ok (d : Device) : Prop :=
  forall ins, dialInputs d = Some ins ->
    slotDial <$> ins = slotDial <$> newDialInputs (dialCount (model_ d)).

(** A Neo that is not open. *)
Definition neoClosed : Device :=
  mkDevice (testTransport 0x009a 1024 false) model_neo None None None [] [] None false.

(** ** Notions used by the further properties *)

(** A list of identifiers in ascending order (and so without repeats). *)
Definition ascending (l : list Z) : Prop :=
  forall (i j : nat) (a b : Z), l !! i = Some a -> l !! j = Some b -> (i < j)%nat -> a < b.

(** The pages one run of the framer builds, read off the loop body: page
    numbers count up from [page_] (a byte), each header is the callback's
    result on the header of the page before, each report is header, chunk and
    zero padding, and only the final page can carry the last-page mark. *)
Fixpoint pagesFrom (cb : updateCb) (outLen : Z) (hdr : list Z) (page_ : Z)
    (ps : list page) : Prop :=
  match ps with
  | [] => True
  | p :: rest =>
      pg_page p = page_ /\
      pg_size p = u16 (len (pg_chunk p)) /\
      pg_hdr p = cb hdr page_ (pg_last p) (pg_size p) /\
      pg_report p =
        (pg_hdr p ++ pg_chunk p) ++
        make_bytes (u16 (outLen - u16 (len (pg_hdr p ++ pg_chunk p)))) /\
      (pg_last p = 0 \/ pg_last p = 1) /\
      (rest <> [] -> pg_last p = 0) /\
      pagesFrom cb outLen (pg_hdr p) (u8 (page_ + 1)) rest
  end.

(** The pages whose report the transport accepted: all of them, except the
    final one when its write failed. *)
Definition accepted (o : outcome) (ps : list page) : list page :=
  match o with
  | Returned (Some _) => removelast ps
  | _ => ps
  end.

(** What a write leaves alone in the transport. *)
Definition sameDevice (dev dev' : usbhid) : Prop :=
  hid_vendorId dev' = hid_vendorId dev /\
  hid_productId dev' = hid_productId dev /\
  hid_isOpen dev' = hid_isOpen dev /\
  hid_outputReportLength dev' = hid_outputReportLength dev /\
  hid_featureReportLength dev' = hid_featureReportLength dev /\
  hid_writeFault dev' = hid_writeFault dev /\
  hid_openFault dev' = hid_openFault dev /\
  hid_closeFault dev' = hid_closeFault dev /\
  hid_serialNumber dev' = hid_serialNumber dev /\
  hid_product dev' = hid_product dev /\
  hid_getFeature dev' = hid_getFeature dev.

(** The transport after further accepted writes: the two logs grow, nothing
    else changes. *)
Definition withLogs (dev : usbhid) (out feat : list (Z * list Z)) : usbhid :=
  mkUsbhid (hid_vendorId dev) (hid_productId dev) (hid_serialNumber dev)
    (hid_product dev) (hid_isOpen dev) (hid_outputReportLength dev)
    (hid_featureReportLength dev) (hid_outputLog dev ++ out)
    (hid_featureLog dev ++ feat) (hid_writeFault dev) (hid_getFeature dev)
    (hid_openFault dev) (hid_closeFault dev).

(** The receiving side of a page with a size field: the [size] bytes that
    follow a header of [hdrLen] bytes, [size] being the little-endian 16-bit
    value at [sizeOff]. *)
Definition chunkOf (hdrLen sizeOff : nat) (report : list Z) : list Z :=
  take (Z.to_nat (le16 report sizeOff)) (drop hdrLen report).

(** A transport that accepts every write. *)
Definition neverFails (dev : usbhid) : Prop := forall n, hid_writeFault dev n = None.

(** What a sender that uses the 7-byte header puts on the wire for a
    payload: report id 2, and in every report the kind byte, the index byte,
    the last-page flag, the chunk size (low byte first), the page number and
    a zero, followed by the chunk and zero padding. *)
Definition wire_v2 (kind index : Z) (imgData : list Z) (dev : usbhid)
    (r : usbhid * list page * outcome) : Prop :=
  exists (dev' : usbhid) (pages : list page),
    r = (dev', pages, Returned None) /\
    hid_outputLog dev' = hid_outputLog dev ++ ((fun p => (2, pg_report p)) <$> pages) /\
    concat (chunkOf 7 3 <$> (pg_report <$> pages)) = imgData /\
    forall (i : nat) (p : page), pages !! i = Some p ->
      len (pg_report p) = hid_outputReportLength dev /\
      take 7 (pg_report p) =
        [kind; index; (if bool_decide (S i = length pages) then 1 else 0);
         u8 (len (pg_chunk p)); u8 (Z.shiftr (len (pg_chunk p)) 8); u8 (Z.of_nat i); 0] /\
      pg_report p =
        take 7 (pg_report p) ++ pg_chunk p ++
        make_bytes (hid_outputReportLength dev - 7 - len (pg_chunk p)).


(** The 15-byte header of a page of the mini. *)
Definition miniHeader (key : KeyID) (last page_ : Z) : list Z :=
  [1; page_; 0; last; u8 (1 + u8 (key - KEY_1)); 0; 0; 0; 0; 0; 0; 0; 0; 0; 0].

(** Where the pixel loop puts the pixel [(x, y)] when it does not refuse the
    rotation: the flips first, then the quarter turn. *)
Definition placed (rect : Rectangle) (transform : imageTransform) (x y : Z) : Point :=
  let xf := if flagSet transform imageTransformFlipHorizontal then Dx rect - 1 - x else x in
  let yf := if flagSet transform imageTransformFlipVertical then Dy rect - 1 - y else y in
  if flagSet transform imageTransformRotate90
  then mkPoint yf (Dx rect - 1 - xf)
  else mkPoint xf yf.

(** The blank canvas [image.NewRGBA] returns. *)
Definition blankRGBA (rect : Rectangle) : RGBA := mkRGBA (fun _ _ => mkRGBA8 0 0 0 0) rect.

(** The encoder [genImage] picks for a wire format. *)
Definition encoderOf `{ImageLib} (ifmt : imageFormat) : RGBA -> list Z + error :=
  if ifmt =? imageFormatBMP then bmp_Encode else jpeg_Encode.

(** [genImage] succeeded up to the encoder: its result is the encoder's
    output for a canvas over [rect] that holds every pixel of the scaled
    picture at its place. *)
Definition encodes `{ImageLib} (img : Image) (rect : Rectangle) (ifmt : imageFormat)
    (transform : imageTransform) : Prop :=
  exists final,
    genImage (Some img) rect ifmt transform = Ok (encoderOf ifmt final) /\
    RGBA_Rect final = rect /\
    forall x y, 0 <= x < Dx rect -> 0 <= y < Dy rect ->
      RGBA_At final (X (placed rect transform x y)) (Y (placed rect transform x y)) =
        pixelColor ifmt (RGBA_At (genImage_scaled img rect (blankRGBA rect)) x y).

(** What a slot stands for: its key, touch-point or dial identifier, or the
    touch strip. *)
Definition slotIdent (inp : input)
  : option KeyID * option TouchPointID * option DialID * bool :=
  (key_id <$> in_key inp, tp_id <$> in_tp inp, dial_id <$> in_dial inp,
   bool_decide (is_Some (in_touchStrip inp))).

(** The slot tables of a device, where they exist, stand for the controls of
    the model in the order [newInputs] and [newDialInputs] make them, and the
    touch-strip slot stands for the touch strip. *)
Definition slots_wf (d : Device) : Prop :=
  (forall ins, inputs d = Some ins ->
     slotIdent <$> ins =
     slotIdent <$> newInputs (keyCount (model_ d)) (touchPointCount (model_ d))) /\
  (forall ins, dialInputs d = Some ins ->
     slotIdent <$> ins = slotIdent <$> newDialInputs (dialCount (model_ d))) /\
  (forall inp, touchStripInput d = Some inp -> slotIdent inp = slotIdent newTouchStripInput).

(** A slot is down: a press made it a channel that no release has closed. *)
Definition slotDown (inp : input) : Prop :=
  channel inp = Some ChanOpen /\ released inp = 0.

(** Wherever the snapshot shows a control down, the slot of that control, if
    the table has one, is down. *)
Definition pressedOK (snapshot : list Z) (ins : list input) : Prop :=
  forall (i : nat) (inp : input) (old : Z),
    ins !! i = Some inp -> snapshot !! i = Some old -> old <> 0 -> slotDown inp.

(** The byte ranges of a model's reports stay within a byte. *)
Definition modelFits (m : model) : Prop :=
  0 <= keyStart m /\ 0 <= keyCount m /\ keyStart m + keyCount m < 256 /\
  0 <= touchPointStart m /\ 0 <= touchPointCount m /\
  touchPointStart m + touchPointCount m < 256 /\
  keyCount m + touchPointCount m < 256 /\
  0 <= dialStart m /\ 0 <= dialCount m /\ dialStart m + dialCount m < 256.

(** A read the loop can interpret: an error, a report with another id, or a
    report of bytes long enough for every range the model reads. *)
Definition wellFormed (m : model) (rd : inputReport) : Prop :=
  match rd with
  | inr _ => True
  | inl (id, buf) =>
      id = 1 ->
      Forall isByte buf /\ 4 <= len buf /\
      keyStart m + keyCount m <= len buf /\
      touchPointStart m + touchPointCount m <= len buf /\
      dialStart m + dialCount m <= len buf
  end.

(** The state the polling loop keeps between iterations. *)
Definition listenInv (d : Device) : Prop :=
  modelFits (model_ d) /\
  len (keyStates d) = keyCount (model_ d) + touchPointCount (model_ d) /\
  len (dialStates d) = dialCount (model_ d) /\
  pressedOK (keyStates d) (lenInputs (inputs d)) /\
  pressedOK (dialStates d) (lenInputs (dialInputs d)).

(** A feature report: [n] bytes, the first ones given, the rest zero. *)
Definition featurePayload (n : Z) (first : list Z) : list Z :=
  first ++ make_bytes (n - len first).

(** A transport whose feature reports 4 and 5 hold a version string, and an
    open mk2 on it. *)
Definition fwTransport : usbhid :=
  mkUsbhid elgatoVendorID 0x0080 "SN0002" "Stream Deck MK.2" true 1024 32 [] []
    (fun _ => None) (fun _ => inl [5; 12; 60; 200; 7; 49; 46; 48; 0; 51; 0; 0]) None None.

Definition fwDevice : Device :=
  mkDevice fwTransport model_mk2 None None None [] [] (Some ChanOpen) true.

(** ** Device: enumeration ([Enumerate], [GetDevice])

    [usbhid.Enumerate(enumerateFunc)] belongs to the transport library; its
    result, the transports found or the error of the bus, is the argument
    [found] of the two functions.  A string operand of a message is kept as
    its bytes, a list of strings as the bytes of each string followed by a
    zero. *)

Definition strBytes (s : string) : list Z :=
  (fun a => Z.of_N (Ascii.N_of_ascii a)) <$> list_ascii_of_string s.

Definition serialNumbers (devices : list usbhid) : list Z :=
  concat ((fun dev => strBytes (hid_serialNumber dev) ++ [0]) <$> devices).

Fixpoint Enumerate_loop (devices : list usbhid) (rv : list Device) : list Device + error :=
  match devices with
  | [] => inl rv
  | dev :: rest =>
      match getModel dev with
      | inr err => inr (wrap err)
      | inl model => Enumerate_loop rest (rv ++ [newDevice dev model])
      end
  end.

Definition Enumerate (found : list usbhid + error) : list Device + error :=
  match found with
  | inr err => inr (wrap err)
  | inl devices => Enumerate_loop devices []
  end.

Fixpoint GetDevice_loop (devices : list usbhid) (serialNumber : string)
  : option (Device + error) :=
  match devices with
  | [] => None
  | dev :: rest =>
      if bool_decide (hid_serialNumber dev = serialNumber)
      then Some match getModel dev with
                | inr err => inr (wrap err)
                | inl model => inl (newDevice dev model)
                end
      else GetDevice_loop rest serialNumber
  end.

Definition GetDevice (found : list usbhid + error) (serialNumber : string)
  : Device + error :=
  match found with
  | inr err => inr (wrap err)
  | inl devices =>
      if len devices =? 0
      then inr (Wrapf "streamdeck: %w [%q]" (Sentinel ErrNoDeviceFound)
                  (strBytes serialNumber))
      else if bool_decide (serialNumber = EmptyString)
      then
        match devices with
        | [dev] =>
            match getModel dev with
            | inr err => inr (wrap err)
            | inl model => inl (newDevice dev model)
            end
        | _ => inr (Wrapf "streamdeck: %w %q" (Sentinel ErrMoreThanOneDeviceFound)
                      (serialNumbers devices))
        end
      else
        match GetDevice_loop devices serialNumber with
        | Some r => r
        | None => inr (Wrapf "streamdeck: %w [%q]" (Sentinel ErrNoDeviceFound)
                         (strBytes serialNumber))
        end
  end.

(** Two supported transports with different serial numbers. *)
Definition twoFound : list usbhid :=
  [testTransport 0x0080 1024 false;
   mkUsbhid elgatoVendorID 0x0084 "SN0009" "Stream Deck +" false 1024 32 [] []
     (fun _ => None) (fun _ => inl (make_bytes 32)) None None].

(** What a display operation can do to a device: further reports in the
    logs of its transport, and nothing else. *)
Definition onlyWrites (d d' : Device) : Prop :=
  exists out feat, d' = set_dev d (withLogs (dev d) out feat).

(** An open Neo on a transport with 32-byte feature reports. *)
Definition neoDevice (isOpen : bool) : Device :=
  mkDevice (testTransport 0x009a 1024 isOpen) model_neo None None None [] []
    (Some ChanOpen) true.

(** A stand-in for the examples whose encoders return a fixed frame of 2500
    bytes, whatever the canvas. *)
Definition frameImageLib : ImageLib :=
  {| draw_Copy := refCopy; draw_BiLinear_Scale := refScale;
     bmp_Encode := fun _ => inl (replicate 2500 9);
     jpeg_Encode := fun _ => inl (replicate 2500 9) |}.

(** * Properties *)

(** ** Model registry *)

Lemma models_lookup_Some (pid : Z) (m : model) :
  models !! pid = Some m ->
  (pid = 0x0063 /\ m = model_mini) \/ (pid = 0x0080 /\ m = model_mk2) \/
  (pid = 0x0084 /\ m = model_plus) \/ (pid = 0x009a /\ m = model_neo).
Proof.
  unfold models. intros Hl.
  repeat (apply lookup_insert_Some in Hl as [[<- <-] | [_ Hl]]; [naive_solver |]).
  rewrite lookup_empty in Hl. discriminate.
Qed.

Lemma modelAliases_lookup_Some (pid canon : Z) :
  modelAliases !! pid = Some canon -> pid = 0x006d /\ canon = 0x0080.
Proof.
  unfold modelAliases. intros Hl. apply lookup_singleton_Some in Hl as [<- <-]. done.
Qed.

(** C8.  Resolution fails with the unsupported-device error for a product id
    that is neither in the registry nor an alias; an alias resolves to the
    descriptor of its canonical id; a foreign vendor id never resolves. *)
Theorem getModel_resolution :
  (forall dev : usbhid,
      hid_vendorId dev = elgatoVendorID ->
      models !! hid_productId dev = None ->
      modelAliases !! hid_productId dev = None ->
      getModel dev =
        inr (Wrapf "%w: device not supported: %04x:%04x"
               (Sentinel ErrDeviceEnumerationFailed)
               [hid_vendorId dev; hid_productId dev])) /\
  (forall (dev : usbhid) (canon : Z),
      modelAliases !! hid_productId dev = Some canon ->
      getModel dev = getModel (hid_setProductId dev canon) /\
      (hid_vendorId dev = elgatoVendorID ->
       exists md, models !! canon = Some md /\ getModel dev = inl md)) /\
  (forall dev : usbhid,
      hid_vendorId dev <> elgatoVendorID ->
      exists e, getModel dev = inr e /\ errors_Is e ErrDeviceEnumerationFailed = true /\
                e = Wrapf "%w: not an Elgato device: %04x"
                      (Sentinel ErrDeviceEnumerationFailed) [hid_vendorId dev]).
Proof.
  split; [| split].
  - intros dev Hv Hm Ha. unfold getModel.
    rewrite Hv, Z.eqb_refl. simpl. rewrite Ha, Hm. reflexivity.
  - intros dev canon Ha.
    destruct (modelAliases_lookup_Some _ _ Ha) as [Hp ->].
    assert (Hc : modelAliases !! 0x0080 = None) by (vm_compute; reflexivity).
    assert (Hk : models !! 0x0080 = Some model_mk2) by reflexivity.
    split.
    + unfold getModel. simpl. rewrite Ha, Hc, Hk.
      destruct (negb (hid_vendorId dev =? elgatoVendorID)); reflexivity.
    + intros Hv. exists model_mk2. split; [exact Hk |].
      unfold getModel. rewrite Hv, Z.eqb_refl. simpl. rewrite Ha, Hk. reflexivity.
  - intros dev Hv. unfold getModel.
    apply Z.eqb_neq in Hv. rewrite Hv. simpl. eexists. split; [reflexivity |].
    split; reflexivity.
Qed.

Lemma getModel_resolution_witness :
  getModel (testTransport 0x1234 1024 false) =
    inr (Wrapf "%w: device not supported: %04x:%04x"
           (Sentinel ErrDeviceEnumerationFailed) [elgatoVendorID; 0x1234]) /\
  getModel (testTransport 0x006d 1024 false) =
    getModel (hid_setProductId (testTransport 0x006d 1024 false) 0x0080).
Proof.
  split.
  - apply (proj1 getModel_resolution (testTransport 0x1234 1024 false));
      vm_compute; reflexivity.
  - apply (proj1 (proj2 getModel_resolution) (testTransport 0x006d 1024 false) 0x0080).
    vm_compute; reflexivity.
Defined.

(** ** Key identifiers *)

Lemma models_keyCount (pid : Z) (m : model) :
  models !! pid = Some m -> 0 < keyCount m < 255.
Proof.
  intros Hl. apply models_lookup_Some in Hl.
  destruct Hl as [[_ ->] | [[_ ->] | [[_ ->] | [_ ->]]]]; simpl; lia.
Qed.

Lemma validateKey_None (d : Device) (k : KeyID) :
  0 <= keyCount (model_ d) < 255 ->
  validateKey d k = None <-> 1 <= k <= keyCount (model_ d).
Proof.
  intros Hc. unfold validateKey, KEY_1, u8.
  rewrite Z.mod_small by lia.
  destruct (k <? 1) eqn:E1; destruct (1 + keyCount (model_ d) <=? k) eqn:E2; simpl;
    split; intros Hk; try discriminate; try reflexivity; lia.
Qed.

Lemma validateKey_Some (d : Device) (k : KeyID) (e : error) :
  validateKey d k = Some e -> e = Wrapf "%w: %s" (Sentinel ErrKeyInvalid) [k].
Proof.
  unfold validateKey.
  destruct ((k <? KEY_1) || (u8 (KEY_1 + keyCount (model_ d)) <=? k)); congruence.
Qed.

Lemma keyUpd_is_Some (key : KeyID) (h : handler) (inp : input) :
  is_Some (keyUpd key h inp) <-> slotKey inp = Some key.
Proof.
  unfold keyUpd, slotKey. destruct (in_key inp) as [k |]; simpl.
  - destruct (key_id k =? key) eqn:E.
    + apply Z.eqb_eq in E. subst. split; eauto.
    + apply Z.eqb_neq in E. split; [intros [? ?]; discriminate | congruence].
  - split; [intros [? ?]; discriminate | discriminate].
Qed.

Lemma updateFirst_is_Some (upd : input -> option input) (ins : list input) :
  is_Some (updateFirst upd ins) <-> exists inp, inp ∈ ins /\ is_Some (upd inp).
Proof.
  induction ins as [| i rest IH]; simpl.
  - split; [intros [? ?]; discriminate | intros (inp & Hin & _); inversion Hin].
  - destruct (upd i) as [i' |] eqn:E.
    + split; [intros _; exists i; split; [left | rewrite E; eauto] | eauto].
    + rewrite fmap_is_Some, IH. split.
      * intros (inp & Hin & Hs). exists inp. split; [right; exact Hin | exact Hs].
      * intros (inp & Hin & Hs). apply elem_of_cons in Hin as [-> | Hin].
        -- rewrite E in Hs. destruct Hs; discriminate.
        -- eauto.
Qed.

Lemma updateFirst_key_is_Some (key : KeyID) (h : handler) (ins : list input) :
  is_Some (updateFirst (keyUpd key h) ins) <-> Some key ∈ (slotKey <$> ins).
Proof.
  rewrite updateFirst_is_Some, list_elem_of_fmap. split.
  - intros (inp & Hin & Hs). exists inp. apply keyUpd_is_Some in Hs. eauto.
  - intros (inp & Hk & Hin). exists inp. split; [exact Hin |].
    apply keyUpd_is_Some. congruence.
Qed.

Lemma slotKey_newInputs (kc tpc : Z) (key : KeyID) :
  0 <= kc < 255 ->
  Some key ∈ (slotKey <$> newInputs kc tpc) <-> 1 <= key <= kc.
Proof.
  intros Hc. unfold newInputs, byteRange, KEY_1, u8.
  rewrite (Z.mod_small (kc + 1)) by lia.
  rewrite fmap_app, elem_of_app, <- !list_fmap_compose.
  rewrite !list_elem_of_fmap. split.
  - intros [(i & Hi & Hin) | (i & Hi & _)].
    + apply elem_of_seqZ in Hin. simpl in Hi. inversion Hi. lia.
    + simpl in Hi. discriminate.
  - intros Hk. left. exists key. split; [reflexivity |].
    apply elem_of_seqZ. lia.
Qed.

Lemma AddKeyHandler_keyUpd (d : Device) (key : KeyID) (h : handler) :
  validateKey d key = None ->
  AddKeyHandler d key (Some h) =
    match updateFirst (keyUpd key h) (inputsOrNew d) with
    | Some ins' => (set_inputs d (Some ins'), None)
    | None => (set_inputs d (Some (inputsOrNew d)),
               Some (Wrapf "%w: %s" (Sentinel ErrKeyInvalid) [key]))
    end.
Proof. intros Hv. unfold AddKeyHandler. rewrite Hv. reflexivity. Qed.

Lemma AddKeyHandler_accepts (d : Device) (key : KeyID) (h : handler) :
  0 <= keyCount (model_ d) < 255 -> keySlots_ok d ->
  snd (AddKeyHandler d key (Some h)) = None <-> 1 <= key <= keyCount (model_ d).
Proof.
  intros Hc Hok. destruct (validateKey d key) as [e |] eqn:Hv.
  - unfold AddKeyHandler. rewrite Hv. simpl. split; [discriminate |].
    intros Hk. apply validateKey_None in Hk; [congruence | exact Hc].
  - rewrite AddKeyHandler_keyUpd by exact Hv.
    pose proof (proj1 (validateKey_None d key Hc) Hv) as Hk.
    assert (Hs : is_Some (updateFirst (keyUpd key h) (inputsOrNew d))).
    { apply updateFirst_key_is_Some. unfold inputsOrNew.
      destruct (inputs d) as [ins |] eqn:Hi.
      - rewrite (Hok ins Hi). apply slotKey_newInputs; assumption.
      - apply slotKey_newInputs; assumption. }
    destruct Hs as [ins' ->]. simpl. tauto.
Qed.

(** C10.  Key identifiers are 1-based: on a device whose model comes from
    the registry, a key id is accepted exactly when it lies between 1 and
    the model's key count; 0 is rejected with the invalid-key error and the
    key count itself is the largest accepted id.  The same range decides
    handler registration and, on an open device, the image operations. *)
Theorem keyID_one_based `{ImageLib} (d : Device) (pid : Z) (k : KeyID) :
  models !! pid = Some (model_ d) ->
  (validateKey d k = None <-> 1 <= k <= keyCount (model_ d)) /\
  (validateKey d k <> None ->
   validateKey d k = Some (Wrapf "%w: %s" (Sentinel ErrKeyInvalid) [k])) /\
  validateKey d 0 = Some (Wrapf "%w: %s" (Sentinel ErrKeyInvalid) [0]) /\
  validateKey d (keyCount (model_ d)) = None /\
  (keyCount (model_ d) < k -> validateKey d k <> None) /\
  (forall h, keySlots_ok d ->
     snd (AddKeyHandler d k (Some h)) = None <-> 1 <= k <= keyCount (model_ d)) /\
  (forall img, IsOpen d = true ->
     (1 <= k <= keyCount (model_ d) -> SetKeyImage d k img = setKeyImage d k img) /\
     (~ 1 <= k <= keyCount (model_ d) ->
      SetKeyImage d k img =
        (d, Returned (Some (Wrapf "%w: %s" (Sentinel ErrKeyInvalid) [k]))))).
Proof.
  intros Hm. pose proof (models_keyCount _ _ Hm) as Hc.
  assert (Hc' : 0 <= keyCount (model_ d) < 255) by lia.
  pose proof (validateKey_None d) as Hiff.
  split; [apply Hiff; exact Hc' |].
  split.
  { destruct (validateKey d k) as [e |] eqn:E; [| congruence].
    intros _. f_equal. eapply validateKey_Some; eassumption. }
  split.
  { destruct (validateKey d 0) as [e |] eqn:E.
    - f_equal. eapply validateKey_Some; eassumption.
    - apply Hiff in E; [lia | exact Hc']. }
  split; [apply Hiff; [exact Hc' | lia] |].
  split; [intros Hk Hv; apply Hiff in Hv; [lia | exact Hc'] |].
  split; [intros h Hok; apply AddKeyHandler_accepts; assumption |].
  intros img Ho. unfold SetKeyImage, validateOpen. rewrite Ho. simpl. split.
  - intros Hk. apply Hiff in Hk; [| exact Hc']. rewrite Hk. reflexivity.
  - intros Hk. destruct (validateKey d k) as [e |] eqn:E.
    + apply validateKey_Some in E. subst. reflexivity.
    + apply Hiff in E; [contradiction | exact Hc'].
Qed.

Lemma keyID_one_based_witness :
  validateKey (miniDevice true) 0 =
    Some (Wrapf "%w: %s" (Sentinel ErrKeyInvalid) [0]) /\
  validateKey (miniDevice true) 6 = None /\
  (validateKey (miniDevice true) 7 = None <-> 1 <= 7 <= 6).
Proof.
  assert (Hm : models !! 0x0063 = Some (model_ (miniDevice true))) by reflexivity.
  pose proof (keyID_one_based (H := refImageLib) (miniDevice true) 0x0063 7 Hm)
    as (Hiff & _ & H0 & Hmax & _).
  split; [exact H0 |]. split; [exact Hmax | exact Hiff].
Defined.

(** ** Input slots: release *)

Lemma release_ignored (inp : input) (t : Time) :
  released inp <> 0 -> release inp t = Ok (inp, false).
Proof.
  intros Hr. unfold release, Time_IsZero.
  apply Z.eqb_neq in Hr. rewrite Hr. reflexivity.
Qed.

Lemma release_after_press (inp : input) (t0 t : Time) :
  release (fst (press inp t0)) t =
    Ok (mkInput (Some ChanClosed) 0 t (Time_Sub t t0)
          (in_key inp) (in_tp inp) (in_dial inp) (in_touchStrip inp), true).
Proof. reflexivity. Qed.

Lemma Time_Sub_exact (t u : Time) :
  minInt <= t - u <= maxInt -> Time_Sub t u = t - u.
Proof.
  intros Hr. unfold Time_Sub.
  destruct (t - u <? minInt) eqn:E1; [lia |].
  destruct (maxInt <? t - u) eqn:E2; [lia | reflexivity].
Qed.


Lemma releaseAll_ignored (inp : input) (ts : list Time) :
  released inp <> 0 -> releaseAll inp ts = Ok (inp, 0%nat).
Proof.
  intros Hr. induction ts as [| t ts IH]; simpl; [reflexivity |].
  rewrite release_ignored by exact Hr. rewrite IH. reflexivity.
Qed.

(** C9.  A release on a slot that is already released changes nothing and
    does not close the channel; the first release after a press records the
    release instant, sets the duration to release minus press and closes the
    channel of that press; over any run of further releases the channel is
    closed exactly once. *)
Theorem release_idempotent (inp : input) (t0 t : Time) (ts : list Time) :
  t <> 0 ->
  (forall (slot : input) (t' : Time),
      released slot <> 0 -> release slot t' = Ok (slot, false)) /\
  (exists slot',
      release (fst (press inp t0)) t = Ok (slot', true) /\
      channel (fst (press inp t0)) = Some ChanOpen /\
      channel slot' = Some ChanClosed /\
      released slot' = t /\
      duration slot' = Time_Sub t t0 /\
      (minInt <= t - t0 <= maxInt -> duration slot' = t - t0) /\
      (forall t', release slot' t' = Ok (slot', false)) /\
      releaseAll (fst (press inp t0)) (t :: ts) = Ok (slot', 1%nat)).
Proof.
  intros Ht. split; [apply release_ignored |].
  eexists. split; [apply release_after_press |].
  split; [reflexivity |]. split; [reflexivity |]. split; [reflexivity |].
  split; [reflexivity |].
  split; [intros Hr; simpl; apply Time_Sub_exact; exact Hr |].
  split; [intros t'; apply release_ignored; simpl; exact Ht |].
  cbn [releaseAll]. rewrite release_after_press.
  rewrite releaseAll_ignored by (simpl; exact Ht). reflexivity.
Qed.

Lemma release_idempotent_witness :
  releaseAll (fst (press (newKeyInput 1) 1000)) [1250; 1300; 1400] =
    Ok (mkInput (Some ChanClosed) 0 1250 250 (Some (mkKey 1 [])) None None None, 1%nat).
Proof.
  assert (Ht : (1250 : Z) <> 0) by lia.
  destruct (release_idempotent (newKeyInput 1) 1000 1250 [1300; 1400] Ht)
    as (_ & slot' & Hrel & _ & _ & _ & _ & _ & _ & Hall).
  rewrite release_after_press in Hrel. inversion Hrel; subst slot'. exact Hall.
Defined.

(** ** Protocol framer *)

Lemma len_app {A} (l1 l2 : list A) : len (l1 ++ l2) = len l1 + len l2.
Proof. unfold len. rewrite length_app. lia. Qed.

Lemma len_nonneg {A} (l : list A) : 0 <= len l.
Proof. unfold len. lia. Qed.

Lemma len_make_bytes (n : Z) : 0 <= n -> len (make_bytes n) = n.
Proof. intros Hn. unfold len, make_bytes. rewrite length_replicate. lia. Qed.

Lemma slice_Some {A} (l : list A) (lo hi : Z) :
  0 <= lo -> lo <= hi -> hi <= len l ->
  slice l lo hi = Some (take (Z.to_nat (hi - lo)) (drop (Z.to_nat lo) l)).
Proof.
  intros H0 H1 H2. unfold slice.
  destruct (0 <=? lo) eqn:E0; [| lia].
  destruct (lo <=? hi) eqn:E1; [| lia].
  destruct (hi <=? len l) eqn:E2; [| lia].
  reflexivity.
Qed.

Lemma len_slice {A} (l s : list A) (lo hi : Z) :
  slice l lo hi = Some s -> len s = hi - lo.
Proof.
  unfold slice. destruct (0 <=? lo) eqn:E0; [| discriminate].
  destruct (lo <=? hi) eqn:E1; [| discriminate].
  destruct (hi <=? len l) eqn:E2; [| discriminate].
  simpl. intros [= <-]. unfold len in *.
  rewrite length_take, length_drop. lia.
Qed.

Lemma SetOutputReport_accepts (dev : usbhid) (id : Z) (payload : list Z) :
  (forall n, hid_writeFault dev n = None) ->
  exists dev',
    SetOutputReport dev id payload = (dev', None) /\
    hid_outputLog dev' = hid_outputLog dev ++ [(id, payload)] /\
    hid_outputReportLength dev' = hid_outputReportLength dev /\
    hid_writeFault dev' = hid_writeFault dev.
Proof.
  intros Hf. unfold SetOutputReport. rewrite Hf. eexists. split; [reflexivity |].
  simpl. auto.
Qed.

Section ImageSend.
Variables (id : Z) (imgData : list Z) (cb : updateCb).
Hypothesis cb_len : forall h p l s, length (cb h p l s) = length h.

Lemma imageSend_loop_ok (fuel : nat) :
  forall (dev : usbhid) (hdr : list Z) (start page_ : Z) (pages : list page),
    (forall n, hid_writeFault dev n = None) ->
    len hdr < hid_outputReportLength dev < 65536 ->
    len imgData + (hid_outputReportLength dev - len hdr) <= 65536 ->
    0 <= start ->
    (start < len imgData \/ (start = 0 /\ imgData = [])) ->
    len imgData - start < Z.of_nat fuel ->
    exists (dev' : usbhid) (pre : list page) (lst : page),
      imageSend_loop fuel dev id hdr imgData cb start page_ pages =
        (dev', pages ++ pre ++ [lst], Returned None) /\
      concat (pg_chunk <$> (pre ++ [lst])) = drop (Z.to_nat start) imgData /\
      Forall (fun p => pg_last p = 0) pre /\ pg_last lst = 1 /\
      Forall (fun p =>
                len (pg_report p) = hid_outputReportLength dev /\
                len (pg_hdr p) = len hdr /\
                pg_size p = len (pg_chunk p) /\
                pg_report p =
                  pg_hdr p ++ pg_chunk p ++
                  make_bytes (hid_outputReportLength dev - len hdr - len (pg_chunk p)))
             (pre ++ [lst]) /\
      hid_outputLog dev' =
        hid_outputLog dev ++ ((fun p => (id, pg_report p)) <$> (pre ++ [lst])).
Proof.
  induction fuel as [| fuel IH]; intros dev hdr start page_ pages Hf Hcap Hfit H0 Hst Hfuel.
  { exfalso. assert (0 <= len imgData) by apply len_nonneg. simpl in Hfuel.
    destruct Hst as [Hst | [-> ->]]; [lia | unfold len in Hfuel; simpl in Hfuel; lia]. }
  assert (Hl0 : 0 <= len imgData) by apply len_nonneg.
  assert (Hh0 : 0 <= len hdr) by apply len_nonneg.
  set (outlen := hid_outputReportLength dev) in *.
  set (c := outlen - len hdr) in *.
  assert (Hstl : start <= len imgData).
  { destruct Hst as [Hst | [-> _]]; lia. }
  assert (Hsc : start + c < 65536).
  { destruct Hst as [Hst | [-> _]]; lia. }
  assert (Hu1 : u16 (len hdr) = len hdr) by (unfold u16; apply Z.mod_small; lia).
  assert (Hu2 : u16 (len imgData) = len imgData) by (unfold u16; apply Z.mod_small; lia).
  assert (Hend : u16 (start + outlen - u16 (len hdr)) = start + c).
  { rewrite Hu1. unfold u16. rewrite Z.mod_small by lia. unfold c. lia. }
  cbn [imageSend_loop]. fold outlen. rewrite Hend, Hu2.
  destruct (len imgData <=? start + c) eqn:Elast.
  - (* the last page *)
    apply Z.leb_le in Elast.
    rewrite slice_Some by lia.
    set (chunk := take (Z.to_nat (len imgData - start)) (drop (Z.to_nat start) imgData)).
    assert (Hchunk : chunk = drop (Z.to_nat start) imgData).
    { unfold chunk. apply take_ge. rewrite length_drop. unfold len. lia. }
    assert (Hclen : len chunk = len imgData - start).
    { rewrite Hchunk. unfold len. rewrite length_drop. unfold len in Hstl. lia. }
    set (hdr' := cb hdr page_ 1 (u16 (len chunk))).
    assert (Hh' : len hdr' = len hdr) by (unfold len, hdr'; rewrite cb_len; reflexivity).
    assert (Hpad : u16 (outlen - u16 (len (hdr' ++ chunk))) = outlen - len hdr - len chunk).
    { rewrite len_app, Hh'. unfold u16. rewrite (Z.mod_small (len hdr + len chunk)) by lia.
      rewrite Z.mod_small by lia. lia. }
    rewrite Hpad.
    destruct (SetOutputReport_accepts dev id
                ((hdr' ++ chunk) ++ make_bytes (outlen - len hdr - len chunk)) Hf)
      as (dev' & -> & Hlog & _ & _).
    simpl. exists dev', []. eexists. split; [reflexivity |].
    simpl. rewrite app_nil_r.
    split; [exact Hchunk |]. split; [constructor |]. split; [reflexivity |].
    split.
    + constructor; [| constructor]. simpl.
      split.
      { rewrite !len_app, len_make_bytes, Hh' by lia. lia. }
      split; [exact Hh' |].
      split; [unfold u16; apply Z.mod_small; lia |].
      rewrite <- app_assoc. reflexivity.
    + rewrite Hlog. reflexivity.
  - (* a full page, and the loop goes on *)
    apply Z.leb_gt in Elast.
    rewrite slice_Some by lia.
    replace (start + c - start) with c by lia.
    set (chunk := take (Z.to_nat c) (drop (Z.to_nat start) imgData)).
    assert (Hclen : len chunk = c).
    { unfold chunk, len. rewrite length_take, length_drop. unfold len in Elast. lia. }
    set (hdr' := cb hdr page_ 0 (u16 (len chunk))).
    assert (Hh' : len hdr' = len hdr) by (unfold len, hdr'; rewrite cb_len; reflexivity).
    assert (Hpad : u16 (outlen - u16 (len (hdr' ++ chunk))) = outlen - len hdr - len chunk).
    { rewrite len_app, Hh'. unfold u16. rewrite (Z.mod_small (len hdr + len chunk)) by lia.
      rewrite Z.mod_small by lia. lia. }
    rewrite Hpad.
    destruct (SetOutputReport_accepts dev id
                ((hdr' ++ chunk) ++ make_bytes (outlen - len hdr - len chunk)) Hf)
      as (dev' & -> & Hlog & Hout & Hfault).
    simpl ((0 =? 0)). cbv iota.
    replace (u16 (start + outlen - u16 (len hdr'))) with (start + c).
    2:{ rewrite Hh', Hu1. unfold u16. rewrite Z.mod_small by lia. unfold c. lia. }
    set (pg := mkPage page_ 0 (u16 (len chunk)) chunk hdr'
                 ((hdr' ++ chunk) ++ make_bytes (outlen - len hdr - len chunk))).
    destruct (IH dev' hdr' (start + c) (u8 (page_ + 1)) (pages ++ [pg]))
      as (dev'' & pre & lst & Hrun & Hcat & Hpre & Hlst & Hall & Hlog').
    + intros n. rewrite Hfault. apply Hf.
    + rewrite Hout, Hh'. exact Hcap.
    + rewrite Hout, Hh'. exact Hfit.
    + lia.
    + left. lia.
    + lia.
    + exists dev'', (pg :: pre), lst.
      split.
      { rewrite Hrun. rewrite <- app_assoc. reflexivity. }
      split.
      { change ((pg :: pre) ++ [lst]) with (pg :: (pre ++ [lst])).
        rewrite fmap_cons. cbn [concat]. rewrite Hcat. simpl pg_chunk. unfold chunk.
        replace (Z.to_nat (start + c)) with (Z.to_nat start + Z.to_nat c)%nat by lia.
        rewrite <- drop_drop. apply take_drop. }
      split; [constructor; [reflexivity | exact Hpre] |].
      split; [exact Hlst |].
      split.
      { change ((pg :: pre) ++ [lst]) with (pg :: (pre ++ [lst])).
        constructor.
        - simpl. split.
          { rewrite !len_app, len_make_bytes, Hh' by lia. lia. }
          split; [exact Hh' |].
          split; [unfold u16; apply Z.mod_small; lia |].
          rewrite <- app_assoc. reflexivity.
        - rewrite Hout, Hh' in Hall. exact Hall. }
      rewrite Hlog', Hlog. rewrite <- app_assoc. reflexivity.
Qed.
End ImageSend.

(** Inside the 16-bit range the framer is exact: for a payload that, with one
    chunk added, stays within 65536 bytes, a callback that leaves the header
    length alone and a transport that accepts every write, the send returns
    without error, the chunks concatenate to the payload, the last page and
    only the last page is marked, and every report is header, chunk and zero
    padding up to the output-report length. *)
Lemma imageSend_pages_correct (dev : usbhid) (id : Z) (hdr imgData : list Z) (cb : updateCb) :
  (forall h p l s, length (cb h p l s) = length h) ->
  (forall n, hid_writeFault dev n = None) ->
  len hdr < hid_outputReportLength dev < 65536 ->
  len imgData + (hid_outputReportLength dev - len hdr) <= 65536 ->
  exists (dev' : usbhid) (pre : list page) (lst : page),
    imageSend dev id hdr imgData (Some cb) = (dev', pre ++ [lst], Returned None) /\
    concat (pg_chunk <$> (pre ++ [lst])) = imgData /\
    Forall (fun p => pg_last p = 0) pre /\ pg_last lst = 1 /\
    Forall (fun p =>
              len (pg_report p) = hid_outputReportLength dev /\
              len (pg_hdr p) = len hdr /\
              pg_size p = len (pg_chunk p) /\
              pg_report p =
                pg_hdr p ++ pg_chunk p ++
                make_bytes (hid_outputReportLength dev - len hdr - len (pg_chunk p)))
           (pre ++ [lst]) /\
    hid_outputLog dev' =
      hid_outputLog dev ++ ((fun p => (id, pg_report p)) <$> (pre ++ [lst])).
Proof.
  intros Hcb Hf Hcap Hfit. unfold imageSend.
  destruct (imageSend_loop_ok id imgData cb Hcb (S (length imgData)) dev hdr 0 0 [])
    as (dev' & pre & lst & Hrun & Hrest); try assumption; try lia.
  - destruct imgData as [| b rest]; [right; split; reflexivity |].
    left. unfold len. simpl. lia.
  - unfold len. lia.
  - exists dev', pre, lst. split; [exact Hrun | exact Hrest].
Qed.

Example imageSend_three_pages :
  let '(dev', pages, o) :=
    keyImageSend_v2 (testTransport 0x0080 1024 true) 1 (replicate (Z.to_nat 3000) 7) in
  o = Returned None /\
  (fun p => (pg_page p, pg_last p, pg_size p, len (pg_report p))) <$> pages =
    [(0, 0, 1017, 1024); (1, 0, 1017, 1024); (2, 1, 966, 1024)] /\
  concat (pg_chunk <$> pages) = replicate (Z.to_nat 3000) 7.
Proof. vm_compute. repeat split; reflexivity. Qed.

(** C1.  The offsets of [imageSend] are 16-bit: a payload of 65536 bytes has
    truncated length 0, so the first page is already the last one and carries
    no payload byte; the send returns without error, having written one
    report, and the payload is lost. *)
Theorem imageSend_payload_65536_lost :
  let payload := replicate (Z.to_nat 65536) 7 in
  let '(dev', pages, o) :=
    touchStripImageSend_plus (testTransport 0x0084 1024 true) payload (Rect 0 0 800 100) in
  len payload = 65536 /\
  o = Returned None /\
  (fun p => (pg_page p, pg_last p, pg_size p, pg_chunk p)) <$> pages = [(0, 1, 0, [])] /\
  concat (pg_chunk <$> pages) = [] /\
  length (hid_outputLog dev') = 1%nat.
Proof. vm_compute. repeat split; reflexivity. Qed.

(** The same defect one byte earlier: with 65535 payload bytes and 1017-byte
    chunks the end offset of the 65th page wraps around, and the slice
    expression panics after 64 pages. *)
Lemma imageSend_payload_65535_panics :
  let '(dev', pages, o) :=
    keyImageSend_v2 (testTransport 0x0080 1024 true) 1 (replicate (Z.to_nat 65535) 7) in
  o = Panicked /\ length pages = 64%nat /\ Forall (fun p => pg_last p = 0) pages.
Proof.
  vm_compute. split; [reflexivity |]. split; [reflexivity |].
  repeat constructor.
Qed.

(** ** Polling loop: edge detection *)

(** States that agree with the snapshot dispatch nothing. *)
Lemma diffStates_same (tbl : table) (t : Time) (snapshot : list Z) (states : list Z) :
  forall (i : nat) (ins : list input) (evs : list event),
    (forall j, (j < length states)%nat -> states !! j = snapshot !! (i + j)%nat) ->
    diffStates tbl t snapshot states i ins evs = Ok (ins, evs).
Proof.
  induction states as [| st rest IH]; intros i ins evs Hsame; simpl; [reflexivity |].
  pose proof (Hsame 0%nat ltac:(simpl; lia)) as H0. simpl in H0.
  rewrite Nat.add_0_r in H0. rewrite <- H0. rewrite Z.eqb_refl.
  apply IH. intros j Hj. specialize (Hsame (S j) ltac:(simpl; lia)). simpl in Hsame.
  rewrite Hsame. f_equal. lia.
Qed.

Lemma diffStates_app (tbl : table) (t : Time) (snapshot : list Z) (s1 s2 : list Z) :
  forall (i : nat) (ins : list input) (evs : list event),
    diffStates tbl t snapshot (s1 ++ s2) i ins evs =
      match diffStates tbl t snapshot s1 i ins evs with
      | Panic => Panic
      | Ok (ins', evs') => diffStates tbl t snapshot s2 (i + length s1) ins' evs'
      end.
Proof.
  induction s1 as [| st rest IH]; intros i ins evs; simpl.
  - rewrite Nat.add_0_r. reflexivity.
  - replace (i + S (length rest))%nat with (S i + length rest)%nat by lia.
    destruct (snapshot !! i) as [old |]; [| reflexivity].
    destruct (st =? old); [apply IH |].
    destruct (ins !! i) as [inp |]; [| apply IH].
    destruct (0 <? st).
    + destruct (press inp t) as [inp' gs]. apply IH.
    + destruct (release inp t) as [[inp' closed] |]; [apply IH | reflexivity].
Qed.

(** One byte differs from the snapshot: one call, into the slot of that
    index. *)
Lemma diffStates_edge (tbl : table) (t : Time) (snapshot : list Z) (i : nat) (v old : Z)
    (ins : list input) (inp : input) :
  snapshot !! i = Some old -> v <> old -> ins !! i = Some inp ->
  diffStates tbl t snapshot (<[i := v]> snapshot) 0 ins [] =
    if 0 <? v
    then Ok (<[i := fst (press inp t)]> ins, [EvPress tbl i t (snd (press inp t))])
    else match release inp t with
         | Panic => Panic
         | Ok (inp', closed) => Ok (<[i := inp']> ins, [EvRelease tbl i t closed])
         end.
Proof.
  intros Hold Hv Hinp.
  assert (Hi : (i < length snapshot)%nat) by (eapply lookup_lt_Some; eassumption).
  rewrite insert_take_drop by exact Hi.
  rewrite diffStates_app.
  rewrite diffStates_same.
  2:{ intros j Hj. rewrite length_take in Hj. simpl. apply lookup_take_lt. lia. }
  rewrite length_take. replace (0 + i `min` length snapshot)%nat with i by lia.
  cbn [diffStates]. rewrite Hold, Hinp.
  apply Z.eqb_neq in Hv. rewrite Hv.
  destruct (0 <? v).
  - destruct (press inp t) as [inp' gs] eqn:Ep. simpl.
    apply diffStates_same. intros j Hj. rewrite lookup_drop. f_equal.
  - destruct (release inp t) as [[inp' closed] |]; [| reflexivity].
    apply diffStates_same. intros j Hj. rewrite lookup_drop. f_equal.
Qed.

Lemma listenStep_keyRoute (d : Device) (buf : list Z) (t : Time) :
  keyRoute (model_ d) buf = true ->
  listenStep d (inl (1, buf)) t = stepKeys d buf t.
Proof.
  unfold keyRoute, listenStep. simpl.
  destruct (index buf 0) as [b0 |]; [| discriminate].
  intros Hr. apply andb_true_iff in Hr as [H2 H3].
  apply negb_true_iff in H2, H3. rewrite H2, H3. reflexivity.
Qed.

Lemma stepKeys_monitored (d : Device) (buf states : list Z) (t : Time) :
  monitored (model_ d) buf = Some states ->
  stepKeys d buf t =
    match diffStates KeyTable t (keyStates d) states 0 (lenInputs (inputs d)) [] with
    | Panic => StepPanic
    | Ok (ins', evs) =>
        Continue (set_keyStates (set_inputs d ((fun _ => ins') <$> inputs d)) states) evs
    end.
Proof.
  unfold monitored, stepKeys.
  destruct (slice buf (keyStart (model_ d)) (u8 (keyStart (model_ d) + keyCount (model_ d))))
    as [ks |]; [| discriminate].
  destruct (0 <? touchPointCount (model_ d)).
  - destruct (slice buf (touchPointStart (model_ d))
                (u8 (touchPointStart (model_ d) + touchPointCount (model_ d))))
      as [tps |]; [| discriminate].
    intros [= <-]. reflexivity.
  - intros [= <-]. reflexivity.
Qed.

(** A report whose watched bytes equal the snapshot dispatches nothing. *)
Lemma listenStep_quiet (d : Device) (buf : list Z) (t : Time) :
  keyRoute (model_ d) buf = true ->
  monitored (model_ d) buf = Some (keyStates d) ->
  exists d', listenStep d (inl (1, buf)) t = Continue d' [] /\
             inputs d' = inputs d /\ keyStates d' = keyStates d /\ listen d' = listen d.
Proof.
  intros Hr Hm. rewrite listenStep_keyRoute by exact Hr.
  rewrite (stepKeys_monitored _ _ _ _ Hm).
  rewrite diffStates_same by (intros j _; reflexivity).
  eexists. split; [reflexivity |]. simpl.
  destruct (inputs d); simpl; auto.
Qed.








(** ** Polling loop: which reports abort, which dispatch *)

Lemma stepKeys_no_Return (d : Device) (buf : list Z) (t : Time) (err : option error) :
  stepKeys d buf t <> Return err.
Proof.
  unfold stepKeys.
  destruct (slice buf _ _) as [states |]; [| discriminate].
  destruct (if 0 <? touchPointCount (model_ d) then _ else _) as [states' |];
    [| discriminate].
  destruct (diffStates _ _ _ _ _ _ _) as [[ins' evs] |]; discriminate.
Qed.

(** Every event of an edge-detection pass sits on a slot whose byte differs
    from the snapshot, and every such slot that exists gets its event. *)
Lemma diffStates_events (tbl : table) (t : Time) (snapshot : list Z) (states : list Z) :
  forall (i : nat) (ins : list input) (evs : list event) (ins' : list input)
         (evs' : list event),
    diffStates tbl t snapshot states i ins evs = Ok (ins', evs') ->
    length ins' = length ins /\
    exists new,
      evs' = evs ++ new /\
      (forall ev, ev ∈ new ->
         exists (j : nat) (old st : Z),
           snapshot !! (i + j)%nat = Some old /\ states !! j = Some st /\ st <> old /\
           eventSlot ev = Some (tbl, (i + j)%nat, 0 <? st)) /\
      (forall (j : nat) (old st : Z),
         snapshot !! (i + j)%nat = Some old -> states !! j = Some st -> st <> old ->
         is_Some (ins !! (i + j)%nat) ->
         exists ev, ev ∈ new /\ eventSlot ev = Some (tbl, (i + j)%nat, 0 <? st)).
Proof.
  induction states as [| st rest IH]; intros i ins evs ins' evs' Hrun.
  { simpl in Hrun. injection Hrun as <- <-. split; [reflexivity |].
    exists []. rewrite app_nil_r. split; [reflexivity |].
    split; [intros ev Hev; inversion Hev | intros j old st _ Hst; discriminate]. }
  cbn [diffStates] in Hrun.
  destruct (snapshot !! i) as [old |] eqn:Hold; [| discriminate].
  assert (Hshift : forall (ins1 : list input) (new : list event),
             length ins1 = length ins ->
             (forall ev, ev ∈ new ->
                exists (j : nat) (old' st' : Z),
                  snapshot !! (S i + j)%nat = Some old' /\ rest !! j = Some st' /\
                  st' <> old' /\ eventSlot ev = Some (tbl, (S i + j)%nat, 0 <? st')) ->
             forall ev, ev ∈ new ->
               exists (j : nat) (old' st' : Z),
                 snapshot !! (i + j)%nat = Some old' /\ (st :: rest) !! j = Some st' /\
                 st' <> old' /\ eventSlot ev = Some (tbl, (i + j)%nat, 0 <? st')).
  { intros ins1 new _ Hnew ev Hev.
    destruct (Hnew ev Hev) as (j & old' & st' & H1 & H2 & H3 & H4).
    exists (S j), old', st'. replace (i + S j)%nat with (S i + j)%nat by lia. auto. }
  assert (Hsome : forall (ins1 : list input) (k : nat),
             length ins1 = length ins -> is_Some (ins !! k) -> is_Some (ins1 !! k)).
  { intros ins1 k Hl Hk. apply lookup_lt_is_Some. rewrite Hl.
    apply lookup_lt_is_Some. exact Hk. }
  destruct (st =? old) eqn:Eq.
  { apply Z.eqb_eq in Eq.
    destruct (IH _ _ _ _ _ Hrun) as (Hlen & new & Hevs & Honly & Hall).
    split; [exact Hlen |]. exists new. split; [exact Hevs |].
    split; [apply (Hshift ins); [reflexivity | exact Honly] |].
    intros j old' st' Ho Hs Hne Hin. destruct j as [| j].
    - rewrite Nat.add_0_r in Ho. simpl in Hs. congruence.
    - replace (i + S j)%nat with (S i + j)%nat in * by lia.
      apply (Hall j old' st'); assumption. }
  apply Z.eqb_neq in Eq.
  destruct (ins !! i) as [inp |] eqn:Hinp.
  2:{ destruct (IH _ _ _ _ _ Hrun) as (Hlen & new & Hevs & Honly & Hall).
      split; [exact Hlen |]. exists new. split; [exact Hevs |].
      split; [apply (Hshift ins); [reflexivity | exact Honly] |].
      intros j old' st' Ho Hs Hne Hin. destruct j as [| j].
      - rewrite Nat.add_0_r in Hin. rewrite Hinp in Hin. destruct Hin; discriminate.
      - replace (i + S j)%nat with (S i + j)%nat in * by lia.
        apply (Hall j old' st'); assumption. }
  assert (Hstep : forall (inp' : input) (e : event),
             eventSlot e = Some (tbl, i, 0 <? st) ->
             diffStates tbl t snapshot rest (S i) (<[i := inp']> ins) (evs ++ [e]) =
               Ok (ins', evs') ->
             length ins' = length ins /\
             exists new,
               evs' = evs ++ new /\
               (forall ev, ev ∈ new ->
                  exists (j : nat) (old' st' : Z),
                    snapshot !! (i + j)%nat = Some old' /\ (st :: rest) !! j = Some st' /\
                    st' <> old' /\ eventSlot ev = Some (tbl, (i + j)%nat, 0 <? st')) /\
               (forall (j : nat) (old' st' : Z),
                  snapshot !! (i + j)%nat = Some old' -> (st :: rest) !! j = Some st' ->
                  st' <> old' -> is_Some (ins !! (i + j)%nat) ->
                  exists ev, ev ∈ new /\ eventSlot ev = Some (tbl, (i + j)%nat, 0 <? st'))).
  { intros inp' e He Hrun'.
    destruct (IH _ _ _ _ _ Hrun') as (Hlen & new & Hevs & Honly & Hall).
    rewrite length_insert in Hlen.
    split; [exact Hlen |]. exists (e :: new).
    split; [rewrite Hevs, <- app_assoc; reflexivity |]. split.
    - intros ev Hev. apply elem_of_cons in Hev as [-> | Hev].
      + exists 0%nat, old, st. rewrite Nat.add_0_r. auto.
      + apply (Hshift (<[i := inp']> ins) new); [apply length_insert | exact Honly | exact Hev].
    - intros j old' st' Ho Hs Hne Hin. destruct j as [| j].
      + rewrite Nat.add_0_r in *. simpl in Hs. injection Hs as <-.
        exists e. split; [left | exact He].
      + replace (i + S j)%nat with (S i + j)%nat in * by lia.
        destruct (Hall j old' st' Ho Hs Hne) as (ev & Hev & Hslot).
        * apply (Hsome (<[i := inp']> ins)); [apply length_insert | exact Hin].
        * exists ev. split; [right; exact Hev | exact Hslot]. }
  destruct (0 <? st) eqn:Epos.
  - destruct (press inp t) as [inp' gs].
    apply (Hstep inp' (EvPress tbl i t gs) eq_refl Hrun).
  - destruct (release inp t) as [[inp' closed] |]; [| discriminate].
    apply (Hstep inp' (EvRelease tbl i t closed) eq_refl Hrun).
Qed.

(** C3 (amended).  A read error aborts the loop and is propagated.  A report
    whose report id is not 1 aborts the loop too, with an unexpected-report-id
    error and without any dispatch.  A report with id 1 whose leading byte
    selects neither the touch-strip nor the dial interpretation on this model
    is read as a key report: the iteration never returns an error, and it
    dispatches nothing when the watched bytes equal the snapshot.  When the
    iteration goes on, every press or release it dispatched is for a slot
    whose watched byte differs from the snapshot - a press when the new byte
    is positive, a release otherwise - every slot of the table whose byte
    differs got its call, and the watched bytes are the new snapshot. *)
Theorem listen_report_selection (d : Device) (t : Time) :
  (forall err : error, listenStep d (inr err) t = Return (Some (wrap err))) /\
  (forall (id : Z) (buf : list Z),
      id <> 1 ->
      listenStep d (inl (id, buf)) t =
        Return (Some (Plainf "streamdeck: got unexpected report id: %d" [id]))) /\
  (forall buf : list Z,
      keyRoute (model_ d) buf = true ->
      listenStep d (inl (1, buf)) t = stepKeys d buf t /\
      (forall err, listenStep d (inl (1, buf)) t <> Return err) /\
      (monitored (model_ d) buf = Some (keyStates d) ->
       exists d', listenStep d (inl (1, buf)) t = Continue d' [] /\
                  inputs d' = inputs d /\ keyStates d' = keyStates d) /\
      (forall (d' : Device) (evs : list event),
          listenStep d (inl (1, buf)) t = Continue d' evs ->
          exists states,
            monitored (model_ d) buf = Some states /\
            keyStates d' = states /\
            (forall ev, ev ∈ evs ->
               exists (i : nat) (old st : Z),
                 keyStates d !! i = Some old /\ states !! i = Some st /\ st <> old /\
                 eventSlot ev = Some (KeyTable, i, 0 <? st)) /\
            (forall (i : nat) (old st : Z),
               keyStates d !! i = Some old -> states !! i = Some st -> st <> old ->
               is_Some (lenInputs (inputs d) !! i) ->
               exists ev, ev ∈ evs /\ eventSlot ev = Some (KeyTable, i, 0 <? st)))) /\
  (forall (rd : inputReport) (err : option error) (script : list (inputReport * Time))
          (evs : list event),
      listen d = Some ChanOpen ->
      listenStep d rd t = Return err ->
      listenLoop d ((rd, t) :: script) evs = Stopped err d evs).
Proof.
  split; [reflexivity |]. split.
  { intros id buf Hid. unfold listenStep. apply Z.eqb_neq in Hid. rewrite Hid. reflexivity. }
  split.
  { intros buf Hr. split; [apply listenStep_keyRoute; exact Hr |]. split.
    - intros err. rewrite listenStep_keyRoute by exact Hr. apply stepKeys_no_Return.
    - split.
      + intros Hm. destruct (listenStep_quiet d buf t Hr Hm) as (d' & H1 & H2 & H3 & _).
        exists d'. auto.
      + intros d' evs Hs. rewrite listenStep_keyRoute in Hs by exact Hr.
        destruct (monitored (model_ d) buf) as [states |] eqn:Hm.
        2:{ exfalso. unfold monitored in Hm. unfold stepKeys in Hs. cbv zeta in Hs.
            destruct (slice buf (keyStart (model_ d))
                        (u8 (keyStart (model_ d) + keyCount (model_ d))))
              as [ks |]; [| discriminate].
            destruct (0 <? touchPointCount (model_ d)); [| discriminate].
            destruct (slice buf (touchPointStart (model_ d))
                        (u8 (touchPointStart (model_ d) + touchPointCount (model_ d))))
              as [tps |]; discriminate. }
        rewrite (stepKeys_monitored _ _ _ _ Hm) in Hs.
        destruct (diffStates KeyTable t (keyStates d) states 0 (lenInputs (inputs d)) [])
          as [[ins' evs0] |] eqn:Hd; [| discriminate].
        injection Hs as <- <-.
        destruct (diffStates_events _ _ _ _ _ _ _ _ _ Hd) as (_ & new & Hnew & Honly & Hall).
        simpl in Hnew. subst new.
        exists states. split; [reflexivity |]. split; [reflexivity |].
        split; [exact Honly | exact Hall]. }
  intros rd err script evs Hl Hs. cbn [listenLoop]. rewrite Hl, Hs. reflexivity.
Qed.

Lemma listen_report_selection_witness :
  listenStep mk2Listening (inl (2, mk2Key2Down)) 1000 =
    Return (Some (Plainf "streamdeck: got unexpected report id: %d" [2])) /\
  (exists d', listenStep mk2Listening (inl (1, mk2AllUp)) 1000 = Continue d' []).
Proof.
  destruct (listen_report_selection mk2Listening 1000) as (_ & Hid & Hkeys & _).
  split.
  - apply Hid. lia.
  - destruct (Hkeys mk2AllUp) as (_ & _ & Hq & _); [reflexivity |].
    destruct Hq as (d' & Hs & _); [reflexivity |]. exists d'. exact Hs.
Defined.

(** C3, as stated, fails: a successful read of a report with id 2 makes the
    loop return an error; and on the mk2, which has neither touch strip nor
    dials, a report with id 1 and leading byte 2 is read as a key report and
    dispatches a press. *)
Lemma listen_unrecognized_report_counterexample :
  Listen mk2Listening [(inl (2, mk2AllUp), 1000); (inl (1, mk2AllUp), 1100)] =
    Stopped (Some (Plainf "streamdeck: got unexpected report id: %d" [2])) mk2Listening [] /\
  (forall d' evs, listenStep mk2Listening (inl (2, mk2AllUp)) 1000 <> Continue d' evs) /\
  touchStripImageSend (model_ mk2Listening) = None /\
  dialCount (model_ mk2Listening) = 0 /\
  (exists d',
      listenStep mk2Listening (inl (1, <[0%nat := 2]> mk2Key2Down)) 1000 =
        Continue d' [EvPress KeyTable 1 1000 [GoKeyHandler 7%nat 2]]).
Proof.
  split; [reflexivity |]. split; [intros d' evs; discriminate |].
  split; [reflexivity |]. split; [reflexivity |].
  eexists. reflexivity.
Qed.

(** ** Polling loop: touch-strip reports *)

Lemma lor_shiftl_byte (h l : Z) :
  0 <= h -> 0 <= l < 256 -> Z.lor (Z.shiftl h 8) l = l + 256 * h.
Proof.
  intros Hh Hl.
  assert (Hland : Z.land (Z.shiftl h 8) l = 0).
  { apply Z.bits_inj'. intros n Hn. rewrite Z.land_spec, Z.bits_0.
    destruct (Z.lt_ge_cases n 8) as [Hlt | Hge].
    - rewrite Z.shiftl_spec_low by exact Hlt. reflexivity.
    - rewrite (Z.bits_above_log2 l n); [apply andb_false_r | lia |].
      destruct (Z.eq_dec l 0) as [-> | Hne]; [simpl; lia |].
      apply Z.log2_lt_pow2; [lia |].
      apply Z.lt_le_trans with (2 ^ 8); [simpl; lia |].
      apply Z.pow_le_mono_r; lia. }
  rewrite <- Z.lxor_lor by exact Hland.
  rewrite <- Z.add_nocarry_lxor by exact Hland.
  rewrite Z.shiftl_mul_pow2 by lia. change (2 ^ 8) with 256. lia.
Qed.

Lemma index_lookup {A} (l : list A) (i : nat) : index l (Z.of_nat i) = l !! i.
Proof.
  unfold index. rewrite Nat2Z.id.
  destruct (0 <=? Z.of_nat i) eqn:E; [reflexivity | apply Z.leb_gt in E; lia].
Qed.

Lemma coord_le16 (buf : list Z) (off : nat) :
  Forall isByte buf -> (S off < length buf)%nat ->
  coord buf (Z.of_nat off) (Z.of_nat off + 1) = Some (le16 buf off).
Proof.
  intros Hb Hlen. unfold coord, le16.
  replace (Z.of_nat off + 1) with (Z.of_nat (S off)) by lia.
  rewrite !index_lookup.
  destruct (lookup_lt_is_Some_2 buf off ltac:(lia)) as [l Hl].
  destruct (lookup_lt_is_Some_2 buf (S off) Hlen) as [h Hh].
  rewrite Hl, Hh. simpl.
  pose proof (proj1 (Forall_lookup _ _) Hb _ _ Hl) as Bl.
  pose proof (proj1 (Forall_lookup _ _) Hb _ _ Hh) as Bh.
  unfold isByte in *. f_equal. apply lor_shiftl_byte; lia.
Qed.

Lemma point_le16 (buf : list Z) (off : nat) :
  Forall isByte buf -> (off + 3 < length buf)%nat ->
  point buf (Z.of_nat off) =
    Some (mkPoint (le16 buf off) (le16 buf (off + 2))).
Proof.
  intros Hb Hlen. unfold point.
  rewrite (coord_le16 buf off Hb) by lia.
  replace (Z.of_nat off + 2) with (Z.of_nat (off + 2)) by lia.
  replace (Z.of_nat off + 3) with (Z.of_nat (off + 2) + 1) by lia.
  rewrite (coord_le16 buf (off + 2) Hb) by lia. reflexivity.
Qed.

Lemma listenStep_touchStripRoute (d : Device) (buf : list Z) (t : Time) :
  touchStripRoute (model_ d) buf = true ->
  listenStep d (inl (1, buf)) t = stepTouchStrip d buf.
Proof.
  unfold touchStripRoute, listenStep. simpl.
  destruct (index buf 0) as [b0 |]; [| discriminate].
  intros ->. reflexivity.
Qed.

(** C6 (amended).  In a touch-strip report byte 3 selects the event: 1 a
    short touch, 2 a long touch, 3 a swipe.  Coordinates are 16-bit values
    with the low byte first: X at bytes 5-6 and Y at bytes 7-8, and for a
    swipe the destination at bytes 9-10 and 11-12.  A touch report of fewer
    than 9 bytes and a swipe report of fewer than 13 bytes dispatch nothing
    and are no error. *)
Theorem touchStrip_report (d : Device) (inp : input) (buf : list Z) (t : Time) (b3 : Z) :
  touchStripInput d = Some inp ->
  touchStripRoute (model_ d) buf = true ->
  Forall isByte buf ->
  buf !! 3%nat = Some b3 ->
  ((b3 = 1 \/ b3 = 2) -> 9 <= len buf ->
   listenStep d (inl (1, buf)) t =
     Continue d [EvTouch b3 (mkPoint (le16 buf 5) (le16 buf 7))
                   (touch inp b3 (mkPoint (le16 buf 5) (le16 buf 7)))]) /\
  (b3 = 3 -> 13 <= len buf ->
   listenStep d (inl (1, buf)) t =
     Continue d [EvSwipe (mkPoint (le16 buf 5) (le16 buf 7))
                   (mkPoint (le16 buf 9) (le16 buf 11))
                   (swipe inp (mkPoint (le16 buf 5) (le16 buf 7))
                      (mkPoint (le16 buf 9) (le16 buf 11)))]) /\
  ((b3 = 1 \/ b3 = 2) -> len buf < 9 -> listenStep d (inl (1, buf)) t = Continue d []) /\
  (b3 = 3 -> len buf < 13 -> listenStep d (inl (1, buf)) t = Continue d []) /\
  (b3 <> 1 -> b3 <> 2 -> b3 <> 3 -> listenStep d (inl (1, buf)) t = Continue d []).
Proof.
  intros Hinp Hr Hb H3.
  rewrite listenStep_touchStripRoute by exact Hr.
  unfold stepTouchStrip. rewrite Hinp.
  change 3 with (Z.of_nat 3). rewrite index_lookup, H3.
  change (Z.of_nat 3) with 3.
  split; [| split; [| split; [| split]]].
  - intros Hty Hlen.
    assert (Hl : (len buf <? 9) = false) by (apply Z.ltb_ge; exact Hlen).
    rewrite Hl. change 5 with (Z.of_nat 5).
    rewrite (point_le16 buf 5 Hb) by (unfold len in Hlen; lia).
    destruct Hty as [-> | ->]; reflexivity.
  - intros -> Hlen.
    assert (Hl : (len buf <? 13) = false) by (apply Z.ltb_ge; exact Hlen).
    simpl. rewrite Hl. change 5 with (Z.of_nat 5). change 9 with (Z.of_nat 9).
    rewrite (point_le16 buf 5 Hb) by (unfold len in Hlen; lia).
    rewrite (point_le16 buf 9 Hb) by (unfold len in Hlen; lia).
    reflexivity.
  - intros Hty Hlen.
    assert (Hl : (len buf <? 9) = true) by (apply Z.ltb_lt; exact Hlen).
    rewrite Hl. destruct Hty as [-> | ->]; reflexivity.
  - intros -> Hlen.
    assert (Hl : (len buf <? 13) = true) by (apply Z.ltb_lt; exact Hlen).
    simpl. rewrite Hl. reflexivity.
  - intros H1 H2 H3'. apply Z.eqb_neq in H1, H2, H3'. rewrite H1, H2, H3'. reflexivity.
Qed.

Lemma touchStrip_report_witness :
  listenStep plusListening (inl (1, plusTouchReport)) 1000 =
    Continue plusListening
      [EvTouch 1 (mkPoint 0x1234 0x56) [GoTouchHandler 4%nat 1 (mkPoint 0x1234 0x56)]].
Proof.
  assert (Hb : Forall isByte plusTouchReport).
  { unfold isByte. repeat constructor; vm_compute; congruence. }
  destruct (touchStrip_report plusListening
              (mkInput None 0 0 0 None None None (Some (mkTouchStrip [4%nat] [5%nat])))
              plusTouchReport 1000 1 eq_refl eq_refl Hb eq_refl) as (Htouch & _).
  apply Htouch; [left; reflexivity | vm_compute; congruence].
Defined.

(** C6, as stated, fails on the byte order: the report with bytes 0x34 0x12
    at offsets 5 and 6 is dispatched with X = 0x1234, where the high byte
    first would give 0x3412. *)
Lemma touchStrip_big_endian_counterexample :
  (exists gs, listenStep plusListening (inl (1, plusTouchReport)) 1000 =
                Continue plusListening [EvTouch 1 (mkPoint 0x1234 0x56) gs]) /\
  mkPoint (be16 plusTouchReport 5) (be16 plusTouchReport 7) = mkPoint 0x3412 0x5600 /\
  mkPoint 0x1234 0x56 <> mkPoint (be16 plusTouchReport 5) (be16 plusTouchReport 7).
Proof.
  split; [eexists; reflexivity |].
  split; [reflexivity |].
  vm_compute. discriminate.
Qed.

(** A touch-strip report too short to hold its sub-type byte: the loop reads
    byte 3 before it checks the length. *)
Lemma touchStrip_short_report_panics :
  listenStep plusListening (inl (1, [2; 0; 0])) 1000 = StepPanic.
Proof. reflexivity. Qed.

(** ** Image codec: the transform loop *)

Lemma RGBA_Rect_Set (f : RGBA) (x y : Z) (c : RGBA8) :
  RGBA_Rect (RGBA_Set f x y c) = RGBA_Rect f.
Proof. unfold RGBA_Set. destruct (Point_In _ _); reflexivity. Qed.

Lemma RGBA_At_Set_eq (f : RGBA) (x y : Z) (c : RGBA8) :
  Point_In (mkPoint x y) (RGBA_Rect f) = true ->
  RGBA_At (RGBA_Set f x y c) x y = c.
Proof.
  intros Hin. unfold RGBA_At, RGBA_Set. rewrite Hin. simpl. rewrite Hin.
  rewrite !Z.eqb_refl. reflexivity.
Qed.

Lemma RGBA_At_Set_ne (f : RGBA) (x y x' y' : Z) (c : RGBA8) :
  (x', y') <> (x, y) ->
  RGBA_At (RGBA_Set f x y c) x' y' = RGBA_At f x' y'.
Proof.
  intros Hne. unfold RGBA_At, RGBA_Set.
  destruct (Point_In (mkPoint x y) (RGBA_Rect f)) eqn:Hin; [| reflexivity].
  simpl. destruct (Point_In (mkPoint x' y') (RGBA_Rect f)); [| reflexivity].
  destruct (x' =? x) eqn:Ex; destruct (y' =? y) eqn:Ey; try reflexivity.
  apply Z.eqb_eq in Ex, Ey. congruence.
Qed.

Section TotalTransform.
Variables (scaled : RGBA) (rect : Rectangle) (ifmt : imageFormat)
          (transform : imageTransform) (g : Z -> Z -> Point).
Hypothesis g_total : forall x y, transformPixel rect transform x y = inl (g x y).

(** When no pixel is refused the column loop is a fold of [Set]. *)
Lemma genImage_loopY_total (x : Z) (ys : list Z) :
  forall final,
    exists final',
      genImage_loopY scaled rect ifmt transform x ys final = inl final' /\
      RGBA_Rect final' = RGBA_Rect final /\
      (forall tx ty,
          (forall y, y ∈ ys -> g x y <> mkPoint tx ty) ->
          RGBA_At final' tx ty = RGBA_At final tx ty).
Proof.
  induction ys as [| y ys IH]; intros final; simpl.
  - exists final. auto.
  - rewrite g_total.
    destruct (IH (RGBA_Set final (X (g x y)) (Y (g x y))
                    (pixelColor ifmt (RGBA_At scaled x y))))
      as (final' & Hrun & Hrect & Hkeep).
    exists final'. split; [exact Hrun |]. split.
    + rewrite Hrect. apply RGBA_Rect_Set.
    + intros tx ty Hne. rewrite Hkeep.
      * apply RGBA_At_Set_ne. intros Heq. apply (Hne y); [left |].
        destruct (g x y) as [gx gy]. simpl in Heq. congruence.
      * intros y' Hy'. apply Hne. right. exact Hy'.
Qed.

Lemma genImage_loopX_total (xs ys : list Z) :
  forall final,
    exists final',
      genImage_loopX scaled rect ifmt transform xs ys final = inl final' /\
      RGBA_Rect final' = RGBA_Rect final /\
      (forall tx ty,
          (forall x y, x ∈ xs -> y ∈ ys -> g x y <> mkPoint tx ty) ->
          RGBA_At final' tx ty = RGBA_At final tx ty).
Proof.
  induction xs as [| x xs IH]; intros final; simpl.
  - exists final. auto.
  - destruct (genImage_loopY_total x ys final) as (f1 & Hy & Hr1 & Hk1).
    rewrite Hy.
    destruct (IH f1) as (final' & Hrun & Hrect & Hkeep).
    exists final'. split; [exact Hrun |]. split; [congruence |].
    intros tx ty Hne. rewrite Hkeep, Hk1.
    + reflexivity.
    + intros y Hy'. apply Hne; [left | exact Hy'].
    + intros x' y' Hx' Hy'. apply Hne; [right; exact Hx' | exact Hy'].
Qed.

(** The first pixel of the scan, when no later pixel lands on its
    destination, is what the canvas holds there at the end. *)
Lemma genImage_final_first_pixel :
  0 < Dx rect -> 0 < Dy rect ->
  Point_In (g (X (Min rect)) (Y (Min rect))) rect = true ->
  (forall x y,
      X (Min rect) <= x < X (Max rect) -> Y (Min rect) <= y < Y (Max rect) ->
      (x, y) <> (X (Min rect), Y (Min rect)) ->
      g x y <> g (X (Min rect)) (Y (Min rect))) ->
  exists final,
    genImage_final scaled rect ifmt transform = inl final /\
    RGBA_Rect final = rect /\
    RGBA_At final (X (g (X (Min rect)) (Y (Min rect)))) (Y (g (X (Min rect)) (Y (Min rect)))) =
      pixelColor ifmt (RGBA_At scaled (X (Min rect)) (Y (Min rect))).
Proof.
  intros Hdx Hdy Hin Hinj. unfold genImage_final.
  set (x0 := X (Min rect)) in *. set (y0 := Y (Min rect)) in *.
  rewrite (seqZ_cons x0 (Dx rect)) by lia.
  set (ys := seqZ y0 (Dy rect)).
  set (blank := mkRGBA (fun _ _ => mkRGBA8 0 0 0 0) rect).
  cbn [genImage_loopX].
  replace (genImage_loopY scaled rect ifmt transform x0 ys blank)
    with (genImage_loopY scaled rect ifmt transform x0
            (y0 :: seqZ (Z.succ y0) (Z.pred (Dy rect))) blank)
    by (unfold ys; rewrite (seqZ_cons y0 (Dy rect)) by lia; reflexivity).
  cbn [genImage_loopY]. rewrite g_total.
  set (c := pixelColor ifmt (RGBA_At scaled x0 y0)).
  set (f1 := RGBA_Set blank (X (g x0 y0)) (Y (g x0 y0)) c).
  destruct (genImage_loopY_total x0 (seqZ (Z.succ y0) (Z.pred (Dy rect))) f1)
    as (f2 & Hy & Hr2 & Hk2).
  rewrite Hy.
  destruct (genImage_loopX_total (seqZ (Z.succ x0) (Z.pred (Dx rect))) ys f2)
    as (final & Hx & Hr3 & Hk3).
  exists final. split; [exact Hx |]. split.
  { rewrite Hr3, Hr2. unfold f1. rewrite RGBA_Rect_Set. reflexivity. }
  assert (Hg : mkPoint (X (g x0 y0)) (Y (g x0 y0)) = g x0 y0) by (destruct (g x0 y0); reflexivity).
  rewrite Hk3, Hk2.
  - unfold f1. apply RGBA_At_Set_eq. rewrite Hg. exact Hin.
  - intros y Hy'. rewrite Hg. apply elem_of_seqZ in Hy'.
    apply Hinj; unfold x0, y0, Dx, Dy in *; try lia.
    intros [= Heq]. lia.
  - intros x y Hx' Hy'. rewrite Hg. apply elem_of_seqZ in Hx'. unfold ys in Hy'.
    apply elem_of_seqZ in Hy'.
    apply Hinj; unfold x0, y0, Dx, Dy in *; try lia.
    intros [= Heq1 Heq2]. lia.
Qed.
End TotalTransform.

Lemma transformPixel_rotate (rect : Rectangle) (transform : imageTransform) (x y : Z) :
  flagSet transform imageTransformFlipHorizontal = false ->
  flagSet transform imageTransformFlipVertical = false ->
  flagSet transform imageTransformRotate90 = true ->
  Dx rect = Dy rect ->
  transformPixel rect transform x y = inl (mkPoint y (Dx rect - 1 - x)).
Proof.
  intros Hh Hv Hr Hsq. unfold transformPixel. rewrite Hh, Hv, Hr.
  rewrite <- Hsq, Z.eqb_refl. reflexivity.
Qed.

Lemma genImage_final_nonsquare (scaled : RGBA) (rect : Rectangle) (ifmt : imageFormat)
    (transform : imageTransform) :
  flagSet transform imageTransformRotate90 = true ->
  0 < Dx rect -> 0 < Dy rect -> Dx rect <> Dy rect ->
  genImage_final scaled rect ifmt transform =
    inr (Wrapf "%w: cannot rotate non-square canvas" (Sentinel ErrImageInvalid) []).
Proof.
  intros Hr Hdx Hdy Hne. unfold genImage_final.
  rewrite (seqZ_cons _ (Dx rect)) by lia. rewrite (seqZ_cons _ (Dy rect)) by lia.
  cbn [genImage_loopX genImage_loopY]. unfold transformPixel. rewrite Hr.
  apply Z.eqb_neq in Hne. rewrite Hne. reflexivity.
Qed.

Lemma NewRGBA_Ok (rect : Rectangle) :
  0 <= Dx rect -> 0 <= Dy rect -> 4 * Dx rect * Dy rect <= maxInt ->
  NewRGBA rect = Ok (mkRGBA (fun _ _ => mkRGBA8 0 0 0 0) rect).
Proof.
  intros Hx Hy Hm. unfold NewRGBA.
  destruct (Dx rect <? 0) eqn:E1; [apply Z.ltb_lt in E1; lia |].
  destruct (Dy rect <? 0) eqn:E2; [apply Z.ltb_lt in E2; lia |].
  destruct (maxInt <? 4 * Dx rect * Dy rect) eqn:E3; [apply Z.ltb_lt in E3; lia |].
  reflexivity.
Qed.

Lemma opaque_bytes (c : RGBA8) :
  isByte (R c) -> isByte (G c) -> isByte (B c) ->
  opaque c = mkRGBA8 (R c) (G c) (B c) 255.
Proof.
  assert (Hch : forall v, isByte v -> u8 (channel16 v) = v).
  { intros v Hv. unfold isByte in Hv. unfold channel16, u8.
    rewrite Z.lor_comm, lor_shiftl_byte by lia.
    replace (v + 256 * v) with (v + v * 256) by lia.
    rewrite Z.mod_add by lia. apply Z.mod_small. lia. }
  intros Hr Hg Hb. unfold opaque. rewrite !Hch by assumption. reflexivity.
Qed.

(** C5 (amended).  With the rotate-90 bit set, a target with positive width
    and height that is not square makes the codec fail with the
    invalid-image error, whatever the format, the other transform bits and
    the source picture.  On a square target anchored at the origin, with
    rotate-90 as the only transform and one of the two wire formats, the
    codec raises no error of its own - its result is the encoder's output
    for the transformed canvas - and the canvas holds at its bottom-left
    corner the top-left pixel of the scaled picture (made opaque for the
    uncompressed format). *)
Theorem rotate90_square_only `{ImageLib} (img : Image) (rect : Rectangle)
    (ifmt : imageFormat) (transform : imageTransform) :
  flagSet transform imageTransformRotate90 = true ->
  0 < Dx rect -> 0 < Dy rect -> 4 * Dx rect * Dy rect <= maxInt ->
  (Dx rect <> Dy rect ->
   exists e, genImage (Some img) rect ifmt transform = Ok (inr e) /\
             errors_Is e ErrImageInvalid = true) /\
  (Dx rect = Dy rect -> Min rect = mkPoint 0 0 ->
   flagSet transform imageTransformFlipHorizontal = false ->
   flagSet transform imageTransformFlipVertical = false ->
   ifmt = imageFormatBMP \/ ifmt = imageFormatJPEG ->
   exists final,
     genImage (Some img) rect ifmt transform =
       Ok ((if ifmt =? imageFormatBMP then bmp_Encode else jpeg_Encode) final) /\
     RGBA_Rect final = rect /\
     RGBA_At final 0 (Dy rect - 1) =
       pixelColor ifmt
         (RGBA_At (genImage_scaled img rect (mkRGBA (fun _ _ => mkRGBA8 0 0 0 0) rect)) 0 0)).
Proof.
  intros Hr Hdx Hdy Hmem.
  assert (Hnew := NewRGBA_Ok rect ltac:(lia) ltac:(lia) Hmem).
  split.
  - intros Hne. unfold genImage. rewrite Hnew.
    rewrite genImage_final_nonsquare by assumption.
    eexists. split; reflexivity.
  - intros Hsq Hmin Hh Hv Hfmt. unfold genImage. rewrite Hnew.
    set (scaled := genImage_scaled img rect _).
    destruct (genImage_final_first_pixel scaled rect ifmt transform
                (fun x y => mkPoint y (Dx rect - 1 - x)))
      as (final & Hrun & Hrect & Hat).
    + intros x y. apply transformPixel_rotate; assumption.
    + exact Hdx.
    + exact Hdy.
    + rewrite Hmin. unfold Point_In. simpl. rewrite Hmin. simpl.
      unfold Dx, Dy in *. rewrite Hmin in *. simpl in *.
      repeat (apply andb_true_intro; split); try apply Z.leb_le; try apply Z.ltb_lt; lia.
    + intros x y Hx Hy Hne. rewrite Hmin in *. simpl in *.
      intros [= Heq1 Heq2]. apply Hne. f_equal; lia.
    + rewrite Hmin in Hat. simpl in Hat.
      rewrite Hrun. exists final.
      split.
      { destruct Hfmt as [-> | ->]; reflexivity. }
      split; [exact Hrect |].
      rewrite <- Hsq. replace (Dx rect - 1) with (Dx rect - 1 - 0) by lia. exact Hat.
Qed.

Lemma rotate90_square_only_witness :
  (exists e, genImage (H := refImageLib) (Some fourPixels) (Rect 0 0 4 6)
               imageFormatJPEG imageTransformRotate90 = Ok (inr e) /\
             errors_Is e ErrImageInvalid = true) /\
  (exists final,
      genImage (H := refImageLib) (Some fourPixels) (Rect 0 0 2 2)
        imageFormatBMP imageTransformRotate90 = Ok (rawEncode final) /\
      RGBA_At final 0 1 = mkRGBA8 10 20 30 255).
Proof.
  split.
  - apply (rotate90_square_only (H := refImageLib) fourPixels (Rect 0 0 4 6)
             imageFormatJPEG imageTransformRotate90); vm_compute; congruence.
  - destruct (proj2 (rotate90_square_only (H := refImageLib) fourPixels (Rect 0 0 2 2)
                       imageFormatBMP imageTransformRotate90
                       eq_refl eq_refl eq_refl ltac:(vm_compute; congruence))
                eq_refl eq_refl eq_refl eq_refl (or_introl eq_refl))
      as (final & Hrun & _ & Hat).
    exists final. split; [exact Hrun | exact Hat].
Defined.

(** C5, as stated, fails.  With the mini's transform, rotate-90 together with
    the horizontal flip, the top-left pixel of a square picture stays at the
    top-left corner and the bottom-left corner receives the top-right pixel.
    And on an empty target that is not square the rotate request is not
    refused: the loop that holds the check never runs. *)
Lemma rotate90_counterexample :
  flagSet (keyImageTransform model_mini) imageTransformRotate90 = true /\
  finalAt (genImage_final fourPixelsScaled (Rect 0 0 2 2) imageFormatBMP
             (keyImageTransform model_mini)) 0 1 =
    Some (opaque (RGBA_At fourPixelsScaled 1 0)) /\
  finalAt (genImage_final fourPixelsScaled (Rect 0 0 2 2) imageFormatBMP
             (keyImageTransform model_mini)) 0 1 <>
    Some (opaque (RGBA_At fourPixelsScaled 0 0)) /\
  genImage (H := refImageLib) (Some fourPixels) (Rect 0 0 0 5) imageFormatBMP
    imageTransformRotate90 = Ok (inl []).
Proof.
  split; [reflexivity |]. split; [vm_compute; reflexivity |].
  split; [vm_compute; discriminate |]. vm_compute. reflexivity.
Qed.

(** A square target that is not anchored at the origin: the destination
    coordinates are computed as if it were, and the top-left pixel is written
    outside the canvas, which stays blank at its bottom-left corner. *)
Lemma rotate90_off_origin :
  finalAt (genImage_final
             (mkRGBA (fun _ _ => mkRGBA8 9 9 9 255) (Rect 10 10 12 12))
             (Rect 10 10 12 12) imageFormatBMP imageTransformRotate90) 10 11 =
    Some (mkRGBA8 0 0 0 0).
Proof. vm_compute. reflexivity. Qed.

(** ** Closed devices *)

Lemma validateOpen_closed (d : Device) :
  IsOpen d = false -> validateOpen d = Some (wrap (Sentinel ErrDeviceIsClosed)).
Proof. intros Hc. unfold validateOpen. rewrite Hc. reflexivity. Qed.

Lemma IsOpen_set_inputs (d : Device) (x : option (list input)) :
  IsOpen (set_inputs d x) = IsOpen d.
Proof. reflexivity. Qed.

(** Registration reads the model and the slot tables only: the open flag and
    the transport do not change its verdict. *)
Lemma registration_ignores_open (d : Device) (b : bool) (dev' : usbhid)
    (fn : option handler) :
  (forall key, snd (AddKeyHandler (set_open (set_dev d dev') b) key fn) =
               snd (AddKeyHandler d key fn)) /\
  (forall tp, snd (AddTouchPointHandler (set_open (set_dev d dev') b) tp fn) =
              snd (AddTouchPointHandler d tp fn)) /\
  (forall di, snd (AddDialSwitchHandler (set_open (set_dev d dev') b) di fn) =
              snd (AddDialSwitchHandler d di fn)) /\
  (forall di, snd (AddDialRotateHandler (set_open (set_dev d dev') b) di fn) =
              snd (AddDialRotateHandler d di fn)) /\
  snd (AddTouchStripTouchHandler (set_open (set_dev d dev') b) fn) =
    snd (AddTouchStripTouchHandler d fn) /\
  snd (AddTouchStripSwipeHandler (set_open (set_dev d dev') b) fn) =
    snd (AddTouchStripSwipeHandler d fn).
Proof.
  destruct d as [dv m ins dins tsi ks ds l o].
  repeat split.
  - intros key. unfold AddKeyHandler, validateKey, inputsOrNew. simpl.
    destruct (_ || _); [reflexivity |]. destruct fn; [| reflexivity].
    destruct (updateFirst _ _); reflexivity.
  - intros tp. unfold AddTouchPointHandler, validateTouchPoint, inputsOrNew. simpl.
    destruct (_ || _); [reflexivity |]. destruct (_ || _); [reflexivity |].
    destruct fn; [| reflexivity]. destruct (updateFirst _ _); reflexivity.
  - intros di. unfold AddDialSwitchHandler, validateDial, dialInputsOrNew. simpl.
    destruct (_ || _); [reflexivity |]. destruct fn; [| reflexivity].
    destruct (updateFirst _ _); reflexivity.
  - intros di. unfold AddDialRotateHandler, validateDial, dialInputsOrNew. simpl.
    destruct (_ || _); [reflexivity |]. destruct fn; [| reflexivity].
    destruct (updateFirst _ _); reflexivity.
  - unfold AddTouchStripTouchHandler, validateTouchStrip. simpl.
    destruct (touchStripImageSend m); [| reflexivity]. destruct fn; reflexivity.
  - unfold AddTouchStripSwipeHandler, validateTouchStrip. simpl.
    destruct (touchStripImageSend m); [| reflexivity]. destruct fn; reflexivity.
Qed.

Lemma validateTouchPoint_None (d : Device) (tp : TouchPointID) :
  0 <= touchPointCount (model_ d) < 255 ->
  validateTouchPoint d tp = None <->
  is_Some (touchPointColorSend (model_ d)) /\ 1 <= tp <= touchPointCount (model_ d).
Proof.
  intros Hc. unfold validateTouchPoint, TOUCH_POINT_1, u8.
  rewrite Z.mod_small by lia.
  destruct (touchPointColorSend (model_ d)) as [send |]; simpl.
  - destruct (touchPointCount (model_ d) =? 0) eqn:E0.
    + apply Z.eqb_eq in E0. split; [discriminate | intros [_ Hk]; lia].
    + apply Z.eqb_neq in E0.
      destruct (tp <? 1) eqn:E1; destruct (1 + touchPointCount (model_ d) <=? tp) eqn:E2;
        simpl; split; try discriminate; try (intros [_ Hk]; lia); intros _; split; eauto; lia.
  - split; [discriminate | intros [[? Hs] _]; discriminate].
Qed.

Lemma validateDial_None (d : Device) (di : DialID) :
  0 <= dialCount (model_ d) < 255 ->
  validateDial d di = None <-> 1 <= di <= dialCount (model_ d).
Proof.
  intros Hc. unfold validateDial, DIAL_1, u8.
  rewrite Z.mod_small by lia.
  destruct (di <? 1) eqn:E1; destruct (1 + dialCount (model_ d) <=? di) eqn:E2; simpl;
    split; intros Hk; try discriminate; try reflexivity; lia.
Qed.

Lemma slotTouchPoint_newInputs (kc tpc : Z) (tp : TouchPointID) :
  0 <= tpc < 255 ->
  Some tp ∈ (slotTouchPoint <$> newInputs kc tpc) <-> 1 <= tp <= tpc.
Proof.
  intros Hc. unfold newInputs, byteRange, TOUCH_POINT_1, u8.
  rewrite (Z.mod_small (1 + tpc)) by lia.
  rewrite fmap_app, elem_of_app, <- !list_fmap_compose.
  rewrite !list_elem_of_fmap. split.
  - intros [(i & Hi & _) | (i & Hi & Hin)].
    + simpl in Hi. discriminate.
    + apply elem_of_seqZ in Hin. simpl in Hi. inversion Hi. lia.
  - intros Hk. right. exists tp. split; [reflexivity |].
    apply elem_of_seqZ. lia.
Qed.

Lemma slotDial_newDialInputs (dc : Z) (di : DialID) :
  0 <= dc < 255 ->
  Some di ∈ (slotDial <$> newDialInputs dc) <-> 1 <= di <= dc.
Proof.
  intros Hc. unfold newDialInputs, byteRange, DIAL_1, u8.
  rewrite (Z.mod_small (dc + 1)) by lia.
  rewrite <- list_fmap_compose, list_elem_of_fmap. split.
  - intros (i & Hi & Hin). apply elem_of_seqZ in Hin. simpl in Hi. inversion Hi. lia.
  - intros Hk. exists di. split; [reflexivity |]. apply elem_of_seqZ. lia.
Qed.

Lemma updateFirst_slot_is_Some {A} (slot : input -> option A) (a : A)
    (upd : input -> option input) (ins : list input) :
  (forall inp, is_Some (upd inp) <-> slot inp = Some a) ->
  is_Some (updateFirst upd ins) <-> Some a ∈ (slot <$> ins).
Proof.
  intros Hupd. rewrite updateFirst_is_Some, list_elem_of_fmap. split.
  - intros (inp & Hin & Hs). exists inp. apply Hupd in Hs. eauto.
  - intros (inp & Hk & Hin). exists inp. split; [exact Hin |].
    apply Hupd. congruence.
Qed.

(** Registration for a valid touch point, with a callback, is accepted
    whatever the open state is. *)
Lemma AddTouchPointHandler_accepted (d : Device) (tp : TouchPointID) (h : handler) :
  0 <= touchPointCount (model_ d) < 255 -> touchPointSlots_ok d ->
  is_Some (touchPointColorSend (model_ d)) -> 1 <= tp <= touchPointCount (model_ d) ->
  exists ins', AddTouchPointHandler d tp (Some h) = (set_inputs d (Some ins'), None).
Proof.
  intros Hc Hok Hsend Htp.
  assert (Hv : validateTouchPoint d tp = None) by (apply validateTouchPoint_None; auto).
  unfold AddTouchPointHandler. rewrite Hv. cbv zeta.
  set (upd := fun inp : input =>
                match in_tp inp with
                | Some p => if tp_id p =? tp
                            then Some (withTouchPoint inp (TouchPoint_addHandler p h))
                            else None
                | None => None
                end).
  assert (Hs : is_Some (updateFirst upd (inputsOrNew d))).
  { apply (updateFirst_slot_is_Some slotTouchPoint tp).
    - intros inp. unfold upd, slotTouchPoint. destruct (in_tp inp) as [p |]; simpl.
      + destruct (tp_id p =? tp) eqn:E.
        * apply Z.eqb_eq in E. subst. split; eauto.
        * apply Z.eqb_neq in E. split; [intros [? ?]; discriminate | congruence].
      + split; [intros [? ?]; discriminate | discriminate].
    - unfold inputsOrNew. destruct (inputs d) as [ins |] eqn:Hi.
      + rewrite (Hok ins Hi). apply slotTouchPoint_newInputs; assumption.
      + apply slotTouchPoint_newInputs; assumption. }
  destruct Hs as [ins' ->]. exists ins'. reflexivity.
Qed.

Lemma dialUpd_is_Some (di : DialID) (f : Dial -> Dial) (inp : input) :
  is_Some (match in_dial inp with
           | Some x => if dial_id x =? di then Some (withDial inp (f x)) else None
           | None => None
           end) <-> slotDial inp = Some di.
Proof.
  unfold slotDial. destruct (in_dial inp) as [x |]; simpl.
  - destruct (dial_id x =? di) eqn:E.
    + apply Z.eqb_eq in E. subst. split; eauto.
    + apply Z.eqb_neq in E. split; [intros [? ?]; discriminate | congruence].
  - split; [intros [? ?]; discriminate | discriminate].
Qed.

Lemma dialSlot_present (d : Device) (di : DialID) :
  0 <= dialCount (model_ d) < 255 -> dialSlots_ok d ->
  1 <= di <= dialCount (model_ d) ->
  Some di ∈ (slotDial <$> dialInputsOrNew d).
Proof.
  intros Hc Hok Hdi. unfold dialInputsOrNew. destruct (dialInputs d) as [ins |] eqn:Hi.
  - rewrite (Hok ins Hi). apply slotDial_newDialInputs; assumption.
  - apply slotDial_newDialInputs; assumption.
Qed.

(** Registration for a valid dial, with a callback, is accepted whatever the
    open state is. *)
Lemma AddDialHandler_accepted (d : Device) (di : DialID) (h : handler) :
  0 <= dialCount (model_ d) < 255 -> dialSlots_ok d ->
  1 <= di <= dialCount (model_ d) ->
  (exists ins', AddDialSwitchHandler d di (Some h) = (set_dialInputs d (Some ins'), None)) /\
  (exists ins', AddDialRotateHandler d di (Some h) = (set_dialInputs d (Some ins'), None)).
Proof.
  intros Hc Hok Hdi.
  assert (Hv : validateDial d di = None) by (apply validateDial_None; assumption).
  pose proof (dialSlot_present d di Hc Hok Hdi) as Hin.
  split.
  - unfold AddDialSwitchHandler. rewrite Hv. cbv zeta.
    match goal with
    | |- context [updateFirst ?u (dialInputsOrNew d)] =>
        assert (Hs : is_Some (updateFirst u (dialInputsOrNew d)))
    end.
    { apply (updateFirst_slot_is_Some slotDial di); [| exact Hin].
      intros inp. apply (dialUpd_is_Some di (fun x => Dial_addSwitchHandler x h)). }
    destruct Hs as [ins' ->]. exists ins'. reflexivity.
  - unfold AddDialRotateHandler. rewrite Hv. cbv zeta.
    match goal with
    | |- context [updateFirst ?u (dialInputsOrNew d)] =>
        assert (Hs : is_Some (updateFirst u (dialInputsOrNew d)))
    end.
    { apply (updateFirst_slot_is_Some slotDial di); [| exact Hin].
      intros inp. apply (dialUpd_is_Some di (fun x => Dial_addRotateHandler x h)). }
    destruct Hs as [ins' ->]. exists ins'. reflexivity.
Qed.

(** C4 (amended).  On a device that is not open, the operations that talk to
    the hardware - Close, Listen, GetFirmwareVersion, Reset, SetBrightness and
    the display operations, those fed from a reader, a file or a file system
    included - return the already-closed error and leave the device as it
    was.  Handler registration and the getters do not look at the open
    state: registering a callback for a valid key, a valid touch point or a
    valid dial (switch or rotation) succeeds on the closed device, which
    stays closed, and the getters return the model's data. *)
Theorem closed_device_operations `{ImageLib} (d : Device) :
  IsOpen d = false ->
  let closed := wrap (Sentinel ErrDeviceIsClosed) in
  (Close d = (d, Returned (Some closed)) /\
   (forall script, Listen d script = Stopped (Some closed) d []) /\
   GetFirmwareVersion d = Ok (inr closed) /\
   Reset d = (d, Some closed) /\
   (forall perc, SetBrightness d perc = (d, Some closed))) /\
  ((forall key img, SetKeyImage d key img = (d, Returned (Some closed))) /\
   (forall key c, SetKeyColor d key c = (d, Returned (Some closed))) /\
   (forall key, ClearKey d key = (d, Returned (Some closed))) /\
   (forall img, SetInfoBarImage d img = (d, Returned (Some closed))) /\
   (forall c, SetInfoBarColor d c = (d, Returned (Some closed))) /\
   ClearInfoBar d = (d, Returned (Some closed)) /\
   (forall tp c, SetTouchPointColor d tp c = (d, Returned (Some closed))) /\
   (forall tp, ClearTouchPoint d tp = (d, Returned (Some closed))) /\
   (forall img, SetTouchStripImage d img = (d, Returned (Some closed))) /\
   (forall img rect,
       SetTouchStripImageWithRectangle d img rect = (d, Returned (Some closed))) /\
   (forall c, SetTouchStripColor d c = (d, Returned (Some closed))) /\
   (forall c rect,
       SetTouchStripColorWithRectangle d c rect = (d, Returned (Some closed))) /\
   ClearTouchStrip d = (d, Returned (Some closed)) /\
   (forall rect, ClearTouchStripWithRectangle d rect = (d, Returned (Some closed)))) /\
  ((forall key h,
       0 <= keyCount (model_ d) < 255 -> keySlots_ok d ->
       1 <= key <= keyCount (model_ d) ->
       exists d', AddKeyHandler d key (Some h) = (d', None) /\ IsOpen d' = false) /\
   (forall b dev' fn key,
       snd (AddKeyHandler (set_open (set_dev d dev') b) key fn) =
       snd (AddKeyHandler d key fn)) /\
   (forall b dev' fn tp,
       snd (AddTouchPointHandler (set_open (set_dev d dev') b) tp fn) =
       snd (AddTouchPointHandler d tp fn)) /\
   (forall b dev' fn di,
       snd (AddDialSwitchHandler (set_open (set_dev d dev') b) di fn) =
       snd (AddDialSwitchHandler d di fn)) /\
   (forall b dev' fn di,
       snd (AddDialRotateHandler (set_open (set_dev d dev') b) di fn) =
       snd (AddDialRotateHandler d di fn))) /\
  (GetKeyCount d = keyCount (model_ d) /\
   GetTouchPointCount d = touchPointCount (model_ d) /\
   GetDialCount d = dialCount (model_ d) /\
   GetModelID d = model_id (model_ d) /\
   GetKeyImageRectangle d = (keyImageRect (model_ d), None)) /\
  ((forall tp h,
       0 <= touchPointCount (model_ d) < 255 -> touchPointSlots_ok d ->
       is_Some (touchPointColorSend (model_ d)) ->
       1 <= tp <= touchPointCount (model_ d) ->
       exists d', AddTouchPointHandler d tp (Some h) = (d', None) /\ IsOpen d' = false) /\
   (forall di h,
       0 <= dialCount (model_ d) < 255 -> dialSlots_ok d ->
       1 <= di <= dialCount (model_ d) ->
       exists d', AddDialSwitchHandler d di (Some h) = (d', None) /\ IsOpen d' = false) /\
   (forall di h,
       0 <= dialCount (model_ d) < 255 -> dialSlots_ok d ->
       1 <= di <= dialCount (model_ d) ->
       exists d', AddDialRotateHandler d di (Some h) = (d', None) /\ IsOpen d' = false)) /\
  ((forall key r, SetKeyImageFromReader d key r = (d, Returned (Some closed))) /\
   (forall key r, SetKeyImageFromReadCloser d key r = (d, Returned (Some closed))) /\
   (forall os_Open key name,
       SetKeyImageFromFile os_Open d key name = (d, Returned (Some closed))) /\
   (forall key ffs name, SetKeyImageFromFS d key ffs name = (d, Returned (Some closed))) /\
   (forall r, SetInfoBarImageFromReader d r = (d, Returned (Some closed))) /\
   (forall r, SetInfoBarImageFromReadCloser d r = (d, Returned (Some closed))) /\
   (forall os_Open name,
       SetInfoBarImageFromFile os_Open d name = (d, Returned (Some closed))) /\
   (forall ffs name, SetInfoBarImageFromFS d ffs name = (d, Returned (Some closed))) /\
   (forall r rect,
       SetTouchStripImageFromReaderWithRectangle d r rect = (d, Returned (Some closed))) /\
   (forall r, SetTouchStripImageFromReader d r = (d, Returned (Some closed))) /\
   (forall r rect,
       SetTouchStripImageFromReadCloserWithRectangle d r rect =
         (d, Returned (Some closed))) /\
   (forall r, SetTouchStripImageFromReadCloser d r = (d, Returned (Some closed))) /\
   (forall os_Open name rect,
       SetTouchStripImageFromFileWithRectangle os_Open d name rect =
         (d, Returned (Some closed))) /\
   (forall os_Open name,
       SetTouchStripImageFromFile os_Open d name = (d, Returned (Some closed))) /\
   (forall ffs name rect,
       SetTouchStripImageFromFSWithRectangle d ffs name rect =
         (d, Returned (Some closed))) /\
   (forall ffs name, SetTouchStripImageFromFS d ffs name = (d, Returned (Some closed)))).
Proof.
  intros Hc closed. pose proof (validateOpen_closed d Hc) as Hv.
  split; [| split; [| split; [| split; [| split]]]].
  - split; [unfold Close; rewrite Hv; reflexivity |].
    split; [intros script; unfold Listen; rewrite Hv; reflexivity |].
    split; [unfold GetFirmwareVersion; rewrite Hv; reflexivity |].
    split; [unfold Reset; rewrite Hv; reflexivity |].
    intros perc. unfold SetBrightness. rewrite Hv. reflexivity.
  - repeat split; intros;
      unfold ClearKey, SetKeyColor, SetKeyImage,
             ClearInfoBar, SetInfoBarColor, SetInfoBarImage,
             ClearTouchPoint, SetTouchPointColor,
             ClearTouchStrip, ClearTouchStripWithRectangle,
             SetTouchStripColor, SetTouchStripColorWithRectangle,
             SetTouchStripImage, SetTouchStripImageWithRectangle;
      rewrite Hv; reflexivity.
  - split.
    { intros key h Hkc Hok Hkey.
      pose proof (proj2 (AddKeyHandler_accepts d key h Hkc Hok) Hkey) as Hacc.
      assert (Hval : validateKey d key = None) by (apply validateKey_None; assumption).
      rewrite AddKeyHandler_keyUpd in Hacc |- * by exact Hval.
      destruct (updateFirst (keyUpd key h) (inputsOrNew d)) as [ins' |];
        [| simpl in Hacc; discriminate].
      eexists. split; [reflexivity |]. rewrite IsOpen_set_inputs. exact Hc. }
    split; [intros b dev' fn; apply (registration_ignores_open d b dev' fn) |].
    split; [intros b dev' fn; apply (registration_ignores_open d b dev' fn) |].
    split; intros b dev' fn; apply (registration_ignores_open d b dev' fn).
  - repeat split.
  - split; [| split].
    + intros tp h Htc Hok Hsend Htp.
      destruct (AddTouchPointHandler_accepted d tp h Htc Hok Hsend Htp) as [ins' ->].
      eexists. split; [reflexivity | exact Hc].
    + intros di h Hdc Hok Hdi.
      destruct (proj1 (AddDialHandler_accepted d di h Hdc Hok Hdi)) as [ins' ->].
      eexists. split; [reflexivity | exact Hc].
    + intros di h Hdc Hok Hdi.
      destruct (proj2 (AddDialHandler_accepted d di h Hdc Hok Hdi)) as [ins' ->].
      eexists. split; [reflexivity | exact Hc].
  - repeat split; intros;
      unfold SetKeyImageFromReader, SetKeyImageFromReadCloser, SetKeyImageFromFile,
             SetKeyImageFromFS, SetInfoBarImageFromReader, SetInfoBarImageFromReadCloser,
             SetInfoBarImageFromFile, SetInfoBarImageFromFS,
             SetTouchStripImageFromReaderWithRectangle, SetTouchStripImageFromReader,
             SetTouchStripImageFromReadCloserWithRectangle, SetTouchStripImageFromReadCloser,
             SetTouchStripImageFromFileWithRectangle, SetTouchStripImageFromFile,
             SetTouchStripImageFromFSWithRectangle, SetTouchStripImageFromFS;
      rewrite Hv; reflexivity.
Qed.

Lemma closed_device_operations_witness :
  (SetBrightness (miniDevice false) 50 =
     (miniDevice false, Some (wrap (Sentinel ErrDeviceIsClosed))) /\
   Listen (miniDevice false) [] =
     Stopped (Some (wrap (Sentinel ErrDeviceIsClosed))) (miniDevice false) []) /\
  (exists d', AddTouchPointHandler neoClosed 2 (Some 7%nat) = (d', None) /\
              IsOpen d' = false) /\
  (exists d', AddDialRotateHandler (plusDevice false) 4 (Some 7%nat) = (d', None) /\
              IsOpen d' = false).
Proof.
  split; [| split].
  - destruct (closed_device_operations (H := refImageLib) (miniDevice false) eq_refl)
      as ((_ & Hl & _ & _ & Hb) & _).
    split; [apply Hb | apply Hl].
  - destruct (closed_device_operations (H := refImageLib) neoClosed eq_refl)
      as (_ & _ & _ & _ & (Htp & _) & _).
    apply Htp.
    + simpl. lia.
    + intros ins Hi. discriminate.
    + eexists. reflexivity.
    + simpl. lia.
  - destruct (closed_device_operations (H := refImageLib) (plusDevice false) eq_refl)
      as (_ & _ & _ & _ & (_ & _ & Hrot) & _).
    apply Hrot.
    + simpl. lia.
    + intros ins Hi. discriminate.
    + simpl. lia.
Defined.

(** C4, as stated, fails: on a device that is not open, registering a
    callback for [KEY_1] returns no error and records the callback, and the
    key-count getter returns its number. *)
Lemma closed_device_registration_counterexample :
  IsOpen (miniDevice false) = false /\
  snd (AddKeyHandler (miniDevice false) KEY_1 (Some 7%nat)) = None /\
  (in_key <$> (default [] (inputs (fst (AddKeyHandler (miniDevice false) KEY_1 (Some 7%nat))))
                 !! 0%nat)) = Some (Some (mkKey 1 [7%nat])) /\
  GetKeyCount (miniDevice false) = 6.
Proof. repeat split. Qed.

(** ** float64: the computations of the letterbox *)

Lemma digits2_pos_bounds (p : positive) :
  2 ^ (Z.pos (digits2_pos p) - 1) <= Z.pos p < 2 ^ Z.pos (digits2_pos p).
Proof.
  induction p as [p IH | p IH |]; cbn [digits2_pos].
  - rewrite Pos2Z.inj_succ. replace (Z.succ (Z.pos (digits2_pos p)) - 1) with
      (Z.succ (Z.pos (digits2_pos p) - 1)) by lia.
    rewrite !Z.pow_succ_r by lia. lia.
  - rewrite Pos2Z.inj_succ. replace (Z.succ (Z.pos (digits2_pos p)) - 1) with
      (Z.succ (Z.pos (digits2_pos p) - 1)) by lia.
    rewrite !Z.pow_succ_r by lia. lia.
  - simpl. lia.
Qed.

Lemma Zdigits2_unique (m d : Z) :
  2 ^ (d - 1) <= m < 2 ^ d -> 0 < d -> Zdigits2 m = d.
Proof.
  intros Hb Hd.
  assert (Hm : 0 < m).
  { apply Z.lt_le_trans with (2 ^ (d - 1)); [apply Z.pow_pos_nonneg; lia | lia]. }
  destruct m as [| p | p]; try lia. cbn [Zdigits2].
  pose proof (digits2_pos_bounds p) as Hp.
  set (d' := Z.pos (digits2_pos p)) in *.
  assert (d' - 1 < d).
  { apply (Z.pow_lt_mono_r_iff 2); lia. }
  assert (d - 1 < d').
  { apply (Z.pow_lt_mono_r_iff 2); lia. }
  lia.
Qed.

Lemma shr_1_m (mrs : shr_record) :
  0 <= shr_m mrs -> shr_m (shr_1 mrs) = shr_m mrs / 2.
Proof.
  destruct mrs as [m r s]. simpl. intros Hm.
  destruct m as [| [p | p |] | p]; try lia; simpl.
  - reflexivity.
  - rewrite Pos2Z.inj_xI. apply Z.div_unique with 1; lia.
  - rewrite Pos2Z.inj_xO. apply Z.div_unique with 0; lia.
  - reflexivity.
Qed.

Lemma iter_shr_1_m (k : positive) :
  forall mrs, 0 <= shr_m mrs ->
    shr_m (SpecFloat.iter_pos shr_1 k mrs) = shr_m mrs / 2 ^ Z.pos k.
Proof.
  induction k as [k IH | k IH |]; intros mrs Hm; cbn [SpecFloat.iter_pos].
  - assert (H1 : 0 <= shr_m (shr_1 mrs)).
    { rewrite shr_1_m by exact Hm. apply Z.div_pos; lia. }
    assert (H2 : 0 <= shr_m (SpecFloat.iter_pos shr_1 k (shr_1 mrs))).
    { rewrite IH by exact H1. apply Z.div_pos; [lia | apply Z.pow_pos_nonneg; lia]. }
    rewrite IH by exact H2. rewrite IH by exact H1. rewrite shr_1_m by exact Hm.
    assert (Hp : 2 ^ Z.pos k~1 = 2 * 2 ^ Z.pos k * 2 ^ Z.pos k).
    { change 2 with (2 ^ 1) at 2. rewrite <- !Z.pow_add_r by lia. f_equal. lia. }
    assert (Hk : 0 < 2 ^ Z.pos k) by (apply Z.pow_pos_nonneg; lia).
    rewrite Hp, !Z.div_div by lia. first [reflexivity | f_equal; lia].
  - assert (H2 : 0 <= shr_m (SpecFloat.iter_pos shr_1 k mrs)).
    { rewrite IH by exact Hm. apply Z.div_pos; [lia | apply Z.pow_pos_nonneg; lia]. }
    rewrite IH by exact H2. rewrite IH by exact Hm.
    assert (Hp : 2 ^ Z.pos k~0 = 2 ^ Z.pos k * 2 ^ Z.pos k).
    { rewrite <- Z.pow_add_r by lia. f_equal. lia. }
    assert (Hk : 0 < 2 ^ Z.pos k) by (apply Z.pow_pos_nonneg; lia).
    rewrite Hp, !Z.div_div by lia. first [reflexivity | f_equal; lia].
  - rewrite shr_1_m by exact Hm. reflexivity.
Qed.

Lemma shr_record_of_loc_m (m : Z) (l : location) : shr_m (shr_record_of_loc m l) = m.
Proof. destruct l as [| []]; reflexivity. Qed.

Lemma round_nearest_even_bounds (m : Z) (l : location) :
  m <= round_nearest_even m l <= m + 1.
Proof.
  unfold round_nearest_even. destruct l as [| []]; try lia.
  destruct (Z.even m); lia.
Qed.

(** Shifting a mantissa of [d >= 53] bits down to 53 bits. *)
Lemma shr_fexp_normal (mx ex d : Z) (lx : location) :
  2 ^ (d - 1) <= mx < 2 ^ d -> 53 <= d ->
  3 - 1024 - 53 <= ex + d - 53 ->
  exists mrs,
    shr_fexp 53 1024 mx ex lx = (mrs, ex + d - 53) /\
    2 ^ 52 <= shr_m mrs < 2 ^ 53.
Proof.
  intros Hb Hd Hmin. unfold shr_fexp.
  rewrite (Zdigits2_unique mx d Hb) by lia.
  unfold fexp, emin.
  replace (Z.max (d + ex - 53) (3 - 1024 - 53)) with (d + ex - 53) by lia.
  replace (d + ex - 53 - ex) with (d - 53) by lia.
  unfold shr. destruct (d - 53) as [| k | k] eqn:Ek; try lia.
  - assert (d = 53) by lia. subst d. eexists. split.
    + f_equal. lia.
    + rewrite shr_record_of_loc_m. simpl in Hb. simpl. lia.
  - eexists. split.
    + f_equal. lia.
    + rewrite iter_shr_1_m by (rewrite shr_record_of_loc_m; lia).
      rewrite shr_record_of_loc_m.
      assert (Hd' : d = 53 + Z.pos k) by lia. subst d.
      replace (53 + Z.pos k - 1) with (52 + Z.pos k) in Hb by lia.
      rewrite !Z.pow_add_r in Hb by lia.
      assert (Hk : 0 < 2 ^ Z.pos k) by (apply Z.pow_pos_nonneg; lia).
      split.
      * apply Z.div_le_lower_bound; lia.
      * apply Z.div_lt_upper_bound; lia.
Qed.

(** Rounding a mantissa of at least 53 bits: the result is a normal float
    whose exponent is the shifted one, or one more after a carry. *)
Lemma binary_round_aux_normal (mx ex d : Z) (lx : location) :
  2 ^ (d - 1) <= mx < 2 ^ d -> 53 <= d ->
  3 - 1024 - 53 <= ex + d - 53 -> ex + d - 52 <= 1024 - 53 ->
  f64_normal (binary_round_aux 53 1024 false mx ex lx) (ex + d - 53) (ex + d - 52).
Proof.
  intros Hb Hd Hmin Hmax. unfold binary_round_aux.
  destruct (shr_fexp_normal mx ex d lx Hb Hd Hmin) as (mrs1 & -> & Hm1).
  set (e1 := ex + d - 53) in *.
  pose proof (round_nearest_even_bounds (shr_m mrs1) (loc_of_shr_record mrs1)) as Hr.
  set (mr := round_nearest_even (shr_m mrs1) (loc_of_shr_record mrs1)) in *.
  destruct (Z.eq_dec mr (2 ^ 53)) as [Heq | Hne].
  - (* carry: 54 bits, one more shift *)
    destruct (shr_fexp_normal mr e1 54 loc_Exact) as (mrs2 & -> & Hm2);
      [rewrite Heq; simpl; lia | lia | lia |].
    destruct (shr_m mrs2) as [| m2 | m2] eqn:E2; try (simpl in Hm2; lia).
    replace (e1 + 54 - 53 <=? 1024 - 53) with true by (symmetry; apply Z.leb_le; lia).
    exists m2, (e1 + 54 - 53). split; [reflexivity |]. split; [exact Hm2 | lia].
  - destruct (shr_fexp_normal mr e1 53 loc_Exact) as (mrs2 & Hs2 & Hm2);
      [simpl; simpl in Hm1; lia | lia | lia |].
    rewrite Hs2.
    destruct (shr_m mrs2) as [| m2 | m2] eqn:E2; try (simpl in Hm2; lia).
    replace (e1 + 53 - 53 <=? 1024 - 53) with true by (symmetry; apply Z.leb_le; lia).
    exists m2, (e1 + 53 - 53). split; [reflexivity |]. split; [exact Hm2 | lia].
Qed.

Lemma f64_normal_weaken (f : float64) (lo hi lo' hi' : Z) :
  f64_normal f lo hi -> lo' <= lo -> hi <= hi' -> f64_normal f lo' hi'.
Proof.
  intros (m & e & Hf & Hm & He) Hlo Hhi. exists m, e. repeat split; try tauto; lia.
Qed.

(** A 53-bit mantissa with nothing to round is kept as it is. *)
Lemma binary_round_aux_exact (m : positive) (ex : Z) :
  2 ^ 52 <= Z.pos m < 2 ^ 53 -> 3 - 1024 - 53 <= ex <= 1024 - 53 ->
  binary_round_aux 53 1024 false (Z.pos m) ex loc_Exact = S754_finite false m ex.
Proof.
  intros Hm He. unfold binary_round_aux.
  assert (Hs : shr_fexp 53 1024 (Z.pos m) ex loc_Exact =
               (Build_shr_record (Z.pos m) false false, ex)).
  { unfold shr_fexp. rewrite (Zdigits2_unique (Z.pos m) 53) by (simpl; lia).
    unfold fexp, emin.
    replace (Z.max (53 + ex - 53) (3 - 1024 - 53) - ex) with 0 by lia.
    reflexivity. }
  rewrite Hs. cbn [shr_m loc_of_shr_record round_nearest_even]. rewrite Hs.
  cbn [shr_m].
  replace (ex <=? 1024 - 53) with true by (symmetry; apply Z.leb_le; lia).
  reflexivity.
Qed.

Lemma Pos_iter_xO (p d : positive) : Z.pos (Pos.iter xO p d) = Z.pos p * 2 ^ Z.pos d.
Proof.
  induction d as [| d IH] using Pos.peano_ind.
  - simpl. lia.
  - rewrite Pos.iter_succ, Pos2Z.inj_xO, IH, Pos2Z.inj_succ, Z.pow_succ_r by lia. lia.
Qed.

(** The conversion of a positive integer below 2^30 is exact. *)
Lemma f64_of_int_normal (n : Z) :
  0 < n < 2 ^ 30 -> f64_normal (f64_of_int n) (-52) (-23).
Proof.
  intros Hn. destruct n as [| p | p]; try lia.
  unfold f64_of_int, binary_normalize, binary_round, f64_prec, f64_emax.
  pose proof (digits2_pos_bounds p) as Hd.
  set (d := Z.pos (digits2_pos p)) in *.
  assert (Hd1 : 1 <= d) by (unfold d; lia).
  assert (Hd30 : d <= 30).
  { assert (d - 1 < 30); [| lia]. apply (Z.pow_lt_mono_r_iff 2); lia. }
  unfold fexp, emin.
  replace (Z.max (d + 0 - 53) (3 - 1024 - 53)) with (d - 53) by lia.
  unfold shl_align.
  destruct (d - 53 - 0) as [| k | k] eqn:Ek; try lia.
  assert (Hk : Z.pos k = 53 - d) by lia.
  assert (Hm : 2 ^ 52 <= Z.pos (Pos.iter xO p k) < 2 ^ 53).
  { rewrite Pos_iter_xO, Hk.
    assert (H52 : 2 ^ 52 = 2 ^ (d - 1) * 2 ^ (53 - d))
      by (rewrite <- Z.pow_add_r by lia; f_equal; lia).
    assert (H53 : 2 ^ 53 = 2 ^ d * 2 ^ (53 - d))
      by (rewrite <- Z.pow_add_r by lia; f_equal; lia).
    assert (0 < 2 ^ (53 - d)) by (apply Z.pow_pos_nonneg; lia).
    rewrite H52, H53.
    split; [apply Z.mul_le_mono_nonneg_r; lia | apply Z.mul_lt_mono_pos_r; lia]. }
  rewrite binary_round_aux_exact by (try exact Hm; lia).
  eexists _, _. split; [reflexivity |]. split; [exact Hm | lia].
Qed.

Lemma f64_div_normal (x y : float64) (lx hx ly hy : Z) :
  f64_normal x lx hx -> f64_normal y ly hy ->
  -900 <= lx - hy -> hx - ly <= 900 ->
  f64_normal (f64_div x y) (lx - hy - 53) (hx - ly - 51).
Proof.
  intros (mx & ex & -> & Hmx & Hex) (my & ey & -> & Hmy & Hey) Hlo Hhi.
  unfold f64_div, f64_prec, f64_emax, SFdiv, SFdiv_core_binary.
  rewrite (Zdigits2_unique (Z.pos mx) 53) by (simpl; lia).
  rewrite (Zdigits2_unique (Z.pos my) 53) by (simpl; lia).
  unfold fexp, emin.
  replace (Z.min (Z.max (53 + ex - (53 + ey) - 53) (3 - 1024 - 53)) (ex - ey))
    with (ex - ey - 53) by lia.
  replace (ex - ey - (ex - ey - 53)) with 53 by lia.
  cbv iota.
  pose proof (Z_div_mod (Z.shiftl (Z.pos mx) 53) (Z.pos my) ltac:(lia)) as Hdiv.
  destruct (Z.div_eucl (Z.shiftl (Z.pos mx) 53) (Z.pos my)) as [q r].
  destruct Hdiv as [Heq Hr].
  rewrite Z.shiftl_mul_pow2 in Heq by lia.
  change (2 ^ 52) with 4503599627370496 in *.
  change (2 ^ 53) with 9007199254740992 in *.
  assert (Hq : 4503599627370496 <= q < 18014398509481984) by nia.
  cbn [xorb].
  destruct (Z_lt_ge_dec q 9007199254740992) as [Hlt | Hge].
  - eapply f64_normal_weaken;
      [apply (binary_round_aux_normal q (ex - ey - 53) 53) | |];
      try (change (2 ^ (53 - 1)) with 4503599627370496;
           change (2 ^ 53) with 9007199254740992); lia.
  - eapply f64_normal_weaken;
      [apply (binary_round_aux_normal q (ex - ey - 53) 54) | |];
      try (change (2 ^ (54 - 1)) with 9007199254740992;
           change (2 ^ 54) with 18014398509481984); lia.
Qed.

Lemma f64_mul_normal (x y : float64) (lx hx ly hy : Z) :
  f64_normal x lx hx -> f64_normal y ly hy ->
  -900 <= lx + ly -> hx + hy <= 900 ->
  f64_normal (f64_mul x y) (lx + ly + 52) (hx + hy + 54).
Proof.
  intros (mx & ex & -> & Hmx & Hex) (my & ey & -> & Hmy & Hey) Hlo Hhi.
  unfold f64_mul, f64_prec, f64_emax, SFmul. cbn [xorb].
  rewrite Pos2Z.inj_mul.
  change (2 ^ 52) with 4503599627370496 in *.
  change (2 ^ 53) with 9007199254740992 in *.
  assert (Hp : 2 ^ 104 <= Z.pos mx * Z.pos my < 2 ^ 106).
  { change (2 ^ 104) with (4503599627370496 * 4503599627370496).
    change (2 ^ 106) with (9007199254740992 * 9007199254740992). nia. }
  destruct (Z_lt_ge_dec (Z.pos mx * Z.pos my) (2 ^ 105)) as [Hlt | Hge].
  - eapply f64_normal_weaken;
      [apply (binary_round_aux_normal (Z.pos mx * Z.pos my) (ex + ey) 105) | |];
      try (change (105 - 1) with 104); lia.
  - eapply f64_normal_weaken;
      [apply (binary_round_aux_normal (Z.pos mx * Z.pos my) (ex + ey) 106) | |];
      try (change (106 - 1) with 105); lia.
Qed.

(** A normal float with exponent at most 10 converts to an integer that is
    not negative: the conversion stays within the range of [int]. *)
Lemma f64_to_int_nonneg (f : float64) (lo hi : Z) :
  f64_normal f lo hi -> hi <= 10 -> 0 <= f64_to_int f.
Proof.
  intros (m & e & -> & Hm & He) Hhi. unfold f64_to_int.
  set (a := if 0 <=? e then Z.pos m * 2 ^ e else Z.pos m / 2 ^ (- e)).
  cbv zeta.
  assert (Ha : 0 <= a <= maxInt).
  { unfold a, maxInt.
    change (2 ^ 52) with 4503599627370496 in *.
    change (2 ^ 53) with 9007199254740992 in *.
    change (2 ^ 63) with 9223372036854775808 in *.
    destruct (0 <=? e) eqn:E.
    - apply Z.leb_le in E.
      assert (Hpow : 0 < 2 ^ e <= 1024).
      { split; [apply Z.pow_pos_nonneg; lia |].
        change 1024 with (2 ^ 10). apply Z.pow_le_mono_r; lia. }
      nia.
    - apply Z.leb_gt in E.
      assert (Hpow : 0 < 2 ^ (- e)) by (apply Z.pow_pos_nonneg; lia).
      assert (Hv : 0 <= Z.pos m / 2 ^ (- e) <= Z.pos m).
      { split; [apply Z.div_pos; lia |]. apply Z.div_le_upper_bound; [lia |].
        assert (1 <= 2 ^ (- e)) by lia. nia. }
      lia. }
  replace ((minInt <=? a) && (a <=? maxInt)) with true; [lia |].
  symmetry. apply andb_true_intro. split; apply Z.leb_le; unfold minInt in *; lia.
Qed.

(** ** The letterbox rectangle *)

Lemma Rect_ordered (x0 y0 x1 y1 : Z) :
  x0 <= x1 -> y0 <= y1 -> Rect x0 y0 x1 y1 = mkRectangle (mkPoint x0 y0) (mkPoint x1 y1).
Proof.
  intros Hx Hy. unfold Rect.
  destruct (x1 <? x0) eqn:Ex; [apply Z.ltb_lt in Ex; lia |].
  destruct (y1 <? y0) eqn:Ey; [apply Z.ltb_lt in Ey; lia |].
  reflexivity.
Qed.

Lemma quot2_centered (a : Z) : -1 <= Z.quot a 2 - (a - Z.quot a 2) <= 1.
Proof.
  pose proof (Z.quot_rem' a 2) as Hq.
  pose proof (Z.rem_bound_abs a 2 ltac:(lia)) as Hb.
  lia.
Qed.

(** C7.  For rectangles with positive dimensions (below 2^30, where every
    conversion between [int] and [float64] stays in range): when the source
    ratio is the greater one, the fitted rectangle spans the full width of the
    destination, its height is the destination width divided by the source
    ratio, and it is centred vertically, the two margins differing by at
    most one pixel; otherwise it spans the full height, its width is the
    destination height times the source ratio, and it is centred
    horizontally. *)
Theorem getScaledRect_letterbox (src dst : Rectangle) :
  0 < Dx src < 2 ^ 30 -> 0 < Dy src < 2 ^ 30 ->
  0 < Dx dst < 2 ^ 30 -> 0 < Dy dst < 2 ^ 30 ->
  let srcRatio := f64_div (f64_of_int (Dx src)) (f64_of_int (Dy src)) in
  let dstRatio := f64_div (f64_of_int (Dx dst)) (f64_of_int (Dy dst)) in
  let r := getScaledRect src dst in
  (f64_gt srcRatio dstRatio = true ->
   let newHeight := f64_to_int (f64_div (f64_of_int (Dx dst)) srcRatio) in
   let y0 := Y (Min dst) + Z.quot (Dy dst - newHeight) 2 in
   0 <= newHeight /\
   r = mkRectangle (mkPoint (X (Min dst)) y0) (mkPoint (X (Max dst)) (y0 + newHeight)) /\
   Dx r = Dx dst /\ Dy r = newHeight /\
   -1 <= (Y (Min r) - Y (Min dst)) - (Y (Max dst) - Y (Max r)) <= 1) /\
  (f64_gt srcRatio dstRatio = false ->
   let newWidth := f64_to_int (f64_mul (f64_of_int (Dy dst)) srcRatio) in
   let x0 := X (Min dst) + Z.quot (Dx dst - newWidth) 2 in
   0 <= newWidth /\
   r = mkRectangle (mkPoint x0 (Y (Min dst))) (mkPoint (x0 + newWidth) (Y (Max dst))) /\
   Dy r = Dy dst /\ Dx r = newWidth /\
   -1 <= (X (Min r) - X (Min dst)) - (X (Max dst) - X (Max r)) <= 1).
Proof.
  intros Hsw Hsh Hdw Hdh srcRatio dstRatio r.
  pose proof (f64_of_int_normal _ Hsw) as Nsw.
  pose proof (f64_of_int_normal _ Hsh) as Nsh.
  pose proof (f64_of_int_normal _ Hdw) as Ndw.
  pose proof (f64_of_int_normal _ Hdh) as Ndh.
  pose proof (f64_div_normal _ _ _ _ _ _ Nsw Nsh ltac:(lia) ltac:(lia)) as Nsr.
  fold srcRatio in Nsr.
  split.
  - intros Hgt newHeight y0.
    pose proof (f64_div_normal _ _ _ _ _ _ Ndw Nsr ltac:(lia) ltac:(lia)) as Nh.
    pose proof (f64_to_int_nonneg _ _ _ Nh ltac:(lia)) as Hh. fold newHeight in Hh.
    assert (Hr : r = mkRectangle (mkPoint (X (Min dst)) y0)
                       (mkPoint (X (Max dst)) (y0 + newHeight))).
    { unfold r, getScaledRect. fold srcRatio. fold dstRatio. rewrite Hgt.
      fold newHeight. fold y0. apply Rect_ordered; unfold Dx in Hdw; lia. }
    split; [exact Hh |]. split; [exact Hr |]. rewrite Hr.
    unfold Dx, Dy. simpl. split; [reflexivity |]. split; [lia |].
    unfold y0. pose proof (quot2_centered (Dy dst - newHeight)). unfold Dy in *. lia.
  - intros Hgt newWidth x0.
    pose proof (f64_mul_normal _ _ _ _ _ _ Ndh Nsr ltac:(lia) ltac:(lia)) as Nw.
    pose proof (f64_to_int_nonneg _ _ _ Nw ltac:(lia)) as Hw. fold newWidth in Hw.
    assert (Hr : r = mkRectangle (mkPoint x0 (Y (Min dst)))
                       (mkPoint (x0 + newWidth) (Y (Max dst)))).
    { unfold r, getScaledRect. fold srcRatio. fold dstRatio. rewrite Hgt.
      fold newWidth. fold x0. apply Rect_ordered; unfold Dy in Hdh; lia. }
    split; [exact Hw |]. split; [exact Hr |]. rewrite Hr.
    unfold Dx, Dy. simpl. split; [reflexivity |]. split; [lia |].
    unfold x0. pose proof (quot2_centered (Dx dst - newWidth)). unfold Dx in *. lia.
Qed.

Lemma getScaledRect_letterbox_witness :
  getScaledRect (Rect 0 0 10 5) (Rect 0 0 20 20) =
    mkRectangle (mkPoint 0 5) (mkPoint 20 15).
Proof.
  assert (Hdim : 0 < 10 < 2 ^ 30 /\ 0 < 5 < 2 ^ 30 /\ 0 < 20 < 2 ^ 30)
    by (vm_compute; repeat split; reflexivity).
  destruct Hdim as (H10 & H5 & H20).
  pose proof (getScaledRect_letterbox (Rect 0 0 10 5) (Rect 0 0 20 20) H10 H5 H20 H20)
    as [Hwide _].
  assert (Hgt : f64_gt (f64_div (f64_of_int 10) (f64_of_int 5))
                  (f64_div (f64_of_int 20) (f64_of_int 20)) = true)
    by (vm_compute; reflexivity).
  exact (proj1 (proj2 (Hwide Hgt))).
Defined.

(** The repository's own test vector for the letterbox computation. *)
Example getScaledRect_test :
  getScaledRect (Rect 0 0 10 5) (Rect 0 0 20 20) = Rect 0 5 20 15.
Proof. vm_compute. reflexivity. Qed.

(** A tall source in a wide destination takes the other branch. *)
Example getScaledRect_tall :
  getScaledRect (Rect 0 0 100 300) (Rect 0 0 800 100) = Rect 383 0 416 100.
Proof. vm_compute. reflexivity. Qed.

(** * Further properties of the code *)

(** ** Enumeration filter and model resolution *)

(** X1.  The enumeration filter accepts a transport exactly when model
    resolution succeeds on it; what the filter refuses, resolution refuses
    with the enumeration-failed error. *)
Theorem enumerateFunc_agrees_with_getModel (dev : usbhid) :
  (enumerateFunc dev = true <-> exists md, getModel dev = inl md) /\
  (enumerateFunc dev = false ->
   exists e, getModel dev = inr e /\ errors_Is e ErrDeviceEnumerationFailed = true).
Proof.
  unfold enumerateFunc, getModel.
  destruct (negb (hid_vendorId dev =? elgatoVendorID)).
  - split; [split; [discriminate | intros [md Hmd]; discriminate] |].
    intros _. eexists. split; reflexivity.
  - cbv zeta.
    destruct (models !! match modelAliases !! hid_productId dev with
                        | Some ma => ma
                        | None => hid_productId dev
                        end) as [md |] eqn:E.
    + split.
      * split; [intros _; exists md; reflexivity |].
        intros _. apply bool_decide_eq_true. eauto.
      * intros Hf. apply bool_decide_eq_false in Hf. exfalso. apply Hf. eauto.
    + split.
      * split; [| intros [md Hmd]; discriminate].
        intros Ht. apply bool_decide_eq_true in Ht. destruct Ht as [? ?]. discriminate.
      * intros _. eexists. split; reflexivity.
Qed.

(** ** Touch-point and dial identifiers *)

(** X2.  Touch-point and dial identifiers are 1-based like key identifiers.
    A touch point is accepted exactly when the model has a colour sender and
    the id lies between 1 and the touch-point count; on a model without
    touch points every id, valid-looking or not, gets the not-supported
    error, and only a model with touch points reports an invalid id.  A dial
    is accepted exactly when its id lies between 1 and the dial count; a
    model without dials has no error of its own and reports every id as
    invalid. *)
Theorem touchPoint_and_dial_ids (d : Device) :
  0 <= touchPointCount (model_ d) < 255 -> 0 <= dialCount (model_ d) < 255 ->
  (forall tp,
      validateTouchPoint d tp = None <->
      is_Some (touchPointColorSend (model_ d)) /\ 1 <= tp <= touchPointCount (model_ d)) /\
  (touchPointColorSend (model_ d) = None \/ touchPointCount (model_ d) = 0 ->
   forall tp,
     validateTouchPoint d tp = Some (wrap (Sentinel ErrDeviceTouchPointNotSupported))) /\
  (is_Some (touchPointColorSend (model_ d)) -> 0 < touchPointCount (model_ d) ->
   forall tp, ~ 1 <= tp <= touchPointCount (model_ d) ->
     validateTouchPoint d tp = Some (Wrapf "%w: %s" (Sentinel ErrTouchPointInvalid) [tp])) /\
  (forall di, validateDial d di = None <-> 1 <= di <= dialCount (model_ d)) /\
  (forall di, ~ 1 <= di <= dialCount (model_ d) ->
     validateDial d di = Some (Wrapf "%w: %s" (Sentinel ErrDialInvalid) [di])).
Proof.
  intros Htp Hdi.
  split; [intros tp; apply validateTouchPoint_None; exact Htp |].
  split.
  { intros Hno tp. unfold validateTouchPoint.
    destruct Hno as [-> | ->]; [reflexivity |].
    rewrite orb_true_r. reflexivity. }
  split.
  { intros Hs Hpos tp Hout.
    destruct (validateTouchPoint d tp) as [e |] eqn:E.
    - unfold validateTouchPoint in E.
      rewrite (bool_decide_eq_true_2 _ Hs) in E.
      destruct (touchPointCount (model_ d) =? 0) eqn:E0; [apply Z.eqb_eq in E0; lia |].
      simpl in E.
      destruct ((tp <? TOUCH_POINT_1) || _); [symmetry; exact E | discriminate].
    - apply validateTouchPoint_None in E; [| exact Htp]. destruct E as [_ E]. contradiction. }
  split; [intros di; apply validateDial_None; exact Hdi |].
  intros di Hout. destruct (validateDial d di) as [e |] eqn:E.
  - unfold validateDial in E.
    destruct ((di <? DIAL_1) || _); [symmetry; exact E | discriminate].
  - apply validateDial_None in E; [contradiction | exact Hdi].
Qed.

Lemma touchPoint_and_dial_ids_witness :
  validateTouchPoint (mk2Device true) 1 =
    Some (wrap (Sentinel ErrDeviceTouchPointNotSupported)) /\
  validateDial (plusDevice true) 5 = Some (Wrapf "%w: %s" (Sentinel ErrDialInvalid) [5]) /\
  (validateDial (plusDevice true) 4 = None <-> 1 <= 4 <= 4).
Proof.
  assert (H0 : 0 <= 0 < 255) by lia.
  assert (H4 : 0 <= 4 < 255) by lia.
  split.
  - apply (proj1 (proj2 (touchPoint_and_dial_ids (mk2Device true) H0 H0))).
    left. reflexivity.
  - destruct (touchPoint_and_dial_ids (plusDevice true) H0 H4) as (_ & _ & _ & Hin & Hout).
    split; [apply Hout; simpl; lia | apply Hin].
Defined.

(** ** Iteration helpers *)

Lemma forEachId_app (cb : Device -> Z -> Device * outcome) (l1 l2 : list Z) (d : Device) :
  forEachId cb (l1 ++ l2) d =
    match forEachId cb l1 d with
    | (d1, Returned None) => forEachId cb l2 d1
    | r => r
    end.
Proof.
  revert d. induction l1 as [| k l1 IH]; intros d; simpl; [reflexivity |].
  destruct (cb d k) as [d' [[e |] | |]]; try reflexivity. apply IH.
Qed.

Lemma byteRange_spec (first bound k : Z) :
  k ∈ byteRange first bound <-> first <= k < bound.
Proof. unfold byteRange. rewrite elem_of_seqZ. lia. Qed.

Lemma byteRange_ascending (first bound : Z) : ascending (byteRange first bound).
Proof.
  unfold ascending, byteRange. intros i j a b Hi Hj Hlt.
  apply lookup_seqZ in Hi as [-> _]. apply lookup_seqZ in Hj as [-> _]. lia.
Qed.

(** X3.  The three iteration helpers hand to the callback exactly the
    identifiers the matching validation accepts, in ascending order and each
    once.  The walk stops at the first call that does not return nil and
    returns what that call returned; when every call returns nil the walk
    returns nil.  A nil callback is an error and nothing is called. *)
Theorem ForEach_visits_the_valid_ids (d : Device) :
  (exists ids,
      (forall cb, ForEachKey d (Some cb) = forEachId cb ids d) /\
      ascending ids /\
      (forall k, k ∈ ids <-> validateKey d k = None)) /\
  (exists ids,
      (forall cb, ForEachTouchPoint d (Some cb) = forEachId cb ids d) /\
      ascending ids /\
      (is_Some (touchPointColorSend (model_ d)) -> touchPointCount (model_ d) <> 0 ->
       forall tp, tp ∈ ids <-> validateTouchPoint d tp = None)) /\
  (exists ids,
      (forall cb, ForEachDial d (Some cb) = forEachId cb ids d) /\
      ascending ids /\
      (forall di, di ∈ ids <-> validateDial d di = None)) /\
  (forall cb before k after d1 d2 o,
      forEachId cb before d = (d1, Returned None) ->
      cb d1 k = (d2, o) -> o <> Returned None ->
      forEachId cb (before ++ k :: after) d = (d2, o)) /\
  (forall cb ids,
      (forall d' k, k ∈ ids -> snd (cb d' k) = Returned None) ->
      snd (forEachId cb ids d) = Returned None) /\
  (ForEachKey d None =
     (d, Returned (Some (New "streamdeck: ForEachKey callback is nil"))) /\
   ForEachTouchPoint d None =
     (d, Returned (Some (New "streamdeck: ForEachTouchPoint callback is nil"))) /\
   ForEachDial d None =
     (d, Returned (Some (New "streamdeck: ForEachDial callback is nil")))).
Proof.
  split.
  { eexists. split; [intros cb; reflexivity |]. split; [apply byteRange_ascending |].
    intros k. rewrite byteRange_spec. unfold validateKey.
    destruct (k <? KEY_1) eqn:E1; destruct (u8 (KEY_1 + keyCount (model_ d)) <=? k) eqn:E2;
      simpl; split; intros Hk; try discriminate; try reflexivity; lia. }
  split.
  { eexists. split; [intros cb; reflexivity |]. split; [apply byteRange_ascending |].
    intros Hs Hc tp. rewrite byteRange_spec. unfold validateTouchPoint.
    rewrite (bool_decide_eq_true_2 _ Hs). apply Z.eqb_neq in Hc. rewrite Hc. simpl.
    destruct (tp <? TOUCH_POINT_1) eqn:E1;
      destruct (u8 (TOUCH_POINT_1 + touchPointCount (model_ d)) <=? tp) eqn:E2;
      simpl; split; intros Hk; try discriminate; try reflexivity; lia. }
  split.
  { eexists. split; [intros cb; reflexivity |]. split; [apply byteRange_ascending |].
    intros di. rewrite byteRange_spec. unfold validateDial.
    destruct (di <? DIAL_1) eqn:E1; destruct (u8 (DIAL_1 + dialCount (model_ d)) <=? di) eqn:E2;
      simpl; split; intros Hk; try discriminate; try reflexivity; lia. }
  split.
  { intros cb before k after d1 d2 o Hb Hk Ho.
    rewrite forEachId_app, Hb. simpl. rewrite Hk.
    destruct o as [[e |] | |]; try reflexivity. congruence. }
  split.
  { intros cb ids. revert d. induction ids as [| k ids IH]; intros d0 Hall; [reflexivity |].
    simpl. pose proof (Hall d0 k ltac:(left)) as Hk.
    destruct (cb d0 k) as [d' o]. simpl in Hk. subst o.
    apply IH. intros d'' k' Hin. apply Hall. right. exact Hin. }
  repeat split.
Qed.

(** ** Protocol framer: what a run writes *)

Lemma sameDevice_refl (dev : usbhid) : sameDevice dev dev.
Proof. repeat split. Qed.

Lemma sameDevice_trans (a b c : usbhid) : sameDevice a b -> sameDevice b c -> sameDevice a c.
Proof.
  unfold sameDevice.
  intros (A1 & A2 & A3 & A4 & A5 & A6 & A7 & A8 & A9 & A10 & A11)
    (B1 & B2 & B3 & B4 & B5 & B6 & B7 & B8 & B9 & B10 & B11).
  repeat split; congruence.
Qed.

Lemma sameDevice_withLogs (dev dev' : usbhid) (out feat : list (Z * list Z)) :
  sameDevice dev dev' ->
  hid_outputLog dev' = hid_outputLog dev ++ out ->
  hid_featureLog dev' = hid_featureLog dev ++ feat ->
  dev' = withLogs dev out feat.
Proof.
  intros (A1 & A2 & A3 & A4 & A5 & A6 & A7 & A8 & A9 & A10 & A11) Ho Hf.
  destruct dev'. unfold withLogs. simpl in *. congruence.
Qed.

Lemma withLogs_nil (dev : usbhid) : withLogs dev [] [] = dev.
Proof. destruct dev. unfold withLogs. simpl. rewrite !app_nil_r. reflexivity. Qed.

Lemma withLogs_withLogs (dev : usbhid) (o1 f1 o2 f2 : list (Z * list Z)) :
  withLogs (withLogs dev o1 f1) o2 f2 = withLogs dev (o1 ++ o2) (f1 ++ f2).
Proof. unfold withLogs. simpl. rewrite !app_assoc. reflexivity. Qed.

Lemma SetOutputReport_cases (dev : usbhid) (id : Z) (payload : list Z) :
  (exists e, hid_writeFault dev (hid_writes dev) = Some e /\
             SetOutputReport dev id payload = (dev, Some e)) \/
  (exists dev', hid_writeFault dev (hid_writes dev) = None /\
                SetOutputReport dev id payload = (dev', None) /\
                sameDevice dev dev' /\
                hid_outputLog dev' = hid_outputLog dev ++ [(id, payload)] /\
                hid_featureLog dev' = hid_featureLog dev /\
                hid_writes dev' = S (hid_writes dev)).
Proof.
  unfold SetOutputReport. destruct (hid_writeFault dev (hid_writes dev)) as [e |] eqn:E.
  - left. eauto.
  - right. eexists. split; [reflexivity |]. split; [reflexivity |].
    split; [repeat split |]. split; [reflexivity |]. split; [reflexivity |].
    unfold hid_writes. simpl. rewrite length_app. simpl. lia.
Qed.

Lemma imageSend_loop_shape (id : Z) (imgData : list Z) (cb : updateCb) (fuel : nat) :
  forall (dev : usbhid) (hdr : list Z) (start page_ : Z) (pages : list page),
  exists (new : list page) (dev' : usbhid) (o : outcome),
    imageSend_loop fuel dev id hdr imgData cb start page_ pages = (dev', pages ++ new, o) /\
    pagesFrom cb (hid_outputReportLength dev) hdr page_ new /\
    sameDevice dev dev' /\
    hid_outputLog dev' = hid_outputLog dev ++ ((fun p => (id, pg_report p)) <$> accepted o new) /\
    hid_featureLog dev' = hid_featureLog dev /\
    (o = Returned None -> exists lst, last new = Some lst /\ pg_last lst = 1) /\
    (forall e, o = Returned (Some e) ->
       new <> [] /\ hid_writeFault dev (hid_writes dev + length new - 1)%nat = Some e).
Proof.
  induction fuel as [| fuel IH]; intros dev hdr start page_ pages.
  { exists [], dev, Diverged. simpl. rewrite !app_nil_r.
    split; [reflexivity |]. split; [exact I |]. split; [apply sameDevice_refl |].
    split; [reflexivity |]. split; [reflexivity |]. split; intros; discriminate. }
  cbn [imageSend_loop].
  set (outLen := hid_outputReportLength dev).
  set (end0 := u16 (start + outLen - u16 (len hdr))).
  set (l := u16 (len imgData)).
  assert (Hlast : exists end_ last, (if l <=? end0 then (l, 1) else (end0, 0)) = (end_, last) /\
                                    (last = 0 \/ last = 1)).
  { destruct (l <=? end0); eauto. }
  destruct Hlast as (end_ & lst & -> & Hlst).
  destruct (slice imgData start end_) as [to_send |].
  2:{ exists [], dev, Panicked. rewrite !app_nil_r.
      split; [reflexivity |]. split; [exact I |]. split; [apply sameDevice_refl |].
      split; [reflexivity |]. split; [reflexivity |]. split; intros; discriminate. }
  set (size := u16 (len to_send)).
  set (hdr' := cb hdr page_ lst size).
  set (payload := (hdr' ++ to_send) ++ make_bytes (u16 (outLen - u16 (len (hdr' ++ to_send))))).
  set (pg := mkPage page_ lst size to_send hdr' payload).
  assert (Hpg : forall rest,
             (rest <> [] -> lst = 0) ->
             pagesFrom cb outLen hdr' (u8 (page_ + 1)) rest ->
             pagesFrom cb outLen hdr page_ (pg :: rest)).
  { intros rest Hr Hrest. simpl. repeat split; try reflexivity; assumption. }
  destruct (SetOutputReport_cases dev id payload)
    as [(e & Hfault & ->) | (dev1 & Hfault & -> & Hsame & Hlog & Hflog & Hw)].
  - exists [pg], dev, (Returned (Some e)).
    split; [reflexivity |].
    split; [apply Hpg; [intros Hne; congruence | exact I] |].
    split; [apply sameDevice_refl |].
    split; [simpl; rewrite app_nil_r; reflexivity |].
    split; [reflexivity |].
    split; [discriminate |].
    intros e' [= <-]. split; [discriminate |].
    simpl. replace (hid_writes dev + 1 - 1)%nat with (hid_writes dev) by lia. exact Hfault.
  - destruct (lst =? 0) eqn:El.
    + apply Z.eqb_eq in El.
      destruct (IH dev1 hdr' (u16 (start + outLen - u16 (len hdr'))) (u8 (page_ + 1))
                  (pages ++ [pg]))
        as (new & dev' & o & Hrun & Hpages & Hsame' & Hlog' & Hflog' & Hfin & Herr).
      exists (pg :: new), dev', o.
      split; [rewrite Hrun, <- app_assoc; reflexivity |].
      split.
      { apply Hpg; [intros _; exact El |].
        destruct Hsame as (_ & _ & _ & HL & _). unfold outLen. rewrite <- HL. exact Hpages. }
      split; [eapply sameDevice_trans; eassumption |].
      split.
      { rewrite Hlog', Hlog, <- app_assoc. f_equal. simpl.
        destruct o as [[e |] | |]; try reflexivity.
        destruct (Herr e eq_refl) as [Hne _]. simpl.
        destruct new as [| p new']; [congruence | reflexivity]. }
      split; [congruence |].
      split.
      { intros Ho. destruct (Hfin Ho) as (lst' & Hl' & Hl1). exists lst'.
        split; [| exact Hl1]. destruct new as [| p new']; [discriminate | exact Hl']. }
      intros e Ho. destruct (Herr e Ho) as [Hne Hf]. split; [discriminate |].
      destruct Hsame as (_ & _ & _ & _ & _ & HF & _). rewrite HF, Hw in Hf.
      simpl. destruct new as [| p new']; [congruence |].
      simpl in Hf |- *.
      replace (hid_writes dev + S (S (length new')) - 1)%nat
        with (S (hid_writes dev) + S (length new') - 1)%nat by lia.
      exact Hf.
    + apply Z.eqb_neq in El.
      exists [pg], dev1, (Returned None).
      split; [reflexivity |].
      split; [apply Hpg; [intros Hne; congruence | exact I] |].
      split; [exact Hsame |].
      split; [rewrite Hlog; reflexivity |].
      split; [exact Hflog |].
      split; [| intros e; discriminate].
      intros _. exists pg. split; [reflexivity |]. simpl. lia.
Qed.

(** X4.  Whatever the payload and the transport do, a run of the framer
    writes nothing but the pages it built, in order: page numbers count up
    from 0 modulo 256, every report is the header the callback left, the
    chunk, and zero padding, and only the final page can be marked last.  A
    run that returns nil ends on a page marked last.  A failed write ends
    the run at once: the error returned is the transport's own, unchanged,
    the failed report is not in the transport's log and nothing is written
    after it.  A nil callback is refused before anything is written. *)
Theorem imageSend_writes_its_pages (dev : usbhid) (id : Z) (hdr imgData : list Z)
    (cb : updateCb) :
  (exists (pages : list page) (dev' : usbhid) (o : outcome),
      imageSend dev id hdr imgData (Some cb) = (dev', pages, o) /\
      pagesFrom cb (hid_outputReportLength dev) hdr 0 pages /\
      sameDevice dev dev' /\
      hid_outputLog dev' =
        hid_outputLog dev ++ ((fun p => (id, pg_report p)) <$> accepted o pages) /\
      hid_featureLog dev' = hid_featureLog dev /\
      (o = Returned None -> exists lst, last pages = Some lst /\ pg_last lst = 1) /\
      (forall e, o = Returned (Some e) ->
         pages <> [] /\
         hid_writeFault dev (hid_writes dev + length pages - 1)%nat = Some e)) /\
  imageSend dev id hdr imgData None =
    (dev, [], Returned (Some (New "image update callback not set"))).
Proof.
  split; [| reflexivity].
  unfold imageSend.
  destruct (imageSend_loop_shape id imgData cb (S (length imgData)) dev hdr 0 0 [])
    as (new & dev' & o & Hrun & Hrest).
  exists new, dev', o. split; [exact Hrun | exact Hrest].
Qed.

(** ** Protocol framer: the wire format of the registry's senders *)

Lemma le16_split (s : Z) : 0 <= s < 65536 -> u8 s + 256 * u8 (Z.shiftr s 8) = s.
Proof.
  intros Hs. unfold u8. rewrite Z.shiftr_div_pow2 by lia. change (2 ^ 8) with 256.
  rewrite (Z.mod_small (s / 256)).
  - pose proof (Z.div_mod s 256 ltac:(lia)). lia.
  - split; [apply Z.div_pos; lia | apply Z.div_lt_upper_bound; lia].
Qed.

Lemma u16_range (x : Z) : 0 <= u16 x < 65536.
Proof. unfold u16. apply Z.mod_pos_bound. lia. Qed.

Lemma u8_range (x : Z) : 0 <= u8 x < 256.
Proof. unfold u8. apply Z.mod_pos_bound. lia. Qed.

Lemma pagesFrom_numbers (cb : updateCb) (outLen : Z) (ps : list page) :
  forall (hdr : list Z) (page_ : Z),
    0 <= page_ < 256 ->
    pagesFrom cb outLen hdr page_ ps ->
    forall (i : nat) (p : page), ps !! i = Some p -> pg_page p = u8 (page_ + Z.of_nat i).
Proof.
  induction ps as [| q ps IH]; intros hdr page_ Hb Hp i p Hi; [discriminate |].
  destruct Hp as (Hpage & _ & _ & _ & _ & _ & Hrest).
  destruct i as [| i]; simpl in Hi.
  - injection Hi as <-. rewrite Hpage. unfold u8. rewrite Z.add_0_r, Z.mod_small; lia.
  - rewrite (IH _ _ (u8_range _) Hrest i p Hi). unfold u8.
    rewrite Zplus_mod_idemp_l. f_equal. lia.
Qed.

Lemma pagesFrom_inv (cb : updateCb) (outLen : Z) (Inv : list Z -> Prop) :
  (forall h p l s, Inv h -> Inv (cb h p l s)) ->
  forall (ps : list page) (hdr : list Z) (page_ : Z),
    Inv hdr ->
    pagesFrom cb outLen hdr page_ ps ->
    Forall (fun p => exists h, Inv h /\ pg_hdr p = cb h (pg_page p) (pg_last p) (pg_size p)) ps.
Proof.
  intros Hcb. induction ps as [| q ps IH]; intros hdr page_ Hinv Hp; [constructor |].
  destruct Hp as (Hpage & _ & Hhdr & _ & _ & _ & Hrest).
  constructor.
  - exists hdr. split; [exact Hinv |]. rewrite Hpage. exact Hhdr.
  - apply (IH (pg_hdr q) (u8 (page_ + 1))); [| exact Hrest].
    rewrite Hhdr. apply Hcb. exact Hinv.
Qed.

Lemma pagesFrom_sizes (cb : updateCb) (outLen : Z) (ps : list page) :
  forall (hdr : list Z) (page_ : Z),
    pagesFrom cb outLen hdr page_ ps ->
    Forall (fun p => pg_size p = u16 (len (pg_chunk p))) ps.
Proof.
  induction ps as [| q ps IH]; intros hdr page_ Hp; [constructor |].
  destruct Hp as (_ & Hsz & _ & _ & _ & _ & Hrest).
  constructor; [exact Hsz | eapply IH; exact Hrest].
Qed.

(** Inside the 16-bit range every page but the final one carries a full
    chunk, and the final one carries what is left. *)
Lemma imageSend_loop_chunks (id : Z) (imgData : list Z) (cb : updateCb)
    (cb_len : forall h p l s, length (cb h p l s) = length h) (fuel : nat) :
  forall (dev : usbhid) (hdr : list Z) (start page_ : Z) (pages : list page),
    neverFails dev ->
    len hdr < hid_outputReportLength dev < 65536 ->
    len imgData + (hid_outputReportLength dev - len hdr) <= 65536 ->
    0 <= start ->
    (start < len imgData \/ (start = 0 /\ imgData = [])) ->
    len imgData - start < Z.of_nat fuel ->
    exists (dev' : usbhid) (pre : list page) (lst : page),
      imageSend_loop fuel dev id hdr imgData cb start page_ pages =
        (dev', pages ++ pre ++ [lst], Returned None) /\
      Forall (fun p => len (pg_chunk p) = hid_outputReportLength dev - len hdr) pre /\
      len (pg_chunk lst) =
        len imgData - start - (hid_outputReportLength dev - len hdr) * len pre /\
      len (pg_chunk lst) <= hid_outputReportLength dev - len hdr /\
      (imgData <> [] -> 0 < len (pg_chunk lst)).
Proof.
  induction fuel as [| fuel IH]; intros dev hdr start page_ pages Hf Hcap Hfit H0 Hst Hfuel.
  { exfalso. assert (0 <= len imgData) by apply len_nonneg. simpl in Hfuel.
    destruct Hst as [Hst | [-> ->]]; [lia | unfold len in Hfuel; simpl in Hfuel; lia]. }
  assert (Hl0 : 0 <= len imgData) by apply len_nonneg.
  assert (Hh0 : 0 <= len hdr) by apply len_nonneg.
  set (outlen := hid_outputReportLength dev) in *.
  set (c := outlen - len hdr) in *.
  assert (Hstl : start <= len imgData).
  { destruct Hst as [Hst | [-> _]]; lia. }
  assert (Hsc : start + c < 65536).
  { destruct Hst as [Hst | [-> _]]; lia. }
  assert (Hu1 : u16 (len hdr) = len hdr) by (unfold u16; apply Z.mod_small; lia).
  assert (Hu2 : u16 (len imgData) = len imgData) by (unfold u16; apply Z.mod_small; lia).
  assert (Hend : u16 (start + outlen - u16 (len hdr)) = start + c).
  { rewrite Hu1. unfold u16. rewrite Z.mod_small by lia. unfold c. lia. }
  cbn [imageSend_loop]. fold outlen. rewrite Hend, Hu2.
  destruct (len imgData <=? start + c) eqn:Elast.
  - apply Z.leb_le in Elast.
    rewrite slice_Some by lia.
    set (chunk := take (Z.to_nat (len imgData - start)) (drop (Z.to_nat start) imgData)).
    assert (Hclen : len chunk = len imgData - start).
    { unfold chunk, len. rewrite length_take, length_drop. unfold len in Hstl. lia. }
    set (hdr' := cb hdr page_ 1 (u16 (len chunk))).
    set (payload := (hdr' ++ chunk) ++ make_bytes (u16 (outlen - u16 (len (hdr' ++ chunk))))).
    destruct (SetOutputReport_accepts dev id payload Hf) as (dev' & -> & _).
    simpl. exists dev', []. eexists. split; [reflexivity |].
    split; [constructor |]. simpl pg_chunk. change (len []) with 0.
    split; [lia |]. split; [lia |].
    intros Hne. destruct Hst as [Hst | [_ Hnil]]; [lia | contradiction].
  - apply Z.leb_gt in Elast.
    rewrite slice_Some by lia.
    replace (start + c - start) with c by lia.
    set (chunk := take (Z.to_nat c) (drop (Z.to_nat start) imgData)).
    assert (Hclen : len chunk = c).
    { unfold chunk, len. rewrite length_take, length_drop. unfold len in Elast. lia. }
    set (hdr' := cb hdr page_ 0 (u16 (len chunk))).
    assert (Hh' : len hdr' = len hdr) by (unfold len, hdr'; rewrite cb_len; reflexivity).
    set (payload := (hdr' ++ chunk) ++ make_bytes (u16 (outlen - u16 (len (hdr' ++ chunk))))).
    destruct (SetOutputReport_accepts dev id payload Hf) as (dev' & -> & Hlog & Hout & Hfault).
    simpl ((0 =? 0)). cbv iota.
    replace (u16 (start + outlen - u16 (len hdr'))) with (start + c).
    2:{ rewrite Hh', Hu1. unfold u16. rewrite Z.mod_small by lia. unfold c. lia. }
    set (pg := mkPage page_ 0 (u16 (len chunk)) chunk hdr' payload).
    destruct (IH dev' hdr' (start + c) (u8 (page_ + 1)) (pages ++ [pg]))
      as (dev'' & pre & lst & Hrun & Hpre & Hlst & Hle & Hpos).
    + intros n. rewrite Hfault. apply Hf.
    + rewrite Hout, Hh'. exact Hcap.
    + rewrite Hout, Hh'. exact Hfit.
    + lia.
    + left. lia.
    + lia.
    + rewrite Hout, Hh' in Hpre, Hlst, Hle. fold outlen in Hpre, Hlst, Hle. fold c in Hpre, Hlst, Hle.
      exists dev'', (pg :: pre), lst.
      split; [rewrite Hrun, <- app_assoc; reflexivity |].
      split; [constructor; [exact Hclen | exact Hpre] |].
      split; [| split; [exact Hle | exact Hpos]].
      rewrite Hlst. unfold len. simpl. lia.
Qed.


(** Inside the 16-bit range, with a callback that keeps the header length:
    the framer's run together with the shape of its pages. *)
Lemma imageSend_framed (dev : usbhid) (id : Z) (hdr imgData : list Z) (cb : updateCb) :
  (forall h p l s, length (cb h p l s) = length h) ->
  neverFails dev ->
  len hdr < hid_outputReportLength dev < 65536 ->
  len imgData + (hid_outputReportLength dev - len hdr) <= 65536 ->
  exists (dev' : usbhid) (pages : list page),
    imageSend dev id hdr imgData (Some cb) = (dev', pages, Returned None) /\
    sameDevice dev dev' /\
    hid_outputLog dev' = hid_outputLog dev ++ ((fun p => (id, pg_report p)) <$> pages) /\
    hid_featureLog dev' = hid_featureLog dev /\
    pagesFrom cb (hid_outputReportLength dev) hdr 0 pages /\
    concat (pg_chunk <$> pages) = imgData /\
    (forall (i : nat) (p : page), pages !! i = Some p ->
       pg_page p = u8 (Z.of_nat i) /\
       (pg_last p = 1 <-> S i = length pages) /\
       (pg_last p = 0 \/ pg_last p = 1) /\
       pg_size p = len (pg_chunk p) /\ 0 <= pg_size p < 65536 /\
       length (pg_hdr p) = length hdr /\
       len (pg_report p) = hid_outputReportLength dev /\
       pg_report p =
         pg_hdr p ++ pg_chunk p ++
         make_bytes (hid_outputReportLength dev - len hdr - len (pg_chunk p)) /\
       (S i <> length pages -> len (pg_chunk p) = hid_outputReportLength dev - len hdr)) /\
    (exists lst, last pages = Some lst /\
       len (pg_chunk lst) <= hid_outputReportLength dev - len hdr /\
       (imgData <> [] -> 0 < len (pg_chunk lst))).
Proof.
  intros Hcb Hf Hcap Hfit.
  assert (Hst : 0 < len imgData \/ 0 = 0 /\ imgData = []).
  { destruct imgData as [| b rest]; [right; split; reflexivity |].
    left. unfold len. simpl. lia. }
  destruct (imageSend_loop_chunks id imgData cb Hcb (S (length imgData)) dev hdr 0 0 []
              Hf Hcap Hfit ltac:(lia) Hst ltac:(unfold len; lia))
    as (dev2 & pre' & lst' & Hrun2 & Hfull & _ & Hle & Hpos).
  destruct (imageSend_pages_correct dev id hdr imgData cb Hcb Hf Hcap Hfit)
    as (dev1 & pre & lst & Hrun & Hcat & Hpre & Hlst & Hall & Hlog).
  destruct (imageSend_loop_shape id imgData cb (S (length imgData)) dev hdr 0 0 [])
    as (pages & dev' & o & Hrun' & Hshape & Hsame & Hlog' & Hflog & _ & _).
  unfold imageSend in Hrun. rewrite Hrun in Hrun'. injection Hrun' as <- <- <-.
  rewrite Hrun in Hrun2. simpl in Hrun2.
  injection Hrun2 as _ Heq. apply app_inj_tail in Heq as [<- <-].
  exists dev1, (pre ++ [lst]). unfold imageSend.
  split; [exact Hrun |]. split; [exact Hsame |]. split; [exact Hlog |].
  split; [exact Hflog |]. split; [exact Hshape |]. split; [exact Hcat |].
  split; [| exists lst; split; [apply last_snoc | split; [exact Hle | exact Hpos]]].
  intros i p Hi.
  pose proof (pagesFrom_numbers cb _ _ hdr 0 ltac:(lia) Hshape i p Hi) as Hnum.
  pose proof (proj1 (Forall_lookup _ _) (pagesFrom_sizes cb _ _ hdr 0 Hshape) i p Hi) as Hu.
  simpl in Hu.
  pose proof (proj1 (Forall_lookup _ _) Hall i p Hi) as (Hlen & Hhl & Hsz & Hrep).
  split; [rewrite Hnum; f_equal; lia |].
  assert (Hflag : (pg_last p = 1 <-> S i = length (pre ++ [lst])) /\
                  (pg_last p = 0 \/ pg_last p = 1)).
  { rewrite length_app. simpl.
    destruct (decide (i < length pre)%nat) as [Hlt | Hge].
    - rewrite lookup_app_l in Hi by exact Hlt.
      pose proof (proj1 (Forall_lookup _ _) Hpre i p Hi) as H0. simpl in H0.
      split; [split; [intros H1; lia | intros; lia] | left; exact H0].
    - assert (Hlen_i : (i < length (pre ++ [lst]))%nat) by (eapply lookup_lt_Some; eassumption).
      rewrite length_app in Hlen_i. simpl in Hlen_i.
      assert (i = length pre) as -> by lia.
      rewrite list_lookup_middle in Hi by reflexivity. injection Hi as <-.
      split; [split; [intros _; lia | intros _; exact Hlst] | right; exact Hlst]. }
  destruct Hflag as [Hf1 Hf2].
  split; [exact Hf1 |]. split; [exact Hf2 |]. split; [exact Hsz |].
  split; [rewrite Hu; apply u16_range |].
  split; [unfold len in Hhl; lia |].
  split; [exact Hlen |]. split; [exact Hrep |].
  intros Hne. rewrite length_app in Hne. simpl in Hne.
  assert (Hlt : (i < length pre)%nat).
  { assert (Hlen_i : (i < length (pre ++ [lst]))%nat) by (eapply lookup_lt_Some; eassumption).
    rewrite length_app in Hlen_i. simpl in Hlen_i. lia. }
  rewrite lookup_app_l in Hi by exact Hlt.
  exact (proj1 (Forall_lookup _ _) Hfull i p Hi).
Qed.

Lemma chunkOf_report (hdrLen sizeOff : nat) (h chunk pad : list Z) (size : Z) :
  length h = hdrLen -> (S sizeOff < hdrLen)%nat ->
  h !! sizeOff = Some (u8 size) -> h !! S sizeOff = Some (u8 (Z.shiftr size 8)) ->
  size = len chunk -> 0 <= size < 65536 ->
  chunkOf hdrLen sizeOff (h ++ chunk ++ pad) = chunk.
Proof.
  intros Hl Hoff Hlo Hhi Hsz Hr. unfold chunkOf, le16.
  rewrite !lookup_app_l by lia. rewrite Hlo, Hhi. simpl.
  rewrite le16_split by exact Hr.
  rewrite drop_app_length' by (symmetry; exact Hl).
  rewrite take_app_length' by (unfold len in Hsz; lia). reflexivity.
Qed.

Lemma hdrUpdate_v2_bytes (h : list Z) (a b c page_ last size : Z) :
  length h = 7%nat -> h !! 0%nat = Some a -> h !! 1%nat = Some b -> h !! 6%nat = Some c ->
  hdrUpdate_v2 h page_ last size =
    [a; b; last; u8 size; u8 (Z.shiftr size 8); u8 page_; c].
Proof.
  intros Hl H0 H1 H6.
  destruct h as [| x0 [| x1 [| x2 [| x3 [| x4 [| x5 [| x6 [| ? ?]]]]]]]]; try discriminate.
  simpl in H0, H1, H6. injection H0 as ->. injection H1 as ->. injection H6 as ->.
  reflexivity.
Qed.

(** The pages of a sender that uses the 7-byte header. *)
Lemma send_v2_wire (dev : usbhid) (kind index : Z) (imgData : list Z) :
  neverFails dev ->
  7 < hid_outputReportLength dev < 65536 ->
  len imgData + (hid_outputReportLength dev - 7) <= 65536 ->
  exists (dev' : usbhid) (pages : list page),
    imageSend dev 2 (<[1%nat := index]> (<[0%nat := kind]> (make_bytes 7))) imgData
      (Some hdrUpdate_v2) = (dev', pages, Returned None) /\
    sameDevice dev dev' /\
    hid_outputLog dev' = hid_outputLog dev ++ ((fun p => (2, pg_report p)) <$> pages) /\
    hid_featureLog dev' = hid_featureLog dev /\
    concat (chunkOf 7 3 <$> (pg_report <$> pages)) = imgData /\
    (forall (i : nat) (p : page), pages !! i = Some p ->
       len (pg_report p) = hid_outputReportLength dev /\
       take 7 (pg_report p) =
         [kind; index; (if bool_decide (S i = length pages) then 1 else 0);
          u8 (len (pg_chunk p)); u8 (Z.shiftr (len (pg_chunk p)) 8); u8 (Z.of_nat i); 0] /\
       pg_report p =
         take 7 (pg_report p) ++ pg_chunk p ++
         make_bytes (hid_outputReportLength dev - 7 - len (pg_chunk p))).
Proof.
  intros Hf Hcap Hfit.
  set (hdr := <[1%nat := index]> (<[0%nat := kind]> (make_bytes 7))).
  assert (Hcb : forall h p l s, length (hdrUpdate_v2 h p l s) = length h).
  { intros h p l s. unfold hdrUpdate_v2. rewrite !length_insert. reflexivity. }
  destruct (imageSend_framed dev 2 hdr imgData hdrUpdate_v2 Hcb Hf Hcap Hfit)
    as (dev' & pages & Hrun & Hsame & Hlog & Hflog & Hshape & Hcat & Hpages & _).
  set (Inv := fun h : list Z =>
                length h = 7%nat /\ h !! 0%nat = Some kind /\ h !! 1%nat = Some index /\
                h !! 6%nat = Some 0).
  assert (Hinv : Forall (fun p => exists h, Inv h /\
                           pg_hdr p = hdrUpdate_v2 h (pg_page p) (pg_last p) (pg_size p)) pages).
  { apply (pagesFrom_inv hdrUpdate_v2 (hid_outputReportLength dev) Inv) with
      (hdr := hdr) (page_ := 0); [| repeat split | exact Hshape].
    intros h p l s (Hl & H0 & H1 & H6).
    rewrite (hdrUpdate_v2_bytes h kind index 0 p l s Hl H0 H1 H6). repeat split. }
  assert (Hhdr : forall i p, pages !! i = Some p ->
             pg_hdr p = [kind; index; (if bool_decide (S i = length pages) then 1 else 0);
                         u8 (len (pg_chunk p)); u8 (Z.shiftr (len (pg_chunk p)) 8);
                         u8 (Z.of_nat i); 0]).
  { intros i p Hi.
    destruct (proj1 (Forall_lookup _ _) Hinv i p Hi) as (h & (Hl & H0 & H1 & H6) & Hh).
    destruct (Hpages i p Hi) as (Hnum & Hlast & Hbit & Hsz & _).
    rewrite Hh, (hdrUpdate_v2_bytes h kind index 0 _ _ _ Hl H0 H1 H6).
    rewrite Hnum, Hsz. f_equal. f_equal. f_equal.
    - destruct (bool_decide (S i = length pages)) eqn:E.
      + apply bool_decide_eq_true in E. apply Hlast. exact E.
      + apply bool_decide_eq_false in E. destruct Hbit as [Hb | Hb]; [exact Hb |].
        apply Hlast in Hb. contradiction.
    - f_equal. f_equal. f_equal. unfold u8. rewrite Z.mod_mod by lia. reflexivity. }
  assert (Htake : forall i p, pages !! i = Some p -> take 7 (pg_report p) = pg_hdr p).
  { intros i p Hi. destruct (Hpages i p Hi) as (_ & _ & _ & _ & _ & Hl & _ & Hrep & _).
    rewrite Hrep. apply take_app_length'. rewrite Hl. reflexivity. }
  exists dev', pages.
  split; [exact Hrun |]. split; [exact Hsame |]. split; [exact Hlog |].
  split; [exact Hflog |]. split.
  - transitivity (concat (pg_chunk <$> pages)); [| exact Hcat].
    f_equal. rewrite <- list_fmap_compose.
    apply list_eq_Forall2, Forall2_fmap, Forall2_lookup. intros i.
    destruct (pages !! i) as [p |] eqn:Hi; constructor.
    destruct (Hpages i p Hi) as (_ & _ & _ & Hsz & Hr & Hl & _ & Hrep & _).
    simpl. rewrite Hrep. apply (chunkOf_report 7 3 _ _ _ (pg_size p)).
    + rewrite Hl. reflexivity.
    + lia.
    + rewrite (Hhdr i p Hi), <- Hsz. reflexivity.
    + rewrite (Hhdr i p Hi), <- Hsz. reflexivity.
    + exact Hsz.
    + exact Hr.
  - intros i p Hi. destruct (Hpages i p Hi) as (_ & _ & _ & _ & _ & _ & Hlen & Hrep & _).
    split; [exact Hlen |]. split; [rewrite (Htake i p Hi); apply Hhdr; exact Hi |].
    rewrite (Htake i p Hi). exact Hrep.
Qed.

(** X5.  Inside the 16-bit range - header shorter than the output report,
    and payload plus one chunk within 65536 bytes - with a callback that
    keeps the header length and a transport that accepts every write, the
    framer returns nil; the chunks of its pages concatenate to the payload;
    every page but the final one carries a full chunk of report length minus
    header length bytes and the final one the rest, which is empty only for
    an empty payload; so the payload takes the least number of pages that can
    hold it, and one page when it is empty.  Only the final page is marked
    last, every report has the output-report length, and the transport's log
    grows by exactly these reports. *)
Theorem imageSend_in_range (dev : usbhid) (id : Z) (hdr imgData : list Z) (cb : updateCb) :
  (forall h p l s, length (cb h p l s) = length h) ->
  neverFails dev ->
  len hdr < hid_outputReportLength dev < 65536 ->
  len imgData + (hid_outputReportLength dev - len hdr) <= 65536 ->
  let c := hid_outputReportLength dev - len hdr in
  exists (dev' : usbhid) (pre : list page) (lst : page),
    imageSend dev id hdr imgData (Some cb) = (dev', pre ++ [lst], Returned None) /\
    concat (pg_chunk <$> (pre ++ [lst])) = imgData /\
    Forall (fun p => len (pg_chunk p) = c /\ pg_last p = 0) pre /\
    pg_last lst = 1 /\
    len (pg_chunk lst) = len imgData - c * len pre /\
    len (pg_chunk lst) <= c /\
    (imgData <> [] -> 0 < len (pg_chunk lst)) /\
    len (pre ++ [lst]) = (if len imgData =? 0 then 1 else (len imgData + c - 1) / c) /\
    Forall (fun p => len (pg_report p) = hid_outputReportLength dev /\
                     pg_size p = len (pg_chunk p)) (pre ++ [lst]) /\
    hid_outputLog dev' =
      hid_outputLog dev ++ ((fun p => (id, pg_report p)) <$> (pre ++ [lst])).
Proof.
  intros Hcb Hf Hcap Hfit c.
  destruct (imageSend_pages_correct dev id hdr imgData cb Hcb Hf Hcap Hfit)
    as (dev1 & pre & lst & Hrun & Hcat & Hpre & Hlst & Hall & Hlog).
  assert (Hst : 0 < len imgData \/ 0 = 0 /\ imgData = []).
  { destruct imgData as [| b rest]; [right; split; reflexivity |].
    left. unfold len. simpl. lia. }
  destruct (imageSend_loop_chunks id imgData cb Hcb (S (length imgData)) dev hdr 0 0 []
              Hf Hcap Hfit ltac:(lia) Hst ltac:(unfold len; lia))
    as (dev2 & pre' & lst' & Hrun' & Hfull & Hrest & Hle & Hpos).
  unfold imageSend in Hrun. rewrite Hrun in Hrun'. simpl in Hrun'.
  injection Hrun' as _ Heq. apply app_inj_tail in Heq as [<- <-].
  fold c in Hfull, Hrest, Hle.
  exists dev1, pre, lst. unfold imageSend.
  split; [exact Hrun |]. split; [exact Hcat |].
  split.
  { apply Forall_forall. intros p Hp. split.
    - exact (proj1 (Forall_forall _ _) Hfull p Hp).
    - exact (proj1 (Forall_forall _ _) Hpre p Hp). }
  split; [exact Hlst |]. split; [rewrite Hrest; lia |]. split; [exact Hle |].
  split; [exact Hpos |].
  split.
  { assert (Hc : 0 < c) by (unfold c; lia).
    assert (Hn : 0 <= len pre) by apply len_nonneg.
    rewrite len_app. change (len [lst]) with 1.
    destruct (len imgData =? 0) eqn:E0.
    - apply Z.eqb_eq in E0. assert (0 <= len (pg_chunk lst)) by apply len_nonneg. nia.
    - apply Z.eqb_neq in E0.
      assert (Hne : imgData <> []) by (intros ->; apply E0; reflexivity).
      specialize (Hpos Hne).
      apply Z.div_unique with (r := len (pg_chunk lst) - 1); lia. }
  split.
  { eapply Forall_impl; [exact Hall |]. simpl. intros p (H1 & _ & H3 & _). auto. }
  exact Hlog.
Qed.

Lemma imageSend_in_range_witness :
  exists dev' pre lst,
    imageSend (testTransport 0x0080 1024 true) 2 (make_bytes 7) (replicate 3000 7)
      (Some hdrUpdate_v2) = (dev', pre ++ [lst], Returned None) /\
    len (pre ++ [lst]) = 3 /\ len (pg_chunk lst) = 966.
Proof.
  assert (Hcb : forall h p l s, length (hdrUpdate_v2 h p l s) = length h).
  { intros h p l s. unfold hdrUpdate_v2. rewrite !length_insert. reflexivity. }
  assert (Hf : neverFails (testTransport 0x0080 1024 true)) by (intros n; reflexivity).
  assert (Hcap : len (make_bytes 7) < hid_outputReportLength (testTransport 0x0080 1024 true)
                 < 65536) by (vm_compute; split; reflexivity).
  assert (Hfit : len (replicate 3000 7) +
                 (hid_outputReportLength (testTransport 0x0080 1024 true) - len (make_bytes 7))
                 <= 65536) by (vm_compute; discriminate).
  destruct (imageSend_in_range (testTransport 0x0080 1024 true) 2 (make_bytes 7)
              (replicate 3000 7) hdrUpdate_v2 Hcb Hf Hcap Hfit)
    as (dev' & pre & lst & Hrun & _ & Hfull & _ & Hlast & _ & _ & Hn & _).
  exists dev', pre, lst. split; [exact Hrun |]. split; [exact Hn |].
  assert (Hpre : len pre = 2).
  { rewrite len_app in Hn. change (len [lst]) with 1 in Hn.
    replace (if len (replicate 3000 7) =? 0 then 1
             else (len (replicate 3000 7) +
                   (hid_outputReportLength (testTransport 128 1024 true) - len (make_bytes 7))
                   - 1) `div`
                  (hid_outputReportLength (testTransport 128 1024 true) - len (make_bytes 7)))
      with 3 in Hn by (vm_compute; reflexivity).
    lia. }
  rewrite Hlast, Hpre. vm_compute. reflexivity.
Defined.

(** X6.  The senders with the 7-byte header - the key images of the mk2, the
    Plus and the Neo, and the Neo's info bar - write, for a payload inside
    the 16-bit range on a transport that accepts every write, reports of the
    output-report length under report id 2.  Each report starts with the
    kind byte (7 for a key, 11 for the info bar), the zero-based key index
    (key id minus one; 0 for the info bar), the last-page flag, the chunk
    size with the low byte first, and the page number; the chunk and zero
    padding follow.  Reading [size] bytes after the header of each report, in
    order, gives back the payload. *)
Theorem sevenByteHeader_wire_format (dev : usbhid) (imgData : list Z) :
  neverFails dev ->
  7 < hid_outputReportLength dev < 65536 ->
  len imgData + (hid_outputReportLength dev - 7) <= 65536 ->
  (forall key : KeyID,
      wire_v2 7 (u8 (key - KEY_1)) imgData dev (keyImageSend_v2 dev key imgData)) /\
  wire_v2 11 0 imgData dev (infoBarImageSend_neo dev imgData).
Proof.
  intros Hf Hcap Hfit. split.
  - intros key.
    destruct (send_v2_wire dev 7 (u8 (key - KEY_1)) imgData Hf Hcap Hfit)
      as (dev' & pages & Hrun & _ & Hlog & _ & Hcat & Hpages).
    exists dev', pages. split; [exact Hrun |]. auto.
  - destruct (send_v2_wire dev 11 0 imgData Hf Hcap Hfit)
      as (dev' & pages & Hrun & _ & Hlog & _ & Hcat & Hpages).
    exists dev', pages. split; [exact Hrun |]. auto.
Qed.

Lemma sevenByteHeader_wire_format_witness :
  wire_v2 7 2 (replicate 3000 9) (testTransport 0x0080 1024 true)
    (keyImageSend_v2 (testTransport 0x0080 1024 true) 3 (replicate 3000 9)).
Proof.
  assert (Hf : neverFails (testTransport 0x0080 1024 true)) by (intros n; reflexivity).
  assert (Hcap : 7 < hid_outputReportLength (testTransport 0x0080 1024 true) < 65536)
    by (vm_compute; split; reflexivity).
  assert (Hfit : len (replicate 3000 9) +
                 (hid_outputReportLength (testTransport 0x0080 1024 true) - 7) <= 65536)
    by (vm_compute; discriminate).
  exact (proj1 (sevenByteHeader_wire_format (testTransport 0x0080 1024 true)
                  (replicate 3000 9) Hf Hcap Hfit) 3).
Defined.




Lemma concat_bodies (ps : list page) (f g : page -> list Z) (body : page -> list Z) :
  (forall i p, ps !! i = Some p -> body p = f p ++ g p) ->
  (forall i p, ps !! i = Some p -> S i <> length ps -> g p = []) ->
  concat (body <$> ps) =
    concat (f <$> ps) ++ match last ps with Some l => g l | None => [] end.
Proof.
  induction ps as [| q ps IH]; intros Hbody Hg; [reflexivity |].
  rewrite !fmap_cons. cbn [concat].
  rewrite (Hbody 0%nat q eq_refl).
  destruct ps as [| q' ps'].
  - simpl. rewrite !app_nil_r. reflexivity.
  - rewrite IH.
    + rewrite (Hg 0%nat q eq_refl) by (simpl; lia). rewrite app_nil_r.
      rewrite <- app_assoc. reflexivity.
    + intros i p Hi. apply (Hbody (S i)). exact Hi.
    + intros i p Hi Hne. apply (Hg (S i)); [exact Hi | simpl in *; lia].
Qed.

Lemma hdrUpdate_mini_bytes (key : KeyID) (l0 p0 page_ last size : Z) :
  hdrUpdate_mini (miniHeader key l0 p0) page_ last size = miniHeader key last page_.
Proof. reflexivity. Qed.

Lemma keyImageSend_mini_wire (dev : usbhid) (key : KeyID) (imgData : list Z) :
  neverFails dev ->
  15 < hid_outputReportLength dev < 65536 ->
  len imgData + (hid_outputReportLength dev - 15) <= 65536 ->
  exists (dev' : usbhid) (pages : list page) (pad : Z),
    keyImageSend_mini dev key imgData = (dev', pages, Returned None) /\
    sameDevice dev dev' /\
    hid_featureLog dev' = hid_featureLog dev /\
    hid_outputLog dev' = hid_outputLog dev ++ ((fun p => (2, pg_report p)) <$> pages) /\
    concat (drop 15 <$> (pg_report <$> pages)) = imgData ++ make_bytes pad /\
    0 <= pad <= hid_outputReportLength dev - 15 /\
    (imgData <> [] -> pad < hid_outputReportLength dev - 15) /\
    (forall (i : nat) (p : page), pages !! i = Some p ->
       len (pg_report p) = hid_outputReportLength dev /\
       take 15 (pg_report p) =
         miniHeader key (if bool_decide (S i = length pages) then 1 else 0) (u8 (Z.of_nat i))) /\
    (1 <= key <= 255 -> u8 (1 + u8 (key - KEY_1)) = key).
Proof.
  intros Hf Hcap Hfit. unfold keyImageSend_mini.
  set (hdr := <[4%nat := _]> _).
  assert (Hhdr0 : hdr = miniHeader key 0 0) by reflexivity.
  assert (Hcb : forall h p l s, length (hdrUpdate_mini h p l s) = length h).
  { intros h p l s. unfold hdrUpdate_mini. rewrite !length_insert. reflexivity. }
  assert (Hlen0 : len hdr = 15) by (rewrite Hhdr0; reflexivity).
  destruct (imageSend_framed dev 2 hdr imgData hdrUpdate_mini Hcb Hf
              ltac:(rewrite Hlen0; exact Hcap) ltac:(rewrite Hlen0; exact Hfit))
    as (dev' & pages & Hrun & Hsame & Hlog & Hflog & Hshape & Hcat & Hpages & Hfinal).
  rewrite Hlen0 in Hpages, Hfinal.
  destruct Hfinal as (lst & Hlst & Hle & Hpos).
  set (Inv := fun h : list Z => exists last page_, h = miniHeader key last page_).
  assert (Hinv : Forall (fun p => exists h, Inv h /\
                           pg_hdr p = hdrUpdate_mini h (pg_page p) (pg_last p) (pg_size p))
                   pages).
  { apply (pagesFrom_inv hdrUpdate_mini (hid_outputReportLength dev) Inv) with
      (hdr := hdr) (page_ := 0); [| exists 0, 0; exact Hhdr0 | exact Hshape].
    intros h p l s (l0 & p0 & ->). rewrite hdrUpdate_mini_bytes. exists l, p. reflexivity. }
  assert (Hhdr : forall i p, pages !! i = Some p ->
             pg_hdr p =
               miniHeader key (if bool_decide (S i = length pages) then 1 else 0)
                 (u8 (Z.of_nat i))).
  { intros i p Hi.
    destruct (proj1 (Forall_lookup _ _) Hinv i p Hi) as (h & (l0 & p0 & ->) & Hp).
    destruct (Hpages i p Hi) as (Hnum & Hlast & Hbit & _).
    rewrite Hp, hdrUpdate_mini_bytes, Hnum. f_equal.
    destruct (bool_decide (S i = length pages)) eqn:E.
    - apply bool_decide_eq_true in E. apply Hlast. exact E.
    - apply bool_decide_eq_false in E. destruct Hbit as [Hb | Hb]; [exact Hb |].
      apply Hlast in Hb. contradiction. }
  assert (Htake : forall i p, pages !! i = Some p -> take 15 (pg_report p) = pg_hdr p).
  { intros i p Hi. destruct (Hpages i p Hi) as (_ & _ & _ & _ & _ & Hl & _ & Hrep & _).
    rewrite Hrep. apply take_app_length'. rewrite Hl, Hhdr0. reflexivity. }
  assert (Hlc : 0 <= len (pg_chunk lst)) by apply len_nonneg.
  exists dev', pages, (hid_outputReportLength dev - 15 - len (pg_chunk lst)).
  split; [exact Hrun |]. split; [exact Hsame |]. split; [exact Hflog |].
  split; [exact Hlog |]. split.
  - rewrite <- Hcat, <- list_fmap_compose.
    rewrite (concat_bodies pages pg_chunk
               (fun p => make_bytes (hid_outputReportLength dev - 15 - len (pg_chunk p)))
               (drop 15 ∘ pg_report)).
    + rewrite Hlst. reflexivity.
    + intros i p Hi. destruct (Hpages i p Hi) as (_ & _ & _ & _ & _ & Hl & _ & Hrep & _).
      simpl. rewrite Hrep. rewrite drop_app_length'; [reflexivity |].
      rewrite Hl, Hhdr0. reflexivity.
    + intros i p Hi Hne. destruct (Hpages i p Hi) as (_ & _ & _ & _ & _ & _ & _ & _ & Hfull).
      rewrite (Hfull Hne). replace (hid_outputReportLength dev - 15 -
                                    (hid_outputReportLength dev - 15)) with 0 by lia.
      reflexivity.
  - split; [lia |]. split; [intros Hne; specialize (Hpos Hne); lia |]. split.
    + intros i p Hi. destruct (Hpages i p Hi) as (_ & _ & _ & _ & _ & _ & Hlen & _).
      split; [exact Hlen |]. rewrite (Htake i p Hi). apply Hhdr. exact Hi.
    + intros Hk. unfold u8, KEY_1. rewrite (Z.mod_small (key - 1)) by lia.
      rewrite Z.mod_small by lia. lia.
Qed.

(** X8.  The key sender of the mini writes, for a payload inside the 16-bit
    range on a transport that accepts every write, reports of the
    output-report length under report id 2 whose 15-byte header holds the
    command byte 1, the page number, the last-page flag and the one-based key
    number; the header has no size field.  The bytes after the headers, taken
    in order, are the payload followed by the zero padding of the final
    page, which is shorter than one chunk unless the payload is empty. *)
Theorem mini_wire_format (dev : usbhid) (key : KeyID) (imgData : list Z) :
  neverFails dev ->
  15 < hid_outputReportLength dev < 65536 ->
  len imgData + (hid_outputReportLength dev - 15) <= 65536 ->
  exists (dev' : usbhid) (pages : list page) (pad : Z),
    keyImageSend_mini dev key imgData = (dev', pages, Returned None) /\
    hid_outputLog dev' = hid_outputLog dev ++ ((fun p => (2, pg_report p)) <$> pages) /\
    concat (drop 15 <$> (pg_report <$> pages)) = imgData ++ make_bytes pad /\
    0 <= pad <= hid_outputReportLength dev - 15 /\
    (imgData <> [] -> pad < hid_outputReportLength dev - 15) /\
    (forall (i : nat) (p : page), pages !! i = Some p ->
       len (pg_report p) = hid_outputReportLength dev /\
       take 15 (pg_report p) =
         miniHeader key (if bool_decide (S i = length pages) then 1 else 0) (u8 (Z.of_nat i))) /\
    (1 <= key <= 255 -> u8 (1 + u8 (key - KEY_1)) = key).
Proof.
  intros Hf Hcap Hfit.
  destruct (keyImageSend_mini_wire dev key imgData Hf Hcap Hfit)
    as (dev' & pages & pad & Hrun & _ & _ & Hrest).
  exists dev', pages, pad. split; [exact Hrun | exact Hrest].
Qed.

Lemma mini_wire_format_witness :
  exists dev' pages pad,
    keyImageSend_mini (testTransport 0x0063 1024 true) 6 (replicate 2500 9) =
      (dev', pages, Returned None) /\
    concat (drop 15 <$> (pg_report <$> pages)) = replicate 2500 9 ++ make_bytes pad.
Proof.
  assert (Hf : neverFails (testTransport 0x0063 1024 true)) by (intros n; reflexivity).
  assert (Hcap : 15 < hid_outputReportLength (testTransport 0x0063 1024 true) < 65536)
    by (vm_compute; split; reflexivity).
  assert (Hfit : len (replicate 2500 9) +
                 (hid_outputReportLength (testTransport 0x0063 1024 true) - 15) <= 65536)
    by (vm_compute; discriminate).
  destruct (mini_wire_format (testTransport 0x0063 1024 true) 6 (replicate 2500 9)
              Hf Hcap Hfit) as (dev' & pages & pad & Hrun & _ & Hcat & _).
  exists dev', pages, pad. split; [exact Hrun | exact Hcat].
Defined.

(** ** Image codec: every pixel of the canvas *)

Lemma transformPixel_placed (rect : Rectangle) (transform : imageTransform) (x y : Z) :
  (flagSet transform imageTransformRotate90 = true -> Dx rect = Dy rect) ->
  transformPixel rect transform x y = inl (placed rect transform x y).
Proof.
  intros Hsq. unfold transformPixel, placed.
  destruct (flagSet transform imageTransformRotate90); [| reflexivity].
  rewrite (Hsq eq_refl), Z.eqb_refl. reflexivity.
Qed.

Lemma placed_inj (rect : Rectangle) (transform : imageTransform) (x y x' y' : Z) :
  placed rect transform x y = placed rect transform x' y' -> x = x' /\ y = y'.
Proof.
  unfold placed.
  destruct (flagSet transform imageTransformFlipHorizontal),
           (flagSet transform imageTransformFlipVertical),
           (flagSet transform imageTransformRotate90);
    intros [= H1 H2]; lia.
Qed.

Lemma placed_in (rect : Rectangle) (transform : imageTransform) (x y : Z) :
  Min rect = mkPoint 0 0 ->
  (flagSet transform imageTransformRotate90 = true -> Dx rect = Dy rect) ->
  0 <= x < Dx rect -> 0 <= y < Dy rect ->
  Point_In (placed rect transform x y) rect = true.
Proof.
  intros Hmin Hsq Hx Hy. unfold Point_In, placed.
  assert (HX : X (Max rect) = Dx rect) by (unfold Dx; rewrite Hmin; simpl; lia).
  assert (HY : Y (Max rect) = Dy rect) by (unfold Dy; rewrite Hmin; simpl; lia).
  rewrite Hmin, HX, HY. simpl.
  destruct (flagSet transform imageTransformRotate90) eqn:Er;
    [specialize (Hsq eq_refl) |];
    destruct (flagSet transform imageTransformFlipHorizontal),
             (flagSet transform imageTransformFlipVertical); simpl;
    repeat (apply andb_true_intro; split); try apply Z.leb_le; try apply Z.ltb_lt; lia.
Qed.

Lemma placed_onto (rect : Rectangle) (transform : imageTransform) (tx ty : Z) :
  (flagSet transform imageTransformRotate90 = true -> Dx rect = Dy rect) ->
  0 <= tx < Dx rect -> 0 <= ty < Dy rect ->
  exists x y, 0 <= x < Dx rect /\ 0 <= y < Dy rect /\
              placed rect transform x y = mkPoint tx ty.
Proof.
  intros Hsq Hx Hy. unfold placed.
  set (W := Dx rect) in *. set (H := Dy rect) in *.
  destruct (flagSet transform imageTransformRotate90) eqn:Er.
  - specialize (Hsq eq_refl).
    destruct (flagSet transform imageTransformFlipHorizontal),
             (flagSet transform imageTransformFlipVertical).
    + exists ty, (H - 1 - tx). repeat split; try lia. f_equal; lia.
    + exists ty, tx. repeat split; try lia. f_equal; lia.
    + exists (W - 1 - ty), (H - 1 - tx). repeat split; try lia. f_equal; lia.
    + exists (W - 1 - ty), tx. repeat split; try lia. f_equal; lia.
  - destruct (flagSet transform imageTransformFlipHorizontal),
             (flagSet transform imageTransformFlipVertical).
    + exists (W - 1 - tx), (H - 1 - ty). repeat split; try lia. f_equal; lia.
    + exists (W - 1 - tx), ty. repeat split; try lia. f_equal; lia.
    + exists tx, (H - 1 - ty). repeat split; try lia. f_equal; lia.
    + exists tx, ty. repeat split; try lia.
Qed.

Section EveryPixel.
Variables (scaled : RGBA) (rect : Rectangle) (ifmt : imageFormat)
          (transform : imageTransform) (g : Z -> Z -> Point).
Hypothesis g_total : forall x y, transformPixel rect transform x y = inl (g x y).
Hypothesis g_inj : forall x y x' y', g x y = g x' y' -> x = x' /\ y = y'.

Lemma RGBA_At_Set_point (f : RGBA) (p : Point) (c : RGBA8) :
  Point_In p (RGBA_Rect f) = true -> RGBA_At (RGBA_Set f (X p) (Y p) c) (X p) (Y p) = c.
Proof. intros Hin. apply RGBA_At_Set_eq. destruct p. exact Hin. Qed.

Lemma genImage_loopY_every (x : Z) (ys : list Z) :
  NoDup ys ->
  forall final,
    (forall y, y ∈ ys -> Point_In (g x y) (RGBA_Rect final) = true) ->
    exists final',
      genImage_loopY scaled rect ifmt transform x ys final = inl final' /\
      RGBA_Rect final' = RGBA_Rect final /\
      (forall tx ty,
          (forall y, y ∈ ys -> g x y <> mkPoint tx ty) ->
          RGBA_At final' tx ty = RGBA_At final tx ty) /\
      (forall y, y ∈ ys ->
          RGBA_At final' (X (g x y)) (Y (g x y)) = pixelColor ifmt (RGBA_At scaled x y)).
Proof.
  induction 1 as [| y ys Hnin Hnd IH]; intros final Hin.
  - exists final. repeat split; auto. intros y Hy. inversion Hy.
  - cbn [genImage_loopY]. rewrite g_total.
    set (f1 := RGBA_Set final (X (g x y)) (Y (g x y)) (pixelColor ifmt (RGBA_At scaled x y))).
    assert (Hr1 : RGBA_Rect f1 = RGBA_Rect final) by apply RGBA_Rect_Set.
    destruct (IH f1) as (final' & Hrun & Hrect & Hkeep & Hset).
    { intros y' Hy'. rewrite Hr1. apply Hin. right. exact Hy'. }
    exists final'. split; [exact Hrun |]. split; [congruence |]. split.
    + intros tx ty Hne. rewrite Hkeep.
      * apply RGBA_At_Set_ne. intros Heq. apply (Hne y); [left |].
        destruct (g x y) as [gx gy]. simpl in Heq. congruence.
      * intros y' Hy'. apply Hne. right. exact Hy'.
    + intros y' Hy'. apply elem_of_cons in Hy' as [-> | Hy'].
      * rewrite Hkeep.
        -- apply RGBA_At_Set_point. apply Hin. left.
        -- intros y' Hy' Heq.
           assert (Hg : mkPoint (X (g x y)) (Y (g x y)) = g x y) by (destruct (g x y); reflexivity).
           rewrite Hg in Heq. apply g_inj in Heq as [_ ->]. contradiction.
      * apply Hset. exact Hy'.
Qed.

Lemma genImage_loopX_every (xs ys : list Z) :
  NoDup xs -> NoDup ys ->
  forall final,
    (forall x y, x ∈ xs -> y ∈ ys -> Point_In (g x y) (RGBA_Rect final) = true) ->
    exists final',
      genImage_loopX scaled rect ifmt transform xs ys final = inl final' /\
      RGBA_Rect final' = RGBA_Rect final /\
      (forall tx ty,
          (forall x y, x ∈ xs -> y ∈ ys -> g x y <> mkPoint tx ty) ->
          RGBA_At final' tx ty = RGBA_At final tx ty) /\
      (forall x y, x ∈ xs -> y ∈ ys ->
          RGBA_At final' (X (g x y)) (Y (g x y)) = pixelColor ifmt (RGBA_At scaled x y)).
Proof.
  induction 1 as [| x xs Hnin Hnd IH]; intros Hys final Hin.
  - exists final. repeat split; auto. intros x y Hx. inversion Hx.
  - cbn [genImage_loopX].
    destruct (genImage_loopY_every x ys Hys final) as (f1 & Hy & Hr1 & Hk1 & Hs1).
    { intros y Hy. apply Hin; [left | exact Hy]. }
    rewrite Hy.
    destruct (IH Hys f1) as (final' & Hrun & Hrect & Hkeep & Hset).
    { intros x' y Hx' Hy'. rewrite Hr1. apply Hin; [right; exact Hx' | exact Hy']. }
    exists final'. split; [exact Hrun |]. split; [congruence |]. split.
    + intros tx ty Hne. rewrite Hkeep, Hk1.
      * reflexivity.
      * intros y Hy'. apply Hne; [left | exact Hy'].
      * intros x' y' Hx' Hy'. apply Hne; [right; exact Hx' | exact Hy'].
    + intros x' y Hx' Hy'. apply elem_of_cons in Hx' as [-> | Hx'].
      * rewrite Hkeep; [apply Hs1; exact Hy' |].
        intros x' y' Hx' Hy'' Heq.
        assert (Hg : mkPoint (X (g x y)) (Y (g x y)) = g x y) by (destruct (g x y); reflexivity).
        rewrite Hg in Heq. apply g_inj in Heq as [-> _]. contradiction.
      * apply Hset; assumption.
Qed.
End EveryPixel.

Lemma genImage_final_every (scaled : RGBA) (rect : Rectangle) (ifmt : imageFormat)
    (transform : imageTransform) :
  Min rect = mkPoint 0 0 -> 0 <= Dx rect -> 0 <= Dy rect ->
  (flagSet transform imageTransformRotate90 = true -> Dx rect = Dy rect) ->
  exists final,
    genImage_final scaled rect ifmt transform = inl final /\
    RGBA_Rect final = rect /\
    (forall x y, 0 <= x < Dx rect -> 0 <= y < Dy rect ->
       RGBA_At final (X (placed rect transform x y)) (Y (placed rect transform x y)) =
         pixelColor ifmt (RGBA_At scaled x y)).
Proof.
  intros Hmin Hw Hh Hsq. unfold genImage_final.
  destruct (genImage_loopX_every scaled rect ifmt transform (placed rect transform)
              (fun x y => transformPixel_placed rect transform x y Hsq)
              (placed_inj rect transform)
              (seqZ (X (Min rect)) (Dx rect)) (seqZ (Y (Min rect)) (Dy rect))
              (NoDup_seqZ _ _) (NoDup_seqZ _ _)
              (mkRGBA (fun _ _ => mkRGBA8 0 0 0 0) rect))
    as (final & Hrun & Hrect & _ & Hset).
  { intros x y Hx Hy. apply elem_of_seqZ in Hx, Hy. rewrite Hmin in Hx, Hy. simpl in *.
    apply placed_in; try assumption; lia. }
  exists final. split; [exact Hrun |]. split; [exact Hrect |].
  intros x y Hx Hy. apply Hset; apply elem_of_seqZ; rewrite Hmin; simpl; lia.
Qed.

(** X9.  On a canvas anchored at the origin, with the rotation requested only
    for a square one, the pixel loop never fails and moves every pixel of
    the scaled picture to its own place: flips first (x to width-1-x, y to
    height-1-y), then the quarter turn ((x, y) to (y, width-1-x)).  No two
    pixels share a place, every place of the canvas receives a pixel, and
    the colour stored is the scaled pixel's, made opaque for the
    uncompressed format and unchanged for the compressed one. *)
Theorem genImage_final_places_every_pixel (scaled : RGBA) (rect : Rectangle)
    (ifmt : imageFormat) (transform : imageTransform) :
  Min rect = mkPoint 0 0 -> 0 <= Dx rect -> 0 <= Dy rect ->
  (flagSet transform imageTransformRotate90 = true -> Dx rect = Dy rect) ->
  exists final,
    genImage_final scaled rect ifmt transform = inl final /\
    RGBA_Rect final = rect /\
    (forall x y, 0 <= x < Dx rect -> 0 <= y < Dy rect ->
       transformPixel rect transform x y = inl (placed rect transform x y) /\
       Point_In (placed rect transform x y) rect = true /\
       RGBA_At final (X (placed rect transform x y)) (Y (placed rect transform x y)) =
         (if ifmt =? imageFormatBMP then opaque (RGBA_At scaled x y) else RGBA_At scaled x y)) /\
    (forall x y x' y',
       placed rect transform x y = placed rect transform x' y' -> x = x' /\ y = y') /\
    (forall tx ty, 0 <= tx < Dx rect -> 0 <= ty < Dy rect ->
       exists x y, 0 <= x < Dx rect /\ 0 <= y < Dy rect /\
                   placed rect transform x y = mkPoint tx ty).
Proof.
  intros Hmin Hw Hh Hsq.
  destruct (genImage_final_every scaled rect ifmt transform Hmin Hw Hh Hsq)
    as (final & Hrun & Hrect & Hset).
  exists final. split; [exact Hrun |]. split; [exact Hrect |]. split.
  - intros x y Hx Hy. split; [apply transformPixel_placed; exact Hsq |].
    split; [apply placed_in; assumption |]. apply Hset; assumption.
  - split; [apply placed_inj |]. intros tx ty. apply placed_onto. exact Hsq.
Qed.

Lemma genImage_final_places_every_pixel_witness :
  exists final,
    genImage_final fourPixelsScaled (Rect 0 0 2 2) imageFormatBMP
      (keyImageTransform model_mini) = inl final /\
    RGBA_At final 1 0 = opaque (RGBA_At fourPixelsScaled 0 1).
Proof.
  destruct (genImage_final_places_every_pixel fourPixelsScaled (Rect 0 0 2 2) imageFormatBMP
              (keyImageTransform model_mini) eq_refl ltac:(vm_compute; discriminate)
              ltac:(vm_compute; discriminate) (fun _ => eq_refl))
    as (final & Hrun & _ & Hset & _).
  exists final. split; [exact Hrun |].
  exact (proj2 (proj2 (Hset 0 1 ltac:(vm_compute; split; [discriminate | reflexivity])
                         ltac:(vm_compute; split; [discriminate | reflexivity])))).
Defined.

(** X10.  The outcomes of the codec on a canvas anchored at the origin, of a
    size [image.NewRGBA] accepts, with the rotation requested only for a
    square one.  A nil picture is refused with the invalid-image error.
    Otherwise the codec builds the transformed canvas and hands it to the
    encoder of the format: the result, error included, is the encoder's own
    and is passed on unchanged; a format that is neither of the two is
    refused, after the canvas was built, with a plain error that wraps
    nothing. *)
Theorem genImage_outcomes `{ImageLib} (img : Image) (rect : Rectangle)
    (ifmt : imageFormat) (transform : imageTransform) :
  Min rect = mkPoint 0 0 -> 0 <= Dx rect -> 0 <= Dy rect ->
  4 * Dx rect * Dy rect <= maxInt ->
  (flagSet transform imageTransformRotate90 = true -> Dx rect = Dy rect) ->
  genImage None rect ifmt transform = Ok (inr (wrap (Sentinel ErrImageInvalid))) /\
  exists final,
    RGBA_Rect final = rect /\
    (forall x y, 0 <= x < Dx rect -> 0 <= y < Dy rect ->
       RGBA_At final (X (placed rect transform x y)) (Y (placed rect transform x y)) =
         pixelColor ifmt (RGBA_At (genImage_scaled img rect (blankRGBA rect)) x y)) /\
    genImage (Some img) rect ifmt transform =
      Ok (if ifmt =? imageFormatBMP then bmp_Encode final
          else if ifmt =? imageFormatJPEG then jpeg_Encode final
          else inr (New "invalid key image format")) /\
    (ifmt = imageFormatBMP \/ ifmt = imageFormatJPEG -> encodes img rect ifmt transform).
Proof.
  intros Hmin Hw Hh Hmem Hsq. split; [reflexivity |].
  destruct (genImage_final_every (genImage_scaled img rect (blankRGBA rect)) rect ifmt
              transform Hmin Hw Hh Hsq) as (final & Hrun & Hrect & Hset).
  assert (Hgen : genImage (Some img) rect ifmt transform =
                 Ok (if ifmt =? imageFormatBMP then bmp_Encode final
                     else if ifmt =? imageFormatJPEG then jpeg_Encode final
                     else inr (New "invalid key image format"))).
  { unfold genImage. rewrite (NewRGBA_Ok rect Hw Hh Hmem).
    fold (blankRGBA rect). rewrite Hrun.
    destruct (ifmt =? imageFormatBMP); [reflexivity |].
    destruct (ifmt =? imageFormatJPEG); reflexivity. }
  exists final. split; [exact Hrect |]. split; [exact Hset |]. split; [exact Hgen |].
  intros Hfmt. exists final. split; [| split; [exact Hrect | exact Hset]].
  rewrite Hgen. unfold encoderOf. destruct Hfmt as [-> | ->]; reflexivity.
Qed.

Lemma genImage_outcomes_witness :
  genImage (H := refImageLib) (Some fourPixels) (Rect 0 0 2 2) 7 imageTransformFlipVertical =
    Ok (inr (New "invalid key image format")) /\
  encodes (H := refImageLib) fourPixels (Rect 0 0 2 2) imageFormatJPEG
    imageTransformFlipVertical.
Proof.
  assert (Hw : 0 <= Dx (Rect 0 0 2 2)) by (vm_compute; discriminate).
  assert (Hm : 4 * Dx (Rect 0 0 2 2) * Dy (Rect 0 0 2 2) <= maxInt) by (vm_compute; discriminate).
  split.
  - destruct (genImage_outcomes (H := refImageLib) fourPixels (Rect 0 0 2 2) 7
                imageTransformFlipVertical eq_refl Hw Hw Hm
                ltac:(vm_compute; discriminate)) as (_ & final & _ & _ & Hgen & _).
    exact Hgen.
  - destruct (genImage_outcomes (H := refImageLib) fourPixels (Rect 0 0 2 2) imageFormatJPEG
                imageTransformFlipVertical eq_refl Hw Hw Hm
                ltac:(vm_compute; discriminate)) as (_ & final & _ & _ & _ & Henc).
    apply Henc. right. reflexivity.
Defined.

(** ** Image codec: the registry's canvases *)

Lemma genImage_encodes `{ImageLib} (img : Image) (rect : Rectangle)
    (ifmt : imageFormat) (transform : imageTransform) :
  Min rect = mkPoint 0 0 -> 0 <= Dx rect -> 0 <= Dy rect ->
  4 * Dx rect * Dy rect <= maxInt ->
  (flagSet transform imageTransformRotate90 = true -> Dx rect = Dy rect) ->
  ifmt = imageFormatBMP \/ ifmt = imageFormatJPEG ->
  encodes img rect ifmt transform.
Proof.
  intros Hmin Hw Hh Hmem Hsq Hfmt.
  destruct (genImage_final_every (genImage_scaled img rect (blankRGBA rect)) rect ifmt
              transform Hmin Hw Hh Hsq) as (final & Hrun & Hrect & Hset).
  exists final. split; [| split; [exact Hrect | exact Hset]].
  unfold genImage. rewrite (NewRGBA_Ok rect Hw Hh Hmem).
  fold (blankRGBA rect). rewrite Hrun. unfold encoderOf.
  destruct Hfmt as [-> | ->]; reflexivity.
Qed.

(** X11.  On every model of the registry the codec fails only when the
    encoder fails: for a picture that is not nil the key canvas, the info-bar
    canvas where there is an info bar and the touch-strip canvas where there
    is a touch strip are built without panic, the rotation is never refused
    and the format is one of the two.  The key picture reaches the device
    transposed on the mini ((x, y) at (y, x), made opaque), turned by half a
    turn on the mk2 and the Neo, and as it is on the Plus; the Neo's info bar
    is turned by half a turn and the touch strip of the Plus is sent as it
    is. *)
Theorem registry_images `{ImageLib} (pid : Z) (m : model) (img : Image) :
  models !! pid = Some m ->
  encodes img (keyImageRect m) (keyImageFormat m) (keyImageTransform m) /\
  (is_Some (infoBarImageSend m) ->
   encodes img (infoBarImageRect m) (infoBarImageFormat m) (infoBarImageTransform m) /\
   forall x y, placed (infoBarImageRect m) (infoBarImageTransform m) x y =
               mkPoint (Dx (infoBarImageRect m) - 1 - x) (Dy (infoBarImageRect m) - 1 - y)) /\
  (is_Some (touchStripImageSend m) ->
   encodes img (touchStripImageRect m) (touchStripImageFormat m)
     (touchStripImageTransform m) /\
   forall x y, placed (touchStripImageRect m) (touchStripImageTransform m) x y = mkPoint x y) /\
  (forall x y,
      placed (keyImageRect m) (keyImageTransform m) x y =
        if decide (pid = 0x0063) then mkPoint y x
        else if decide (pid = 0x0084) then mkPoint x y
        else mkPoint (Dx (keyImageRect m) - 1 - x) (Dy (keyImageRect m) - 1 - y)) /\
  (keyImageFormat m = imageFormatBMP <-> pid = 0x0063).
Proof.
  intros Hm. apply models_lookup_Some in Hm.
  assert (Hmax : forall a, 0 <= a <= 10 ^ 6 -> a <= maxInt) by (unfold maxInt; lia).
  destruct Hm as [[-> ->] | [[-> ->] | [[-> ->] | [-> ->]]]].
  - split; [apply genImage_encodes; try reflexivity; try (vm_compute; discriminate);
            left; reflexivity |].
    split; [intros [? Hs]; discriminate |]. split; [intros [? Hs]; discriminate |].
    split; [| split; [reflexivity | reflexivity]].
    intros x y. unfold placed. simpl. f_equal. lia.
  - split; [apply genImage_encodes; try reflexivity; try (vm_compute; discriminate);
            right; reflexivity |].
    split; [intros [? Hs]; discriminate |]. split; [intros [? Hs]; discriminate |].
    split; [| split; [discriminate | discriminate]].
    intros x y. reflexivity.
  - split; [apply genImage_encodes; try reflexivity; try (vm_compute; discriminate);
            right; reflexivity |].
    split; [intros [? Hs]; discriminate |].
    split.
    { intros _. split; [| intros x y; reflexivity].
      apply genImage_encodes; try reflexivity; try (vm_compute; discriminate).
      right; reflexivity. }
    split; [| split; [discriminate | discriminate]].
    intros x y. reflexivity.
  - split; [apply genImage_encodes; try reflexivity; try (vm_compute; discriminate);
            right; reflexivity |].
    split.
    { intros _. split; [| intros x y; reflexivity].
      apply genImage_encodes; try reflexivity; try (vm_compute; discriminate).
      right; reflexivity. }
    split; [intros [? Hs]; discriminate |].
    split; [| split; [discriminate | discriminate]].
    intros x y. reflexivity.
Qed.

Lemma registry_images_witness :
  encodes (H := refImageLib) fourPixels (Rect 0 0 80 80) imageFormatBMP
    (Z.lor imageTransformRotate90 imageTransformFlipHorizontal).
Proof.
  exact (proj1 (registry_images (H := refImageLib) 0x0063 model_mini fourPixels eq_refl)).
Defined.

(** ** Input slots: the tables *)

Lemma byteRange_small (n : Z) :
  0 <= n < 255 -> byteRange 1 (u8 (n + 1)) = seqZ 1 n /\ byteRange 1 (u8 (1 + n)) = seqZ 1 n.
Proof.
  intros Hn. unfold byteRange, u8.
  rewrite (Z.mod_small (n + 1)), (Z.mod_small (1 + n)) by lia.
  split; f_equal; lia.
Qed.

Lemma fmap_seqZ_lookup {A} (f : Z -> A) (n i : Z) :
  0 <= i < n -> (f <$> seqZ 1 n) !! Z.to_nat i = Some (f (i + 1)).
Proof.
  intros Hi. rewrite list_lookup_fmap.
  rewrite (proj2 (lookup_seqZ 1 n (Z.to_nat i) (1 + i))) by lia.
  simpl. do 2 f_equal. lia.
Qed.

Lemma newInputs_key_lookup (numKeys numTouchPoints i : Z) :
  0 <= numKeys < 255 -> 0 <= i < numKeys ->
  newInputs numKeys numTouchPoints !! Z.to_nat i = Some (newKeyInput (i + 1)).
Proof.
  intros Hk Hi. unfold newInputs, KEY_1.
  destruct (byteRange_small numKeys Hk) as [-> _].
  rewrite lookup_app_l by (rewrite length_fmap, length_seqZ; lia).
  apply fmap_seqZ_lookup. exact Hi.
Qed.

Lemma newInputs_tp_lookup (numKeys numTouchPoints j : Z) :
  0 <= numKeys < 255 -> 0 <= numTouchPoints < 255 -> 0 <= j < numTouchPoints ->
  newInputs numKeys numTouchPoints !! Z.to_nat (numKeys + j) =
    Some (newTouchPointInput (j + 1)).
Proof.
  intros Hk Ht Hj. unfold newInputs, KEY_1, TOUCH_POINT_1.
  destruct (byteRange_small numKeys Hk) as [-> _].
  destruct (byteRange_small numTouchPoints Ht) as [_ ->].
  rewrite lookup_app_r by (rewrite length_fmap, length_seqZ; lia).
  rewrite length_fmap, length_seqZ.
  replace (Z.to_nat (numKeys + j) - Z.to_nat numKeys)%nat with (Z.to_nat j) by lia.
  apply fmap_seqZ_lookup. exact Hj.
Qed.

Lemma newDialInputs_lookup (numDials i : Z) :
  0 <= numDials < 255 -> 0 <= i < numDials ->
  newDialInputs numDials !! Z.to_nat i = Some (newDialInput (i + 1)).
Proof.
  intros Hd Hi. unfold newDialInputs, DIAL_1.
  destruct (byteRange_small numDials Hd) as [-> _].
  apply fmap_seqZ_lookup. exact Hi.
Qed.

Lemma len_newInputs (numKeys numTouchPoints : Z) :
  0 <= numKeys < 255 -> 0 <= numTouchPoints < 255 ->
  len (newInputs numKeys numTouchPoints) = numKeys + numTouchPoints.
Proof.
  intros Hk Ht. unfold newInputs, KEY_1, TOUCH_POINT_1.
  destruct (byteRange_small numKeys Hk) as [-> _].
  destruct (byteRange_small numTouchPoints Ht) as [_ ->].
  unfold len. rewrite length_app, !length_fmap, !length_seqZ. lia.
Qed.

Lemma len_newDialInputs (numDials : Z) :
  0 <= numDials < 255 -> len (newDialInputs numDials) = numDials.
Proof.
  intros Hd. unfold newDialInputs, DIAL_1.
  destruct (byteRange_small numDials Hd) as [-> _].
  unfold len. rewrite length_fmap, length_seqZ. lia.
Qed.

(** X12.  The slot tables follow the report layout.  For counts below 255,
    [newInputs] makes one slot per key, in key order, followed by one slot
    per touch point, so that slot [i] is key [i+1] and slot [keys + j] is
    touch point [j+1]; [newDialInputs] makes slot [i] for dial [i+1].  Every
    new slot is idle: no channel, no callback, zero times.  A count of 255
    wraps the loop bound to 0 and makes no slot at all. *)
Theorem newInputs_layout (numKeys numTouchPoints numDials : Z) :
  0 <= numKeys < 255 -> 0 <= numTouchPoints < 255 -> 0 <= numDials < 255 ->
  len (newInputs numKeys numTouchPoints) = numKeys + numTouchPoints /\
  (forall i, 0 <= i < numKeys ->
     newInputs numKeys numTouchPoints !! Z.to_nat i = Some (newKeyInput (i + 1))) /\
  (forall j, 0 <= j < numTouchPoints ->
     newInputs numKeys numTouchPoints !! Z.to_nat (numKeys + j) =
       Some (newTouchPointInput (j + 1))) /\
  len (newDialInputs numDials) = numDials /\
  (forall i, 0 <= i < numDials ->
     newDialInputs numDials !! Z.to_nat i = Some (newDialInput (i + 1))) /\
  newInputs 255 255 = [] /\ newDialInputs 255 = [].
Proof.
  intros Hk Ht Hd.
  split; [apply len_newInputs; assumption |].
  split; [intros i Hi; apply newInputs_key_lookup; assumption |].
  split; [intros j Hj; apply newInputs_tp_lookup; assumption |].
  split; [apply len_newDialInputs; assumption |].
  split; [intros i Hi; apply newDialInputs_lookup; assumption |].
  split; reflexivity.
Qed.

Lemma newInputs_layout_witness :
  newInputs 8 2 !! 9%nat = Some (newTouchPointInput 2) /\
  newInputs 8 2 !! 7%nat = Some (newKeyInput 8).
Proof.
  destruct (newInputs_layout 8 2 0 ltac:(lia) ltac:(lia) ltac:(lia)) as (_ & Hk & Ht & _).
  split; [exact (Ht 1 ltac:(lia)) | exact (Hk 7 ltac:(lia))].
Defined.

(** ** Handler registration *)

Lemma updateFirst_at (upd : input -> option input) (ins : list input) :
  forall (i : nat) (inp inp' : input),
    ins !! i = Some inp -> upd inp = Some inp' ->
    (forall j x, (j < i)%nat -> ins !! j = Some x -> upd x = None) ->
    updateFirst upd ins = Some (<[i := inp']> ins).
Proof.
  induction ins as [| a ins IH]; intros i inp inp' Hi Hu Hbefore; [discriminate |].
  destruct i as [| i]; simpl in *.
  - injection Hi as ->. rewrite Hu. reflexivity.
  - rewrite (Hbefore 0%nat a ltac:(lia) eq_refl).
    rewrite (IH i inp inp' Hi Hu); [reflexivity |].
    intros j x Hj Hx. apply (Hbefore (S j)); [lia | exact Hx].
Qed.

Lemma updateFirst_ident (upd : input -> option input) (ins ins' : list input) :
  (forall inp inp', upd inp = Some inp' -> slotIdent inp' = slotIdent inp) ->
  updateFirst upd ins = Some ins' -> slotIdent <$> ins' = slotIdent <$> ins.
Proof.
  intros Hupd. revert ins'. induction ins as [| a ins IH]; intros ins' Hrun; [discriminate |].
  simpl in Hrun. destruct (upd a) as [a' |] eqn:Ea.
  - injection Hrun as <-. rewrite !fmap_cons, (Hupd a a' Ea). reflexivity.
  - destruct (updateFirst upd ins) as [r |]; [| discriminate].
    injection Hrun as <-. rewrite !fmap_cons, (IH r eq_refl). reflexivity.
Qed.

Lemma keySlot_lookup (d : Device) (ins : list input) (i : Z) :
  0 <= keyCount (model_ d) < 255 ->
  slotKey <$> ins = slotKey <$> newInputs (keyCount (model_ d)) (touchPointCount (model_ d)) ->
  0 <= i < keyCount (model_ d) ->
  exists inp k, ins !! Z.to_nat i = Some inp /\ in_key inp = Some k /\ key_id k = i + 1.
Proof.
  intros Hc Hok Hi.
  assert (Hl : (slotKey <$> ins) !! Z.to_nat i = Some (Some (i + 1))).
  { rewrite Hok, list_lookup_fmap, (newInputs_key_lookup _ _ i Hc Hi). reflexivity. }
  rewrite list_lookup_fmap in Hl.
  destruct (ins !! Z.to_nat i) as [inp |]; [| discriminate].
  simpl in Hl. injection Hl as Hl. unfold slotKey in Hl.
  destruct (in_key inp) as [k |] eqn:Ek; [| discriminate].
  simpl in Hl. injection Hl as Hl. exists inp, k. auto.
Qed.

(** X13.  Registering a callback for a valid key, on a device whose slot
    table (if it exists yet) is the one built for the model, appends the
    callback to the slot of that key and to no other; the slot is the one at
    index key minus one, the index of the key's byte in the watched part of
    a report.  The table is built at the first registration.  A later press
    of the slot starts the callbacks of the key in the order they were
    registered, the new one last, each with the key's identifier. *)
Theorem AddKeyHandler_appends (d : Device) (key : KeyID) (h : handler) :
  0 <= keyCount (model_ d) < 255 -> keySlots_ok d ->
  1 <= key <= keyCount (model_ d) ->
  exists (inp : input) (k : Key),
    inputsOrNew d !! Z.to_nat (key - 1) = Some inp /\
    in_key inp = Some k /\ key_id k = key /\
    AddKeyHandler d key (Some h) =
      (set_inputs d
         (Some (<[Z.to_nat (key - 1) := withKey inp (Key_addHandler k h)]> (inputsOrNew d))),
       None) /\
    keySlots_ok (fst (AddKeyHandler d key (Some h))) /\
    (forall t,
        snd (press (withKey inp (Key_addHandler k h)) t) =
          ((fun h' => GoKeyHandler h' key) <$> (key_handlers k ++ [h])) ++
          tpGoroutines (in_tp inp) ++ dialGoroutines (in_dial inp)) /\
    (inputs d = None -> key_handlers k = [] /\ in_tp inp = None /\ in_dial inp = None).
Proof.
  intros Hc Hok Hkey.
  assert (Hslots : slotKey <$> inputsOrNew d =
                   slotKey <$> newInputs (keyCount (model_ d)) (touchPointCount (model_ d))).
  { unfold inputsOrNew. destruct (inputs d) as [ins |] eqn:E; [apply Hok; exact E | reflexivity]. }
  destruct (keySlot_lookup d (inputsOrNew d) (key - 1) Hc Hslots ltac:(lia))
    as (inp & k & Hinp & Hk & Hid).
  replace (key - 1 + 1) with key in Hid by lia.
  assert (Hupd : keyUpd key h inp = Some (withKey inp (Key_addHandler k h))).
  { unfold keyUpd. rewrite Hk, Hid, Z.eqb_refl. reflexivity. }
  assert (Hrun : updateFirst (keyUpd key h) (inputsOrNew d) =
                 Some (<[Z.to_nat (key - 1) := withKey inp (Key_addHandler k h)]> (inputsOrNew d))).
  { apply (updateFirst_at _ _ _ inp); [exact Hinp | exact Hupd |].
    intros j x Hj Hx.
    destruct (keySlot_lookup d (inputsOrNew d) (Z.of_nat j) Hc Hslots ltac:(lia))
      as (inp' & k' & Hinp' & Hk' & Hid').
    rewrite Nat2Z.id in Hinp'. rewrite Hx in Hinp'. injection Hinp' as <-.
    unfold keyUpd. rewrite Hk'.
    destruct (key_id k' =? key) eqn:E; [apply Z.eqb_eq in E; lia | reflexivity]. }
  assert (Hval : validateKey d key = None) by (apply validateKey_None; assumption).
  assert (Hadd : AddKeyHandler d key (Some h) =
                 (set_inputs d
                    (Some (<[Z.to_nat (key - 1) := withKey inp (Key_addHandler k h)]>
                             (inputsOrNew d))), None)).
  { rewrite AddKeyHandler_keyUpd by exact Hval. rewrite Hrun. reflexivity. }
  exists inp, k. split; [exact Hinp |]. split; [exact Hk |]. split; [exact Hid |].
  split; [exact Hadd |]. split.
  - rewrite Hadd. unfold keySlots_ok. simpl. intros ins' [= <-].
    rewrite list_fmap_insert, <- Hslots.
    apply list_insert_id. rewrite list_lookup_fmap, Hinp. simpl.
    unfold slotKey. simpl. rewrite Hk. reflexivity.
  - split.
    + intros t. unfold press. simpl. rewrite Hid. reflexivity.
    + intros Hnone. unfold inputsOrNew in Hinp. rewrite Hnone in Hinp.
      rewrite (newInputs_key_lookup _ _ (key - 1) Hc ltac:(lia)) in Hinp.
      injection Hinp as <-. simpl in Hk. injection Hk as <-. repeat split.
Qed.

Lemma AddKeyHandler_appends_witness :
  snd (AddKeyHandler (mk2Device true) 2 (Some 7%nat)) = None /\
  keySlots_ok (fst (AddKeyHandler (mk2Device true) 2 (Some 7%nat))) /\
  exists inp k,
    inputsOrNew (mk2Device true) !! 1%nat = Some inp /\ in_key inp = Some k /\
    snd (press (withKey inp (Key_addHandler k 7%nat)) 1000) = [GoKeyHandler 7%nat 2].
Proof.
  assert (Hc : 0 <= keyCount (model_ (mk2Device true)) < 255) by (simpl; lia).
  assert (Hok : keySlots_ok (mk2Device true)) by (intros ins Hi; discriminate).
  assert (Hk : 1 <= 2 <= keyCount (model_ (mk2Device true))) by (simpl; lia).
  destruct (AddKeyHandler_appends (mk2Device true) 2 7%nat Hc Hok Hk)
    as (inp & k & Hinp & Hkey & Hid & Hadd & Hok1 & Hpress & Hfresh).
  destruct (Hfresh eq_refl) as (Hh & Htp & Hdial).
  split; [exact (f_equal snd Hadd) |]. split; [exact Hok1 |].
  exists inp, k. split; [exact Hinp |]. split; [exact Hkey |].
  rewrite Hpress, Hh, Htp, Hdial. reflexivity.
Defined.

(** ** The slot tables are an invariant *)

Lemma insert_ident (ins : list input) (i : nat) (inp inp' : input) :
  ins !! i = Some inp -> slotIdent inp' = slotIdent inp ->
  slotIdent <$> <[i := inp']> ins = slotIdent <$> ins.
Proof.
  intros Hi He. rewrite list_fmap_insert. apply list_insert_id.
  rewrite list_lookup_fmap, Hi, He. reflexivity.
Qed.

Lemma release_ident (inp inp' : input) (t : Time) (closed : bool) :
  release inp t = Ok (inp', closed) -> slotIdent inp' = slotIdent inp.
Proof.
  unfold release. destruct (negb (Time_IsZero (released inp))); [intros [= <- _]; reflexivity |].
  destruct (channel inp) as [[|] |]; try discriminate. intros [= <- _]. reflexivity.
Qed.

Lemma diffStates_ident (tbl : table) (t : Time) (snapshot : list Z) (states : list Z) :
  forall (i : nat) (ins : list input) (evs : list event) (ins' : list input) (evs' : list event),
    diffStates tbl t snapshot states i ins evs = Ok (ins', evs') ->
    slotIdent <$> ins' = slotIdent <$> ins.
Proof.
  induction states as [| st rest IH]; intros i ins evs ins' evs' Hrun; simpl in Hrun.
  - injection Hrun as <- _. reflexivity.
  - destruct (snapshot !! i) as [old |]; [| discriminate].
    destruct (st =? old); [eapply IH; exact Hrun |].
    destruct (ins !! i) as [inp |] eqn:Hi; [| eapply IH; exact Hrun].
    destruct (0 <? st).
    + destruct (press inp t) as [inp' gs] eqn:Ep.
      rewrite (IH _ _ _ _ _ Hrun). apply (insert_ident ins i inp); [exact Hi |].
      unfold press in Ep. injection Ep as <- _. reflexivity.
    + destruct (release inp t) as [[inp' closed] |] eqn:Er; [| discriminate].
      rewrite (IH _ _ _ _ _ Hrun). apply (insert_ident ins i inp); [exact Hi |].
      apply (release_ident _ _ _ _ Er).
Qed.

Lemma slots_wf_same (d d' : Device) :
  model_ d' = model_ d -> inputs d' = inputs d -> dialInputs d' = dialInputs d ->
  touchStripInput d' = touchStripInput d -> slots_wf d -> slots_wf d'.
Proof. unfold slots_wf. intros -> -> -> ->. auto. Qed.

Lemma slots_wf_set_inputs (d : Device) (ins : list input) :
  slots_wf d ->
  slotIdent <$> ins =
    slotIdent <$> newInputs (keyCount (model_ d)) (touchPointCount (model_ d)) ->
  slots_wf (set_inputs d (Some ins)).
Proof.
  intros (_ & Hd & Ht) Hi. split; [| split; [exact Hd | exact Ht]].
  simpl. intros ins' [= <-]. exact Hi.
Qed.

Lemma slots_wf_set_dialInputs (d : Device) (ins : list input) :
  slots_wf d ->
  slotIdent <$> ins = slotIdent <$> newDialInputs (dialCount (model_ d)) ->
  slots_wf (set_dialInputs d (Some ins)).
Proof.
  intros (Hk & _ & Ht) Hi. split; [exact Hk | split; [| exact Ht]].
  simpl. intros ins' [= <-]. exact Hi.
Qed.

Lemma inputsOrNew_ident (d : Device) :
  slots_wf d ->
  slotIdent <$> inputsOrNew d =
    slotIdent <$> newInputs (keyCount (model_ d)) (touchPointCount (model_ d)).
Proof.
  intros (Hk & _). unfold inputsOrNew.
  destruct (inputs d) as [ins |] eqn:E; [apply Hk; reflexivity | reflexivity].
Qed.

Lemma dialInputsOrNew_ident (d : Device) :
  slots_wf d ->
  slotIdent <$> dialInputsOrNew d = slotIdent <$> newDialInputs (dialCount (model_ d)).
Proof.
  intros (_ & Hd & _). unfold dialInputsOrNew.
  destruct (dialInputs d) as [ins |] eqn:E; [apply Hd; reflexivity | reflexivity].
Qed.

Lemma slots_wf_updateFirst (d : Device) (upd : input -> option input) :
  slots_wf d ->
  (forall inp inp', upd inp = Some inp' -> slotIdent inp' = slotIdent inp) ->
  forall err,
    slots_wf (fst (match updateFirst upd (inputsOrNew d) with
                   | Some ins' => (set_inputs d (Some ins'), None)
                   | None => (set_inputs d (Some (inputsOrNew d)), Some err)
                   end : Device * option error)).
Proof.
  intros Hwf Hupd err.
  destruct (updateFirst upd (inputsOrNew d)) as [ins' |] eqn:E; simpl.
  - apply slots_wf_set_inputs; [exact Hwf |].
    rewrite (updateFirst_ident upd _ _ Hupd E). apply inputsOrNew_ident. exact Hwf.
  - apply slots_wf_set_inputs; [exact Hwf | apply inputsOrNew_ident; exact Hwf].
Qed.

Lemma slots_wf_updateFirst_dial (d : Device) (upd : input -> option input) :
  slots_wf d ->
  (forall inp inp', upd inp = Some inp' -> slotIdent inp' = slotIdent inp) ->
  forall err,
    slots_wf (fst (match updateFirst upd (dialInputsOrNew d) with
                   | Some ins' => (set_dialInputs d (Some ins'), None)
                   | None => (set_dialInputs d (Some (dialInputsOrNew d)), Some err)
                   end : Device * option error)).
Proof.
  intros Hwf Hupd err.
  destruct (updateFirst upd (dialInputsOrNew d)) as [ins' |] eqn:E; simpl.
  - apply slots_wf_set_dialInputs; [exact Hwf |].
    rewrite (updateFirst_ident upd _ _ Hupd E). apply dialInputsOrNew_ident. exact Hwf.
  - apply slots_wf_set_dialInputs; [exact Hwf | apply dialInputsOrNew_ident; exact Hwf].
Qed.

Lemma slots_wf_touchStrip (d : Device) (f : touchStrip -> touchStrip) :
  slots_wf d ->
  slots_wf (set_touchStripInput d
              (Some match in_touchStrip (touchStripInputOrNew d) with
                    | Some ts => withTouchStrip (touchStripInputOrNew d) (f ts)
                    | None => touchStripInputOrNew d
                    end)).
Proof.
  intros (Hk & Hd & Ht). split; [exact Hk | split; [exact Hd |]].
  simpl. intros inp [= <-].
  assert (Hin : slotIdent (touchStripInputOrNew d) = slotIdent newTouchStripInput).
  { unfold touchStripInputOrNew. destruct (touchStripInput d) as [inp |] eqn:E;
      [apply Ht; reflexivity | reflexivity]. }
  destruct (in_touchStrip (touchStripInputOrNew d)) as [ts |] eqn:E; [| exact Hin].
  rewrite <- Hin. unfold slotIdent. simpl. rewrite E. reflexivity.
Qed.

Lemma slots_wf_listenStep (d d' : Device) (rd : inputReport) (t : Time) (evs : list event) :
  slots_wf d -> listenStep d rd t = Continue d' evs -> slots_wf d'.
Proof.
  intros Hwf. unfold listenStep. destruct rd as [[id buf] | err]; [| discriminate].
  destruct (negb (id =? 1)); [discriminate |].
  destruct (index buf 0) as [b0 |]; [| discriminate].
  destruct ((b0 =? 2) && _).
  { unfold stepTouchStrip. destruct (touchStripInput d) as [inp |]; [| intros [= <- _]; exact Hwf].
    destruct (index buf 3) as [b3 |]; [| discriminate].
    destruct ((b3 =? 1) || (b3 =? 2)).
    - destruct (len buf <? 9); [intros [= <- _]; exact Hwf |].
      destruct (point buf 5); [intros [= <- _]; exact Hwf | discriminate].
    - destruct (b3 =? 3); [| intros [= <- _]; exact Hwf].
      destruct (len buf <? 13); [intros [= <- _]; exact Hwf |].
      destruct (point buf 5); [| discriminate].
      destruct (point buf 9); [intros [= <- _]; exact Hwf | discriminate]. }
  destruct ((b0 =? 3) && _).
  { unfold stepDial. cbv zeta. destruct (slice buf _ _) as [states |]; [| discriminate].
    destruct (index buf 3) as [b3 |]; [| discriminate].
    destruct (b3 =? 0).
    - destruct (diffStates _ _ _ _ _ _ _) as [[ins' evs'] |] eqn:E; [| discriminate].
      intros [= <- _]. destruct Hwf as (Hk & Hd & Ht).
      split; [exact Hk | split; [| exact Ht]]. simpl.
      destruct (dialInputs d) as [ins |] eqn:Ei; [| discriminate].
      simpl. intros ins0 [= <-]. rewrite (diffStates_ident _ _ _ _ _ _ _ _ _ E).
      apply Hd. reflexivity.
    - destruct (b3 =? 1); intros [= <- _]; exact Hwf. }
  unfold stepKeys. cbv zeta. destruct (slice buf _ _) as [states |]; [| discriminate].
  destruct (if 0 <? touchPointCount (model_ d) then _ else _) as [states' |]; [| discriminate].
  destruct (diffStates _ _ _ _ _ _ _) as [[ins' evs'] |] eqn:E; [| discriminate].
  intros [= <- _]. destruct Hwf as (Hk & Hd & Ht).
  split; [| split; [exact Hd | exact Ht]]. simpl.
  destruct (inputs d) as [ins |] eqn:Ei; [| discriminate].
  simpl. intros ins0 [= <-]. rewrite (diffStates_ident _ _ _ _ _ _ _ _ _ E).
  apply Hk. reflexivity.
Qed.

Lemma slots_wf_listenInit (d : Device) : slots_wf d -> slots_wf (listenInit d).
Proof.
  intros Hwf. unfold listenInit. cbv zeta.
  destruct (negb (len (keyStates d) =? _)); destruct (negb (len (dialStates _) =? _));
    exact Hwf.
Qed.

(** X14.  The slot tables are an invariant of the device.  A device as
    enumeration builds it has no table yet.  From then on, whatever is
    registered - any identifier, any callback, nil included - and whatever
    reports the polling loop processes, each table that exists has one slot
    per control of the model, in the model's order, each slot standing for
    the same key, touch point or dial as when it was made: registration and
    dispatch change callbacks, channels and times only.  Open, Reset and
    SetBrightness do not touch the tables. *)
Theorem slot_tables_invariant :
  (forall dev m, slots_wf (newDevice dev m)) /\
  (forall d, slots_wf d ->
     keySlots_ok d /\
     (forall key fn, slots_wf (fst (AddKeyHandler d key fn))) /\
     (forall tp fn, slots_wf (fst (AddTouchPointHandler d tp fn))) /\
     (forall di fn, slots_wf (fst (AddDialSwitchHandler d di fn))) /\
     (forall di fn, slots_wf (fst (AddDialRotateHandler d di fn))) /\
     (forall fn, slots_wf (fst (AddTouchStripTouchHandler d fn))) /\
     (forall fn, slots_wf (fst (AddTouchStripSwipeHandler d fn))) /\
     slots_wf (listenInit d) /\
     (forall rd t d' evs, listenStep d rd t = Continue d' evs -> slots_wf d') /\
     slots_wf (fst (Open d)) /\ slots_wf (fst (Reset d)) /\
     (forall perc, slots_wf (fst (SetBrightness d perc)))).
Proof.
  split.
  { intros dev m. repeat split; intros x Hx; discriminate. }
  intros d Hwf. split.
  { intros ins Hi. destruct Hwf as (Hk & _). specialize (Hk ins Hi).
    change slotKey with ((fun x : option KeyID * option TouchPointID * option DialID * bool =>
                            fst (fst (fst x))) ∘ slotIdent).
    rewrite !list_fmap_compose, Hk. reflexivity. }
  split.
  { intros key fn. unfold AddKeyHandler.
    destruct (validateKey d key); [exact Hwf |]. destruct fn as [h |]; [| exact Hwf].
    cbv zeta. apply slots_wf_updateFirst; [exact Hwf |].
    intros inp inp'. destruct (in_key inp) as [k |] eqn:E; [| discriminate].
    destruct (key_id k =? key); [| discriminate]. intros [= <-].
    unfold slotIdent. simpl. rewrite E. reflexivity. }
  split.
  { intros tp fn. unfold AddTouchPointHandler.
    destruct (validateTouchPoint d tp); [exact Hwf |]. destruct fn as [h |]; [| exact Hwf].
    cbv zeta. apply slots_wf_updateFirst; [exact Hwf |].
    intros inp inp'. destruct (in_tp inp) as [k |] eqn:E; [| discriminate].
    destruct (tp_id k =? tp); [| discriminate]. intros [= <-].
    unfold slotIdent. simpl. rewrite E. reflexivity. }
  split.
  { intros di fn. unfold AddDialSwitchHandler.
    destruct (validateDial d di); [exact Hwf |]. destruct fn as [h |]; [| exact Hwf].
    cbv zeta. apply slots_wf_updateFirst_dial; [exact Hwf |].
    intros inp inp'. destruct (in_dial inp) as [k |] eqn:E; [| discriminate].
    destruct (dial_id k =? di); [| discriminate]. intros [= <-].
    unfold slotIdent. simpl. rewrite E. reflexivity. }
  split.
  { intros di fn. unfold AddDialRotateHandler.
    destruct (validateDial d di); [exact Hwf |]. destruct fn as [h |]; [| exact Hwf].
    cbv zeta. apply slots_wf_updateFirst_dial; [exact Hwf |].
    intros inp inp'. destruct (in_dial inp) as [k |] eqn:E; [| discriminate].
    destruct (dial_id k =? di); [| discriminate]. intros [= <-].
    unfold slotIdent. simpl. rewrite E. reflexivity. }
  split.
  { intros fn. unfold AddTouchStripTouchHandler.
    destruct (validateTouchStrip d); [exact Hwf |]. destruct fn as [h |]; [| exact Hwf].
    cbv zeta. simpl. apply (slots_wf_touchStrip d (fun ts => touchStrip_addTouchHandler ts h)).
    exact Hwf. }
  split.
  { intros fn. unfold AddTouchStripSwipeHandler.
    destruct (validateTouchStrip d); [exact Hwf |]. destruct fn as [h |]; [| exact Hwf].
    cbv zeta. simpl. apply (slots_wf_touchStrip d (fun ts => touchStrip_addSwipeHandler ts h)).
    exact Hwf. }
  split; [apply slots_wf_listenInit; exact Hwf |].
  split; [intros rd t d' evs; apply slots_wf_listenStep; exact Hwf |].
  split.
  { unfold Open. destruct (IsOpen d); [exact Hwf |].
    destruct (hid_Open (dev d)) as [dev' [e |]]; exact Hwf. }
  split.
  { unfold Reset. destruct (validateOpen d); [exact Hwf |].
    destruct (reset (model_ d) (dev d)) as [dev' [e |]]; [exact Hwf |].
    destruct (hid_Close dev') as [dev'' e]. exact Hwf. }
  intros perc. unfold SetBrightness. destruct (validateOpen d); [exact Hwf |].
  destruct (brightness (model_ d) (dev d) _) as [dev' e]. exact Hwf.
Qed.

(** ** Polling loop: it does not panic on well-formed reports *)

Lemma diffStates_safe (tbl : table) (t : Time) (snapshot : list Z) (states : list Z) :
  forall (i : nat) (ins : list input) (evs : list event),
    (i + length states <= length snapshot)%nat ->
    Forall (fun st => 0 <= st) states ->
    (forall j inp old, (i <= j)%nat -> ins !! j = Some inp -> snapshot !! j = Some old ->
                       old <> 0 -> slotDown inp) ->
    exists ins' evs',
      diffStates tbl t snapshot states i ins evs = Ok (ins', evs') /\
      length ins' = length ins /\
      (forall j, (j < i)%nat -> ins' !! j = ins !! j) /\
      (forall j inp st, (i <= j)%nat -> ins' !! j = Some inp ->
                        states !! (j - i)%nat = Some st -> st <> 0 -> slotDown inp).
Proof.
  induction states as [| st rest IH]; intros i ins evs Hlen Hpos Hdown.
  { exists ins, evs. split; [reflexivity |]. split; [reflexivity |].
    split; [reflexivity |]. intros j inp st _ _ Hst. rewrite lookup_nil in Hst. discriminate. }
  simpl in Hlen. apply Forall_cons in Hpos as [Hst Hpos].
  cbn [diffStates].
  destruct (lookup_lt_is_Some_2 snapshot i ltac:(lia)) as [old Hold]. rewrite Hold.
  assert (Hshift : forall j, (S i <= j)%nat -> (st :: rest) !! (j - i)%nat = rest !! (j - S i)%nat).
  { intros j Hj. replace (j - i)%nat with (S (j - S i)) by lia. reflexivity. }
  assert (Hfinish : forall ins1 evs1,
             length ins1 = length ins ->
             (forall j, (j < i)%nat -> ins1 !! j = ins !! j) ->
             (forall j, (S i <= j)%nat -> ins1 !! j = ins !! j) ->
             (forall inp, ins1 !! i = Some inp -> st <> 0 -> slotDown inp) ->
             exists ins' evs',
               diffStates tbl t snapshot rest (S i) ins1 evs1 = Ok (ins', evs') /\
               length ins' = length ins /\
               (forall j, (j < i)%nat -> ins' !! j = ins !! j) /\
               (forall j inp st0, (i <= j)%nat -> ins' !! j = Some inp ->
                                  (st :: rest) !! (j - i)%nat = Some st0 -> st0 <> 0 ->
                                  slotDown inp)).
  { intros ins1 evs1 Hl1 Hbefore Hafter Hat.
    destruct (IH (S i) ins1 evs1 ltac:(lia) Hpos) as (ins' & evs' & Hrun & Hl & Hkeep & Hset).
    { intros j inp old0 Hj Hin. rewrite (Hafter j Hj) in Hin. apply Hdown; [lia | exact Hin]. }
    exists ins', evs'. split; [exact Hrun |]. split; [congruence |]. split.
    - intros j Hj. rewrite Hkeep by lia. apply Hbefore. exact Hj.
    - intros j inp st0 Hj Hin Hs Hne.
      destruct (decide (j = i)) as [-> | Hji].
      + rewrite Nat.sub_diag in Hs. simpl in Hs. injection Hs as <-.
        rewrite Hkeep in Hin by lia. apply Hat; assumption.
      + rewrite Hshift in Hs by lia. eapply Hset; [| exact Hin | exact Hs | exact Hne]. lia. }
  destruct (st =? old) eqn:Eeq.
  { apply Z.eqb_eq in Eeq. subst old. apply Hfinish; auto.
    intros inp Hin Hne. eapply Hdown; [| exact Hin | exact Hold | exact Hne]. lia. }
  apply Z.eqb_neq in Eeq.
  destruct (ins !! i) as [inp |] eqn:Hi.
  2:{ apply Hfinish; auto. intros inp Hin. congruence. }
  assert (Hil : (i < length ins)%nat) by (eapply lookup_lt_Some; exact Hi).
  destruct (0 <? st) eqn:Epos.
  - destruct (press inp t) as [inp' gs] eqn:Ep.
    apply Hfinish.
    + apply length_insert.
    + intros j Hj. apply list_lookup_insert_ne. lia.
    + intros j Hj. apply list_lookup_insert_ne. lia.
    + intros inp0 Hin _. rewrite list_lookup_insert_eq in Hin by exact Hil.
      injection Hin as <-. unfold press in Ep. injection Ep as <- _. split; reflexivity.
  - apply Z.ltb_ge in Epos. assert (st = 0) as -> by lia.
    assert (Hd : slotDown inp) by (eapply Hdown; [| exact Hi | exact Hold | congruence]; lia).
    destruct Hd as [Hch Hrel].
    unfold release. rewrite Hrel, Hch. simpl.
    apply Hfinish.
    + apply length_insert.
    + intros j Hj. apply list_lookup_insert_ne. lia.
    + intros j Hj. apply list_lookup_insert_ne. lia.
    + intros inp0 _ Hne. congruence.
Qed.

Lemma diffStates_pressedOK (tbl : table) (t : Time) (snapshot states : list Z)
    (ins : list input) :
  length states = length snapshot ->
  Forall (fun st => 0 <= st) states ->
  pressedOK snapshot ins ->
  exists ins' evs',
    diffStates tbl t snapshot states 0 ins [] = Ok (ins', evs') /\
    length ins' = length ins /\ pressedOK states ins'.
Proof.
  intros Hlen Hpos Hok.
  destruct (diffStates_safe tbl t snapshot states 0 ins [] ltac:(lia) Hpos)
    as (ins' & evs' & Hrun & Hl & _ & Hset).
  { intros j inp old _. apply Hok. }
  exists ins', evs'. split; [exact Hrun |]. split; [exact Hl |].
  intros i inp st Hin Hst Hne. apply (Hset i inp st); [lia | exact Hin | | exact Hne].
  rewrite Nat.sub_0_r. exact Hst.
Qed.

Lemma slice_bytes (buf s : list Z) (lo hi : Z) :
  Forall isByte buf -> slice buf lo hi = Some s -> Forall (fun st => 0 <= st) s.
Proof.
  intros Hb. unfold slice. destruct (_ && _); [| discriminate]. intros [= <-].
  apply Forall_take, Forall_drop. eapply Forall_impl; [exact Hb |].
  intros x [Hx _]. exact Hx.
Qed.

Lemma pressedOK_nil (snapshot : list Z) : pressedOK snapshot [].
Proof. intros i inp old Hin. discriminate. Qed.

Lemma pressedOK_zeros (n : Z) (ins : list input) : pressedOK (make_bytes n) ins.
Proof.
  intros i inp old _ Hold Hne. unfold make_bytes in Hold.
  apply lookup_replicate in Hold as [-> _]. contradiction.
Qed.

Lemma listenStep_safe (d : Device) (rd : inputReport) (t : Time) :
  listenInv d -> wellFormed (model_ d) rd ->
  (exists d' evs, listenStep d rd t = Continue d' evs /\ listenInv d' /\
                  listen d' = listen d /\ model_ d' = model_ d) \/
  (exists err, listenStep d rd t = Return (Some err)).
Proof.
  intros (Hfit & Hks & Hds & Hok & Hdok) Hwf.
  destruct Hfit as (Hk0 & Hk1 & Hk2 & Ht0 & Ht1 & Ht2 & Hkt & Hd0 & Hd1 & Hd2).
  assert (Hfit : modelFits (model_ d)) by (repeat split; assumption).
  assert (Hinv : listenInv d)
    by (split; [exact Hfit | split; [exact Hks | split; [exact Hds | split; [exact Hok | exact Hdok]]]]).
  assert (Hstay : forall evs, Continue d evs = Continue d evs /\ listenInv d /\
                              listen d = listen d /\ model_ d = model_ d)
    by (intros evs; split; [reflexivity | split; [exact Hinv | split; reflexivity]]).
  unfold listenStep. destruct rd as [[id buf] | err]; [| right; eauto].
  destruct (id =? 1) eqn:Eid; [| right; simpl; eauto].
  apply Z.eqb_eq in Eid. simpl. destruct (Hwf Eid) as (Hb & Hl4 & Hlk & Hlt & Hld).
  assert (H0 : exists b0, index buf 0 = Some b0).
  { change 0 with (Z.of_nat 0). rewrite index_lookup.
    apply lookup_lt_is_Some_2. unfold len in Hl4. lia. }
  destruct H0 as [b0 ->].
  assert (H3 : exists b3, index buf 3 = Some b3).
  { change 3 with (Z.of_nat 3). rewrite index_lookup.
    apply lookup_lt_is_Some_2. unfold len in Hl4. lia. }
  destruct H3 as [b3 H3].
  left. destruct ((b0 =? 2) && _).
  { unfold stepTouchStrip. destruct (touchStripInput d) as [inp |].
    2:{ exists d, []. apply Hstay. }
    rewrite H3. destruct ((b3 =? 1) || (b3 =? 2)).
    - destruct (len buf <? 9) eqn:E9; [exists d, []; apply Hstay |].
      apply Z.ltb_ge in E9. change 5 with (Z.of_nat 5).
      rewrite (point_le16 buf 5 Hb) by (unfold len in E9; lia).
      eexists d, _. apply Hstay.
    - destruct (b3 =? 3); [| exists d, []; apply Hstay].
      destruct (len buf <? 13) eqn:E13; [exists d, []; apply Hstay |].
      apply Z.ltb_ge in E13. change 5 with (Z.of_nat 5). change 9 with (Z.of_nat 9).
      rewrite (point_le16 buf 5 Hb) by (unfold len in E13; lia).
      rewrite (point_le16 buf 9 Hb) by (unfold len in E13; lia).
      eexists d, _. apply Hstay. }
  destruct ((b0 =? 3) && _).
  { unfold stepDial. cbv zeta.
    assert (Hu : u8 (dialStart (model_ d) + dialCount (model_ d)) =
                 dialStart (model_ d) + dialCount (model_ d))
      by (unfold u8; apply Z.mod_small; lia).
    rewrite Hu. destruct (slice buf _ _) as [states |] eqn:Es.
    2:{ rewrite slice_Some in Es by lia. discriminate. }
    rewrite H3. destruct (b3 =? 0).
    - pose proof (len_slice _ _ _ _ Es) as Hsl.
      destruct (diffStates_pressedOK DialTable t (dialStates d) states
                  (lenInputs (dialInputs d))) as (ins' & evs' & -> & Hl & Hok').
      + unfold len in *. lia.
      + eapply slice_bytes; eassumption.
      + exact Hdok.
      + eexists _, evs'. split; [reflexivity |]. split; [| split; reflexivity].
        split; [exact Hfit |]. split; [exact Hks |]. split; [simpl; lia |].
        split; [exact Hok |]. simpl.
        destruct (dialInputs d); simpl; [exact Hok' | apply pressedOK_nil].
    - destruct (b3 =? 1); eexists d, _; apply Hstay. }
  unfold stepKeys. cbv zeta.
  assert (Hu : u8 (keyStart (model_ d) + keyCount (model_ d)) =
               keyStart (model_ d) + keyCount (model_ d))
    by (unfold u8; apply Z.mod_small; lia).
  assert (Hu' : u8 (touchPointStart (model_ d) + touchPointCount (model_ d)) =
                touchPointStart (model_ d) + touchPointCount (model_ d))
    by (unfold u8; apply Z.mod_small; lia).
  rewrite Hu, Hu'. destruct (slice buf _ _) as [states |] eqn:Es.
  2:{ rewrite slice_Some in Es by lia. discriminate. }
  pose proof (len_slice _ _ _ _ Es) as Hsl.
  pose proof (slice_bytes _ _ _ _ Hb Es) as Hsb.
  assert (Happ : exists states',
             (if 0 <? touchPointCount (model_ d)
              then match slice buf (touchPointStart (model_ d))
                           (touchPointStart (model_ d) + touchPointCount (model_ d)) with
                   | Some tps => Some (states ++ tps)
                   | None => None
                   end
              else Some states) = Some states' /\
             len states' = keyCount (model_ d) + touchPointCount (model_ d) /\
             Forall (fun st => 0 <= st) states').
  { destruct (0 <? touchPointCount (model_ d)) eqn:Etp.
    - destruct (slice buf (touchPointStart (model_ d)) _) as [tps |] eqn:Et.
      2:{ rewrite slice_Some in Et by lia. discriminate. }
      exists (states ++ tps). split; [reflexivity |].
      pose proof (len_slice _ _ _ _ Et) as Htl.
      split; [rewrite len_app; lia |].
      apply Forall_app. split; [exact Hsb | eapply slice_bytes; eassumption].
    - apply Z.ltb_ge in Etp. exists states. split; [reflexivity |]. split; [lia | exact Hsb]. }
  destruct Happ as (states' & -> & Hsl' & Hsb').
  destruct (diffStates_pressedOK KeyTable t (keyStates d) states'
              (lenInputs (inputs d))) as (ins' & evs' & -> & Hl & Hok').
  - unfold len in *. lia.
  - exact Hsb'.
  - exact Hok.
  - eexists _, evs'. split; [reflexivity |]. split; [| split; reflexivity].
    split; [exact Hfit |]. split; [simpl; lia |]. split; [exact Hds |].
    split; [| exact Hdok]. simpl.
    destruct (inputs d); simpl; [exact Hok' | apply pressedOK_nil].
Qed.

Lemma listenLoop_safe (script : list (inputReport * Time)) :
  forall (d : Device) (evs : list event),
    listenInv d ->
    Forall (fun r => wellFormed (model_ d) (fst r)) script ->
    exists d' evs',
      (listenLoop d script evs = Polling d' (evs ++ evs') \/
       exists err, listenLoop d script evs = Stopped err d' (evs ++ evs')) /\
      listenInv d'.
Proof.
  induction script as [| [rd t] script IH]; intros d evs Hinv Hwf.
  - exists d, []. rewrite app_nil_r. split; [| exact Hinv]. simpl.
    destruct (listen d) as [[|] |]; eauto.
  - apply Forall_cons in Hwf as [Hrd Hwf]. simpl in Hrd. cbn [listenLoop].
    destruct (listen d) as [[|] |] eqn:El.
    2,3: exists d, []; rewrite app_nil_r; split; [right; eauto | exact Hinv].
    destruct (listenStep_safe d rd t Hinv Hrd)
      as [(d1 & evs1 & -> & Hinv1 & Hl1 & Hm1) | (err & ->)].
    + destruct (IH d1 (evs ++ evs1) Hinv1) as (d' & evs' & Hrun & Hinv').
      { rewrite Hm1. exact Hwf. }
      exists d', (evs1 ++ evs'). rewrite app_assoc. split; [exact Hrun | exact Hinv'].
    + exists d, []. rewrite app_nil_r. split; [right; eauto | exact Hinv].
Qed.

Lemma modelFits_registry (pid : Z) (m : model) : models !! pid = Some m -> modelFits m.
Proof.
  intros Hm. apply models_lookup_Some in Hm.
  destruct Hm as [[_ ->] | [[_ ->] | [[_ ->] | [_ ->]]]]; unfold modelFits; simpl; lia.
Qed.

Lemma listenInv_init (d : Device) :
  modelFits (model_ d) ->
  (forall i old, keyStates d !! i = Some old -> old = 0) ->
  (forall i old, dialStates d !! i = Some old -> old = 0) ->
  listenInv (listenInit d).
Proof.
  intros Hfit Hkz Hdz.
  destruct Hfit as (Hk0 & Hk1 & Hk2 & Ht0 & Ht1 & Ht2 & Hkt & Hd0 & Hd1 & Hd2).
  assert (Hfit : modelFits (model_ d)) by (repeat split; assumption).
  assert (Hu : u8 (keyCount (model_ d) + touchPointCount (model_ d)) =
               keyCount (model_ d) + touchPointCount (model_ d))
    by (unfold u8; apply Z.mod_small; lia).
  unfold listenInit. cbv zeta. rewrite Hu.
  destruct (len (keyStates d) =? _) eqn:Ek; simpl;
    destruct (len (dialStates d) =? dialCount (model_ d)) eqn:Ed; simpl;
    try apply Z.eqb_eq in Ek; try apply Z.eqb_eq in Ed;
    (split; [exact Hfit |]); simpl; rewrite ?len_make_bytes by lia;
    (split; [first [exact Ek | reflexivity] |]);
    (split; [first [exact Ed | reflexivity] |]);
    split;
    try apply pressedOK_zeros;
    intros i inp old _ Hold Hne; exfalso; apply Hne; eauto.
Qed.

Lemma updateFirst_state (upd : input -> option input) (ins : list input) :
  (forall inp inp', upd inp = Some inp' ->
                    channel inp' = channel inp /\ released inp' = released inp) ->
  forall ins', updateFirst upd ins = Some ins' ->
  forall i inp', ins' !! i = Some inp' ->
    exists inp, ins !! i = Some inp /\ channel inp' = channel inp /\
                released inp' = released inp.
Proof.
  intros Hupd. induction ins as [| a ins IH]; intros ins' Hrun i inp' Hin; [discriminate |].
  simpl in Hrun. destruct (upd a) as [a' |] eqn:Ea.
  - injection Hrun as <-. destruct i as [| i]; simpl in Hin |- *.
    + injection Hin as <-. exists a. split; [reflexivity | apply Hupd; exact Ea].
    + exists inp'. auto.
  - destruct (updateFirst upd ins) as [r |]; [| discriminate].
    injection Hrun as <-. destruct i as [| i]; simpl in Hin |- *.
    + injection Hin as <-. exists a. auto.
    + apply (IH r eq_refl i inp' Hin).
Qed.

Lemma pressedOK_updateFirst (snapshot : list Z) (upd : input -> option input)
    (ins : list input) :
  (forall inp inp', upd inp = Some inp' ->
                    channel inp' = channel inp /\ released inp' = released inp) ->
  pressedOK snapshot ins ->
  pressedOK snapshot (match updateFirst upd ins with Some ins' => ins' | None => ins end).
Proof.
  intros Hupd Hok. destruct (updateFirst upd ins) as [ins' |] eqn:E; [| exact Hok].
  intros i inp' old Hin Hold Hne.
  destruct (updateFirst_state upd ins Hupd ins' E i inp' Hin) as (inp & Hi & Hc & Hr).
  destruct (Hok i inp old Hi Hold Hne) as [Hc' Hr']. split; congruence.
Qed.

(** X15.  The polling loop does not panic on well-formed reads.  Call a
    device coherent when its snapshots have the model's lengths and every
    control the snapshot shows down has, if it has a slot, a slot that is
    down (an open channel, no release time).  Every model of the registry
    keeps its byte ranges within a byte; [Listen]'s set-up makes a device
    with all-zero snapshots coherent; and from a coherent device, over any
    script of reads that are errors, foreign report ids or byte reports long
    enough for the model's ranges, the loop never panics: it is still
    polling, or it stopped with the read's error, and the device is coherent
    again.  Events are only ever added.  Registration keeps a device
    coherent when the table it touches exists already. *)
Theorem listen_never_panics :
  (forall pid m, models !! pid = Some m -> modelFits m) /\
  (forall d, modelFits (model_ d) ->
     (forall i old, keyStates d !! i = Some old -> old = 0) ->
     (forall i old, dialStates d !! i = Some old -> old = 0) ->
     listenInv (listenInit d)) /\
  (forall d script evs,
     listenInv d ->
     Forall (fun r => wellFormed (model_ d) (fst r)) script ->
     exists d' evs',
       (listenLoop d script evs = Polling d' (evs ++ evs') \/
        exists err, listenLoop d script evs = Stopped err d' (evs ++ evs')) /\
       listenInv d') /\
  (forall d fn, listenInv d ->
     (is_Some (inputs d) ->
      (forall key, listenInv (fst (AddKeyHandler d key fn))) /\
      (forall tp, listenInv (fst (AddTouchPointHandler d tp fn)))) /\
     (is_Some (dialInputs d) ->
      (forall di, listenInv (fst (AddDialSwitchHandler d di fn))) /\
      (forall di, listenInv (fst (AddDialRotateHandler d di fn)))) /\
     listenInv (fst (AddTouchStripTouchHandler d fn)) /\
     listenInv (fst (AddTouchStripSwipeHandler d fn))).
Proof.
  split; [exact modelFits_registry |].
  split; [exact listenInv_init |].
  split; [intros d script evs; apply listenLoop_safe |].
  intros d fn (Hfit & Hks & Hds & Hok & Hdok).
  assert (Hinv : listenInv d)
    by (split; [exact Hfit | split; [exact Hks | split; [exact Hds | split; [exact Hok | exact Hdok]]]]).
  split.
  { intros [ins Hins]. rewrite Hins in Hok. simpl in Hok. split.
    - intros key. unfold AddKeyHandler. destruct (validateKey d key); [exact Hinv |].
      destruct fn as [h |]; [| exact Hinv]. cbv zeta. unfold inputsOrNew. rewrite Hins.
      match goal with |- context [updateFirst ?u ins] =>
        pose proof (pressedOK_updateFirst (keyStates d) u ins) as Hp end.
      destruct (updateFirst _ ins) as [ins' |]; simpl;
        (split; [exact Hfit |]); (split; [exact Hks |]); (split; [exact Hds |]);
        (split; [| exact Hdok]); simpl; apply Hp; try exact Hok;
        intros inp inp'; destruct (in_key inp) as [k |]; try discriminate;
        destruct (key_id k =? key); try discriminate; intros [= <-]; split; reflexivity.
    - intros tp. unfold AddTouchPointHandler. destruct (validateTouchPoint d tp); [exact Hinv |].
      destruct fn as [h |]; [| exact Hinv]. cbv zeta. unfold inputsOrNew. rewrite Hins.
      match goal with |- context [updateFirst ?u ins] =>
        pose proof (pressedOK_updateFirst (keyStates d) u ins) as Hp end.
      destruct (updateFirst _ ins) as [ins' |]; simpl;
        (split; [exact Hfit |]); (split; [exact Hks |]); (split; [exact Hds |]);
        (split; [| exact Hdok]); simpl; apply Hp; try exact Hok;
        intros inp inp'; destruct (in_tp inp) as [k |]; try discriminate;
        destruct (tp_id k =? tp); try discriminate; intros [= <-]; split; reflexivity. }
  split.
  { intros [ins Hins]. rewrite Hins in Hdok. simpl in Hdok. split.
    - intros di. unfold AddDialSwitchHandler. destruct (validateDial d di); [exact Hinv |].
      destruct fn as [h |]; [| exact Hinv]. cbv zeta. unfold dialInputsOrNew. rewrite Hins.
      match goal with |- context [updateFirst ?u ins] =>
        pose proof (pressedOK_updateFirst (dialStates d) u ins) as Hp end.
      destruct (updateFirst _ ins) as [ins' |]; simpl;
        (split; [exact Hfit |]); (split; [exact Hks |]); (split; [exact Hds |]);
        (split; [exact Hok |]); simpl; apply Hp; try exact Hdok;
        intros inp inp'; destruct (in_dial inp) as [k |]; try discriminate;
        destruct (dial_id k =? di); try discriminate; intros [= <-]; split; reflexivity.
    - intros di. unfold AddDialRotateHandler. destruct (validateDial d di); [exact Hinv |].
      destruct fn as [h |]; [| exact Hinv]. cbv zeta. unfold dialInputsOrNew. rewrite Hins.
      match goal with |- context [updateFirst ?u ins] =>
        pose proof (pressedOK_updateFirst (dialStates d) u ins) as Hp end.
      destruct (updateFirst _ ins) as [ins' |]; simpl;
        (split; [exact Hfit |]); (split; [exact Hks |]); (split; [exact Hds |]);
        (split; [exact Hok |]); simpl; apply Hp; try exact Hdok;
        intros inp inp'; destruct (in_dial inp) as [k |]; try discriminate;
        destruct (dial_id k =? di); try discriminate; intros [= <-]; split; reflexivity. }
  split.
  - unfold AddTouchStripTouchHandler. destruct (validateTouchStrip d); [exact Hinv |].
    destruct fn as [h |]; exact Hinv.
  - unfold AddTouchStripSwipeHandler. destruct (validateTouchStrip d); [exact Hinv |].
    destruct fn as [h |]; exact Hinv.
Qed.

(** ** Polling loop: a slot made while its control is down *)

Lemma diffStates_no_slots (tbl : table) (t : Time) (snapshot states : list Z) :
  forall (i : nat) (evs : list event),
    (i + length states <= length snapshot)%nat ->
    diffStates tbl t snapshot states i [] evs = Ok ([], evs).
Proof.
  induction states as [| st rest IH]; intros i evs Hlen; [reflexivity |].
  simpl in Hlen. cbn [diffStates].
  destruct (lookup_lt_is_Some_2 snapshot i ltac:(lia)) as [old ->].
  rewrite lookup_nil. destruct (st =? old); apply IH; lia.
Qed.

Lemma idle_updateFirst (upd : input -> option input) (ins : list input) :
  (forall inp inp', upd inp = Some inp' ->
                    channel inp' = channel inp /\ released inp' = released inp) ->
  Forall (fun inp => channel inp = None /\ released inp = 0) ins ->
  Forall (fun inp => channel inp = None /\ released inp = 0)
    (match updateFirst upd ins with Some ins' => ins' | None => ins end).
Proof.
  intros Hupd Hidle. destruct (updateFirst upd ins) as [ins' |] eqn:E; [| exact Hidle].
  apply Forall_lookup. intros i inp' Hin.
  destruct (updateFirst_state upd ins Hupd ins' E i inp' Hin) as (inp & Hi & Hc & Hr).
  destruct (proj1 (Forall_lookup _ _) Hidle i inp Hi) as [Hc' Hr']. split; congruence.
Qed.

Lemma newInputs_idle (numKeys numTouchPoints : Z) :
  Forall (fun inp => channel inp = None /\ released inp = 0)
    (newInputs numKeys numTouchPoints).
Proof.
  unfold newInputs. apply Forall_app. split; apply Forall_fmap, Forall_forall;
    intros x _; split; reflexivity.
Qed.

(** X16.  The slot table is made at the first registration.  When a control
    goes down while the device has no table - the loop records the byte and
    calls nothing - and a callback is then registered for a valid key, the
    table is made with every slot idle; the release of the control that is
    still down is then dispatched to a slot that was never pressed, and
    closing its nil channel panics: the iteration does not return an error,
    it crashes. *)
Theorem release_of_unpressed_slot_panics (d : Device) (buf1 buf2 : list Z) (i : nat) (v : Z)
    (t1 t2 : Time) (key : KeyID) (h : handler) :
  inputs d = None ->
  keyStates d !! i = Some 0 ->
  keyRoute (model_ d) buf1 = true ->
  monitored (model_ d) buf1 = Some (<[i := v]> (keyStates d)) -> 0 < v ->
  keyRoute (model_ d) buf2 = true ->
  monitored (model_ d) buf2 = Some (keyStates d) ->
  validateKey d key = None ->
  (i < length (newInputs (keyCount (model_ d)) (touchPointCount (model_ d))))%nat ->
  exists d1 d2,
    listenStep d (inl (1, buf1)) t1 = Continue d1 [] /\
    keyStates d1 = <[i := v]> (keyStates d) /\ inputs d1 = None /\
    fst (AddKeyHandler d1 key (Some h)) = d2 /\ is_Some (inputs d2) /\
    listenStep d2 (inl (1, buf2)) t2 = StepPanic.
Proof.
  intros Hnone Hks Hr1 Hm1 Hv Hr2 Hm2 Hval Hslot.
  assert (Hi : (i < length (keyStates d))%nat) by (eapply lookup_lt_Some; exact Hks).
  set (d1 := set_keyStates (set_inputs d None) (<[i := v]> (keyStates d))).
  assert (Hs1 : listenStep d (inl (1, buf1)) t1 = Continue d1 []).
  { rewrite listenStep_keyRoute by exact Hr1.
    rewrite (stepKeys_monitored _ _ _ _ Hm1), Hnone. simpl lenInputs.
    rewrite diffStates_no_slots by (rewrite length_insert; lia). reflexivity. }
  assert (Hval1 : validateKey d1 key = None) by exact Hval.
  set (upd := fun inp : input =>
                match in_key inp with
                | Some k => if key_id k =? key
                            then Some (withKey inp (Key_addHandler k h)) else None
                | None => None
                end).
  set (ins0 := newInputs (keyCount (model_ d)) (touchPointCount (model_ d))) in *.
  set (ins2 := match updateFirst upd ins0 with Some ins' => ins' | None => ins0 end).
  assert (Hadd : fst (AddKeyHandler d1 key (Some h)) = set_inputs d1 (Some ins2)).
  { unfold AddKeyHandler. rewrite Hval1. cbv zeta. unfold inputsOrNew. simpl inputs.
    simpl model_. fold ins0. fold upd. unfold ins2.
    destruct (updateFirst upd ins0); reflexivity. }
  assert (Hidle : Forall (fun inp => channel inp = None /\ released inp = 0) ins2).
  { unfold ins2. apply idle_updateFirst; [| apply newInputs_idle].
    intros inp inp'. unfold upd. destruct (in_key inp) as [k |]; [| discriminate].
    destruct (key_id k =? key); [| discriminate]. intros [= <-]. split; reflexivity. }
  assert (Hlen2 : length ins2 = length ins0).
  { unfold ins2. destruct (updateFirst upd ins0) as [ins' |] eqn:E; [| reflexivity].
    assert (Hid : slotIdent <$> ins' = slotIdent <$> ins0).
    { apply (updateFirst_ident upd); [| exact E].
      intros inp inp'. unfold upd. destruct (in_key inp) as [k |] eqn:Ek; [| discriminate].
      destruct (key_id k =? key); [| discriminate]. intros [= <-].
      unfold slotIdent. simpl. rewrite Ek. reflexivity. }
    apply (f_equal length) in Hid. rewrite !length_fmap in Hid. exact Hid. }
  destruct (lookup_lt_is_Some_2 ins2 i ltac:(lia)) as [inp2 Hinp2].
  destruct (proj1 (Forall_lookup _ _) Hidle i inp2 Hinp2) as [Hch Hrel].
  exists d1, (set_inputs d1 (Some ins2)).
  split; [exact Hs1 |]. split; [reflexivity |]. split; [reflexivity |].
  split; [exact Hadd |]. split; [eexists; reflexivity |].
  rewrite listenStep_keyRoute by exact Hr2.
  assert (Hm2' : monitored (model_ (set_inputs d1 (Some ins2))) buf2 =
                 Some (<[i := 0]> (keyStates (set_inputs d1 (Some ins2))))).
  { simpl. rewrite list_insert_insert_eq, (list_insert_id _ _ _ Hks). exact Hm2. }
  rewrite (stepKeys_monitored _ _ _ _ Hm2'). simpl inputs. simpl lenInputs.
  rewrite (diffStates_edge KeyTable t2 _ i 0 v ins2 inp2).
  - change (0 <? 0) with false. cbv iota. unfold release. rewrite Hrel, Hch. reflexivity.
  - simpl. apply list_lookup_insert_eq. exact Hi.
  - lia.
  - exact Hinp2.
Qed.

Lemma release_of_unpressed_slot_panics_witness :
  exists d1 d2,
    listenStep (listenInit (mk2Device true)) (inl (1, mk2Key2Down)) 1000 = Continue d1 [] /\
    fst (AddKeyHandler d1 5 (Some 7%nat)) = d2 /\
    listenStep d2 (inl (1, mk2AllUp)) 1250 = StepPanic.
Proof.
  destruct (release_of_unpressed_slot_panics (listenInit (mk2Device true))
              mk2Key2Down mk2AllUp 1 1 1000 1250 5 7%nat
              eq_refl eq_refl eq_refl eq_refl eq_refl eq_refl eq_refl eq_refl
              ltac:(vm_compute; lia))
    as (d1 & d2 & Hs1 & _ & _ & Hadd & _ & Hs2).
  exists d1, d2. split; [exact Hs1 |]. split; [exact Hadd | exact Hs2].
Defined.

(** ** Polling loop: dial rotation *)





(** ** Feature-report commands *)

Lemma make_bytes_5 (n : Z) :
  5 <= n -> make_bytes n = [0; 0; 0; 0; 0] ++ make_bytes (n - 5).
Proof.
  intros Hn. unfold make_bytes.
  replace (Z.to_nat n) with (5 + Z.to_nat (n - 5))%nat by lia.
  rewrite replicate_add. reflexivity.
Qed.

Lemma SetFeatureReport_cases (dev : usbhid) (id : Z) (payload : list Z) :
  (exists e, hid_writeFault dev (hid_writes dev) = Some e /\
             SetFeatureReport dev id payload = (dev, Some e)) \/
  (exists dev', hid_writeFault dev (hid_writes dev) = None /\
                SetFeatureReport dev id payload = (dev', None) /\
                sameDevice dev dev' /\
                hid_featureLog dev' = hid_featureLog dev ++ [(id, payload)] /\
                hid_outputLog dev' = hid_outputLog dev).
Proof.
  unfold SetFeatureReport. destruct (hid_writeFault dev (hid_writes dev)) as [e |] eqn:E.
  - left. eauto.
  - right. eexists. split; [reflexivity |]. split; [reflexivity |].
    split; [repeat split |]. split; reflexivity.
Qed.

Lemma brightness_registry (pid : Z) (m : model) (dev : usbhid) (perc : Z) :
  models !! pid = Some m -> 5 <= hid_featureReportLength dev ->
  brightness m dev perc =
    if decide (pid = 0x0063)
    then SetFeatureReport dev 5
           (featurePayload (hid_featureReportLength dev) [0x55; 0xaa; 0xd1; 0x01; perc])
    else SetFeatureReport dev 3 (featurePayload (hid_featureReportLength dev) [0x08; perc]).
Proof.
  intros Hm Hn. apply models_lookup_Some in Hm.
  assert (H2 : featurePayload (hid_featureReportLength dev) [0x08; perc] =
               [0x08; perc; 0; 0; 0] ++ make_bytes (hid_featureReportLength dev - 5)).
  { unfold featurePayload. change (len [8; perc]) with 2.
    replace (hid_featureReportLength dev - 2) with (3 + (hid_featureReportLength dev - 5)) by lia.
    unfold make_bytes. replace (Z.to_nat (3 + (hid_featureReportLength dev - 5)))
      with (3 + Z.to_nat (hid_featureReportLength dev - 5))%nat by lia.
    rewrite replicate_add. reflexivity. }
  destruct Hm as [[-> ->] | [[-> ->] | [[-> ->] | [-> ->]]]]; simpl brightness;
    unfold brightness_mini, brightness_v2; rewrite (make_bytes_5 _ Hn);
    [| rewrite H2 ..]; reflexivity.
Qed.

(** X18.  SetBrightness on an open device of a registered model whose
    feature reports have at least 5 bytes: a percentage above 100 is sent as
    100, any other byte as it is.  The command is one feature report of the
    feature-report length - on the mini report 5 with bytes 55 aa d1 01 and
    the percentage, on the other models report 3 with byte 08 and the
    percentage, zeros after - and nothing else is written.  When the
    transport refuses the write nothing is logged and the transport's error
    comes back wrapped once. *)
Theorem SetBrightness_report (d : Device) (pid perc : Z) :
  models !! pid = Some (model_ d) -> IsOpen d = true ->
  5 <= hid_featureReportLength (dev d) -> 0 <= perc < 256 ->
  let sent := if 100 <? perc then 100 else perc in
  let report :=
    if decide (pid = 0x0063)
    then (5, featurePayload (hid_featureReportLength (dev d)) [0x55; 0xaa; 0xd1; 0x01; sent])
    else (3, featurePayload (hid_featureReportLength (dev d)) [0x08; sent]) in
  (hid_writeFault (dev d) (hid_writes (dev d)) = None ->
   exists d', SetBrightness d perc = (d', None) /\
              hid_featureLog (dev d') = hid_featureLog (dev d) ++ [report] /\
              hid_outputLog (dev d') = hid_outputLog (dev d) /\
              len (snd report) = hid_featureReportLength (dev d) /\
              IsOpen d' = true) /\
  (forall e, hid_writeFault (dev d) (hid_writes (dev d)) = Some e ->
     exists d', SetBrightness d perc = (d', Some (wrap e)) /\ dev d' = dev d) /\
  (100 < perc -> SetBrightness d perc = SetBrightness d 100).
Proof.
  intros Hm Ho Hn Hbyte sent report.
  assert (Hv : validateOpen d = None) by (unfold validateOpen; rewrite Ho; reflexivity).
  assert (Hrun : SetBrightness d perc =
                 (let '(dev', err) := brightness (model_ d) (dev d) sent in
                  (set_dev d dev', wrapErr err))).
  { unfold SetBrightness. rewrite Hv. reflexivity. }
  rewrite (brightness_registry pid _ _ sent Hm Hn) in Hrun.
  assert (Hrep :
             (if decide (pid = 0x0063)
              then SetFeatureReport (dev d) 5
                     (featurePayload (hid_featureReportLength (dev d))
                        [0x55; 0xaa; 0xd1; 0x01; sent])
              else SetFeatureReport (dev d) 3
                     (featurePayload (hid_featureReportLength (dev d)) [0x08; sent])) =
             SetFeatureReport (dev d) (fst report) (snd report)).
  { unfold report. destruct (decide (pid = 0x0063)); reflexivity. }
  rewrite Hrep in Hrun.
  split; [| split].
  - intros Hf.
    destruct (SetFeatureReport_cases (dev d) (fst report) (snd report))
      as [(e & He & _) | (dev' & _ & Hw & Hsame & Hlog & Holog)]; [congruence |].
    rewrite Hw in Hrun. exists (set_dev d dev'). split; [exact Hrun |].
    split; [simpl; rewrite Hlog; destruct report; reflexivity |].
    split; [exact Holog |].
    split.
    + unfold report. destruct (decide (pid = 0x0063)); simpl snd; unfold featurePayload;
        rewrite len_app, len_make_bytes;
        try (change (len [85; 170; 209; 1; sent]) with 5);
        try (change (len [8; sent]) with 2); lia.
    + unfold IsOpen in *. simpl. destruct Hsame as (_ & _ & -> & _). exact Ho.
  - intros e Hf.
    destruct (SetFeatureReport_cases (dev d) (fst report) (snd report))
      as [(e' & He & Hw) | (dev' & Hnone & _)]; [| congruence].
    rewrite Hw in Hrun. assert (e' = e) as -> by congruence.
    exists (set_dev d (dev d)). split; [exact Hrun | reflexivity].
  - intros Hp. unfold SetBrightness. rewrite Hv.
    assert (E1 : (100 <? perc) = true) by (apply Z.ltb_lt; exact Hp).
    rewrite E1. reflexivity.
Qed.

Lemma SetBrightness_report_witness :
  exists d', SetBrightness (mk2Device true) 250 = (d', None) /\
             hid_featureLog (dev d') = [(3, featurePayload 32 [0x08; 100])].
Proof.
  destruct (SetBrightness_report (mk2Device true) 0x0080 250 eq_refl eq_refl
              ltac:(vm_compute; discriminate) ltac:(lia)) as (Hok & _).
  destruct (Hok eq_refl) as (d' & Hrun & Hlog & _).
  exists d'. split; [exact Hrun | exact Hlog].
Defined.

Lemma reset_registry (pid : Z) (m : model) (dev : usbhid) :
  models !! pid = Some m -> 5 <= hid_featureReportLength dev ->
  reset m dev =
    if decide (pid = 0x0063)
    then SetFeatureReport dev 11 (featurePayload (hid_featureReportLength dev) [0x63])
    else SetFeatureReport dev 3 (featurePayload (hid_featureReportLength dev) [0x02]).
Proof.
  intros Hm Hn. apply models_lookup_Some in Hm.
  assert (H1 : forall b, featurePayload (hid_featureReportLength dev) [b] =
                         [b; 0; 0; 0; 0] ++ make_bytes (hid_featureReportLength dev - 5)).
  { intros b. unfold featurePayload. change (len [b]) with 1.
    unfold make_bytes. replace (Z.to_nat (hid_featureReportLength dev - 1))
      with (4 + Z.to_nat (hid_featureReportLength dev - 5))%nat by lia.
    rewrite replicate_add. reflexivity. }
  destruct Hm as [[-> ->] | [[-> ->] | [[-> ->] | [-> ->]]]]; simpl reset;
    unfold reset_mini, reset_v2; rewrite (make_bytes_5 _ Hn), !H1; reflexivity.
Qed.

(** X19.  Reset on an open device of a registered model whose feature
    reports have at least 5 bytes writes the model's reset command as one
    feature report (report 11 with byte 63 on the mini, report 3 with byte 02
    on the others) and then closes the transport.  After a successful reset
    the device reports itself closed although its own open flag is still
    set, its stop signal has not been released, and its slot tables are
    kept; Close now fails with the already-closed error, while Open is
    accepted again.  A refused write comes back wrapped and leaves the
    transport open; a failure to close the transport comes back as it is. *)
Theorem Reset_closes_the_transport `{ImageLib} (d : Device) (pid : Z) :
  models !! pid = Some (model_ d) -> IsOpen d = true ->
  5 <= hid_featureReportLength (dev d) ->
  let report :=
    if decide (pid = 0x0063)
    then (11, featurePayload (hid_featureReportLength (dev d)) [0x63])
    else (3, featurePayload (hid_featureReportLength (dev d)) [0x02]) in
  (hid_writeFault (dev d) (hid_writes (dev d)) = None ->
   hid_closeFault (dev d) = None ->
   exists d', Reset d = (d', None) /\
              hid_featureLog (dev d') = hid_featureLog (dev d) ++ [report] /\
              IsOpen d' = false /\ open d' = true /\ listen d' = listen d /\
              inputs d' = inputs d /\ dialInputs d' = dialInputs d /\
              Close d' = (d', Returned (Some (wrap (Sentinel ErrDeviceIsClosed)))) /\
              (hid_openFault (dev d) = None ->
               exists d'', Open d' = (d'', None) /\ IsOpen d'' = true)) /\
  (forall e, hid_writeFault (dev d) (hid_writes (dev d)) = Some e ->
     exists d', Reset d = (d', Some (wrap e)) /\ IsOpen d' = true) /\
  (forall e, hid_writeFault (dev d) (hid_writes (dev d)) = None ->
     hid_closeFault (dev d) = Some e ->
     exists d', Reset d = (d', Some e) /\ IsOpen d' = true).
Proof.
  intros Hm Ho Hn report.
  assert (Hv : validateOpen d = None) by (unfold validateOpen; rewrite Ho; reflexivity).
  assert (Hrep : reset (model_ d) (dev d) = SetFeatureReport (dev d) (fst report) (snd report)).
  { rewrite (reset_registry pid _ _ Hm Hn). unfold report.
    destruct (decide (pid = 0x0063)); reflexivity. }
  assert (Hopen : open d = true /\ hid_isOpen (dev d) = true).
  { unfold IsOpen in Ho. apply andb_true_iff in Ho. exact Ho. }
  destruct Hopen as [Hflag Hhid].
  unfold Reset. rewrite Hv, Hrep.
  destruct (SetFeatureReport_cases (dev d) (fst report) (snd report))
    as [(e' & He & ->) | (dev' & Hnone & -> & Hsame & Hlog & Holog)].
  - split; [intros Hf; congruence |]. split; [| intros e Hf; congruence].
    intros e Hf. assert (e' = e) as -> by congruence.
    eexists. split; [reflexivity |]. unfold IsOpen. simpl. rewrite Hflag, Hhid. reflexivity.
  - destruct Hsame as (_ & _ & Hio & _ & _ & _ & Hof & Hcf & _).
    split; [| split; [intros e Hf; congruence |]].
    + intros _ Hc. unfold hid_Close. rewrite Hcf, Hc.
      eexists. split; [reflexivity |]. simpl.
      split; [rewrite Hlog; destruct report; reflexivity |].
      split; [unfold IsOpen; simpl; apply andb_false_r |].
      split; [exact Hflag |]. split; [reflexivity |]. split; [reflexivity |].
      split; [reflexivity |].
      split.
      * unfold Close, validateOpen, IsOpen. simpl. rewrite andb_false_r. reflexivity.
      * intros Hopenf. unfold Open, IsOpen, hid_Open. simpl. rewrite andb_false_r.
        rewrite Hof, Hopenf. eexists. split; reflexivity.
    + intros e _ Hc. unfold hid_Close. rewrite Hcf, Hc.
      eexists. split; [reflexivity |]. unfold IsOpen. simpl. rewrite Hflag, Hio, Hhid.
      reflexivity.
Qed.

Lemma Reset_closes_the_transport_witness :
  exists d', Reset (miniDevice true) = (d', None) /\
             hid_featureLog (dev d') = [(11, featurePayload 32 [0x63])] /\
             IsOpen d' = false /\ open d' = true.
Proof.
  destruct (Reset_closes_the_transport (H := refImageLib) (miniDevice true) 0x0063 eq_refl
              eq_refl ltac:(vm_compute; discriminate)) as (Hok & _).
  destruct (Hok eq_refl eq_refl) as (d' & Hrun & Hlog & Hio & Hflag & _).
  exists d'. split; [exact Hrun |]. split; [exact Hlog |]. split; [exact Hio | exact Hflag].
Defined.

(** ** The firmware version *)

Lemma cutNul_spec (b : list Z) :
  Forall (fun x => x <> 0) (cutNul b) /\
  exists rest, b = cutNul b ++ rest /\ (rest = [] \/ exists r, rest = 0 :: r).
Proof.
  induction b as [| x b (IHf & rest & IHb & IHr)]; simpl.
  - split; [constructor |]. exists []. split; [reflexivity | left; reflexivity].
  - destruct (x =? 0) eqn:E.
    + apply Z.eqb_eq in E. subst x. split; [constructor |].
      exists (0 :: b). split; [reflexivity | right; eauto].
    + apply Z.eqb_neq in E. split; [constructor; assumption |].
      exists rest. split; [simpl; f_equal; exact IHb | exact IHr].
Qed.

(** X20.  GetFirmwareVersion on an open device of a registered model reads
    feature report 4 on the mini and 5 on the other models and skips as many
    bytes as the report's number.  The version is what follows, up to and not
    including the first zero byte, or all of it when there is none.  A
    transport error comes back wrapped.  A report shorter than the bytes to
    skip is not an error: the slice expression panics. *)
Theorem GetFirmwareVersion_outcomes (d : Device) (pid : Z) :
  models !! pid = Some (model_ d) -> IsOpen d = true ->
  let off := if decide (pid = 0x0063) then 4 else 5 in
  match hid_getFeature (dev d) off with
  | inr e => GetFirmwareVersion d = Ok (inr (wrap e))
  | inl buf =>
      (len buf < off -> GetFirmwareVersion d = Panic) /\
      (off <= len buf ->
       exists v rest,
         GetFirmwareVersion d = Ok (inl v) /\
         drop (Z.to_nat off) buf = v ++ rest /\
         Forall (fun x => x <> 0) v /\
         (rest = [] \/ exists r, rest = 0 :: r))
  end.
Proof.
  intros Hm Ho off.
  assert (Hv : validateOpen d = None) by (unfold validateOpen; rewrite Ho; reflexivity).
  assert (Hfw : firmwareVersion (model_ d) = firmwareVersion_at off off).
  { apply models_lookup_Some in Hm. unfold off.
    destruct Hm as [[-> E] | [[-> E] | [[-> E] | [-> E]]]]; rewrite E; reflexivity. }
  assert (Hoff : 0 <= off) by (unfold off; destruct (decide (pid = 0x0063)); lia).
  unfold GetFirmwareVersion. rewrite Hv, Hfw. unfold firmwareVersion_at.
  destruct (hid_getFeature (dev d) off) as [buf | e]; [| reflexivity].
  split.
  - intros Hlt. unfold slice.
    destruct (off <=? len buf) eqn:E; [apply Z.leb_le in E; lia |].
    rewrite andb_false_r. reflexivity.
  - intros Hle. rewrite slice_Some by lia.
    rewrite take_ge by (rewrite length_drop; unfold len; lia).
    destruct (cutNul_spec (drop (Z.to_nat off) buf)) as (Hnz & rest & Hsplit & Hrest).
    exists (cutNul (drop (Z.to_nat off) buf)), rest. auto.
Qed.

Lemma GetFirmwareVersion_outcomes_witness :
  GetFirmwareVersion fwDevice = Ok (inl [49; 46; 48]).
Proof.
  pose proof (GetFirmwareVersion_outcomes fwDevice 0x0080 eq_refl eq_refl) as [_ Hok].
  destruct (Hok ltac:(vm_compute; discriminate)) as (v & rest & Hrun & Hsplit & Hnz & Hrest).
  rewrite Hrun. do 2 f_equal.
  change (drop (Z.to_nat 5) [5; 12; 60; 200; 7; 49; 46; 48; 0; 51; 0; 0])
    with [49; 46; 48; 0; 51; 0; 0] in Hsplit.
  destruct v as [| a v]; [destruct Hrest as [-> | [r ->]]; discriminate |].
  injection Hsplit as <- Hsplit. apply Forall_cons in Hnz as [_ Hnz].
  destruct v as [| b v]; [destruct Hrest as [-> | [r ->]]; discriminate |].
  injection Hsplit as <- Hsplit. apply Forall_cons in Hnz as [_ Hnz].
  destruct v as [| c v]; [destruct Hrest as [-> | [r ->]]; discriminate |].
  injection Hsplit as <- Hsplit. apply Forall_cons in Hnz as [_ Hnz].
  destruct v as [| z v]; [reflexivity |].
  injection Hsplit as <- _. apply Forall_cons in Hnz as [Hz _]. contradiction.
Defined.

(** ** Touch-strip rectangles *)

(** X21.  A touch-strip rectangle is accepted exactly when it is empty,
    wherever it lies, or lies within the strip of the model.  In
    SetTouchStripImageWithRectangle the rectangle is checked before the
    capability: on an open device of a model without a touch strip a
    rectangle that is not empty is refused with the rectangle error, which
    matches no sentinel, and only an empty one gets the not-supported error;
    the operation without a rectangle gets the not-supported error at once.
    A refused call writes nothing. *)
Theorem touchStrip_rectangle_validation `{ImageLib} (d : Device) (rect : Rectangle)
    (img : option Image) :
  IsOpen d = true ->
  let strip := touchStripImageRect (model_ d) in
  (validateTouchStripRectangle d rect = None <->
   Rectangle_Empty rect = true \/
   (X (Min strip) <= X (Min rect) /\ X (Max rect) <= X (Max strip) /\
    Y (Min strip) <= Y (Min rect) /\ Y (Max rect) <= Y (Max strip))) /\
  (validateTouchStripRectangle d rect <> None ->
   SetTouchStripImageWithRectangle d img rect =
     (d, Returned (Some (wrap (TouchStripImageRectangleError rect)))) /\
   forall s, errors_Is (wrap (TouchStripImageRectangleError rect)) s = false) /\
  (touchStripImageSend (model_ d) = None ->
   SetTouchStripImage d img =
     (d, Returned (Some (wrap (Sentinel ErrDeviceTouchStripNotSupported)))) /\
   (Rectangle_Empty rect = true ->
    SetTouchStripImageWithRectangle d img rect =
      (d, Returned (Some (wrap (Sentinel ErrDeviceTouchStripNotSupported))))) /\
   (Rectangle_Empty rect = false -> Rectangle_Empty strip = true ->
    SetTouchStripImageWithRectangle d img rect =
      (d, Returned (Some (wrap (TouchStripImageRectangleError rect)))))).
Proof.
  intros Ho strip.
  assert (Hv : validateOpen d = None) by (unfold validateOpen; rewrite Ho; reflexivity).
  assert (Hiff : validateTouchStripRectangle d rect = None <->
                 Rectangle_Empty rect = true \/
                 (X (Min strip) <= X (Min rect) /\ X (Max rect) <= X (Max strip) /\
                  Y (Min strip) <= Y (Min rect) /\ Y (Max rect) <= Y (Max strip))).
  { unfold validateTouchStripRectangle, Rectangle_In. fold strip.
    destruct (Rectangle_Empty rect); simpl; [split; [auto | reflexivity] |].
    destruct (X (Min strip) <=? X (Min rect)) eqn:E1;
      destruct (X (Max rect) <=? X (Max strip)) eqn:E2;
      destruct (Y (Min strip) <=? Y (Min rect)) eqn:E3;
      destruct (Y (Max rect) <=? Y (Max strip)) eqn:E4; simpl;
      (split; [intros Hx; try discriminate; right; lia
              | intros [Hx | Hx]; try discriminate; try reflexivity; lia]). }
  split; [exact Hiff |]. split.
  - intros Hne. split; [| reflexivity].
    unfold SetTouchStripImageWithRectangle. rewrite Hv.
    unfold validateTouchStripRectangle in *.
    destruct (negb (Rectangle_In rect (touchStripImageRect (model_ d)))); [reflexivity |].
    contradiction.
  - intros Hno.
    assert (Hts : validateTouchStrip d = Some (wrap (Sentinel ErrDeviceTouchStripNotSupported)))
      by (unfold validateTouchStrip; rewrite Hno; reflexivity).
    split; [unfold SetTouchStripImage; rewrite Hv, Hts; reflexivity |].
    split.
    + intros He. unfold SetTouchStripImageWithRectangle. rewrite Hv.
      rewrite (proj2 Hiff (or_introl He)), Hts. reflexivity.
    + intros He Hs. unfold SetTouchStripImageWithRectangle. rewrite Hv.
      destruct (validateTouchStripRectangle d rect) as [e |] eqn:E in |- *.
      * unfold validateTouchStripRectangle in E.
        destruct (negb (Rectangle_In rect (touchStripImageRect (model_ d)))); [| discriminate].
        injection E as <-. reflexivity.
      * exfalso. apply Hiff in E as [E | E]; [congruence |].
        unfold Rectangle_Empty in He, Hs. fold strip in Hs.
        apply orb_false_iff in He as [He1 He2]. apply Z.leb_gt in He1, He2.
        apply orb_true_iff in Hs as [Hs | Hs]; apply Z.leb_le in Hs; lia.
Qed.

Lemma touchStrip_rectangle_validation_witness :
  SetTouchStripImageWithRectangle (H := refImageLib) (mk2Device true) None (Rect 0 0 10 10) =
    (mk2Device true, Returned (Some (wrap (TouchStripImageRectangleError (Rect 0 0 10 10))))) /\
  (validateTouchStripRectangle (plusDevice true) (Rect 700 0 800 100) = None <->
   Rectangle_Empty (Rect 700 0 800 100) = true \/
   (0 <= 700 /\ 800 <= 800 /\ 0 <= 0 /\ 100 <= 100)).
Proof.
  split.
  - destruct (touchStrip_rectangle_validation (H := refImageLib) (mk2Device true)
                (Rect 0 0 10 10) None eq_refl) as (_ & _ & Hno).
    destruct (Hno eq_refl) as (_ & _ & Hrect). apply Hrect; reflexivity.
  - exact (proj1 (touchStrip_rectangle_validation (H := refImageLib) (plusDevice true)
                    (Rect 700 0 800 100) None eq_refl)).
Defined.

(** ** Enumeration *)

Lemma enumerateFunc_resolves (dev : usbhid) :
  enumerateFunc dev = true -> exists md, getModel dev = inl md.
Proof.
  unfold enumerateFunc, getModel.
  destruct (negb (hid_vendorId dev =? elgatoVendorID)); [discriminate |].
  cbv zeta. intros Ht. apply bool_decide_eq_true in Ht as [md Hmd].
  exists md. rewrite Hmd. reflexivity.
Qed.

Lemma getModel_refuses (dev : usbhid) (e : error) :
  getModel dev = inr e ->
  enumerateFunc dev = false /\ errors_Is e ErrDeviceEnumerationFailed = true.
Proof.
  unfold enumerateFunc, getModel.
  destruct (negb (hid_vendorId dev =? elgatoVendorID)).
  - intros [= <-]. split; reflexivity.
  - cbv zeta.
    destruct (models !! match modelAliases !! hid_productId dev with
                        | Some ma => ma
                        | None => hid_productId dev
                        end) as [md |] eqn:E; [discriminate |].
    intros [= <-]. split; [| reflexivity].
    apply bool_decide_eq_false. intros [? ?]. discriminate.
Qed.

Lemma Enumerate_loop_supported (devices : list usbhid) :
  Forall (fun dev => enumerateFunc dev = true) devices ->
  forall rv, exists ds,
    Enumerate_loop devices rv = inl (rv ++ ds) /\
    dev <$> ds = devices /\
    Forall (fun d => getModel (dev d) = inl (model_ d) /\
                     d = newDevice (dev d) (model_ d)) ds.
Proof.
  induction 1 as [| x devices Hx _ IH]; intros rv.
  - exists []. rewrite app_nil_r. repeat constructor.
  - destruct (enumerateFunc_resolves x Hx) as [md Hmd]. simpl. rewrite Hmd.
    destruct (IH (rv ++ [newDevice x md])) as (ds & Hrun & Hdev & Hall).
    exists (newDevice x md :: ds).
    split; [rewrite Hrun, <- app_assoc; reflexivity |].
    split; [rewrite fmap_cons, Hdev; reflexivity |].
    constructor; [split; [exact Hmd | reflexivity] | exact Hall].
Qed.

Lemma Enumerate_loop_fails (devices : list usbhid) (e : error) :
  forall rv, Enumerate_loop devices rv = inr e ->
  errors_Is e ErrDeviceEnumerationFailed = true /\
  Exists (fun dev => enumerateFunc dev = false) devices.
Proof.
  induction devices as [| x devices IH]; intros rv; simpl; [discriminate |].
  destruct (getModel x) as [md | err] eqn:E.
  - intros Hrun. destruct (IH _ Hrun) as [He Hex]. split; [exact He |].
    apply Exists_cons_tl. exact Hex.
  - intros [= <-]. destruct (getModel_refuses x err E) as [Hf He].
    split; [exact He | apply Exists_cons_hd; exact Hf].
Qed.

(** X22.  Enumerate turns the transports the bus found into devices, one
    for each, in the same order: every device is closed, has no slot table,
    no snapshot and no stop channel, and carries the model that resolution
    gives for its transport.  That needs every transport found to pass the
    enumeration filter; Enumerate fails only when one of them does not, then
    with the enumeration-failed error and no device at all, or when the bus
    fails, then with the error of the bus wrapped. *)
Theorem Enumerate_lists_the_supported_transports (found : list usbhid) :
  (Forall (fun dev => enumerateFunc dev = true) found ->
   exists ds, Enumerate (inl found) = inl ds /\
              dev <$> ds = found /\
              Forall (fun d => getModel (dev d) = inl (model_ d) /\
                               d = newDevice (dev d) (model_ d) /\
                               IsOpen d = false) ds) /\
  (forall e, Enumerate (inl found) = inr e ->
     errors_Is e ErrDeviceEnumerationFailed = true /\
     Exists (fun dev => enumerateFunc dev = false) found) /\
  (forall err, Enumerate (inr err) = inr (wrap err)).
Proof.
  split; [| split].
  - intros Hall. destruct (Enumerate_loop_supported found Hall []) as (ds & Hrun & Hdev & Hds).
    exists ds. split; [exact Hrun |]. split; [exact Hdev |].
    eapply Forall_impl; [exact Hds |]. intros d [Hm Hd].
    split; [exact Hm |]. split; [exact Hd |]. rewrite Hd. reflexivity.
  - intros e. apply Enumerate_loop_fails.
  - reflexivity.
Qed.

Lemma GetDevice_loop_first (devices : list usbhid) (sn : string) (i : nat) (x : usbhid) :
  devices !! i = Some x -> hid_serialNumber x = sn ->
  (forall j y, (j < i)%nat -> devices !! j = Some y -> hid_serialNumber y <> sn) ->
  GetDevice_loop devices sn =
    Some match getModel x with
         | inr err => inr (wrap err)
         | inl model => inl (newDevice x model)
         end.
Proof.
  revert i. induction devices as [| y devices IH]; intros i Hi Hsn Hfirst; [discriminate |].
  simpl. destruct i as [| i].
  - injection Hi as ->. rewrite bool_decide_eq_true_2 by exact Hsn. reflexivity.
  - rewrite bool_decide_eq_false_2 by (apply (Hfirst 0%nat); [lia | reflexivity]).
    apply (IH i); [exact Hi | exact Hsn |].
    intros j z Hj Hz. apply (Hfirst (S j)); [lia | exact Hz].
Qed.

Lemma GetDevice_loop_none (devices : list usbhid) (sn : string) :
  Forall (fun x => hid_serialNumber x <> sn) devices ->
  GetDevice_loop devices sn = None.
Proof.
  induction 1 as [| y devices Hy _ IH]; [reflexivity |].
  simpl. rewrite bool_decide_eq_false_2 by exact Hy. exact IH.
Qed.

Lemma GetDevice_loop_found (devices : list usbhid) (sn : string) (r : Device + error) :
  GetDevice_loop devices sn = Some r ->
  exists i x, devices !! i = Some x /\ hid_serialNumber x = sn /\
              r = match getModel x with
                  | inr err => inr (wrap err)
                  | inl model => inl (newDevice x model)
                  end.
Proof.
  induction devices as [| y devices IH]; simpl; [discriminate |].
  destruct (bool_decide (hid_serialNumber y = sn)) eqn:E.
  - apply bool_decide_eq_true in E. intros [= <-]. exists 0%nat, y. auto.
  - intros Hr. destruct (IH Hr) as (i & x & Hi & Hsn & Hx). exists (S i), x. auto.
Qed.

(** X23.  GetDevice picks among the transports that passed the enumeration
    filter.  Without any it fails with the no-device error.  With an empty
    serial number it returns the only transport, whatever its serial number,
    and fails with the more-than-one error when there are several.  With a
    serial number it returns the first transport that has it and fails with
    the no-device error when none has.  The device it returns is closed and
    is one of those Enumerate lists. *)
Theorem GetDevice_selection (found : list usbhid) (sn : string) :
  Forall (fun dev => enumerateFunc dev = true) found ->
  (found = [] ->
   exists e, GetDevice (inl found) sn = inr e /\ errors_Is e ErrNoDeviceFound = true) /\
  (sn = EmptyString ->
   (forall x, found = [x] ->
      exists m, getModel x = inl m /\ GetDevice (inl found) sn = inl (newDevice x m)) /\
   ((2 <= length found)%nat ->
    exists e, GetDevice (inl found) sn = inr e /\
              errors_Is e ErrMoreThanOneDeviceFound = true)) /\
  (sn <> EmptyString ->
   (forall i x, found !! i = Some x -> hid_serialNumber x = sn ->
      (forall j y, (j < i)%nat -> found !! j = Some y -> hid_serialNumber y <> sn) ->
      exists m, getModel x = inl m /\ GetDevice (inl found) sn = inl (newDevice x m)) /\
   (Forall (fun x => hid_serialNumber x <> sn) found ->
    exists e, GetDevice (inl found) sn = inr e /\ errors_Is e ErrNoDeviceFound = true)) /\
  (forall d, GetDevice (inl found) sn = inl d ->
     IsOpen d = false /\
     (sn <> EmptyString -> GetSerialNumber d = sn) /\
     exists ds, Enumerate (inl found) = inl ds /\ d ∈ ds).
Proof.
  intros Hall.
  assert (Hres : forall x, x ∈ found -> exists m, getModel x = inl m).
  { intros x Hx. apply enumerateFunc_resolves.
    exact (proj1 (Forall_forall _ _) Hall x Hx). }
  destruct (Enumerate_loop_supported found Hall []) as (ds & Hrun & Hdev & Hds).
  assert (Hin : forall x m, x ∈ found -> getModel x = inl m -> newDevice x m ∈ ds).
  { intros x m Hx Hm. rewrite <- Hdev in Hx. apply list_elem_of_fmap in Hx as (d & -> & Hd).
    destruct (proj1 (Forall_forall _ _) Hds d Hd) as [Hmd Heq].
    assert (m = model_ d) as -> by congruence. rewrite <- Heq. exact Hd. }
  split; [| split; [| split]].
  - intros ->. eexists. split; reflexivity.
  - intros ->. split.
    + intros x ->. destruct (Hres x ltac:(set_solver)) as [m Hm].
      exists m. split; [exact Hm |]. simpl. rewrite Hm. reflexivity.
    + intros Hlen. destruct found as [| x [| y rest]]; simpl in Hlen; try lia.
      assert (Hnz : (len (x :: y :: rest) =? 0) = false)
        by (apply Z.eqb_neq; unfold len; simpl; lia).
      eexists. split; [unfold GetDevice; rewrite Hnz; reflexivity | reflexivity].
  - intros Hsn. split.
    + intros i x Hi Hx Hfirst.
      destruct (Hres x ltac:(eapply list_elem_of_lookup_2; exact Hi)) as [m Hm].
      exists m. split; [exact Hm |]. unfold GetDevice.
      replace (len found =? 0) with false.
      2:{ symmetry. apply Z.eqb_neq. unfold len. apply lookup_lt_Some in Hi. lia. }
      rewrite bool_decide_eq_false_2 by exact Hsn.
      rewrite (GetDevice_loop_first found sn i x Hi Hx Hfirst), Hm. reflexivity.
    + intros Hnone. unfold GetDevice.
      destruct (len found =? 0); [eexists; split; reflexivity |].
      rewrite bool_decide_eq_false_2 by exact Hsn.
      rewrite (GetDevice_loop_none found sn Hnone). eexists. split; reflexivity.
  - intros d Hd. unfold GetDevice in Hd.
    destruct (len found =? 0); [discriminate |].
    assert (Hfrom : exists x m, x ∈ found /\ getModel x = inl m /\ d = newDevice x m /\
                                (sn <> EmptyString -> hid_serialNumber x = sn)).
    { destruct (bool_decide (sn = EmptyString)) eqn:E.
      - apply bool_decide_eq_true in E.
        destruct found as [| x [| y rest]]; try discriminate.
        destruct (getModel x) as [m |] eqn:Hm; [| discriminate].
        injection Hd as <-. exists x, m. split; [set_solver |]. split; [exact Hm |].
        split; [reflexivity | intros Hne; contradiction].
      - destruct (GetDevice_loop found sn) as [r |] eqn:Hr; [| discriminate].
        destruct (GetDevice_loop_found found sn r Hr) as (i & x & Hi & Hx & ->).
        destruct (getModel x) as [m |] eqn:Hm; [| discriminate].
        injection Hd as <-. exists x, m.
        split; [eapply list_elem_of_lookup_2; exact Hi |].
        split; [exact Hm |]. split; [reflexivity | intros _; exact Hx]. }
    destruct Hfrom as (x & m & Hx & Hm & -> & Hser).
    split; [reflexivity |]. split; [exact Hser |].
    exists ds. split; [exact Hrun |]. apply Hin; assumption.
Qed.

Lemma GetDevice_selection_witness :
  (exists m, getModel (testTransport 0x0080 1024 false) = inl m /\
             GetDevice (inl twoFound) "SN0001" =
               inl (newDevice (testTransport 0x0080 1024 false) m)) /\
  (exists e, GetDevice (inl twoFound) EmptyString = inr e /\
             errors_Is e ErrMoreThanOneDeviceFound = true).
Proof.
  assert (Hall : Forall (fun dev => enumerateFunc dev = true) twoFound).
  { repeat constructor. }
  split.
  - destruct (GetDevice_selection twoFound "SN0001" Hall) as (_ & _ & Hsn & _).
    destruct (Hsn ltac:(discriminate)) as [Hfirst _].
    apply (Hfirst 0%nat); [reflexivity | reflexivity | intros j y Hj; lia].
  - destruct (GetDevice_selection twoFound EmptyString Hall) as (_ & He & _).
    destruct (He eq_refl) as [_ Hmany]. apply Hmany. simpl. lia.
Defined.

(** ** Display operations only write *)

Lemma set_dev_same (d : Device) : set_dev d (dev d) = d.
Proof. destruct d. reflexivity. Qed.

Lemma onlyWrites_refl (d : Device) : onlyWrites d d.
Proof. exists [], []. rewrite withLogs_nil, set_dev_same. reflexivity. Qed.

Lemma onlyWrites_trans (a b c : Device) : onlyWrites a b -> onlyWrites b c -> onlyWrites a c.
Proof.
  intros (o1 & f1 & ->) (o2 & f2 & ->). exists (o1 ++ o2), (f1 ++ f2).
  unfold set_dev. simpl. rewrite withLogs_withLogs. reflexivity.
Qed.

Lemma onlyWrites_set_dev (d : Device) (out feat : list (Z * list Z)) :
  onlyWrites d (set_dev d (withLogs (dev d) out feat)).
Proof. exists out, feat. reflexivity. Qed.

Lemma onlyWrites_fields (d d' : Device) :
  onlyWrites d d' ->
  model_ d' = model_ d /\ inputs d' = inputs d /\ dialInputs d' = dialInputs d /\
  touchStripInput d' = touchStripInput d /\ keyStates d' = keyStates d /\
  dialStates d' = dialStates d /\ listen d' = listen d /\ open d' = open d /\
  IsOpen d' = IsOpen d /\ sameDevice (dev d) (dev d') /\
  hid_outputLog (dev d) `prefix_of` hid_outputLog (dev d') /\
  hid_featureLog (dev d) `prefix_of` hid_featureLog (dev d').
Proof.
  intros (out & feat & ->). unfold IsOpen, sameDevice. simpl.
  repeat split; try reflexivity; [exists out | exists feat]; reflexivity.
Qed.

Lemma imageSend_withLogs (dev : usbhid) (id : Z) (hdr imgData : list Z)
    (cb : option updateCb) :
  exists out, fst (fst (imageSend dev id hdr imgData cb)) = withLogs dev out [].
Proof.
  destruct cb as [cb |]; unfold imageSend.
  - destruct (imageSend_loop_shape id imgData cb (S (length imgData)) dev hdr 0 0 [])
      as (new & dev' & o & Hrun & _ & Hsame & Hlog & Hflog & _).
    rewrite Hrun. simpl. eexists. apply sameDevice_withLogs; [exact Hsame | exact Hlog |].
    rewrite Hflog, app_nil_r. reflexivity.
  - exists []. rewrite withLogs_nil. reflexivity.
Qed.

Lemma SetFeatureReport_withLogs (dev : usbhid) (id : Z) (payload : list Z) :
  exists feat, fst (SetFeatureReport dev id payload) = withLogs dev [] feat.
Proof.
  destruct (SetFeatureReport_cases dev id payload)
    as [(e & _ & ->) | (dev' & _ & -> & Hsame & Hlog & Holog)]; simpl.
  - exists []. rewrite withLogs_nil. reflexivity.
  - eexists. apply sameDevice_withLogs; [exact Hsame | | exact Hlog].
    rewrite Holog, app_nil_r. reflexivity.
Qed.

Lemma sent_onlyWrites (d : Device) (r : usbhid * list page * outcome) :
  (exists out, fst (fst r) = withLogs (dev d) out []) ->
  onlyWrites d (fst (sent d r)).
Proof.
  intros [out Hr]. destruct r as [[dev' ps] o]. simpl in *. subst dev'.
  apply onlyWrites_set_dev.
Qed.

Lemma registry_sends (pid : Z) (m : model) :
  models !! pid = Some m ->
  (forall dev key data, exists out, fst (fst (keyImageSend m dev key data)) = withLogs dev out []) /\
  (forall send, infoBarImageSend m = Some send ->
     forall dev data, exists out, fst (fst (send dev data)) = withLogs dev out []) /\
  (forall send, touchStripImageSend m = Some send ->
     forall dev data rect, exists out, fst (fst (send dev data rect)) = withLogs dev out []) /\
  (forall send, touchPointColorSend m = Some send ->
     forall dev tp c, exists feat, fst (send dev tp c) = withLogs dev [] feat).
Proof.
  intros Hm.
  destruct (models_lookup_Some pid m Hm) as [[_ ->] | [[_ ->] | [[_ ->] | [_ ->]]]];
    (split; [intros dev key data; apply imageSend_withLogs |]);
    (split; [intros send Hs; try discriminate; injection Hs as <-;
             intros dev data; apply imageSend_withLogs |]);
    (split; [intros send Hs; try discriminate; injection Hs as <-;
             intros dev data rect; apply imageSend_withLogs |]);
    intros send Hs; try discriminate; injection Hs as <-;
    intros dev tp c; apply SetFeatureReport_withLogs.
Qed.

Section OnlyWrites.
Context `{ImageLib}.
Variable pid : Z.
Variable m : model.
Hypothesis Hm : models !! pid = Some m.

Lemma SetKeyImage_onlyWrites (d : Device) (key : KeyID) (img : option Image) :
  model_ d = m -> onlyWrites d (fst (SetKeyImage d key img)).
Proof.
  intros Hd. unfold SetKeyImage.
  destruct (validateOpen d); [apply onlyWrites_refl |].
  destruct (validateKey d key); [apply onlyWrites_refl |].
  unfold setKeyImage. cbv zeta.
  destruct (genImage img _ _ _) as [[data | err] |]; try apply onlyWrites_refl.
  apply sent_onlyWrites. rewrite Hd. apply (proj1 (registry_sends pid m Hm)).
Qed.

Lemma SetInfoBarImage_onlyWrites (d : Device) (img : option Image) :
  model_ d = m -> onlyWrites d (fst (SetInfoBarImage d img)).
Proof.
  intros Hd. unfold SetInfoBarImage.
  destruct (validateOpen d); [apply onlyWrites_refl |].
  destruct (infoBarImageSend (model_ d)) as [send |] eqn:Es; [| apply onlyWrites_refl].
  unfold setInfoBarImage. cbv zeta.
  destruct (genImage img _ _ _) as [[data | err] |]; try apply onlyWrites_refl.
  rewrite Es. apply sent_onlyWrites. rewrite Hd in Es.
  apply (proj1 (proj2 (registry_sends pid m Hm)) send Es).
Qed.

Lemma SetTouchPointColor_onlyWrites (d : Device) (tp : TouchPointID) (c : Color) :
  model_ d = m -> onlyWrites d (fst (SetTouchPointColor d tp c)).
Proof.
  intros Hd. unfold SetTouchPointColor.
  destruct (validateOpen d); [apply onlyWrites_refl |].
  destruct (validateTouchPoint d tp); [apply onlyWrites_refl |].
  destruct (touchPointColorSend (model_ d)) as [send |] eqn:Es; [| apply onlyWrites_refl].
  rewrite Hd in Es.
  destruct (proj2 (proj2 (proj2 (registry_sends pid m Hm))) send Es (dev d) tp c)
    as [feat Hf].
  destruct (send (dev d) tp c) as [dev' err]. simpl in *. subst dev'.
  apply onlyWrites_set_dev.
Qed.

Lemma setTouchStripImage_onlyWrites (d : Device) (img : option Image)
    (rect : option Rectangle) :
  model_ d = m -> onlyWrites d (fst (setTouchStripImage d img rect)).
Proof.
  intros Hd. unfold setTouchStripImage. cbv zeta.
  destruct (match rect with
            | Some r => (r, Rect 0 0 (Dx r) (Dy r))
            | None => (touchStripImageRect (model_ d), touchStripImageRect (model_ d))
            end) as [r v].
  destruct (genImage img _ _ _) as [[data | err] |]; try apply onlyWrites_refl.
  destruct (touchStripImageSend (model_ d)) as [send |] eqn:Es; [| apply onlyWrites_refl].
  apply sent_onlyWrites. rewrite Hd in Es.
  apply (proj1 (proj2 (proj2 (registry_sends pid m Hm))) send Es).
Qed.

Lemma SetTouchStripImage_onlyWrites (d : Device) (img : option Image) :
  model_ d = m -> onlyWrites d (fst (SetTouchStripImage d img)).
Proof.
  intros Hd. unfold SetTouchStripImage.
  destruct (validateOpen d); [apply onlyWrites_refl |].
  destruct (validateTouchStrip d); [apply onlyWrites_refl |].
  apply setTouchStripImage_onlyWrites. exact Hd.
Qed.

Lemma SetTouchStripImageWithRectangle_onlyWrites (d : Device) (img : option Image)
    (rect : Rectangle) :
  model_ d = m -> onlyWrites d (fst (SetTouchStripImageWithRectangle d img rect)).
Proof.
  intros Hd. unfold SetTouchStripImageWithRectangle.
  destruct (validateOpen d); [apply onlyWrites_refl |].
  destruct (validateTouchStripRectangle d rect); [apply onlyWrites_refl |].
  destruct (validateTouchStrip d); [apply onlyWrites_refl |].
  apply setTouchStripImage_onlyWrites. exact Hd.
Qed.

Lemma forEachId_onlyWrites (cb : Device -> Z -> Device * outcome) (ids : list Z) :
  (forall d k, model_ d = m -> onlyWrites d (fst (cb d k))) ->
  forall d, model_ d = m -> onlyWrites d (fst (forEachId cb ids d)).
Proof.
  intros Hcb. induction ids as [| k ids IH]; intros d Hd; [apply onlyWrites_refl |].
  simpl. specialize (Hcb d k Hd).
  destruct (cb d k) as [d1 o]. simpl in Hcb.
  destruct o as [[e |] | |]; try exact Hcb.
  eapply onlyWrites_trans; [exact Hcb |]. apply IH.
  rewrite (proj1 (onlyWrites_fields d d1 Hcb)). exact Hd.
Qed.

Lemma closeDisplays_onlyWrites (d : Device) :
  model_ d = m -> onlyWrites d (fst (closeDisplays d)).
Proof.
  intros Hd. unfold closeDisplays.
  assert (H1 : onlyWrites d (fst (ForEachKey d (Some ClearKey)))).
  { apply forEachId_onlyWrites; [| exact Hd].
    intros d0 k Hd0. apply SetKeyImage_onlyWrites. exact Hd0. }
  destruct (ForEachKey d (Some ClearKey)) as [d1 o1]. simpl in H1.
  destruct o1 as [[e |] | |]; try exact H1.
  assert (Hd1 : model_ d1 = m) by (rewrite (proj1 (onlyWrites_fields d d1 H1)); exact Hd).
  assert (H2 : onlyWrites d1 (fst (ForEachTouchPoint d1 (Some ClearTouchPoint)))).
  { apply forEachId_onlyWrites; [| exact Hd1].
    intros d0 k Hd0. apply SetTouchPointColor_onlyWrites. exact Hd0. }
  destruct (ForEachTouchPoint d1 (Some ClearTouchPoint)) as [d2 o2]. simpl in H2.
  assert (H12 : onlyWrites d d2) by (eapply onlyWrites_trans; eassumption).
  destruct o2 as [[e |] | |]; try exact H12.
  assert (Hd2 : model_ d2 = m) by (rewrite (proj1 (onlyWrites_fields d d2 H12)); exact Hd).
  assert (H3 : onlyWrites d2 (fst (if GetInfoBarSupported d2 then ClearInfoBar d2
                                   else (d2, Returned None)))).
  { destruct (GetInfoBarSupported d2); [| apply onlyWrites_refl].
    apply SetInfoBarImage_onlyWrites. exact Hd2. }
  destruct (if GetInfoBarSupported d2 then ClearInfoBar d2 else (d2, Returned None))
    as [d3 o3]. simpl in H3.
  assert (H13 : onlyWrites d d3) by (eapply onlyWrites_trans; eassumption).
  destruct o3 as [[e |] | |]; try exact H13.
  assert (Hd3 : model_ d3 = m) by (rewrite (proj1 (onlyWrites_fields d d3 H13)); exact Hd).
  eapply onlyWrites_trans; [exact H13 |].
  destruct (GetTouchStripSupported d3); [| apply onlyWrites_refl].
  apply SetTouchStripImage_onlyWrites. exact Hd3.
Qed.

End OnlyWrites.

(** X24.  On a device of a model of the registry a display operation
    changes nothing but the transport's logs, which only grow: whatever the
    picture, the identifier and the transport do, and whether the operation
    succeeds or not, the device stays as open as it was, keeps its model, its
    slot tables with every registered callback, its snapshots and its stop
    channel, and the transport keeps its lengths and identity.  The same
    holds for all the clearing that Close does before it closes. *)
Theorem display_operations_only_write `{ImageLib} (d : Device) (pid : Z) :
  models !! pid = Some (model_ d) ->
  (forall key img, onlyWrites d (fst (SetKeyImage d key img))) /\
  (forall key c, onlyWrites d (fst (SetKeyColor d key c))) /\
  (forall key, onlyWrites d (fst (ClearKey d key))) /\
  (forall img, onlyWrites d (fst (SetInfoBarImage d img))) /\
  (forall tp c, onlyWrites d (fst (SetTouchPointColor d tp c))) /\
  (forall img, onlyWrites d (fst (SetTouchStripImage d img))) /\
  (forall img rect, onlyWrites d (fst (SetTouchStripImageWithRectangle d img rect))) /\
  onlyWrites d (fst (closeDisplays d)) /\
  (forall d', onlyWrites d d' ->
     IsOpen d' = IsOpen d /\ model_ d' = model_ d /\
     inputs d' = inputs d /\ dialInputs d' = dialInputs d /\
     touchStripInput d' = touchStripInput d /\
     keyStates d' = keyStates d /\ dialStates d' = dialStates d /\
     listen d' = listen d /\
     hid_outputReportLength (dev d') = hid_outputReportLength (dev d) /\
     hid_serialNumber (dev d') = hid_serialNumber (dev d) /\
     hid_outputLog (dev d) `prefix_of` hid_outputLog (dev d') /\
     hid_featureLog (dev d) `prefix_of` hid_featureLog (dev d')).
Proof.
  intros Hm.
  split; [intros key img; apply (SetKeyImage_onlyWrites pid _ Hm); reflexivity |].
  split; [intros key c; apply (SetKeyImage_onlyWrites pid _ Hm); reflexivity |].
  split; [intros key; apply (SetKeyImage_onlyWrites pid _ Hm); reflexivity |].
  split; [intros img; apply (SetInfoBarImage_onlyWrites pid _ Hm); reflexivity |].
  split; [intros tp c; apply (SetTouchPointColor_onlyWrites pid _ Hm); reflexivity |].
  split; [intros img; apply (SetTouchStripImage_onlyWrites pid _ Hm); reflexivity |].
  split; [intros img rect;
          apply (SetTouchStripImageWithRectangle_onlyWrites pid _ Hm); reflexivity |].
  split; [apply (closeDisplays_onlyWrites pid _ Hm); reflexivity |].
  intros d' Hw.
  destruct (onlyWrites_fields d d' Hw)
    as (F1 & F2 & F3 & F4 & F5 & F6 & F7 & F8 & F9 & Hsame & F10 & F11).
  destruct Hsame as (_ & _ & _ & S4 & _ & _ & _ & _ & S9 & _).
  repeat split; assumption.
Qed.

Lemma display_operations_only_write_witness :
  onlyWrites (plusDevice true)
    (fst (SetTouchStripImageWithRectangle (H := refImageLib) (plusDevice true)
            (Some fourPixels) (Rect 10 10 12 12))).
Proof.
  destruct (display_operations_only_write (H := refImageLib) (plusDevice true) 0x0084 eq_refl)
    as (_ & _ & _ & _ & _ & _ & Hrect & _).
  apply Hrect.
Defined.

(** ** Closing *)

(** X25.  Close on an open device of a model of the registry first clears
    the displays, which only writes.  If the clearing fails, its error is
    wrapped once more and the device stays open with its stop channel.  If
    the clearing succeeds, the stop channel is closed and forgotten - closing
    a channel that is closed already panics - and the transport is closed: a
    failure of that is returned as it is and leaves a device that is still
    open but has no stop channel; success leaves a closed device that keeps
    every registration, refuses a second Close with the is-closed error and
    can be opened again. *)
Theorem Close_outcomes `{ImageLib} (d : Device) (pid : Z) :
  models !! pid = Some (model_ d) -> IsOpen d = true ->
  let w := fst (closeDisplays d) in
  onlyWrites d w /\
  match snd (closeDisplays d) with
  | Returned (Some e) =>
      Close d = (w, Returned (Some (wrap e))) /\ IsOpen w = true /\ listen w = listen d
  | Returned None =>
      match listen d with
      | Some ChanClosed => Close d = (w, Panicked)
      | _ =>
          match hid_closeFault (dev d) with
          | Some e =>
              Close d = (set_listen w None, Returned (Some e)) /\
              IsOpen (set_listen w None) = true
          | None =>
              exists d',
                Close d = (d', Returned None) /\
                IsOpen d' = false /\ open d' = false /\ hid_isOpen (dev d') = false /\
                listen d' = None /\
                inputs d' = inputs d /\ dialInputs d' = dialInputs d /\
                touchStripInput d' = touchStripInput d /\
                keyStates d' = keyStates d /\ dialStates d' = dialStates d /\
                hid_outputLog (dev d') = hid_outputLog (dev w) /\
                hid_featureLog (dev d') = hid_featureLog (dev w) /\
                Close d' = (d', Returned (Some (wrap (Sentinel ErrDeviceIsClosed)))) /\
                (hid_openFault (dev d) = None ->
                 exists d'', Open d' = (d'', None) /\ IsOpen d'' = true /\
                             listen d'' = Some ChanOpen /\ inputs d'' = inputs d /\
                             dialInputs d'' = dialInputs d)
          end
      end
  | Panicked => Close d = (w, Panicked)
  | Diverged => Close d = (w, Diverged)
  end.
Proof.
  intros Hm Ho w.
  assert (Hw : onlyWrites d w) by (apply (closeDisplays_onlyWrites pid _ Hm); reflexivity).
  split; [exact Hw |].
  destruct (onlyWrites_fields d w Hw)
    as (F1 & F2 & F3 & F4 & F5 & F6 & F7 & F8 & F9 & Hsame & _ & _).
  destruct Hsame as (_ & _ & S3 & _ & _ & _ & S7 & S8 & _).
  assert (Hv : validateOpen d = None) by (unfold validateOpen; rewrite Ho; reflexivity).
  unfold Close. rewrite Hv.
  unfold w in *. clear w.
  destruct (closeDisplays d) as [w o]. simpl in *.
  destruct o as [[e |] | |]; try reflexivity.
  - split; [reflexivity |]. split; [rewrite F9; exact Ho | exact F7].
  - rewrite F7.
    destruct (listen d) as [[|] |] eqn:El; try reflexivity.
    + unfold hid_Close. simpl. rewrite S8.
      destruct (hid_closeFault (dev d)) as [e |] eqn:Ec.
      * split; [destruct w; reflexivity |]. unfold IsOpen in *. simpl. exact (eq_trans F9 Ho).
      * eexists. split; [reflexivity |]. unfold IsOpen, Close, validateOpen, IsOpen. simpl.
        repeat (split; [first [reflexivity | assumption] |]).
        intros Hof. unfold Open, IsOpen, hid_Open. simpl. rewrite S7, Hof.
        eexists. split; [reflexivity |]. simpl. auto.
    + unfold hid_Close. simpl. rewrite S8.
      destruct (hid_closeFault (dev d)) as [e |] eqn:Ec.
      * split; [destruct w; reflexivity |]. unfold IsOpen in *. simpl. exact (eq_trans F9 Ho).
      * eexists. split; [reflexivity |]. unfold IsOpen, Close, validateOpen, IsOpen. simpl.
        repeat (split; [first [reflexivity | assumption] |]).
        intros Hof. unfold Open, IsOpen, hid_Open. simpl. rewrite S7, Hof.
        eexists. split; [reflexivity |]. simpl. auto.
Qed.

Lemma Close_outcomes_witness :
  onlyWrites (miniDevice true) (fst (closeDisplays (H := refImageLib) (miniDevice true))).
Proof.
  pose proof (Close_outcomes (H := refImageLib) (miniDevice true) 0x0063 eq_refl eq_refl)
    as Hc.
  cbv zeta in Hc. destruct Hc as [Hw _]. exact Hw.
Defined.

(** ** Touch-point colours *)

Lemma touchPointColorSend_registry (pid : Z) (m : model)
    (send : usbhid -> TouchPointID -> Color -> usbhid * option error) :
  models !! pid = Some m -> touchPointColorSend m = Some send ->
  pid = 0x009a /\ touchPointCount m = 2 /\
  forall dev tp c, 5 <= hid_featureReportLength dev ->
    send dev tp c =
      SetFeatureReport dev 3
        (featurePayload (hid_featureReportLength dev)
           [0x06; u8 (u8 (tp - TOUCH_POINT_1) + 8); u8 (c_r c); u8 (c_g c); u8 (c_b c)]).
Proof.
  intros Hm Hs. apply models_lookup_Some in Hm.
  destruct Hm as [[-> ->] | [[-> ->] | [[-> ->] | [-> ->]]]]; try discriminate.
  injection Hs as <-. split; [reflexivity |]. split; [reflexivity |].
  intros dev tp c Hn. unfold touchPointColorSend_neo. rewrite (make_bytes_5 _ Hn).
  reflexivity.
Qed.

(** X26.  Only the Neo has touch points, two of them.  SetTouchPointColor
    on an open Neo writes one feature report with id 3 and the length of the
    transport's feature reports: the command byte 6, the touch point's
    position after the eight keys (8 for the first, 9 for the second), the
    low bytes of the red, green and blue channels, then zeros.  A write the
    transport refuses is returned as the transport gave it, without the
    package prefix, and leaves the device as it was. *)
Theorem SetTouchPointColor_report (d : Device) (pid : Z) (tp : TouchPointID) (c : Color) :
  models !! pid = Some (model_ d) -> IsOpen d = true ->
  validateTouchPoint d tp = None ->
  5 <= hid_featureReportLength (dev d) ->
  let report :=
    (3, featurePayload (hid_featureReportLength (dev d))
          [0x06; tp + 7; u8 (c_r c); u8 (c_g c); u8 (c_b c)]) in
  pid = 0x009a /\ (tp = 1 \/ tp = 2) /\
  len (snd report) = hid_featureReportLength (dev d) /\
  (hid_writeFault (dev d) (hid_writes (dev d)) = None ->
   exists d', SetTouchPointColor d tp c = (d', Returned None) /\
              d' = set_dev d (withLogs (dev d) [] [report])) /\
  (forall e, hid_writeFault (dev d) (hid_writes (dev d)) = Some e ->
     SetTouchPointColor d tp c = (d, Returned (Some e))).
Proof.
  intros Hm Ho Htp Hn report.
  assert (Hv : validateOpen d = None) by (unfold validateOpen; rewrite Ho; reflexivity).
  destruct (touchPointColorSend (model_ d)) as [send |] eqn:Es.
  2:{ unfold validateTouchPoint in Htp. rewrite Es in Htp. discriminate. }
  destruct (touchPointColorSend_registry pid _ send Hm Es) as (Hpid & Hcount & Hsend).
  assert (Hrange : tp = 1 \/ tp = 2).
  { apply validateTouchPoint_None in Htp; [| rewrite Hcount; lia].
    rewrite Hcount in Htp. lia. }
  assert (Hidx : u8 (u8 (tp - TOUCH_POINT_1) + 8) = tp + 7)
    by (destruct Hrange as [-> | ->]; reflexivity).
  assert (Hrun : SetTouchPointColor d tp c =
                 (let '(dev', err) := SetFeatureReport (dev d) (fst report) (snd report) in
                  (set_dev d dev', Returned err))).
  { unfold SetTouchPointColor. rewrite Hv, Htp, Es, (Hsend _ _ _ Hn), Hidx. reflexivity. }
  split; [exact Hpid |]. split; [exact Hrange |]. split.
  { unfold report. cbn [snd]. unfold featurePayload. rewrite len_app, len_make_bytes;
      change (len [6; tp + 7; u8 (c_r c); u8 (c_g c); u8 (c_b c)]) with 5; lia. }
  split.
  - intros Hf.
    destruct (SetFeatureReport_cases (dev d) (fst report) (snd report))
      as [(e & He & _) | (dev' & _ & Hw & Hsame & Hlog & Holog)]; [congruence |].
    rewrite Hw in Hrun. eexists. split; [exact Hrun |]. f_equal.
    apply sameDevice_withLogs; [exact Hsame | rewrite Holog, app_nil_r; reflexivity |].
    rewrite Hlog. reflexivity.
  - intros e Hf.
    destruct (SetFeatureReport_cases (dev d) (fst report) (snd report))
      as [(e' & He & Hw) | (dev' & Hnone & _)]; [| congruence].
    rewrite Hw in Hrun. assert (e' = e) as -> by congruence.
    rewrite Hrun, set_dev_same. reflexivity.
Qed.

Lemma SetTouchPointColor_report_witness :
  exists d', SetTouchPointColor (neoDevice true) 2 (mkColor 0x1234 0xffff 0 0xffff) =
               (d', Returned None) /\
             hid_featureLog (dev d') = [(3, featurePayload 32 [0x06; 9; 0x34; 0xff; 0])].
Proof.
  destruct (SetTouchPointColor_report (neoDevice true) 0x009a 2
              (mkColor 0x1234 0xffff 0 0xffff) eq_refl eq_refl eq_refl
              ltac:(vm_compute; discriminate)) as (_ & _ & _ & Hok & _).
  destruct (Hok eq_refl) as (d' & Hrun & Hd').
  exists d'. split; [exact Hrun |]. rewrite Hd'. reflexivity.
Defined.

(** ** From a picture to the wire *)

Lemma registry_keys `{ImageLib} (pid : Z) (m : model) :
  models !! pid = Some m ->
  0 < keyCount m < 16 /\
  keyImageSend m = (if decide (pid = 0x0063) then keyImageSend_mini else keyImageSend_v2) /\
  forall img, encodes img (keyImageRect m) (keyImageFormat m) (keyImageTransform m).
Proof.
  intros Hm. apply models_lookup_Some in Hm.
  destruct Hm as [[-> ->] | [[-> ->] | [[-> ->] | [-> ->]]]];
    (split; [simpl; lia |]); (split; [reflexivity |]); intros img;
    apply genImage_encodes; try reflexivity; try (vm_compute; discriminate);
    first [left; reflexivity | right; reflexivity].
Qed.

Lemma lookup_of_take {A} (n : nat) (l pre : list A) (i : nat) (a : A) :
  take n l = pre -> pre !! i = Some a -> l !! i = Some a.
Proof.
  intros <- Hi. destruct (decide (i < n)%nat) as [Hlt | Hge].
  - rewrite lookup_take_lt in Hi by exact Hlt. exact Hi.
  - rewrite lookup_take_ge in Hi by lia. discriminate.
Qed.

(** X27.  SetKeyImage on an open device of a model of the registry, for a
    valid key, with a transport that accepts every write and an encoder
    result that fits the 16-bit range: the canvas that was encoded holds
    every pixel of the scaled picture at its transformed place, and the
    bytes the encoder returned are what the transport receives - reports of
    the output-report length under report id 2 and nothing else, each
    addressed to the key (one-based on the mini, zero-based elsewhere), whose
    chunks put together are the encoder's bytes (followed on the mini, which
    has no size field, by the zero padding of the last report). *)
Theorem SetKeyImage_delivers `{ImageLib} (d : Device) (pid : Z) (key : KeyID)
    (img : Image) (data : list Z) :
  let m := model_ d in
  let L := hid_outputReportLength (dev d) in
  models !! pid = Some m -> IsOpen d = true -> 1 <= key <= keyCount m ->
  neverFails (dev d) -> 15 < L < 65536 ->
  genImage (Some img) (keyImageRect m) (keyImageFormat m) (keyImageTransform m) =
    Ok (inl data) ->
  len data + L <= 65536 ->
  exists (final : RGBA) (reports : list (list Z)),
    encoderOf (keyImageFormat m) final = inl data /\
    RGBA_Rect final = keyImageRect m /\
    (forall x y, 0 <= x < Dx (keyImageRect m) -> 0 <= y < Dy (keyImageRect m) ->
       RGBA_At final (X (placed (keyImageRect m) (keyImageTransform m) x y))
                     (Y (placed (keyImageRect m) (keyImageTransform m) x y)) =
         pixelColor (keyImageFormat m)
           (RGBA_At (genImage_scaled img (keyImageRect m) (blankRGBA (keyImageRect m))) x y)) /\
    SetKeyImage d key (Some img) =
      (set_dev d (withLogs (dev d) ((fun r => (2, r)) <$> reports) []), Returned None) /\
    Forall (fun r => len r = L) reports /\
    if decide (pid = 0x0063)
    then (exists pad, 0 <= pad <= L - 15 /\
                      concat (drop 15 <$> reports) = data ++ make_bytes pad) /\
         Forall (fun r => r !! 0%nat = Some 1 /\ r !! 4%nat = Some key) reports
    else concat (chunkOf 7 3 <$> reports) = data /\
         Forall (fun r => r !! 0%nat = Some 7 /\ r !! 1%nat = Some (key - 1)) reports.
Proof.
  intros m L Hm Ho Hkey Hf Hcap Hgen Hfit.
  destruct (registry_keys pid m Hm) as (Hcount & Hsend & Henc).
  destruct (Henc img) as (final & Hrun & Hrect & Hpix).
  assert (Hdata : encoderOf (keyImageFormat m) final = inl data) by congruence.
  assert (Hv : validateOpen d = None) by (unfold validateOpen; rewrite Ho; reflexivity).
  assert (Hk : validateKey d key = None).
  { apply validateKey_None; fold m; lia. }
  assert (Hset : SetKeyImage d key (Some img) = sent d (keyImageSend m (dev d) key data)).
  { unfold SetKeyImage. rewrite Hv, Hk. unfold setKeyImage. cbv zeta. fold m.
    rewrite Hgen. reflexivity. }
  exists final.
  assert (Hlogs : forall (dev' : usbhid) (pages : list page),
             sameDevice (dev d) dev' ->
             hid_outputLog dev' = hid_outputLog (dev d) ++ ((fun p => (2, pg_report p)) <$> pages) ->
             hid_featureLog dev' = hid_featureLog (dev d) ->
             dev' = withLogs (dev d) ((fun r => (2, r)) <$> (pg_report <$> pages)) []).
  { intros dev' pages Hsame Hlog Hflog. apply sameDevice_withLogs; [exact Hsame | |].
    - rewrite Hlog, <- list_fmap_compose. reflexivity.
    - rewrite Hflog, app_nil_r. reflexivity. }
  rewrite Hset, Hsend.
  destruct (decide (pid = 0x0063)) as [Hmini | Hv2].
  - destruct (keyImageSend_mini_wire (dev d) key data Hf Hcap ltac:(fold L; lia))
      as (dev' & pages & pad & Hsent & Hsame & Hflog & Hlog & Hcat & Hpad & _ & Hpages & Hkeyb).
    exists (pg_report <$> pages).
    split; [exact Hdata |]. split; [exact Hrect |]. split; [exact Hpix |].
    split; [rewrite Hsent; simpl; rewrite (Hlogs dev' pages Hsame Hlog Hflog); reflexivity |].
    split.
    { apply Forall_fmap, Forall_lookup. intros i p Hi. exact (proj1 (Hpages i p Hi)). }
    split; [exists pad; split; [exact Hpad | exact Hcat] |].
    apply Forall_fmap, Forall_lookup. intros i p Hi.
    destruct (Hpages i p Hi) as [_ Htake]. simpl.
    unfold miniHeader in Htake. rewrite (Hkeyb ltac:(lia)) in Htake.
    split; eapply lookup_of_take; first [exact Htake | reflexivity].
  - destruct (send_v2_wire (dev d) 7 (u8 (key - KEY_1)) data Hf ltac:(fold L; lia)
                ltac:(fold L; lia))
      as (dev' & pages & Hsent & Hsame & Hlog & Hflog & Hcat & Hpages).
    exists (pg_report <$> pages).
    split; [exact Hdata |]. split; [exact Hrect |]. split; [exact Hpix |].
    split.
    { unfold keyImageSend_v2. cbv zeta. rewrite Hsent. simpl.
      rewrite (Hlogs dev' pages Hsame Hlog Hflog). reflexivity. }
    split.
    { apply Forall_fmap, Forall_lookup. intros i p Hi. exact (proj1 (Hpages i p Hi)). }
    split; [exact Hcat |].
    apply Forall_fmap, Forall_lookup. intros i p Hi.
    destruct (Hpages i p Hi) as (_ & Htake & _). simpl.
    assert (Hidx : u8 (key - KEY_1) = key - 1).
    { unfold u8, KEY_1. apply Z.mod_small. lia. }
    rewrite Hidx in Htake.
    split; eapply lookup_of_take; first [exact Htake | reflexivity].
Qed.

Lemma SetKeyImage_delivers_witness :
  exists reports,
    SetKeyImage (H := frameImageLib) (mk2Device true) 15 (Some fourPixels) =
      (set_dev (mk2Device true)
         (withLogs (dev (mk2Device true)) ((fun r => (2, r)) <$> reports) []),
       Returned None) /\
    concat (chunkOf 7 3 <$> reports) = replicate 2500 9.
Proof.
  assert (Hgen : genImage (H := frameImageLib) (Some fourPixels) (Rect 0 0 72 72)
                   imageFormatJPEG
                   (Z.lor imageTransformFlipHorizontal imageTransformFlipVertical) =
                 Ok (inl (replicate 2500 9))).
  { destruct (proj2 (proj2 (registry_keys (H := frameImageLib) 0x0080 model_mk2 eq_refl))
                fourPixels) as (final & Hrun & _).
    exact Hrun. }
  destruct (SetKeyImage_delivers (H := frameImageLib) (mk2Device true) 0x0080 15 fourPixels
              (replicate 2500 9) eq_refl eq_refl ltac:(simpl; lia) ltac:(intros n; reflexivity)
              ltac:(simpl; lia) Hgen ltac:(vm_compute; discriminate))
    as (final & reports & _ & _ & _ & Hrun & _ & Hcat & _).
  exists reports. split; [exact Hrun | exact Hcat].
Defined.
